(* ===== verification/_CoqProject ===== *)
-Q . S2P
Prelude.v
CString.v
PropInfo.v
PropArea.v
PropTrie.v
PropAreaProofs.v
PropAreaSpec.v
PropAreaForeach.v
PropAreaTheorems.v
PropAreaSteps.v
PropAreaConcurrent.v
PropertyInfoParser.v
PropertyInfoLookup.v
Contexts.v
ContextsSplit.v
ContextsSerialized.v
SystemProperties.v
SystemPropertiesSpec.v
SeqLock.v
WaitSerial.v
Lock.v
ContextNodeConcurrent.v
Vector.v
Sys.v
XWrap.v
Misc.v
FileUtils.v
FileTree.v
Scanf.v
Strtol.v
Float32.v
CameraParameters.v
CameraKeys.v
CallbackWorker.v
Camera2Wrapper.v
Camera3Wrapper.v
BluetoothAddress.v
VendorInterface.v
Gnss.v
GnssWakelock.v
GnssExtensions.v
GnssServices.v
InitSec.v
LiveDisplay.v
SecNativeFeature.v
PropertyService.v
HalUtils.v
Profiles.v
Power.v
Hosts.v
Double.v
IrqBalance.v
ZeroModel.v
Rild.v
ResetProp.v
ResetPropSpec.v
ContextsHome.v
ContextsEnumerate.v
SystemPropertiesMap.v
SystemPropertiesForeach.v
ProcessStart.v
ResetPropList.v
ResetPropStore.v
PersistFormat.v
ResetPropMap.v
SystemPropertyApi.v
SystemBoot.v
