(* ===== verification/Prelude.v ===== *)
(** * A verification of the common device tree of the universal7420 phones

    The repository holds the code that Samsung's Exynos 7420 phones (Galaxy S6, S6
    edge, S6 edge+, Note 5) need under Android: a copy of the system properties of
    the C library with the resetprop tool that writes them behind init's back, the
    daemons and HAL services of the device (power, Bluetooth, GNSS, camera, radio,
    interrupt balancing, display), and the part of init that names the phone.  Paths
    below are relative to src/; each definition has the name of the function, method
    or type it translates.

    ** How the code is modelled

    Pure and in-memory code is a function into [cres] (below): [Ret] for what the
    code returns, [Fault] for an access the language does not define, [OutOfFuel]
    for a loop that used up the steps it was given.  Integers are [Z] with the
    wrap-around of their width ([u8], [u16], [u32], [u64], [i32]; [Gnss.i16]); bytes
    and C strings are lists of characters, a C string being what comes before its
    NUL ([CString]).  Shared memory and heaps are explicit: objects at addresses
    ([PropArea], [CallbackWorker]), buffers of bytes ([PropInfo],
    [PropertyInfoParser]).

    Code that calls the C library, the kernel, a vendor library or a client is a
    program of [Sys.io]: a tree of calls named after the functions, each continued
    by what the environment answers.  [Sys.run] executes a program against an
    environment (a state and a function from calls to answers) and records the
    calls; [safe], [returns] and [ensures] speak of every environment.  Exceptions
    nobody catches, exit and undefined behaviour end a program ([IExit], [IFault]).

    Concurrent code is a step relation or a function from schedules: one atomic
    operation, system call or critical section is one step, threads are interleaved
    in any order on a sequentially consistent memory ([PropAreaConcurrent],
    [SeqLock], [WaitSerial], [Lock], [ContextNodeConcurrent], [CallbackWorker],
    [GnssServices], [GnssWakelock]).

    Code that is not in the repository is a parameter with the laws that are used:
    the sorted map of libutils ([CameraParameters.KeyedVector]), the property
    functions of the C library for init ([InitSec.PropertyFunctions]), expat
    ([SecNativeFeature.Expat]), Split and Trim of the base library
    ([LiveDisplay.Strings]), files that keep what is written
    ([LiveDisplay.KeepsFile]), the protobuf codec of the persistent properties
    ([ResetPropStore.codec_ok]) and init's service to resetprop
    ([ResetPropMap.service_ok]), the constants of the Bluetooth protocol
    ([VendorInterface.HciConstants]), the flags of fused_location.h
    ([Gnss.flp_flags]).  Each has an instance in its file, at which the theorems are
    applied.

    ** System properties (tools/resetprop/libuniversal7420systemproperties)

    A property lies in a record ([PropInfo]: prop_info.{h,cpp}) of an area
    ([PropArea]: prop_area.{h,cpp}), a file mapped by every process that is a trie
    whose levels are binary trees.  A name belongs to the area of its SELinux
    context, which [Contexts] (context_node, contexts.h, contexts_pre_split.h)
    finds in one of three ways, instances of one class: one area for all, text
    files ([ContextsSplit]: contexts_split.{h,cpp}), or the serialized trie
    ([ContextsSerialized] over [PropertyInfoParser]: property_info_parser.{h,cpp}).
    [SystemProperties] (system_properties.{h,cpp}) is proved against the class.

    - [PropAreaSpec] states what an area promises: it represents a finite map from
      names to values ([represents]).  [PropTrie] is the abstract trie between the
      map and the heap, [PropAreaProofs] and [PropAreaForeach] carry the operations
      over, and [PropAreaTheorems] concludes that find, add, del and foreach act on
      the map as their names say, in every state and on every error, and that
      allocation stays in bounds.
    - [PropAreaSteps] gives find_property, with and without insertion, as a machine
      whose steps are the loads and stores of links, and shows that the machine
      left alone is the sequential code.  [PropAreaConcurrent] interleaves any
      number of lookups with a writer that adds and updates: a lookup that
      returns a record or null returns what find returns at that moment or
      returned at its call ([lookup_linearizable]), it takes a bounded number of
      its own steps ([lookup_wait_free]), an unfinished add shows the map before
      or after it, values included ([add_atomic]), and links keep their types ([runs_type_safe]).
      A deletion beside a lookup is a race ([del_race]).
    - [PropertyInfoParser] reads the serialized bytes and shows that the lookup in
      them is one in the trie they encode; [LoadPath_checks]: which files are
      mapped.  [PropertyInfoLookup.GetPropertyInfoIndexes_refines]: the entries of
      the trie are rules, and a name gets what the longest rule that matches it
      says, when the arrays are sorted as the format demands.
    - [ContextsSplit.first_match_is_longest]: inserting by length makes the first
      match the longest.
    - [SystemPropertiesSpec]: reading back after Add, Update and Delete for every
      implementation of the contexts.
    - [ContextsHome], [ContextsEnumerate]: what the contexts promise beyond their
      interface, as the classes [ContextsStable] (a name is sent to one area for
      good) and [ContextsEnumerable] (ForEach goes through the areas of a list),
      with an instance for each implementation.  ForEach opens an area only if
      access() allows it, so that a listing is complete where the two checks agree
      ([ctx_agrees]).
    - [SystemPropertiesMap], [SystemPropertiesForeach], [SystemPropertyApi]: all
      areas together are one map ([shows]), kept by every operation; the functions
      of the C interface (system_property_api.cpp), called in any sequence, foreach
      included, refine that map ([api_refines]).
    - [ProcessStart], [SystemBoot]: a process that starts maps the areas again, with
      statics of its own ([fresh_world]), and finds the same map; init makes the
      areas of every context from no files at all, and from there on the calls of
      all processes, one process after the other, act on one map that is empty in
      the beginning ([boot_refines]).
    - [SeqLock]: readers against the one writer of a record.  A read that returns
      gives a value that was published, never a torn one, unless it is the direct
      read of a record whose name begins with "ro."; a reader ends once the writer
      rests; a sleeper is always woken; the byte-by-byte steps without interference
      are the sequential [Update].
    - [WaitSerial]: Wait and WaitAny against the writer of a serial; no change is
      missed, whatever the spurious wake-ups, until the counter has gone round.
    - [Lock] (private/bionic_lock.h, bionic_futex.h, ErrnoRestorer.h): mutual
      exclusion and no lost wake-up, for any number of threads and spurious
      wake-ups.  [ContextNodeConcurrent]: threads that open the area of one
      context at the same time map its file once, over any lock that keeps the
      promise [Mutex], as this one does.

    ** resetprop (tools/resetprop)

    [ResetProp] is resetprop.c and persist_properties.c over any contexts;
    [ResetPropSpec] shows which names are legal, how a line of a file is split, and
    that a set, changed or deleted property is what is read afterwards.
    [ResetPropList] is about the lists it collects, sorts and prints,
    [ResetPropStore] about the persistent storage as a map.  [ResetPropMap] puts the
    command over the two maps, the properties and the storage: command lines with
    short values, each a process, have the exit statuses and the output the maps
    give, and fault exactly when a loop over a full vector reads past its storage
    ([tool_refines]).  [PersistFormat], the wire format of the storage, shows that
    the laws of the protobuf codec can hold.
    [PropertyService] is the client of init's property service
    (system_property_set.cpp): for every answer of the socket the client ends, the
    service reads what was asked for, and the result reports its answer with the
    new protocol, and only that the request went out with the old one.  [Vector], [XWrap], [Misc] and [FileUtils]
    are utils/{vector,xwrap,misc,file}.c.  [FileTree] runs the removal of file.c on
    a file system: the tree under the path is gone but for the names of excl_list
    ([rm_rf_removes]).

    ** Daemons, HALs and init

    - [IrqBalance] (hardware/irqbalance): configuration, load of the CPUs, their
      order, and which interrupt goes to which CPU; [Double] bounds the binary64
      arithmetic of the shares.
    - [HalUtils], [Profiles], [Power] (hardware/Utils.*, hardware/power): the power
      service refines an abstract machine of the requested and the effective
      profile for every sequence of hints, changes of the display and delayed
      threads.
    - [BluetoothAddress], [VendorInterface] (hardware/bluetooth): where the address
      comes from; the low-power protocol, by which the controller is awake whenever
      a packet is sent and asleep after a time without one.
    - [Rild] (hardware/rild) with [ZeroModel] (include/zero-helpers.h): the daemon
      loads the library for the phone and gives it its arguments once.
    - [CameraParameters], [CameraKeys], [CallbackWorker], [Camera2Wrapper],
      [Camera3Wrapper] (camera/): the text form of the parameters is parsed back to the same map, and
      floats of six digits survive it ([Float32]: strtof and "%g" in binary32); no
      name or value of the tables is refused or shadows another ([CameraKeys]); the
      worker thread behaves as a queue of values for every schedule and drains;
      opening and closing are balanced for every behaviour of the vendor's module.
    - [Gnss], [GnssExtensions], [GnssServices] (hardware/gnss): satellites, clocks,
      measurements and batches are converted without loss of what the client can
      use; threads find their arguments.  [GnssWakelock]: the wake lock of two
      drivers is one as long as their requests do not overlap, and not otherwise.
    - [LiveDisplay] (hardware/livedisplay), [SecNativeFeature]
      (hardware/libsecnativefeature), [InitSec] (init/): the default mode survives a
      restart; the features do not depend on how the file is read; init identifies
      the phone the boot loader names and overrides exactly the properties it means
      to, as far as the property area takes them.
    - [Hosts]: the process of the power service, the entry point of the GNSS HAL,
      and the shims (shims/) that closed libraries link against.

    ** Fuel

    Loops whose end the text or the heap bounds are given that bound inside the
    definition (one more than the length of a text, the size of an area, the number
    of entries) and a theorem shows that they do not run out: searching a tree of an
    area takes at most as many steps as the area has bytes, parsing a parameter list
    consumes a character a turn, a token of a command line takes at least one.
    Loops that end when the environment says so (directories, streams, joining a
    thread) take fuel as an argument; their theorems give an amount that is enough
    ([Camera2Wrapper.close_joins], [SecNativeFeature.load_collects],
    [FileUtils.stream_full_read_contents]; the removal of a tree needs as much depth
    as the tree and three steps more in a directory than there are entries,
    [FileTree.rm_rf_removes]).  Beside a writer, 4 * size + 2 of its own
    steps end a lookup in an area of [size] bytes.  Statements about serials bound
    the number of updates by what their counters tell apart:
    [SystemPropertiesMap.MAX_UPDATES] in the refinement of the C interface, 2^23 in
    [SeqLock] and for a property in [WaitSerial], 2^32 for the global serial.

    ** Where the code is not what it means to be

    Theorems carry the hypotheses under which the code keeps its promise; an
    [Example] next to each shows what happens otherwise, by evaluation: a number of
    satellites beyond the driver's array, a profile without data, a device whose
    name no table has, a callback dropped by cancelling the focus, a message lost
    when the queue is cleared, and others.

    ** Not modelled

    - The weak memory of the processor: memory is sequentially consistent, the
      fences of the property code are no steps.
    - Kernel, C library, HIDL transport, vendor libraries and init: calls with any
      answer, or with stated laws.
    - Arithmetic on floating-point numbers other than in [Double] and the
      conversions of [Float32]: elsewhere they are handed on as their bits.
    - A deletion beside readers, other than the race it causes.
    - Logging, usage texts and tables of function pointers.
    - Code the build leaves out: the SELinux parts of utils/file.c, polling of a
      file for profiles.
    - Headers without code (telephony/ril.h, hardware/gralloc.h, the unused parts of
      hardware/gps.h), the Java classes of lineagehw, and configuration. *)

(** * The shared prelude *)


From Stdlib Require Import ZArith Lia Ascii.
From stdpp Require Import base numbers strings gmap sorting list.

(** * Results of C code

    [Ret v]: the code returns [v].  [Fault]: the code performs an access the
    C/C++ standard does not define (null or dangling pointer, index out of the
    object, wrong object at an address).  [OutOfFuel]: the model ran out of the
    steps it was given; every theorem about a loop shows it does not happen. *)
Inductive cres (A : Type) : Type :=
  | Ret (a : A)
  | Fault
  | OutOfFuel.
Arguments Ret {A} a.
Arguments Fault {A}.
Arguments OutOfFuel {A}.

Declare Scope c_scope.
Delimit Scope c_scope with c.
Open Scope c_scope.

Definition cbind {A B} (m : cres A) (k : A → cres B) : cres B :=
  match m with
  | Ret a => k a
  | Fault => Fault
  | OutOfFuel => OutOfFuel
  end.

Notation "'let!' x := e 'in' k" := (cbind e (λ x, k))
  (at level 10, x pattern, e at level 200, k at level 200) : c_scope.

(** A load through a pointer that may not be valid. *)
Definition deref {A} (o : option A) : cres A :=
  match o with Some a => Ret a | None => Fault end.

Lemma cbind_Ret_inv {A B} (m : cres A) (k : A → cres B) b :
  cbind m k = Ret b → ∃ a, m = Ret a ∧ k a = Ret b.
Proof. destruct m; simpl; [eauto | discriminate..]. Qed.

Lemma deref_Ret_inv {A} (o : option A) a : deref o = Ret a → o = Some a.
Proof. destruct o; simpl; congruence. Qed.

(** * Machine integers *)

Definition u8 (z : Z) : Z := z `mod` 2 ^ 8.
Definition u16 (z : Z) : Z := z `mod` 2 ^ 16.
Definition u32 (z : Z) : Z := z `mod` 2 ^ 32.
Definition u64 (z : Z) : Z := z `mod` 2 ^ 64.
(** Two's complement reading of the low 32 bits: [int] on every supported ABI. *)
Definition i32 (z : Z) : Z := (z + 2 ^ 31) `mod` 2 ^ 32 - 2 ^ 31.
(** [~0u]. *)
Definition UINT32_MAX : Z := 2 ^ 32 - 1.

Lemma u32_range z : (0 ≤ u32 z < 2 ^ 32)%Z.
Proof. apply Z.mod_pos_bound. lia. Qed.

Lemma u32_small z : (0 ≤ z < 2 ^ 32)%Z → u32 z = z.
Proof. apply Z.mod_small. Qed.

Lemma u8_range z : (0 ≤ u8 z < 256)%Z.
Proof. apply Z.mod_pos_bound. lia. Qed.

Lemma u64_small z : (0 ≤ z < 2 ^ 64)%Z → u64 z = z.
Proof. apply Z.mod_small. Qed.

Lemma i32_small z : (- 2 ^ 31 ≤ z < 2 ^ 31)%Z → i32 z = z.
Proof. intros H. unfold i32. rewrite Z.mod_small; lia. Qed.

Create HintDb cint.
#[export] Hint Resolve u32_range u8_range : cint.
Create Rewrite HintDb cint.
#[export] Hint Rewrite u32_small u64_small i32_small using lia : cint.

(** * Characters and C strings *)

Abbreviation cstr := (list ascii).
Definition cs (s : string) : cstr := String.list_ascii_of_string s.
Definition NUL : ascii := Ascii.zero.

(** The value of a [char] read as [unsigned char]. *)
Definition ord (a : ascii) : Z := Z.of_N (N_of_ascii a).
Definition chr (z : Z) : ascii := ascii_of_N (Z.to_N (u8 z)).

Lemma ord_range a : (0 ≤ ord a < 256)%Z.
Proof. unfold ord. pose proof (N_ascii_bounded a). lia. Qed.

Lemma ord_inj a b : ord a = ord b → a = b.
Proof.
  unfold ord. intros H. rewrite <- (ascii_N_embedding a), <- (ascii_N_embedding b).
  f_equal. lia.
Qed.

#[export] Instance ord_Inj : Inj (=) (=) ord.
Proof. intros a b. apply ord_inj. Qed.

Lemma chr_ord a : chr (ord a) = a.
Proof.
  unfold chr, u8. pose proof (ord_range a). rewrite Z.mod_small by lia.
  unfold ord. rewrite N2Z.id. apply ascii_N_embedding.
Qed.

Lemma ord_chr z : ord (chr z) = u8 z.
Proof.
  unfold ord, chr. pose proof (u8_range z). rewrite N_ascii_embedding by lia. lia.
Qed.

(** * Little-endian words in a byte buffer *)

Definition le32_bytes (z : Z) : list ascii :=
  [chr z; chr (Z.shiftr z 8); chr (Z.shiftr z 16); chr (Z.shiftr z 24)].

Definition le32_of (b0 b1 b2 b3 : ascii) : Z :=
  ord b0 + 2 ^ 8 * ord b1 + 2 ^ 16 * ord b2 + 2 ^ 24 * ord b3.

Definition get_le32 (bs : list ascii) (i : nat) : option Z :=
  match bs !! i, bs !! (i + 1)%nat, bs !! (i + 2)%nat, bs !! (i + 3)%nat with
  | Some b0, Some b1, Some b2, Some b3 => Some (le32_of b0 b1 b2 b3)
  | _, _, _, _ => None
  end.

Lemma le32_of_range b0 b1 b2 b3 : (0 ≤ le32_of b0 b1 b2 b3 < 2 ^ 32)%Z.
Proof.
  unfold le32_of.
  pose proof (ord_range b0); pose proof (ord_range b1);
  pose proof (ord_range b2); pose proof (ord_range b3). lia.
Qed.

Lemma get_le32_range bs i z : get_le32 bs i = Some z → (0 ≤ z < 2 ^ 32)%Z.
Proof.
  unfold get_le32. intros H. repeat case_match; try discriminate.
  simplify_eq. apply le32_of_range.
Qed.

Lemma le32_roundtrip z : (0 ≤ z < 2 ^ 32)%Z →
  le32_of (chr z) (chr (Z.shiftr z 8)) (chr (Z.shiftr z 16)) (chr (Z.shiftr z 24)) = z.
Proof.
  intros Hz. unfold le32_of. rewrite !ord_chr. unfold u8.
  rewrite !Z.shiftr_div_pow2 by lia.
  change (2 ^ 8)%Z with 256%Z. change (2 ^ 16)%Z with 65536%Z.
  change (2 ^ 24)%Z with 16777216%Z.
  Z.div_mod_to_equations. lia.
Qed.

(** * Writing into a byte buffer: [memcpy(buf + i, src, |src|)] *)
Definition buf_write (buf : list ascii) (i : nat) (src : list ascii) : list ascii :=
  take i buf ++ src ++ drop (i + length src) buf.

Lemma length_buf_write buf i src :
  (i + length src ≤ length buf)%nat → length (buf_write buf i src) = length buf.
Proof. intros H. unfold buf_write. rewrite !length_app, length_take, length_drop. lia. Qed.

Lemma get_le32_write buf i z :
  (i + 4 ≤ length buf)%nat → (0 ≤ z < 2 ^ 32)%Z →
  get_le32 (buf_write buf i (le32_bytes z)) i = Some z.
Proof.
  intros Hlen Hz. unfold get_le32, buf_write.
  assert (Ht : length (take i buf) = i) by (rewrite length_take; lia).
  rewrite !(lookup_app_r (take i buf)) by lia. rewrite Ht.
  replace (i - i)%nat with 0%nat by lia. replace (i + 1 - i)%nat with 1%nat by lia.
  replace (i + 2 - i)%nat with 2%nat by lia. replace (i + 3 - i)%nat with 3%nat by lia.
  simpl. f_equal. by apply le32_roundtrip.
Qed.

Lemma lookup_buf_write_lt buf i src j :
  (j < i)%nat → (i ≤ length buf)%nat → buf_write buf i src !! j = buf !! j.
Proof.
  intros Hj Hi. unfold buf_write. rewrite lookup_app_l by (rewrite length_take; lia).
  by rewrite lookup_take_lt.
Qed.

Lemma lookup_buf_write_ge buf i src j :
  (i + length src ≤ j)%nat → (i ≤ length buf)%nat → buf_write buf i src !! j = buf !! j.
Proof.
  intros Hj Hi. unfold buf_write.
  rewrite lookup_app_r by (rewrite length_take; lia).
  rewrite lookup_app_r by (rewrite length_take; lia).
  rewrite lookup_drop, length_take. f_equal. lia.
Qed.

Create Rewrite HintDb len.
#[export] Hint Rewrite length_buf_write @length_app @length_take @length_drop
  @length_replicate @length_fmap using (simpl; lia) : len.

(** * Tactics *)

(** Case analysis on every [match] of the goal, discharging the absurd cases. *)
Ltac split_matches :=
  repeat (case_match; simplify_eq/=; try done).

(** Inversion of a monadic hypothesis [let! x := m in k = Ret v]. *)
Ltac cres_inv :=
  repeat match goal with
  | H : cbind _ _ = Ret _ |- _ =>
      let a := fresh "a" in let H1 := fresh "Hm" in let H2 := fresh "Hk" in
      apply cbind_Ret_inv in H as (a & H1 & H2)
  | H : deref _ = Ret _ |- _ => apply deref_Ret_inv in H
  | H : Ret _ = Ret _ |- _ => injection H as H; subst
  | H : Fault = Ret _ |- _ => discriminate H
  | H : OutOfFuel = Ret _ |- _ => discriminate H
  end.

(** Destruct every conjunction and existential of the context. *)
Ltac break_hyps :=
  repeat match goal with
  | H : _ ∧ _ |- _ => destruct H
  | H : ∃ _, _ |- _ => destruct H
  end.
