(* ===== verification/CString.v ===== *)
(** The functions of the C library's <string.h> and <ctype.h> that the program
    uses, on the contents of a C string (the characters before the terminating
    NUL).  Only the sign of [strcmp]/[strncmp] is specified by C and only the
    sign is used by the program: the model returns a [comparison]. *)

From Stdlib Require Import ZArith Lia Ascii.
From stdpp Require Import base numbers strings gmap list.
From S2P Require Import Prelude.

(** * Comparison *)

Fixpoint strcmp (a b : cstr) : comparison :=
  match a, b with
  | [], [] => Eq
  | [], _ :: _ => Lt
  | _ :: _, [] => Gt
  | x :: a', y :: b' =>
      match (ord x ?= ord y)%Z with Eq => strcmp a' b' | c => c end
  end.

Fixpoint strncmp (a b : cstr) (n : nat) : comparison :=
  match n with
  | O => Eq
  | S n' =>
    match a, b with
    | [], [] => Eq
    | [], _ :: _ => Lt
    | _ :: _, [] => Gt
    | x :: a', y :: b' =>
        match (ord x ?= ord y)%Z with Eq => strncmp a' b' n' | c => c end
    end
  end.

Definition is_Eq (c : comparison) : bool := match c with Eq => true | _ => false end.

(** [!strcmp(a, b)] and [!strncmp(a, b, n)]. *)
Definition streq (a b : cstr) : bool := is_Eq (strcmp a b).
Definition strneq (a b : cstr) (n : nat) : bool := is_Eq (strncmp a b n).

Lemma strcmp_eq a b : strcmp a b = Eq ↔ a = b.
Proof.
  revert b. induction a as [|x a IH]; intros [|y b]; simpl; try (split; congruence).
  destruct (Z.compare_spec (ord x) (ord y)) as [E|E|E].
  - apply ord_inj in E as ->. rewrite IH. split; congruence.
  - split; [discriminate | intros [= -> ->]; lia].
  - split; [discriminate | intros [= -> ->]; lia].
Qed.

Lemma strcmp_refl a : strcmp a a = Eq.
Proof. by apply strcmp_eq. Qed.

Lemma strcmp_antisym a b : strcmp b a = CompOpp (strcmp a b).
Proof.
  revert b. induction a as [|x a IH]; intros [|y b]; simpl; try done.
  rewrite (Z.compare_antisym (ord x) (ord y)).
  destruct (ord x ?= ord y)%Z; simpl; auto.
Qed.

Lemma strcmp_lt_trans a b c : strcmp a b = Lt → strcmp b c = Lt → strcmp a c = Lt.
Proof.
  revert b c. induction a as [|x a IH]; intros [|y b] [|z c]; simpl; try done.
  destruct (Z.compare_spec (ord x) (ord y)); try done;
  destruct (Z.compare_spec (ord y) (ord z)); try done;
  destruct (Z.compare_spec (ord x) (ord z)); try done; try lia.
  apply IH.
Qed.

Lemma streq_spec a b : streq a b = true ↔ a = b.
Proof. unfold streq. rewrite <- strcmp_eq. by destruct (strcmp a b). Qed.

Lemma strncmp_take a b n : strncmp a b n = strcmp (take n a) (take n b).
Proof.
  revert a b. induction n as [|n IH]; intros [|x a] [|y b]; simpl; try done.
  by rewrite IH.
Qed.

Lemma strneq_take a b n : strneq a b n = true ↔ take n a = take n b.
Proof.
  unfold strneq. rewrite strncmp_take.
  rewrite <- strcmp_eq. by destruct (strcmp (take n a) (take n b)).
Qed.

(** [!strncmp(p, s, strlen(p))]: [p] is a prefix of [s]. *)
Lemma strneq_prefix p s : strneq p s (length p) = true ↔ p `prefix_of` s.
Proof.
  rewrite strneq_take. rewrite firstn_all. split.
  - intros H. exists (drop (length p) s). rewrite H at 1. by rewrite take_drop.
  - intros [k ->]. by rewrite take_app_length.
Qed.

Lemma strneq_prefix_r s p : strneq s p (length p) = true ↔ p `prefix_of` s.
Proof.
  rewrite strneq_take, firstn_all. split.
  - intros H. exists (drop (length p) s). rewrite <- H at 1. by rewrite take_drop.
  - intros [k ->]. by rewrite take_app_length.
Qed.

#[export] Hint Rewrite streq_spec strcmp_eq strneq_prefix : cint.

(** * Searching *)

(** [strchr(s, c)] as the offset of the first [c] in [s]. *)
Fixpoint strchr (s : cstr) (c : ascii) : option nat :=
  match s with
  | [] => None
  | x :: s' => if decide (x = c) then Some O else S <$> strchr s' c
  end.

Lemma strchr_Some s c i :
  strchr s c = Some i ↔ s !! i = Some c ∧ c ∉ take i s.
Proof.
  revert i. induction s as [|x s IH]; intros i; simpl.
  - split; [discriminate | by intros [? _]].
  - case_decide as E.
    + subst. split.
      * intros [= <-]. split; [done | simpl; apply not_elem_of_nil].
      * intros [H1 H2]. destruct i as [|i]; [done|]. exfalso. apply H2. simpl. left.
    + rewrite fmap_Some. split.
      * intros (j & Hj & ->). apply IH in Hj as [H1 H2]. split; [done|].
        simpl. rewrite elem_of_cons. naive_solver.
      * intros [H1 H2]. destruct i as [|i]; simpl in *; [congruence|].
        exists i. split; [|done]. apply IH. split; [done|].
        intros Hin. apply H2. by right.
Qed.

Lemma strchr_None s c : strchr s c = None ↔ c ∉ s.
Proof.
  induction s as [|x s IH]; simpl.
  - split; [intros _; apply not_elem_of_nil | done].
  - rewrite elem_of_cons. case_decide as E.
    + split; [discriminate | naive_solver].
    + rewrite fmap_None, IH. naive_solver.
Qed.

Lemma strchr_app s1 s2 c :
  c ∉ s1 → strchr (s1 ++ c :: s2) c = Some (length s1).
Proof.
  intros H. apply strchr_Some. split.
  - rewrite lookup_app_r by lia. by rewrite Nat.sub_diag.
  - by rewrite take_app_length.
Qed.

Lemma strchr_lt s c i : strchr s c = Some i → (i < length s)%nat.
Proof. rewrite strchr_Some. intros [H _]. by eapply lookup_lt_Some. Qed.

(** [strstr(hay, needle) != NULL]. *)
Fixpoint strstr (hay needle : cstr) : bool :=
  strneq needle hay (length needle) ||
  match hay with [] => false | _ :: h => strstr h needle end.

(** * Copying *)

(** [strlcpy(dst, src, size)]: what [dst] holds as a C string afterwards. *)
Definition strlcpy_contents (src : cstr) (size : nat) : cstr := take (size - 1) src.

(** The C string found in a byte buffer: the bytes before the first NUL. *)
Fixpoint c_str_of (buf : list ascii) : cstr :=
  match buf with
  | [] => []
  | x :: b => if decide (x = NUL) then [] else x :: c_str_of b
  end.

(** A C string has no NUL among its contents. *)
Definition no_nul (s : cstr) : Prop := NUL ∉ s.

#[export] Instance no_nul_dec s : Decision (no_nul s).
Proof. unfold no_nul. apply _. Defined.

Lemma c_str_of_app s rest : no_nul s → c_str_of (s ++ NUL :: rest) = s.
Proof.
  unfold no_nul. induction s as [|x s IH]; intros H; simpl.
  - done.
  - rewrite not_elem_of_cons in H. destruct H as [H1 H2].
    rewrite decide_False by congruence. by rewrite IH.
Qed.

Lemma c_str_of_id s : no_nul s → c_str_of s = s.
Proof.
  unfold no_nul. induction s as [|x s IH]; intros H; simpl; [done|].
  rewrite not_elem_of_cons in H. rewrite decide_False by naive_solver. f_equal. naive_solver.
Qed.

Lemma c_str_of_no_nul buf : no_nul (c_str_of buf).
Proof.
  unfold no_nul. induction buf as [|x b IH]; simpl; [apply not_elem_of_nil|].
  case_decide; [apply not_elem_of_nil|]. rewrite not_elem_of_cons. naive_solver.
Qed.

Lemma no_nul_app a b : no_nul (a ++ b) ↔ no_nul a ∧ no_nul b.
Proof. unfold no_nul. rewrite elem_of_app. tauto. Qed.

(** * Character classes of <ctype.h> in the C locale *)

Definition isspace (a : ascii) : bool :=
  let z := ord a in ((9 <=? z) && (z <=? 13) || (z =? 32))%Z.
Definition isdigit (a : ascii) : bool :=
  let z := ord a in ((48 <=? z) && (z <=? 57))%Z.

(** The bytes up to and including the terminator hold the string. *)
Lemma c_str_of_take buf n : (length (c_str_of buf) < n)%nat → c_str_of (take n buf) = c_str_of buf.
Proof.
  revert n. induction buf as [|x buf IH]; intros n; simpl; [by destruct n|].
  case_decide as E; intros H.
  - destruct n; simpl; [done|]. by rewrite decide_True.
  - destruct n; simpl in *; [lia|]. rewrite decide_False by done. f_equal. apply IH. lia.
Qed.

(** The string's own bytes with a terminator. *)
Lemma c_str_of_len buf : c_str_of (take (length (c_str_of buf)) buf ++ [NUL]) = c_str_of buf.
Proof.
  induction buf as [|x buf IH]; simpl; [done|]. destruct (decide (x = NUL)) as [->|E]; [done|].
  simpl. rewrite decide_False by done. by f_equal.
Qed.
