(* ===== verification/PropInfo.v ===== *)
(** [struct prop_info] (system_properties/prop_info.h, prop_info.cpp): the
    record of one property as it lies in shared memory.  The 92-byte union of
    [value] and [long_property] is kept as bytes, so that a short value written
    over a long property lands where the code puts it. *)

From Stdlib Require Import ZArith Lia Ascii.
From stdpp Require Import base numbers strings gmap list.
From S2P Require Import Prelude CString.

Definition PROP_VALUE_MAX : Z := 92.
Definition PROP_NAME_MAX : Z := 32.

Definition kLongFlag : Z := Z.shiftl 1 16.
Definition kLongLegacyErrorBufferSize : nat := 56.
Definition kLongLegacyError : cstr := cs "Must use __system_property_read_callback() to read".

(** [pi_value] is the whole union; [pi_name] the bytes of [name[0]] before its NUL. *)
Record prop_info := PropInfo {
  pi_serial : Z;
  pi_value : list ascii;
  pi_name : cstr
}.

Definition SERIAL_DIRTY (s : Z) : bool := negb (Z.land s 1 =? 0)%Z.
Definition SERIAL_VALUE_LEN (s : Z) : Z := Z.shiftr s 24.

(** The memory a [prop_info] is constructed in: freshly allocated bytes of the
    zero-filled mapping. *)
Definition fresh_union : list ascii := replicate (Z.to_nat PROP_VALUE_MAX) NUL.

(** [prop_info::prop_info(name, namelen, value, valuelen)] *)
Definition prop_info_short (nm : cstr) (namelen : Z) (v : list ascii) (valuelen : Z) : prop_info :=
  {| pi_name := take (Z.to_nat namelen) nm;
     pi_serial := u32 (Z.shiftl valuelen 24);
     pi_value := buf_write fresh_union 0 (take (Z.to_nat valuelen) v ++ [NUL]) |}.

(** [prop_info::prop_info(name, namelen, long_offset)] *)
Definition prop_info_long (nm : cstr) (namelen : Z) (long_offset : Z) : prop_info :=
  let error_value_len := Z.of_nat (length kLongLegacyError) in
  {| pi_name := take (Z.to_nat namelen) nm;
     pi_serial := u32 (Z.lor (Z.shiftl error_value_len 24) kLongFlag);
     pi_value := buf_write (buf_write fresh_union 0 (kLongLegacyError ++ [NUL]))
                kLongLegacyErrorBufferSize (le32_bytes long_offset) |}.

Definition is_long (pi : prop_info) : bool := negb (Z.land (pi_serial pi) kLongFlag =? 0)%Z.

(** [long_property.offset], read from bytes 56..59 of the union. *)
Definition long_property_offset (pi : prop_info) : cres Z :=
  deref (get_le32 (pi_value pi) kLongLegacyErrorBufferSize).

(** ** Facts about the constructors *)

Lemma length_fresh_union : length fresh_union = 92%nat.
Proof. reflexivity. Qed.

Lemma length_short_value nm nl v vl :
  (0 ≤ vl < PROP_VALUE_MAX)%Z → length (pi_value (prop_info_short nm nl v vl)) = 92%nat.
Proof.
  unfold PROP_VALUE_MAX. intros H. simpl. rewrite length_buf_write; [done|].
  rewrite length_app, length_take, length_fresh_union. simpl. lia.
Qed.

Lemma length_long_value nm nl off : length (pi_value (prop_info_long nm nl off)) = 92%nat.
Proof. reflexivity. Qed.

Lemma short_value_c_str nm nl v :
  (Z.of_nat (length v) < PROP_VALUE_MAX)%Z → no_nul v →
  c_str_of (pi_value (prop_info_short nm nl v (Z.of_nat (length v)))) = v.
Proof.
  intros Hlen Hv. cbn [pi_value prop_info_short]. rewrite Nat2Z.id, firstn_all.
  unfold buf_write. cbn [take app]. rewrite <- app_assoc. cbn [app].
  by apply c_str_of_app.
Qed.

Lemma short_serial_len nm nl v vl :
  (0 ≤ vl < 256)%Z → SERIAL_VALUE_LEN (pi_serial (prop_info_short nm nl v vl)) = vl.
Proof.
  intros H. simpl. unfold SERIAL_VALUE_LEN, u32.
  rewrite Z.shiftl_mul_pow2, Z.shiftr_div_pow2 by lia.
  rewrite Z.mod_small by lia. apply Z.div_mul. lia.
Qed.

Lemma land_kLongFlag_shiftl24 vl : Z.land (Z.shiftl vl 24) kLongFlag = 0%Z.
Proof.
  unfold kLongFlag. apply Z.bits_inj'. intros n Hn. rewrite Z.bits_0, Z.land_spec.
  destruct (decide (n = 16)%Z) as [->|E].
  - rewrite Z.shiftl_spec_low by lia. done.
  - rewrite (Z.shiftl_1_l 16), Z.pow2_bits_false by lia. apply andb_false_r.
Qed.

Lemma short_not_long nm nl v vl :
  (0 ≤ vl < 256)%Z → is_long (prop_info_short nm nl v vl) = false.
Proof.
  intros H. unfold is_long. simpl. rewrite u32_small.
  - by rewrite land_kLongFlag_shiftl24.
  - rewrite Z.shiftl_mul_pow2 by lia. lia.
Qed.

Lemma long_is_long nm nl off : is_long (prop_info_long nm nl off) = true.
Proof. reflexivity. Qed.

Lemma long_offset_roundtrip nm nl off :
  (0 ≤ off < 2 ^ 32)%Z → long_property_offset (prop_info_long nm nl off) = Ret off.
Proof.
  intros H. unfold long_property_offset. cbn [pi_value prop_info_long].
  rewrite get_le32_write; [done | vm_compute; lia | done].
Qed.

(** ** Well-formed records *)

(** A record at rest: a clean serial whose top byte is the length of the short
    value, or of the message that stands for a long one. *)
Definition pi_ok (pi : prop_info) : Prop :=
  length (pi_value pi) = 92%nat ∧ (0 ≤ pi_serial pi < 2 ^ 32)%Z ∧
  SERIAL_DIRTY (pi_serial pi) = false ∧ (SERIAL_VALUE_LEN (pi_serial pi) < PROP_VALUE_MAX)%Z ∧
  SERIAL_VALUE_LEN (pi_serial pi) = Z.of_nat (length (c_str_of (pi_value pi))).

(** The record of the property [name]. *)
Definition rec_ok (name : cstr) (pi : prop_info) : Prop := pi_name pi = name ∧ pi_ok pi.

Lemma short_rec_ok nm v :
  (Z.of_nat (length v) < PROP_VALUE_MAX)%Z → no_nul v →
  rec_ok nm (prop_info_short nm (Z.of_nat (length nm)) v (Z.of_nat (length v))).
Proof.
  intros Hv Hn. split; [simpl; by rewrite Nat2Z.id, firstn_all|].
  unfold PROP_VALUE_MAX in Hv. unfold pi_ok.
  rewrite length_short_value by (unfold PROP_VALUE_MAX; lia).
  rewrite short_serial_len by lia. rewrite short_value_c_str by done.
  split_and!; [done|apply u32_range..| |unfold PROP_VALUE_MAX; lia|done].
  simpl. rewrite u32_small by (rewrite Z.shiftl_mul_pow2 by lia; lia).
  unfold SERIAL_DIRTY. apply negb_false_iff, Z.eqb_eq. apply Z.bits_inj'. intros n Hn'.
  rewrite Z.bits_0, Z.land_spec. destruct (decide (n = 0)%Z) as [->|E].
  - rewrite Z.shiftl_spec_low by lia. done.
  - rewrite (Z.bits_above_log2 1) by (simpl; lia). apply andb_false_r.
Qed.

Lemma long_rec_ok nm off :
  rec_ok nm (prop_info_long nm (Z.of_nat (length nm)) off).
Proof.
  split; [simpl; by rewrite Nat2Z.id, firstn_all|]. unfold pi_ok.
  by split_and!; vm_compute.
Qed.
