(* ===== verification/PropArea.v ===== *)
(** [prop_area] (system_properties/prop_area.{h,cpp}): the shared memory file
    that holds the properties of one SELinux context, as a bump-allocated heap
    of trie nodes ([prop_bt]) and property records ([prop_info]) linked by
    32-bit offsets.  Links are offsets from [data_]; offset 0 is the root node
    and, as the value of a link, means "no object". *)

From Stdlib Require Import ZArith Lia Ascii.
From stdpp Require Import base numbers strings gmap list.
From S2P Require Import Prelude CString PropInfo.

(** * Data *)

(** [struct prop_bt]. *)
Record prop_bt := PropBt {
  bt_namelen : Z;
  bt_prop : Z;
  bt_left : Z;
  bt_right : Z;
  bt_children : Z;
  bt_name : cstr
}.

(** What lies at an allocated offset of [data_]. *)
Inductive obj :=
  | OBt (b : prop_bt)
  | OInfo (pi : prop_info)
  | OLong (bytes : list ascii).

(** [class prop_area]: the header fields and the allocated objects by offset. *)
Record prop_area := PropArea {
  bytes_used : Z;
  area_serial : Z;
  magic : Z;
  version : Z;
  data : gmap Z obj
}.

Definition PA_SIZE : Z := 128 * 1024.
Definition PROP_AREA_MAGIC : Z := 0x504f5250.
Definition PROP_AREA_VERSION : Z := 0xfc6ed0ab.

Definition sizeof_prop_area : Z := 4 * 4 + 4 * 28.
Definition sizeof_prop_bt : Z := 5 * 4.
Definition sizeof_prop_info : Z := 4 + PROP_VALUE_MAX.

(** [__BIONIC_ALIGN(size, sizeof(uint_least32_t))] *)
Definition align4 (size : Z) : Z := Z.land (size + 3) (Z.lnot 3).

(** [prop_bt::prop_bt(name, name_length)] in zero-filled memory. *)
Definition mk_prop_bt (name : cstr) (name_length : Z) : prop_bt :=
  {| bt_namelen := name_length; bt_prop := 0; bt_left := 0; bt_right := 0;
     bt_children := 0; bt_name := take (Z.to_nat name_length) name |}.

(** [prop_area::prop_area(magic, version)]: room for the root node is reserved,
    its bytes are the zeroes of the fresh file. *)
Definition new_prop_area (magic version : Z) : prop_area :=
  {| bytes_used := sizeof_prop_bt; area_serial := 0; magic := magic; version := version;
     data := {[ 0%Z := OBt (mk_prop_bt [] 0) ]} |}.

Definition set_data (a : prop_area) (d : gmap Z obj) : prop_area :=
  {| bytes_used := bytes_used a; area_serial := area_serial a; magic := magic a;
     version := version a; data := d |}.

Definition set_bytes_used (a : prop_area) (n : Z) : prop_area :=
  {| bytes_used := n; area_serial := area_serial a; magic := magic a;
     version := version a; data := data a |}.

Definition set_serial (a : prop_area) (n : Z) : prop_area :=
  {| bytes_used := bytes_used a; area_serial := n; magic := magic a;
     version := version a; data := data a |}.

(** Placing an object at an allocated offset ([new (p) T(...)], [memcpy]). *)
Definition store (a : prop_area) (off : Z) (o : obj) : prop_area :=
  set_data a (<[off := o]> (data a)).

(** Loads and stores through node and record pointers. *)
Definition load_bt (a : prop_area) (off : Z) : cres prop_bt :=
  match data a !! off with Some (OBt b) => Ret b | _ => Fault end.

Definition load_info (a : prop_area) (off : Z) : cres prop_info :=
  match data a !! off with Some (OInfo i) => Ret i | _ => Fault end.

Definition with_left (v : Z) (b : prop_bt) : prop_bt :=
  {| bt_namelen := bt_namelen b; bt_prop := bt_prop b; bt_left := v; bt_right := bt_right b;
     bt_children := bt_children b; bt_name := bt_name b |}.
Definition with_right (v : Z) (b : prop_bt) : prop_bt :=
  {| bt_namelen := bt_namelen b; bt_prop := bt_prop b; bt_left := bt_left b; bt_right := v;
     bt_children := bt_children b; bt_name := bt_name b |}.
Definition with_children (v : Z) (b : prop_bt) : prop_bt :=
  {| bt_namelen := bt_namelen b; bt_prop := bt_prop b; bt_left := bt_left b;
     bt_right := bt_right b; bt_children := v; bt_name := bt_name b |}.
Definition with_prop (v : Z) (b : prop_bt) : prop_bt :=
  {| bt_namelen := bt_namelen b; bt_prop := v; bt_left := bt_left b; bt_right := bt_right b;
     bt_children := bt_children b; bt_name := bt_name b |}.

(** [atomic_store_explicit(&node->field, v, ...)] *)
Definition update_bt (a : prop_area) (off : Z) (f : prop_bt → prop_bt) : cres prop_area :=
  let! b := load_bt a off in Ret (store a off (OBt (f b))).

(** [static int cmp_prop_name(one, one_len, two, two_len)] *)
Definition cmp_prop_name (one : cstr) (one_len : Z) (two : cstr) (two_len : Z) : comparison :=
  if (one_len <? two_len)%Z then Lt
  else if (one_len >? two_len)%Z then Gt
  else strncmp one two (Z.to_nat one_len).

(** [prop_info::long_value()] of the record at [off]: the string that lies
    [long_property.offset] bytes after the record. *)
Definition long_value (a : prop_area) (off : Z) (pi : prop_info) : cres cstr :=
  let! rel := long_property_offset pi in
  match data a !! (off + rel)%Z with
  | Some (OLong bytes) => Ret (c_str_of bytes)
  | _ => Fault
  end.

(** The value string of the record at [off], through the union's discriminant. *)
Definition prop_value (a : prop_area) (off : Z) : cres cstr :=
  let! pi := load_info a off in
  if is_long pi then long_value a off pi else Ret (c_str_of (pi_value pi)).

(** * Operations *)

Section ops.
(** [prop_area::pa_data_size_], the size of [data_]; shared by all areas. *)
Context (pa_data_size : Z).

(** [allocate_obj]: [None] is a null result. *)
Definition allocate_obj (a : prop_area) (size : Z) : option (Z * prop_area) :=
  let aligned := align4 size in
  if (bytes_used a + aligned >? pa_data_size)%Z then None
  else Some (bytes_used a, set_bytes_used a (u32 (bytes_used a + aligned))).

Definition new_prop_bt (a : prop_area) (name : cstr) (namelen : Z) : option (Z * prop_area) :=
  match allocate_obj a (sizeof_prop_bt + namelen + 1) with
  | None => None
  | Some (off, a) => Some (off, store a off (OBt (mk_prop_bt name namelen)))
  end.

(** The space of the record stays allocated when the long value does not fit. *)
Definition new_prop_info (a : prop_area) (name : cstr) (namelen : Z)
    (value : list ascii) (valuelen : Z) : option Z * prop_area :=
  match allocate_obj a (sizeof_prop_info + namelen + 1) with
  | None => (None, a)
  | Some (new_offset, a) =>
    if (valuelen >=? PROP_VALUE_MAX)%Z then
      match allocate_obj a (valuelen + 1) with
      | None => (None, a)
      | Some (long_value_offset, a) =>
        let a := store a long_value_offset (OLong (take (Z.to_nat valuelen) value ++ [NUL])) in
        (Some new_offset,
         store a new_offset
           (OInfo (prop_info_long name namelen (u32 (long_value_offset - new_offset)))))
      end
    else
      (Some new_offset,
       store a new_offset (OInfo (prop_info_short name namelen value valuelen)))
  end.

Definition to_prop_obj (off : Z) : option Z :=
  if (off >? pa_data_size)%Z then None else Some off.

Definition root_node : option Z := to_prop_obj 0.

(** [find_prop_bt(bt, name, namelen, alloc_if_needed)]: the binary tree of
    siblings.  [None] is the null pointer. *)
Fixpoint find_bt_sibling (fuel : nat) (a : prop_area) (current : option Z)
    (name : cstr) (namelen : Z) (alloc_if_needed : bool) : cres (option Z * prop_area) :=
  match fuel with
  | O => OutOfFuel
  | S fuel =>
    match current with
    | None => Ret (None, a)
    | Some cur =>
      let! b := load_bt a cur in
      match cmp_prop_name name namelen (bt_name b) (bt_namelen b) with
      | Eq => Ret (Some cur, a)
      | Lt =>
        if negb (bt_left b =? 0)%Z then
          find_bt_sibling fuel a (to_prop_obj (bt_left b)) name namelen alloc_if_needed
        else if negb alloc_if_needed then Ret (None, a)
        else
          match new_prop_bt a name namelen with
          | None => Ret (None, a)
          | Some (new_offset, a) =>
            let! a := update_bt a cur (with_left new_offset) in Ret (Some new_offset, a)
          end
      | Gt =>
        if negb (bt_right b =? 0)%Z then
          find_bt_sibling fuel a (to_prop_obj (bt_right b)) name namelen alloc_if_needed
        else if negb alloc_if_needed then Ret (None, a)
        else
          match new_prop_bt a name namelen with
          | None => Ret (None, a)
          | Some (new_offset, a) =>
            let! a := update_bt a cur (with_right new_offset) in Ret (Some new_offset, a)
          end
      end
    end
  end.

(** The loop of [find_prop_bt(trie, name, alloc_if_needed)]: one step per
    '.'-separated token of the name. *)
Fixpoint find_bt_loop (fuel : nat) (a : prop_area) (current : Z) (remaining_name : cstr)
    (alloc_if_needed : bool) : cres (option Z * prop_area) :=
  match fuel with
  | O => OutOfFuel
  | S fuel =>
    let sep := strchr remaining_name "."%char in
    let substr_size :=
      u32 (Z.of_nat (match sep with Some i => i | None => length remaining_name end)) in
    if (substr_size =? 0)%Z then Ret (None, a)
    else
      let! b := load_bt a current in
      let! (root, a) :=
        if negb (bt_children b =? 0)%Z then Ret (to_prop_obj (bt_children b), a)
        else if alloc_if_needed then
          match new_prop_bt a remaining_name substr_size with
          | None => Ret (None, a)
          | Some (new_offset, a) =>
            let! a := update_bt a current (with_children new_offset) in
            Ret (Some new_offset, a)
          end
        else Ret (None, a) in
      match root with
      | None => Ret (None, a)
      | Some _ =>
        let! (found, a) :=
          find_bt_sibling (S (size (data a))) a root remaining_name substr_size
            alloc_if_needed in
        match found with
        | None => Ret (None, a)
        | Some cur =>
          match sep with
          | None => Ret (Some cur, a)
          | Some i => find_bt_loop fuel a cur (drop (S i) remaining_name) alloc_if_needed
          end
        end
      end
  end.

Definition find_prop_bt (a : prop_area) (trie : option Z) (name : cstr)
    (alloc_if_needed : bool) : cres (option Z * prop_area) :=
  match trie with
  | None => Ret (None, a)
  | Some t => find_bt_loop (S (length name)) a t name alloc_if_needed
  end.

Definition find_property (a : prop_area) (trie : option Z) (name : cstr) (namelen : Z)
    (value : list ascii) (valuelen : Z) (alloc_if_needed : bool)
    : cres (option Z * prop_area) :=
  let! (current, a) := find_prop_bt a trie name alloc_if_needed in
  match current with
  | None => Ret (None, a)
  | Some cur =>
    let! b := load_bt a cur in
    if negb (bt_prop b =? 0)%Z then Ret (to_prop_obj (bt_prop b), a)
    else if alloc_if_needed then
      match new_prop_info a name namelen value valuelen with
      | (None, a) => Ret (None, a)
      | (Some new_offset, a) =>
        let! a := update_bt a cur (with_prop new_offset) in Ret (Some new_offset, a)
      end
    else Ret (None, a)
  end.

(** [foreach_property(trie, propfn, cookie)]: the callback is a function of
    the record's offset and the cookie's state.  The result of the recursive
    calls is a [bool] stored in an [int] and compared with [< 0]. *)
Fixpoint foreach_property {C : Type} (fuel : nat) (a : prop_area) (trie : option Z)
    (propfn : Z → C → C) (cookie : C) : cres (bool * C) :=
  match fuel with
  | O => OutOfFuel
  | S fuel =>
    match trie with
    | None => Ret (false, cookie)
    | Some t =>
      let! b := load_bt a t in
      let step link cookie k :=
        if negb (link =? 0)%Z then
          let! (err, cookie) := foreach_property fuel a (to_prop_obj link) propfn cookie in
          if (Z.b2z err <? 0)%Z then Ret (false, cookie) else k cookie
        else k cookie in
      step (bt_left b) cookie (λ cookie,
        let visit k :=
          if negb (bt_prop b =? 0)%Z then
            match to_prop_obj (bt_prop b) with
            | None => Ret (false, cookie)
            | Some info => k (propfn info cookie)
            end
          else k cookie in
        visit (λ cookie,
          step (bt_children b) cookie (λ cookie,
            step (bt_right b) cookie (λ cookie, Ret (true, cookie)))))
    end
  end.

(** The public operations. *)
Definition find (a : prop_area) (name : cstr) : cres (option Z) :=
  let! (r, _) := find_property a root_node name (Z.of_nat (length name)) [] 0 false in Ret r.

Definition add (a : prop_area) (name : cstr) (namelen : Z) (value : list ascii)
    (valuelen : Z) : cres (bool * prop_area) :=
  let! (r, a) := find_property a root_node name namelen value valuelen true in
  Ret (match r with Some _ => true | None => false end, a).

Definition del (a : prop_area) (name : cstr) : cres (bool * prop_area) :=
  let! (node, a) := find_prop_bt a root_node name false in
  match node with
  | None => Ret (false, a)
  | Some n => let! a := update_bt a n (with_prop 0) in Ret (true, a)
  end.

Definition foreach {C : Type} (a : prop_area) (propfn : Z → C → C) (cookie : C)
    : cres (bool * C) :=
  foreach_property (S (size (data a))) a root_node propfn cookie.
End ops.
