(* ===== verification/PropTrie.v ===== *)
(** The abstract value of a property area: a trie of binary search trees, the
    reading [rep] of such a tree in the objects of an area, and the lemmas that
    carry lookups, insertions and updates of the tree over to the objects. *)

From Stdlib Require Import ZArith Lia Ascii.
From stdpp Require Import base numbers strings gmap list.
From S2P Require Import Prelude CString PropInfo PropArea.

(** * Splitting names at '.' *)

Fixpoint split_dot (s : cstr) : list cstr :=
  match s with
  | [] => [[]]
  | x :: s' =>
    if decide (x = "."%char) then [] :: split_dot s'
    else match split_dot s' with
         | l :: ls => (x :: l) :: ls
         | [] => [[x]]
         end
  end.

Fixpoint join_dot (ls : list cstr) : cstr :=
  match ls with
  | [] => []
  | [l] => l
  | l :: ls => l ++ "."%char :: join_dot ls
  end.

Lemma split_dot_nonempty s : split_dot s ≠ [].
Proof. destruct s; simpl; [done|]. case_decide; [done|]. by case_match. Qed.

Lemma join_split s : join_dot (split_dot s) = s.
Proof.
  induction s as [|x s IH]; [done|]. simpl. pose proof (split_dot_nonempty s).
  case_decide; subst; destruct (split_dot s) as [|l ls]; try done; simpl.
  - by rewrite <- IH.
  - destruct ls; simpl in *; by rewrite <- IH.
Qed.

#[export] Instance split_dot_inj : Inj (=) (=) split_dot.
Proof. intros a b H. by rewrite <- (join_split a), <- (join_split b), H. Qed.

Lemma split_dot_None s : strchr s "."%char = None → split_dot s = [s].
Proof.
  induction s as [|x s IH]; [done|]. simpl. case_decide; [done|].
  rewrite fmap_None. intros H1. by rewrite IH.
Qed.

Lemma split_dot_Some s i :
  strchr s "."%char = Some i → split_dot s = take i s :: split_dot (drop (S i) s).
Proof.
  revert i. induction s as [|x s IH]; [done|]. intros i. simpl. case_decide.
  - intros [= <-]. done.
  - rewrite fmap_Some. intros (j & Hj & ->). rewrite (IH j Hj). done.
Qed.

(** * The order on labels *)

(** [cmp_prop_name] on whole labels: shorter first, then bytewise. *)
Definition lcmp (a b : cstr) : comparison :=
  cmp_prop_name a (Z.of_nat (length a)) b (Z.of_nat (length b)).

Lemma cmp_prop_name_take name n b :
  (0 ≤ n ≤ Z.of_nat (length name))%Z →
  cmp_prop_name name n b (Z.of_nat (length b)) = lcmp (take (Z.to_nat n) name) b.
Proof.
  intros H. unfold lcmp, cmp_prop_name.
  replace (Z.of_nat (length (take (Z.to_nat n) name))) with n
    by (rewrite length_take; lia).
  case_match; [done|]. case_match; [done|].
  rewrite !strncmp_take. f_equal. rewrite take_take. f_equal. lia.
Qed.

Lemma lcmp_unfold a b :
  lcmp a b = match (length a ?= length b)%nat with Eq => strcmp a b | c => c end.
Proof.
  unfold lcmp, cmp_prop_name.
  destruct (Nat.compare_spec (length a) (length b)) as [E|E|E].
  - rewrite (proj2 (Z.ltb_ge _ _)) by lia.
    replace (Z.of_nat (length a) >? Z.of_nat (length b))%Z with false
      by (symmetry; rewrite Z.gtb_ltb; apply Z.ltb_ge; lia).
    rewrite Nat2Z.id, strncmp_take, firstn_all, take_ge by lia. done.
  - by rewrite (proj2 (Z.ltb_lt _ _)) by lia.
  - rewrite (proj2 (Z.ltb_ge _ _)) by lia. rewrite Z.gtb_ltb.
    by rewrite (proj2 (Z.ltb_lt _ _)) by lia.
Qed.

Lemma lcmp_eq a b : lcmp a b = Eq ↔ a = b.
Proof.
  rewrite lcmp_unfold. split.
  - case_match; try done. apply strcmp_eq.
  - intros ->. by rewrite Nat.compare_refl, strcmp_refl.
Qed.

Lemma lcmp_antisym a b : lcmp b a = CompOpp (lcmp a b).
Proof.
  rewrite !lcmp_unfold, (Nat.compare_antisym (length a) (length b)), strcmp_antisym.
  by destruct (length a ?= length b)%nat.
Qed.

Lemma lcmp_Gt a b : lcmp a b = Gt ↔ lcmp b a = Lt.
Proof. rewrite (lcmp_antisym a b). by destruct (lcmp a b). Qed.

Lemma lcmp_Lt_trans a b c : lcmp a b = Lt → lcmp b c = Lt → lcmp a c = Lt.
Proof.
  rewrite !lcmp_unfold.
  destruct (Nat.compare_spec (length a) (length b)); try done;
  destruct (Nat.compare_spec (length b) (length c)); try done;
  destruct (Nat.compare_spec (length a) (length c)); try done; try lia.
  apply strcmp_lt_trans.
Qed.

(** * Trees *)

(** A node: its offset, its label, the offset of its property (0: none), its
    left and right siblings, and the tree of its children. *)
Inductive bt :=
  | Leaf
  | Node (o : Z) (n : cstr) (p : Z) (l r c : bt).

#[export] Instance bt_eq_dec : EqDecision bt.
Proof. solve_decision. Defined.

Definition link (t : bt) : Z := match t with Leaf => 0 | Node o _ _ _ _ _ => o end.

Fixpoint offs (t : bt) : list Z :=
  match t with
  | Leaf => []
  | Node o _ _ l r c => o :: offs l ++ offs r ++ offs c
  end.

Fixpoint sib_names (t : bt) : list cstr :=
  match t with
  | Leaf => []
  | Node _ n _ l r _ => n :: sib_names l ++ sib_names r
  end.

(** Siblings are in search-tree order, at every level. *)
Fixpoint ordered (t : bt) : Prop :=
  match t with
  | Leaf => True
  | Node _ n _ l r c =>
    Forall (λ m, lcmp m n = Lt) (sib_names l) ∧ Forall (λ m, lcmp m n = Gt) (sib_names r) ∧
    ordered l ∧ ordered r ∧ ordered c
  end.

(** A label is a token of a name: not empty and without '.'. *)
Definition good_label (n : cstr) : Prop := n ≠ [] ∧ "."%char ∉ n.

Fixpoint labels_ok (t : bt) : Prop :=
  match t with
  | Leaf => True
  | Node _ n _ l r c => good_label n ∧ labels_ok l ∧ labels_ok r ∧ labels_ok c
  end.

(** The node labelled [n] among the siblings, with its subtrees. *)
Fixpoint sib_get (n : cstr) (t : bt) : option bt :=
  match t with
  | Leaf => None
  | Node o m p l r c =>
    match lcmp n m with Eq => Some t | Lt => sib_get n l | Gt => sib_get n r end
  end.

(** Change the property link and the children of the node labelled [n]. *)
Fixpoint sib_upd (n : cstr) (f : Z → bt → Z * bt) (t : bt) : bt :=
  match t with
  | Leaf => Leaf
  | Node o m p l r c =>
    match lcmp n m with
    | Eq => Node o m (f p c).1 l r (f p c).2
    | Lt => Node o m p (sib_upd n f l) r c
    | Gt => Node o m p l (sib_upd n f r) c
    end
  end.

(** Add a childless node labelled [n] at offset [o'] unless one is there. *)
Fixpoint sib_ins (n : cstr) (o' : Z) (t : bt) : bt :=
  match t with
  | Leaf => Node o' n 0 Leaf Leaf Leaf
  | Node o m p l r c =>
    match lcmp n m with
    | Eq => t
    | Lt => Node o m p (sib_ins n o' l) r c
    | Gt => Node o m p l (sib_ins n o' r) c
    end
  end.

Fixpoint path_get (ls : list cstr) (t : bt) : option bt :=
  match ls with
  | [] => None
  | n :: ls' =>
    if decide (n = []) then None
    else match sib_get n t with
         | Some (Node o m p l r c as t') =>
             match ls' with [] => Some t' | _ => path_get ls' c end
         | _ => None
         end
  end.

Definition bt_prop_of (t : option bt) : Z :=
  match t with Some (Node _ _ p _ _ _) => p | _ => 0 end.

(** The property link stored at a path; 0 when there is none. *)
Definition path_prop (ls : list cstr) (t : bt) : Z := bt_prop_of (path_get ls t).

Fixpoint path_set_prop (ls : list cstr) (v : Z) (t : bt) : bt :=
  match ls with
  | [] => t
  | [n] => sib_upd n (λ p c, (v, c)) t
  | n :: ls' => sib_upd n (λ p c, (p, path_set_prop ls' v c)) t
  end.

(** ** Lookup after update and insertion *)

Lemma sib_get_name n t t' : sib_get n t = Some t' → ∃ o p l r c, t' = Node o n p l r c.
Proof.
  induction t as [|o m p l IHl r IHr c IHc]; simpl; [done|].
  destruct (lcmp n m) eqn:E; auto.
  apply lcmp_eq in E as ->. intros [= <-]. eauto 6.
Qed.

Lemma sib_get_upd_eq n f t o p l r c :
  sib_get n t = Some (Node o n p l r c) →
  sib_get n (sib_upd n f t) = Some (Node o n (f p c).1 l r (f p c).2).
Proof.
  induction t as [|o' m p' l' IHl r' IHr c' IHc]; simpl; [done|].
  destruct (lcmp n m) eqn:E; simpl; rewrite E; auto. by intros [= -> -> -> -> -> ->].
Qed.

(** A node's own payload (offset, label, property, children), without its
    siblings: this is what a sibling update or insertion leaves alone. *)
Definition payload (t : option bt) : option (Z * cstr * Z * bt) :=
  match t with Some (Node o n p _ _ c) => Some (o, n, p, c) | _ => None end.

Lemma payload_upd_ne n m f t :
  n ≠ m → payload (sib_get m (sib_upd n f t)) = payload (sib_get m t).
Proof.
  intros Hne. induction t as [|o k p l IHl r IHr c IHc]; simpl; [done|].
  destruct (lcmp n k) eqn:E; simpl; destruct (lcmp m k) eqn:E2; auto.
  apply lcmp_eq in E, E2. congruence.
Qed.

Lemma sib_upd_None n f t : sib_get n t = None → sib_upd n f t = t.
Proof.
  induction t as [|o k p l IHl r IHr c IHc]; simpl; [done|].
  destruct (lcmp n k); [done|..]; intros H; f_equal; auto.
Qed.

Lemma sib_get_ins_eq n o t :
  sib_get n t = None → sib_get n (sib_ins n o t) = Some (Node o n 0 Leaf Leaf Leaf).
Proof.
  induction t as [|o' m p l IHl r IHr c IHc]; simpl; intros H.
  - by rewrite (proj2 (lcmp_eq n n)).
  - destruct (lcmp n m) eqn:E; simpl; rewrite ?E; [done|auto..].
Qed.

Lemma payload_ins_ne n m o t :
  n ≠ m → payload (sib_get m (sib_ins n o t)) = payload (sib_get m t).
Proof.
  intros Hne. induction t as [|o' k p l IHl r IHr c IHc]; simpl.
  - destruct (lcmp m n) eqn:E; simpl; try done. apply lcmp_eq in E. congruence.
  - destruct (lcmp n k) eqn:E; simpl; destruct (lcmp m k) eqn:E2; auto.
Qed.

Lemma sib_names_upd n f t : sib_names (sib_upd n f t) = sib_names t.
Proof.
  induction t as [|o k p l IHl r IHr c IHc]; simpl; [done|].
  destruct (lcmp n k); simpl; by rewrite ?IHl, ?IHr.
Qed.

Lemma link_upd n f t : link (sib_upd n f t) = link t.
Proof. destruct t; simpl; [done|]. by destruct (lcmp n n0). Qed.

Lemma Forall_sib_names_ins (P : cstr → Prop) n o t :
  P n → Forall P (sib_names t) → Forall P (sib_names (sib_ins n o t)).
Proof.
  intros Hn. induction t as [|o' k p l IHl r IHr c IHc]; simpl; [by repeat constructor|].
  rewrite Forall_cons, Forall_app. intros (Hk & Hl & Hr).
  destruct (lcmp n k); simpl; rewrite Forall_cons, Forall_app; auto.
Qed.

Lemma ordered_ins n o t : ordered t → ordered (sib_ins n o t).
Proof.
  induction t as [|o' k p l IHl r IHr c IHc]; simpl; [done|].
  intros (Hl & Hr & Ol & Or & Oc).
  destruct (lcmp n k) eqn:E; simpl; split_and!; auto using Forall_sib_names_ins.
Qed.

Lemma labels_ins n o t : good_label n → labels_ok t → labels_ok (sib_ins n o t).
Proof.
  intros Hn. induction t as [|o' k p l IHl r IHr c IHc]; simpl; [done|].
  destruct (lcmp n k); simpl; tauto.
Qed.

Lemma labels_upd n f t :
  labels_ok t → (∀ o p l r c, sib_get n t = Some (Node o n p l r c) → labels_ok (f p c).2) →
  labels_ok (sib_upd n f t).
Proof.
  induction t as [|o k p l IHl r IHr c IHc]; simpl; [done|].
  intros (Hk & Hl & Hr & Hc) Hf. destruct (lcmp n k) eqn:E; simpl; split_and!; auto.
  apply lcmp_eq in E as ->. eauto.
Qed.

Lemma labels_get n t t' : labels_ok t → sib_get n t = Some t' → labels_ok t'.
Proof.
  induction t as [|o k p l IHl r IHr c IHc]; simpl; [done|].
  intros (Hk & Hl & Hr & Hc). destruct (lcmp n k); auto. by intros [= <-].
Qed.

Lemma ordered_upd n f t :
  ordered t → (∀ o p l r c, sib_get n t = Some (Node o n p l r c) → ordered (f p c).2) →
  ordered (sib_upd n f t).
Proof.
  induction t as [|o k p l IHl r IHr c IHc]; simpl; [done|].
  intros (Hl & Hr & Ol & Or & Oc) Hf. destruct (lcmp n k) eqn:E; simpl.
  - apply lcmp_eq in E as ->. split_and!; eauto.
  - rewrite sib_names_upd. split_and!; auto.
  - rewrite sib_names_upd. split_and!; auto.
Qed.

Lemma ordered_get n t o p l r c :
  ordered t → sib_get n t = Some (Node o n p l r c) → ordered c.
Proof.
  induction t as [|o' k p' l' IHl r' IHr c' IHc]; simpl; [done|].
  intros (Hl & Hr & Ol & Or & Oc). destruct (lcmp n k); auto.
  by intros [= -> -> -> -> -> ->].
Qed.

(** ** Offsets after update and insertion *)

Lemma offs_ins n o t : sib_get n t = None → offs (sib_ins n o t) ≡ₚ o :: offs t.
Proof.
  induction t as [|o' k p l IHl r IHr c IHc]; simpl; [done|].
  destruct (lcmp n k); [done|..]; intros H; simpl.
  - rewrite (IHl H). simpl. apply perm_swap.
  - rewrite (IHr H). simpl. rewrite <- Permutation_middle. apply perm_swap.
Qed.

(** The offsets of a tree are those of one node's children and the rest. *)
Lemma offs_upd n f t o p l r c :
  sib_get n t = Some (Node o n p l r c) →
  ∃ rest, offs t ≡ₚ o :: rest ++ offs c ∧
          offs (sib_upd n f t) ≡ₚ o :: rest ++ offs (f p c).2.
Proof.
  induction t as [|o' k p' l' IHl r' IHr c' IHc]; simpl; [done|].
  destruct (lcmp n k) eqn:E; simpl.
  - intros [= -> -> -> -> -> ->]. exists (offs l ++ offs r). by rewrite <- !app_assoc.
  - intros H. destruct (IHl H) as (rest & H1 & H2).
    exists (o' :: rest ++ offs r' ++ offs c'). rewrite H1, H2. simpl. split; solve_Permutation.
  - intros H. destruct (IHr H) as (rest & H1 & H2).
    exists (o' :: offs l' ++ rest ++ offs c'). rewrite H1, H2. simpl. split; solve_Permutation.
Qed.

Lemma offs_get n t t' : sib_get n t = Some t' → offs t' ⊆ offs t.
Proof.
  induction t as [|o k p l IHl r IHr c IHc]; simpl; [done|].
  destruct (lcmp n k).
  - by intros [= <-].
  - intros H. specialize (IHl H). set_solver.
  - intros H. specialize (IHr H). set_solver.
Qed.

Lemma NoDup_offs_children o n p l r c : NoDup (offs (Node o n p l r c)) → NoDup (offs c).
Proof. simpl. rewrite NoDup_cons, !NoDup_app. tauto. Qed.

Lemma NoDup_offs_get n t t' : NoDup (offs t) → sib_get n t = Some t' → NoDup (offs t').
Proof.
  induction t as [|o k p l IHl r IHr c IHc]; simpl; [done|].
  intros Hnd. destruct (lcmp n k).
  - by intros [= <-].
  - apply IHl. rewrite NoDup_cons, !NoDup_app in Hnd. tauto.
  - apply IHr. rewrite NoDup_cons, !NoDup_app in Hnd. tauto.
Qed.

(** ** Property links by path *)

Lemma path_prop_cons n ls t :
  path_prop (n :: ls) t =
    if decide (n = []) then 0%Z
    else match payload (sib_get n t) with
         | Some (_, _, p, c) => match ls with [] => p | _ => path_prop ls c end
         | None => 0%Z
         end.
Proof.
  unfold path_prop. simpl. case_decide; [done|].
  destruct (sib_get n t) as [t'|] eqn:E; [|done].
  destruct (sib_get_name _ _ _ E) as (o & p & l & r & c & ->). by destruct ls.
Qed.

Lemma path_prop_nil t : path_prop [] t = 0%Z.
Proof. done. Qed.

Lemma path_prop_Leaf ls : path_prop ls Leaf = 0%Z.
Proof. destruct ls; unfold path_prop; simpl; [done|]. by case_decide. Qed.

(** Inserting a fresh sibling stores no property. *)
Lemma path_prop_ins ls n o t :
  sib_get n t = None → path_prop ls (sib_ins n o t) = path_prop ls t.
Proof.
  intros Hn. destruct ls as [|m ls]; [done|]. rewrite !path_prop_cons.
  destruct (decide (m = n)) as [->|Hne].
  - rewrite Hn, sib_get_ins_eq by done. simpl. rewrite path_prop_Leaf. by destruct ls.
  - by rewrite payload_ins_ne.
Qed.

(** Changing the children of a sibling to a tree with the same properties. *)
Lemma path_prop_upd_children ls n o p l r c c' t :
  sib_get n t = Some (Node o n p l r c) → (∀ ls, path_prop ls c' = path_prop ls c) →
  path_prop ls (sib_upd n (λ p _, (p, c')) t) = path_prop ls t.
Proof.
  intros Hn Hc. destruct ls as [|m ls]; [done|]. rewrite !path_prop_cons.
  destruct (decide (m = n)) as [->|Hne].
  - rewrite (sib_get_upd_eq _ _ _ _ _ _ _ _ Hn), Hn. simpl. by rewrite Hc.
  - by rewrite payload_upd_ne.
Qed.

Lemma path_prop_set_eq ls v t t' :
  path_get ls t = Some t' → path_prop ls (path_set_prop ls v t) = v.
Proof.
  revert t t'. induction ls as [|n ls IH]; [done|]. intros t t'. rewrite path_prop_cons.
  simpl. case_decide; [done|].
  destruct (sib_get n t) as [s|] eqn:E; [|done].
  destruct (sib_get_name _ _ _ E) as (o & p & l & r & c & ->).
  destruct ls as [|n' ls]; intros H'; rewrite (sib_get_upd_eq _ _ _ _ _ _ _ _ E); [done|].
  simpl. by eapply IH.
Qed.

Lemma path_prop_set_ne ls ls' v t :
  ls ≠ ls' → path_prop ls' (path_set_prop ls v t) = path_prop ls' t.
Proof.
  revert ls' t. induction ls as [|n ls IH]; [done|]. intros ls' t Hne.
  destruct ls' as [|m ls']; [done|]. rewrite !path_prop_cons. case_decide; [done|].
  destruct (decide (n = m)) as [->|Hnm].
  - destruct (sib_get m t) as [s|] eqn:E.
    + destruct (sib_get_name _ _ _ E) as (o & p & l & r & c & ->).
      destruct ls as [|n' ls]; simpl; rewrite (sib_get_upd_eq _ _ _ _ _ _ _ _ E); simpl.
      * by destruct ls'.
      * destruct ls'; [done|]. apply IH. congruence.
    + destruct ls; simpl; rewrite sib_upd_None by done; by rewrite E.
  - destruct ls; simpl; by rewrite payload_upd_ne.
Qed.

Lemma ordered_set_prop ls v t : ordered t → ordered (path_set_prop ls v t).
Proof.
  revert t. induction ls as [|n ls IH]; [done|]. intros t Ht.
  destruct ls; simpl; apply ordered_upd; simpl; eauto using ordered_get.
Qed.

Lemma labels_set_prop ls v t : labels_ok t → labels_ok (path_set_prop ls v t).
Proof.
  revert t. induction ls as [|n ls IH]; [done|]. intros t Ht.
  destruct ls as [|m ls]; simpl; apply labels_upd; simpl; auto; intros o p l r c Hg;
    pose proof (labels_get _ _ _ Ht Hg) as Hx; simpl in Hx; [tauto|]. apply IH. tauto.
Qed.

Lemma link_set_prop ls v t : link (path_set_prop ls v t) = link t.
Proof. destruct ls as [|n [|m ls]]; simpl; [done|apply link_upd..]. Qed.

Lemma offs_set_prop ls v t : offs (path_set_prop ls v t) ≡ₚ offs t.
Proof.
  revert t. induction ls as [|n ls IH]; [done|]. intros t.
  destruct (sib_get n t) as [s|] eqn:E.
  - destruct (sib_get_name _ _ _ E) as (o & p & l & r & c & ->).
    destruct ls as [|m ls].
    + simpl. edestruct (offs_upd n) as (rest & H1 & H2); [exact E|]. by rewrite H1, H2.
    + change (path_set_prop (n :: m :: ls) v t)
        with (sib_upd n (λ p c, (p, path_set_prop (m :: ls) v c)) t).
      edestruct (offs_upd n) as (rest & H1 & H2); [exact E|].
      rewrite H1, H2. cbn [snd]. by rewrite IH.
  - destruct ls; simpl; by rewrite sib_upd_None.
Qed.

(** * Trees in memory *)

Section rep.
Context (pa_data_size : Z).

(** The tree [t] lies in the objects [d]: its nodes are at their offsets, all
    of which [to_prop_obj] accepts, with the links of the tree. *)
Fixpoint rep (d : gmap Z obj) (t : bt) : Prop :=
  match t with
  | Leaf => True
  | Node o n p l r c =>
    (0 < o ≤ pa_data_size)%Z ∧
    d !! o = Some (OBt {| bt_namelen := Z.of_nat (length n); bt_prop := p;
                          bt_left := link l; bt_right := link r;
                          bt_children := link c; bt_name := n |}) ∧
    rep d l ∧ rep d r ∧ rep d c
  end.

Lemma rep_frame d d' t : rep d t → (∀ o, o ∈ offs t → d' !! o = d !! o) → rep d' t.
Proof.
  induction t as [|o n p l IHl r IHr c IHc]; simpl; [done|].
  intros (Ho & Hd & Hl & Hr & Hc) Hf. split_and!; try done; try lia.
  - rewrite Hf; [done|]. left.
  - apply IHl; [done|]. intros. apply Hf. set_solver.
  - apply IHr; [done|]. intros. apply Hf. set_solver.
  - apply IHc; [done|]. intros. apply Hf. set_solver.
Qed.

Lemma rep_link d t : rep d t → t ≠ Leaf → (0 < link t ≤ pa_data_size)%Z.
Proof. destruct t; simpl; tauto. Qed.

Lemma rep_to_prop_obj d t :
  rep d t → t ≠ Leaf → to_prop_obj pa_data_size (link t) = Some (link t).
Proof.
  intros H1 H2. pose proof (rep_link d t H1 H2). unfold to_prop_obj.
  by rewrite Z.gtb_ltb, (proj2 (Z.ltb_ge _ _)) by lia.
Qed.

Lemma rep_link_nonzero d t : rep d t → (link t =? 0)%Z = bool_decide (t = Leaf).
Proof.
  destruct t; simpl; [done|]. intros (Ho & _).
  rewrite (proj2 (Z.eqb_neq _ _)) by lia. done.
Qed.

Lemma rep_offs_pos d t o : rep d t → o ∈ offs t → (0 < o ≤ pa_data_size)%Z.
Proof.
  induction t as [|o' n p l IHl r IHr c IHc]; simpl; [set_solver|].
  intros (Ho & _ & Hl & Hr & Hc). set_unfold. naive_solver.
Qed.

Lemma rep_dom d t o : rep d t → o ∈ offs t → is_Some (d !! o).
Proof.
  induction t as [|o' n p l IHl r IHr c IHc]; simpl; [set_solver|].
  intros (_ & Ho & Hl & Hr & Hc). set_unfold. naive_solver.
Qed.

Lemma rep_get d n t t' : rep d t → sib_get n t = Some t' → rep d t'.
Proof.
  induction t as [|o m p l IHl r IHr c IHc]; simpl; [done|].
  intros (Ho & Hd & Hl & Hr & Hc). destruct (lcmp n m); auto.
  intros [= <-]. simpl. auto.
Qed.

(** Changing one sibling node and its children, leaving the rest alone. *)
Lemma rep_upd d d' n f t o p l r c :
  rep d t → NoDup (offs t) → sib_get n t = Some (Node o n p l r c) →
  (∀ k, k ∈ offs t → k ≠ o → k ∉ offs c → d' !! k = d !! k) →
  d' !! o = Some (OBt {| bt_namelen := Z.of_nat (length n); bt_prop := (f p c).1;
                         bt_left := link l; bt_right := link r;
                         bt_children := link (f p c).2; bt_name := n |}) →
  rep d' (f p c).2 →
  rep d' (sib_upd n f t).
Proof.
  induction t as [|o' m p' l' IHl r' IHr c' IHc]; simpl; [done|].
  rewrite NoDup_cons, !NoDup_app. set_unfold.
  intros (Ho & Hd & Hl & Hr & Hc) (Hno & Nl & Dl & Nr & Dr & Nc) Hget Hframe Hnew Hc'.
  destruct (lcmp n m) eqn:E; simpl.
  - apply lcmp_eq in E as ->. simplify_eq. split_and!; try done; try lia.
    + apply (rep_frame d); [done|]. intros k Hk. apply Hframe; naive_solver.
    + apply (rep_frame d); [done|]. intros k Hk. apply Hframe; naive_solver.
  - pose proof (offs_get _ _ _ Hget) as Hsub. simpl in Hsub.
    assert (Ho' : o ∈ offs l') by (apply Hsub; left).
    assert (Hcs : ∀ k, k ∈ offs c → k ∈ offs l') by (intros k Hk; apply Hsub; set_solver).
    rewrite link_upd. split_and!; try done; try lia.
    + rewrite <- Hd. apply Hframe; [auto|naive_solver..].
    + apply IHl; try done. intros k Hk. apply Hframe. auto.
    + apply (rep_frame d); [done|]. intros k Hk. apply Hframe; [auto|..]; naive_solver.
    + apply (rep_frame d); [done|]. intros k Hk. apply Hframe; [auto|..]; naive_solver.
  - pose proof (offs_get _ _ _ Hget) as Hsub. simpl in Hsub.
    assert (Ho' : o ∈ offs r') by (apply Hsub; left).
    assert (Hcs : ∀ k, k ∈ offs c → k ∈ offs r') by (intros k Hk; apply Hsub; set_solver).
    rewrite link_upd. split_and!; try done; try lia.
    + rewrite <- Hd. apply Hframe; [auto|naive_solver..].
    + apply (rep_frame d); [done|]. intros k Hk. apply Hframe; [auto|..]; naive_solver.
    + apply IHr; try done. intros k Hk. apply Hframe. auto.
    + apply (rep_frame d); [done|]. intros k Hk. apply Hframe; [auto|..]; naive_solver.
Qed.
End rep.
