(* ===== verification/PropAreaProofs.v ===== *)
(** The operations of [PropArea] against the trees of [PropTrie]: allocation
    stays in bounds, searching and inserting refine the tree functions, and no
    operation faults or runs out of fuel on a well-formed area. *)

From Stdlib Require Import ZArith Lia Ascii.
From stdpp Require Import base numbers strings gmap list.
From S2P Require Import Prelude CString PropInfo PropArea PropTrie.

Lemma align4_eq s : align4 s = ((s + 3) / 4 * 4)%Z.
Proof.
  unfold align4. change (Z.lnot 3) with (Z.lnot (Z.ones 2)). rewrite <- Z.ldiff_land.
  by rewrite Z.ldiff_ones_r, Z.shiftl_mul_pow2, Z.shiftr_div_pow2 by lia.
Qed.

Lemma align4_bounds s : (s ≤ align4 s < s + 4)%Z.
Proof. rewrite align4_eq. Z.div_mod_to_equations. lia. Qed.

Lemma align4_mono s1 s2 : (s1 ≤ s2)%Z → (align4 s1 ≤ align4 s2)%Z.
Proof. rewrite !align4_eq. intros. Z.div_mod_to_equations. lia. Qed.

Lemma align4_multiple s : (align4 s `mod` 4 = 0)%Z.
Proof. rewrite align4_eq. apply Z.mod_mul. lia. Qed.

Section proofs.
Context (pa_data_size : Z) (pads_u32 : (pa_data_size < 2 ^ 32)%Z).

Notation rep := (rep pa_data_size).

(** Objects lie below the allocation mark, and the mark inside the file. *)
Definition area_ok (a : prop_area) : Prop :=
  (0 < bytes_used a ≤ pa_data_size)%Z ∧
  (∀ k o, data a !! k = Some o → (0 ≤ k < bytes_used a)%Z).

(** [a'] extends [a] and differs on old objects at most at the offsets [S]. *)
Record grows (a a' : prop_area) (S : list Z) : Prop := {
  grows_mark : (bytes_used a ≤ bytes_used a')%Z;
  grows_ok : area_ok a';
  grows_serial : area_serial a' = area_serial a;
  grows_magic : magic a' = magic a;
  grows_version : version a' = version a;
  grows_frame : ∀ k, (k < bytes_used a)%Z → k ∉ S → data a' !! k = data a !! k
}.

Lemma grows_refl a S : area_ok a → grows a a S.
Proof. intros. split; auto with lia. Qed.

Lemma grows_trans a1 a2 a3 S1 S2 S :
  grows a1 a2 S1 → grows a2 a3 S2 →
  (∀ k, k ∈ S1 → k ∈ S) → (∀ k, k ∈ S2 → (k < bytes_used a1)%Z → k ∈ S) →
  grows a1 a3 S.
Proof.
  intros [m1 o1 s1 g1 v1 f1] [m2 o2 s2 g2 v2 f2] H1 H2.
  split; try congruence; try lia.
  intros k Hk HS. transitivity (data a2 !! k).
  - apply f2; [lia|]. intros Hin. apply HS. auto.
  - apply f1; [done|]. intros Hin. apply HS. auto.
Qed.

Lemma area_ok_lt a k : area_ok a → is_Some (data a !! k) → (k < bytes_used a)%Z.
Proof. intros [_ Hf] [x Hx]. apply Hf in Hx. lia. Qed.

Lemma fresh_at_mark a : area_ok a → data a !! bytes_used a = None.
Proof.
  intros [_ Hf]. destruct (data a !! bytes_used a) eqn:E; [|done].
  apply Hf in E. lia.
Qed.

(** ** Allocation *)

Lemma allocate_None a size :
  allocate_obj pa_data_size a size = None ↔ (pa_data_size < bytes_used a + align4 size)%Z.
Proof.
  unfold allocate_obj. rewrite Z.gtb_ltb.
  destruct (Z.ltb_spec pa_data_size (bytes_used a + align4 size)); split; done || lia.
Qed.

Lemma allocate_Some a size o a1 :
  area_ok a → (0 < size)%Z → allocate_obj pa_data_size a size = Some (o, a1) →
  o = bytes_used a ∧ a1 = set_bytes_used a (bytes_used a + align4 size) ∧
  (bytes_used a < bytes_used a1 ≤ pa_data_size)%Z.
Proof.
  intros [Hb _] Hs. unfold allocate_obj. rewrite Z.gtb_ltb.
  pose proof (align4_bounds size).
  destruct (Z.ltb_spec pa_data_size (bytes_used a + align4 size)); [done|].
  rewrite u32_small by lia. intros [= <- <-]. simpl. auto with lia.
Qed.

(** Allocating and then writing an object at the new offset. *)
Lemma alloc_store_grows a size o a1 x S :
  area_ok a → (0 < size)%Z → allocate_obj pa_data_size a size = Some (o, a1) →
  grows a (store a1 o x) S ∧ data (store a1 o x) = <[o := x]> (data a) ∧
  data a !! o = None.
Proof.
  intros Hok Hs Ha. pose proof Hok as [Hb Hf].
  destruct (allocate_Some _ _ _ _ Hok Hs Ha) as (-> & -> & Hlt). simpl in *.
  split_and!; [|done|by apply fresh_at_mark]. split; simpl; try done; try lia.
  - split; simpl; [lia|]. intros k y. rewrite lookup_insert.
    case_decide; [lia|]. intros Hk. apply Hf in Hk. lia.
  - intros k Hk _. rewrite lookup_insert_ne; [done|lia].
Qed.

(** Allocating and writing in an area that grew out of [a]. *)
Lemma grows_alloc a a1 S size o a2 :
  (0 < bytes_used a)%Z → grows a a1 S → (0 < size)%Z →
  allocate_obj pa_data_size a1 size = Some (o, a2) →
  grows a a2 S ∧ (bytes_used a ≤ o < bytes_used a2)%Z ∧ o = bytes_used a1 ∧
  data a2 = data a1 ∧ bytes_used a2 = (bytes_used a1 + align4 size)%Z.
Proof.
  intros Hpos [m Hok s g v f] Hs Ha.
  destruct (allocate_Some _ _ _ _ Hok Hs Ha) as (-> & -> & Hlt). simpl in *.
  split_and!; auto with lia. split; simpl; auto with lia.
  destruct Hok as [Hb Hf]. split; simpl; [lia|]. intros k x Hk. apply Hf in Hk. lia.
Qed.

Lemma grows_store_new a a1 S o x :
  grows a a1 S → (bytes_used a ≤ o < bytes_used a1)%Z → (0 ≤ o)%Z → grows a (store a1 o x) S.
Proof.
  intros [m [Hb Hf] s g v f] Ho H0. split; simpl; auto.
  - split; [done|]. simpl. intros k y. rewrite lookup_insert. case_decide; [lia|]. apply Hf.
  - intros k Hk HS. rewrite lookup_insert_ne by lia. auto.
Qed.

Lemma new_prop_bt_Some a name namelen o a1 S :
  area_ok a → (0 ≤ namelen)%Z → new_prop_bt pa_data_size a name namelen = Some (o, a1) →
  o = bytes_used a ∧ (bytes_used a < bytes_used a1)%Z ∧
  bytes_used a1 = (bytes_used a + align4 (sizeof_prop_bt + namelen + 1))%Z ∧
  grows a a1 S ∧ data a1 = <[o := OBt (mk_prop_bt name namelen)]> (data a).
Proof.
  intros Hok Hn. unfold new_prop_bt. destruct (allocate_obj _ _ _) as [[o1 a2]|] eqn:E; [|done].
  intros [= -> <-].
  assert (0 < sizeof_prop_bt + namelen + 1)%Z by (unfold sizeof_prop_bt; lia).
  destruct (allocate_Some _ _ _ _ Hok H E) as (-> & -> & Hlt).
  destruct (alloc_store_grows _ _ _ _ (OBt (mk_prop_bt name namelen)) S Hok H E)
    as (Hg & Hd & _).
  split_and!; simpl in *; try done; lia.
Qed.

(** ** Searching among siblings *)

Fixpoint sib_depth (t : bt) : nat :=
  match t with Leaf => 0 | Node _ _ _ l r _ => S (Nat.max (sib_depth l) (sib_depth r)) end.

Lemma sib_depth_offs t : (sib_depth t ≤ length (offs t))%nat.
Proof. induction t; simpl; rewrite ?length_app; lia. Qed.

(** The fuel given by the callers: the number of objects of the area. *)
Lemma sib_depth_size d t : rep d t → NoDup (offs t) → (sib_depth t ≤ size d)%nat.
Proof.
  intros Hr Hnd. etrans; [apply sib_depth_offs|].
  rewrite <- (size_list_to_set (C := gset Z)) by done.
  rewrite <- size_dom. apply subseteq_size. intros o. rewrite elem_of_list_to_set.
  rewrite elem_of_dom. by apply rep_dom with pa_data_size.
Qed.

Lemma load_rep a t o n p l r c :
  rep (data a) t → t = Node o n p l r c →
  load_bt a o = Ret {| bt_namelen := Z.of_nat (length n); bt_prop := p;
                       bt_left := link l; bt_right := link r;
                       bt_children := link c; bt_name := n |}.
Proof. intros Hr ->. simpl in Hr. unfold load_bt. by destruct Hr as (_ & -> & _). Qed.

Lemma find_bt_sibling_search a t name n fuel :
  rep (data a) t → t ≠ Leaf → (sib_depth t ≤ fuel)%nat →
  (0 ≤ n ≤ Z.of_nat (length name))%Z →
  find_bt_sibling pa_data_size fuel a (Some (link t)) name n false =
    Ret (link <$> sib_get (take (Z.to_nat n) name) t, a).
Proof.
  revert fuel. induction t as [|o m p l IHl r IHr c IHc]; [done|].
  intros fuel Hr _ Hf Hn. destruct fuel as [|fuel]; [simpl in Hf; lia|]. simpl in Hf.
  cbn [find_bt_sibling link].
  rewrite (load_rep a _ _ _ _ _ _ _ Hr eq_refl). cbn [cbind bt_name bt_namelen bt_left bt_right].
  rewrite cmp_prop_name_take by lia. cbn [sib_get].
  destruct Hr as (_ & _ & Hl & Hr & _).
  destruct (lcmp _ m); [done|..]; rewrite (rep_link_nonzero pa_data_size (data a)) by done;
    case_bool_decide; subst; [done| |done|]; cbn [negb];
    rewrite (rep_to_prop_obj pa_data_size (data a)) by done.
  - apply IHl; auto; lia.
  - apply IHr; auto; lia.
Qed.

(** ** Inserting among siblings *)

Lemma rep_node d o m p l r c :
  (0 < o ≤ pa_data_size)%Z →
  d !! o = Some (OBt {| bt_namelen := Z.of_nat (length m); bt_prop := p;
                        bt_left := link l; bt_right := link r;
                        bt_children := link c; bt_name := m |}) →
  rep d l → rep d r → rep d c → rep d (Node o m p l r c).
Proof. simpl. auto. Qed.

(** Offsets other than the one just written are unchanged. *)
Ltac frame_tac :=
  let k := fresh "k" in let Hk := fresh "Hk" in
  intros k Hk; rewrite lookup_insert_ne; [done | set_solver].

Lemma link_ins n o t : t ≠ Leaf → link (sib_ins n o t) = link t.
Proof. destruct t; simpl; [done|]. by destruct (lcmp n n0). Qed.

(** The new node of a successful [new_prop_bt] as a tree. *)
Lemma rep_new_bt a name n o a1 :
  area_ok a → (0 ≤ n ≤ Z.of_nat (length name))%Z →
  new_prop_bt pa_data_size a name n = Some (o, a1) →
  rep (data a1) (Node o (take (Z.to_nat n) name) 0 Leaf Leaf Leaf) ∧
  data a !! o = None ∧ data a1 = <[o := OBt (mk_prop_bt name n)]> (data a).
Proof.
  intros Hok Hn Hnew. pose proof Hok as [Hb _].
  destruct (new_prop_bt_Some _ _ _ _ _ [] Hok (proj1 Hn) Hnew) as (-> & Hlt & _ & Hg & Hd).
  refine (conj _ (conj (fresh_at_mark a Hok) Hd)).
  split.
  - split; [lia|]. destruct (grows_ok _ _ _ Hg) as [? _]. lia.
  - rewrite Hd. split_and!; try done.
    rewrite lookup_insert_eq. unfold mk_prop_bt. do 3 f_equal.
    rewrite length_take. lia.
Qed.

Lemma find_bt_sibling_found a t name n fuel s :
  rep (data a) t → (sib_depth t ≤ fuel)%nat → (0 ≤ n ≤ Z.of_nat (length name))%Z →
  sib_get (take (Z.to_nat n) name) t = Some s →
  find_bt_sibling pa_data_size fuel a (Some (link t)) name n true = Ret (Some (link s), a).
Proof.
  revert fuel. induction t as [|o m p l IHl r IHr c IHc]; [done|].
  intros fuel Hr Hf Hn Hs. destruct fuel as [|fuel]; [simpl in Hf; lia|]. simpl in Hf.
  cbn [find_bt_sibling link].
  rewrite (load_rep a _ _ _ _ _ _ _ Hr eq_refl). cbn [cbind bt_name bt_namelen bt_left bt_right].
  rewrite cmp_prop_name_take by lia. cbn [sib_get] in Hs.
  destruct Hr as (_ & _ & Hl & Hr & _).
  destruct (lcmp _ m); [by simplify_eq|..];
    rewrite (rep_link_nonzero pa_data_size (data a)) by done;
    case_bool_decide; subst; [done| |done|]; cbn [negb];
    rewrite (rep_to_prop_obj pa_data_size (data a)) by done.
  - apply IHl; auto; lia.
  - apply IHr; auto; lia.
Qed.

Lemma find_bt_sibling_full a t name n fuel :
  rep (data a) t → t ≠ Leaf → (sib_depth t ≤ fuel)%nat →
  (0 ≤ n ≤ Z.of_nat (length name))%Z →
  sib_get (take (Z.to_nat n) name) t = None → new_prop_bt pa_data_size a name n = None →
  find_bt_sibling pa_data_size fuel a (Some (link t)) name n true = Ret (None, a).
Proof.
  revert fuel. induction t as [|o m p l IHl r IHr c IHc]; [done|].
  intros fuel Hr _ Hf Hn Hs Hnew. destruct fuel as [|fuel]; [simpl in Hf; lia|]. simpl in Hf.
  cbn [find_bt_sibling link].
  rewrite (load_rep a _ _ _ _ _ _ _ Hr eq_refl). cbn [cbind bt_name bt_namelen bt_left bt_right].
  rewrite cmp_prop_name_take by lia. cbn [sib_get] in Hs.
  destruct Hr as (_ & _ & Hl & Hr & _).
  destruct (lcmp _ m); [done|..]; rewrite (rep_link_nonzero pa_data_size (data a)) by done;
    case_bool_decide; subst; cbn [negb]; try (rewrite Hnew; done);
    rewrite (rep_to_prop_obj pa_data_size (data a)) by done.
  - apply IHl; auto; lia.
  - apply IHr; auto; lia.
Qed.

(** A tree that was there before a new object. *)
Lemma rep_after_new d d1 d' o x t0 :
  d1 = <[o := x]> d → d !! o = None → rep d t0 → (∀ k, k ∈ offs t0 → d' !! k = d1 !! k) → rep d' t0.
Proof.
  intros -> Hfresh Ht0 Hd'. apply (rep_frame _ d); [done|]. intros k Hk.
  rewrite Hd' by done. rewrite lookup_insert_ne; [done|]. intros <-.
  destruct (rep_dom _ _ _ _ Ht0 Hk). congruence.
Qed.

Lemma find_bt_sibling_insert a t name n fuel o' a1 :
  area_ok a → rep (data a) t → t ≠ Leaf → NoDup (offs t) → (sib_depth t ≤ fuel)%nat →
  (0 ≤ n ≤ Z.of_nat (length name))%Z →
  sib_get (take (Z.to_nat n) name) t = None →
  new_prop_bt pa_data_size a name n = Some (o', a1) →
  ∃ d', find_bt_sibling pa_data_size fuel a (Some (link t)) name n true =
          Ret (Some o', set_data a1 d') ∧
        rep d' (sib_ins (take (Z.to_nat n) name) o' t) ∧
        (∀ k, k ∉ offs t → d' !! k = data a1 !! k).
Proof.
  intros Hok Hrep Hne Hnd Hf Hn Hs Hnew.
  destruct (rep_new_bt _ _ _ _ _ Hok Hn Hnew) as (Hnewrep & Hfresh & Hd1).
  revert fuel Hrep Hne Hnd Hf Hs. induction t as [|o m p l IHl r IHr c _]; [done|].
  intros fuel Hrep _ Hnd Hf Hs. destruct fuel as [|fuel]; [simpl in Hf; lia|]. simpl in Hf.
  cbn [find_bt_sibling link].
  rewrite (load_rep a _ _ _ _ _ _ _ Hrep eq_refl).
  cbn [cbind bt_name bt_namelen bt_left bt_right].
  rewrite cmp_prop_name_take by lia. cbn [sib_get sib_ins offs] in *.
  destruct Hrep as (Ho & Hcur & Hl & Hr & Hc).
  rewrite NoDup_cons, !NoDup_app in Hnd. destruct Hnd as (Hno & Nl & Dl & Nr & Dr & Nc).
  assert (Hoo' : o ≠ o') by (intros ->; congruence).
  assert (Hkeep : ∀ t0 d', rep (data a) t0 →
            (∀ k, k ∈ offs t0 → d' !! k = data a1 !! k) → rep d' t0)
    by (intros t0 d'; by apply (rep_after_new _ _ _ _ _ _ Hd1 Hfresh)).
  assert (Hcur1 : data a1 !! o = data a !! o) by (rewrite Hd1, lookup_insert_ne; done).
  assert (Hnew1 : ∀ x, rep (<[o:=x]> (data a1)) (Node o' (take (Z.to_nat n) name) 0 Leaf Leaf Leaf)).
  { intros x. apply (rep_frame _ (data a1)); [done|]. simpl. intros k.
    rewrite list_elem_of_singleton. intros ->. by rewrite lookup_insert_ne. }
  destruct (lcmp _ m) eqn:E; [done|..];
    rewrite (rep_link_nonzero pa_data_size (data a)) by done;
    case_bool_decide as Hleaf; cbn [negb].
  - (* a new left sibling *)
    subst. rewrite Hnew. unfold update_bt, load_bt. rewrite Hcur1, Hcur. cbn [cbind].
    eexists. split; [reflexivity|]. cbn [data set_data store]. split.
    + apply rep_node; [done|by rewrite lookup_insert_eq|apply Hnew1|..];
        (apply Hkeep; [done|frame_tac]).
    + frame_tac.
  - rewrite (rep_to_prop_obj pa_data_size (data a)) by done.
    destruct (IHl fuel) as (d' & -> & Hrep' & Hframe); auto; [lia|].
    exists d'. split; [done|]. split; [|intros k Hk; apply Hframe; set_solver].
    apply rep_node; [done|by rewrite link_ins, Hframe, Hcur1 by (done || set_solver)|done|..];
      (apply Hkeep; [done|]; intros k Hk; apply Hframe; set_solver).
  - (* a new right sibling *)
    subst. rewrite Hnew. unfold update_bt, load_bt. rewrite Hcur1, Hcur. cbn [cbind].
    eexists. split; [reflexivity|]. cbn [data set_data store]. split.
    + apply rep_node; [done|by rewrite lookup_insert_eq|..|apply Hnew1|];
        (apply Hkeep; [done|frame_tac]).
    + frame_tac.
  - rewrite (rep_to_prop_obj pa_data_size (data a)) by done.
    destruct (IHr fuel) as (d' & -> & Hrep' & Hframe); auto; [lia|].
    exists d'. split; [done|]. split; [|intros k Hk; apply Hframe; set_solver].
    apply rep_node; [done|by rewrite link_ins, Hframe, Hcur1 by (done || set_solver)|..|done|];
      (apply Hkeep; [done|]; intros k Hk; apply Hframe; set_solver).
Qed.

(** ** Walking the tokens of a name *)

(** The first token of [s] as the loop computes it. *)
Definition tok_len (s : cstr) : nat :=
  match strchr s "."%char with Some i => i | None => length s end.

Lemma tok_len_le s : (tok_len s ≤ length s)%nat.
Proof.
  unfold tok_len. destruct (strchr s _) as [i|] eqn:E; [|done].
  apply strchr_lt in E. lia.
Qed.

Lemma tok_no_dot s : "."%char ∉ take (tok_len s) s.
Proof.
  unfold tok_len. destruct (strchr s _) as [i|] eqn:E.
  - by apply strchr_Some in E as [_ ?].
  - rewrite firstn_all. by apply strchr_None.
Qed.

Lemma split_dot_tok s :
  split_dot s = take (tok_len s) s ::
    match strchr s "."%char with Some i => split_dot (drop (S i) s) | None => [] end.
Proof.
  unfold tok_len. destruct (strchr s _) as [i|] eqn:E.
  - by apply split_dot_Some.
  - rewrite firstn_all. by apply split_dot_None.
Qed.

Lemma tok_empty s : (Z.of_nat (tok_len s) =? 0)%Z = bool_decide (take (tok_len s) s = []).
Proof.
  pose proof (tok_len_le s) as H. case_bool_decide as E.
  - apply (f_equal length) in E. rewrite length_take in E. simpl in E.
    apply Z.eqb_eq. lia.
  - apply Z.eqb_neq. intros E2. apply E. by replace (tok_len s) with 0%nat by lia.
Qed.

(** What both the one-level and the whole-name insertion below [cur]
    establish: [c'] is what [c] became, [get] finds the result in it, and
    [cost] bytes suffice; labels stay well-formed when [lab] holds. *)
Record ins_post (lab well : Prop) (get : bt → option bt) (cost : Z) (a : prop_area) (cur : Z) (b : prop_bt)
    (c : bt) (r : option Z) (a' : prop_area) (c' : bt) : Prop := {
  ip_cur : data a' !! cur = Some (OBt (with_children (link c') b));
  ip_rep : rep (data a') c';
  ip_grows : grows a a' (cur :: offs c);
  ip_ordered : ordered c → ordered c';
  ip_labels : lab → labels_ok c → labels_ok c';
  ip_nodup : NoDup (cur :: offs c');
  ip_offs : ∀ k, k ∈ offs c' → k ∈ offs c ∨ (bytes_used a ≤ k)%Z;
  ip_props : ∀ ls, path_prop ls c' = path_prop ls c;
  ip_found : ∀ o, r = Some o → ∃ t', get c' = Some t' ∧ link t' = o;
  ip_full : r = None → well → (pa_data_size < bytes_used a + cost)%Z;
  ip_cost : (bytes_used a' ≤ bytes_used a + cost)%Z
}.

(** The state in which the loop is entered at node [cur]. *)
Record ins_pre (a : prop_area) (cur : Z) (b : prop_bt) (c : bt) : Prop := {
  pre_ok : area_ok a;
  pre_cur : data a !! cur = Some (OBt b);
  pre_link : bt_children b = link c;
  pre_rep : rep (data a) c;
  pre_nodup : NoDup (cur :: offs c)
}.

Definition bt_cost (n : cstr) : Z := align4 (sizeof_prop_bt + Z.of_nat (length n) + 1).

Lemma bt_cost_pos n : (0 < bt_cost n)%Z.
Proof. unfold bt_cost, sizeof_prop_bt. pose proof (align4_bounds (5 * 4 + Z.of_nat (length n) + 1)). lia. Qed.

Lemma with_children_id b c : bt_children b = c → with_children c b = b.
Proof. intros <-. by destruct b. Qed.

(** Nothing had to be inserted. *)
Lemma ins_post_id lab well get cost a cur b c r :
  ins_pre a cur b c → (0 ≤ cost)%Z →
  (∀ o, r = Some o → ∃ t', get c = Some t' ∧ link t' = o) →
  (r = None → well → (pa_data_size < bytes_used a + cost)%Z) →
  ins_post lab well get cost a cur b c r a c.
Proof.
  intros [] Hc Hr Hn. split; auto using grows_refl; [|lia].
  by rewrite with_children_id.
Qed.

Lemma grows_store a off x y :
  area_ok a → data a !! off = Some y → grows a (store a off x) [off].
Proof.
  intros [Hb Hf] Hoff. split; simpl; auto; [lia| |].
  - split; [done|]. simpl. intros k o. rewrite lookup_insert. case_decide; eauto.
    subst. eauto.
  - intros k _ Hk. rewrite lookup_insert_ne; [done|]. set_solver.
Qed.

Lemma grows_set_data a a1 d' S :
  area_ok a → grows a a1 [] → (∀ k, k ∈ S → is_Some (data a !! k)) →
  (∀ k, k ∉ S → d' !! k = data a1 !! k) → grows a (set_data a1 d') S.
Proof.
  intros [_ Ha] [m [Hb Hf] s g v f] HS Hd. split; simpl; auto.
  - split; [done|]. simpl. intros k o Hk. destruct (decide (k ∈ S)) as [Hin|Hin].
    + destruct (HS k Hin) as [y Hy]. apply Ha in Hy. lia.
    + rewrite Hd in Hk by done. eauto.
  - intros k Hk HkS. rewrite Hd by done. apply f; [done|apply not_elem_of_nil].
Qed.

(** One level: the children of [cur] get a node labelled with the token. *)
Section level.
Context (a : prop_area) (cur : Z) (b : prop_bt) (c : bt) (name : cstr) (n : Z).
Context (Hpre : ins_pre a cur b c) (Hn : (0 < n ≤ Z.of_nat (length name))%Z).
Let tok := take (Z.to_nat n) name.

Lemma tok_cost : (sizeof_prop_bt + n + 1 = sizeof_prop_bt + Z.of_nat (length tok) + 1)%Z.
Proof. unfold tok. rewrite length_take. lia. Qed.

Lemma new_bt_full :
  new_prop_bt pa_data_size a name n = None → (pa_data_size < bytes_used a + bt_cost tok)%Z.
Proof.
  unfold new_prop_bt. destruct (allocate_obj _ _ _) as [[]|] eqn:E; [done|]. intros _.
  apply allocate_None in E. unfold bt_cost. by rewrite <- tok_cost.
Qed.

Lemma level_leaf o a1 :
  c = Leaf → new_prop_bt pa_data_size a name n = Some (o, a1) →
  let a2 := store a1 cur (OBt (with_children o b)) in
  update_bt a1 cur (with_children o) = Ret a2 ∧ o = link (Node o tok 0 Leaf Leaf Leaf) ∧
  ins_post (good_label tok) True (sib_get tok) (bt_cost tok) a cur b c (Some o) a2 (Node o tok 0 Leaf Leaf Leaf).
Proof.
  intros -> Hnew a2. destruct Hpre as [Hok Hcur Hlink Hrep Hnd].
  destruct (rep_new_bt a name n o a1 Hok ltac:(lia) Hnew) as (Hr & Hfresh & Hd1).
  destruct (new_prop_bt_Some a name n o a1 [] Hok ltac:(lia) Hnew) as (Ho & Hlt & Heq & Hg & _).
  assert (Hne : cur ≠ o) by congruence.
  assert (Hcur1 : data a1 !! cur = Some (OBt b)) by (by rewrite Hd1, lookup_insert_ne).
  unfold update_bt, load_bt. rewrite Hcur1. cbn [cbind]. split_and!; [done..|].
  split; auto.
  - simpl. by rewrite lookup_insert_eq.
  - apply (rep_frame _ (data a1)); [done|]. simpl. intros k.
    rewrite list_elem_of_singleton. intros ->. by rewrite lookup_insert_ne.
  - eapply grows_trans; [exact Hg|apply (grows_store _ _ _ _ (grows_ok _ _ _ Hg) Hcur1)|..];
      set_solver.
  - simpl. auto.
  - simpl. auto.
  - simpl. apply NoDup_cons. split; [set_solver|apply NoDup_singleton].
  - simpl. intros k. rewrite list_elem_of_singleton. intros ->. lia.
  - intros ls. rewrite <- (path_prop_ins ls tok o Leaf); done.
  - intros ? [= <-]. exists (Node o tok 0 Leaf Leaf Leaf). split; [|done].
    simpl. by rewrite (proj2 (lcmp_eq tok tok)).
  - done.
  - simpl. rewrite Heq, tok_cost. unfold bt_cost. lia.
Qed.

Lemma level_node :
  c ≠ Leaf → ∃ r a1 c1,
    find_bt_sibling pa_data_size (S (size (data a))) a (Some (link c)) name n true =
      Ret (r, a1) ∧
    ins_post (good_label tok) True (sib_get tok) (bt_cost tok) a cur b c r a1 c1.
Proof.
  intros Hc. pose proof Hpre as [Hok Hcur Hlink Hrep Hnd].
  pose proof (bt_cost_pos tok) as Hpos. rewrite NoDup_cons in Hnd. destruct Hnd as [Hcn Hnd].
  assert (Hfuel : (sib_depth c ≤ S (size (data a)))%nat)
    by (pose proof (sib_depth_size _ _ Hrep Hnd); lia).
  destruct (sib_get tok c) as [s|] eqn:Hs.
  - eexists _, _, c.
    split; [apply find_bt_sibling_found with (s := s); auto; lia|].
    apply ins_post_id; [done|lia| |done]. intros ? [= <-]. eauto.
  - destruct (new_prop_bt pa_data_size a name n) as [[o a1]|] eqn:Hnew.
    + destruct (new_prop_bt_Some a name n o a1 [] Hok ltac:(lia) Hnew) as (Ho & Hlt & Heq & Hg & Hd1).
      destruct (find_bt_sibling_insert a c name n _ _ _ Hok Hrep Hc Hnd Hfuel
                  ltac:(lia) Hs Hnew) as (d' & Hfind & Hrep' & Hframe).
      eexists _, _, (sib_ins tok o c). split; [exact Hfind|].
      assert (Hco : cur ≠ o) by (intros ->; rewrite Ho, fresh_at_mark in Hcur; done).
      split; auto using ordered_ins, labels_ins.
      * simpl. rewrite Hframe by done. rewrite Hd1, lookup_insert_ne, Hcur by done.
        by rewrite link_ins, with_children_id.
      * apply grows_set_data; auto.
        -- intros k. rewrite elem_of_cons. intros [->|Hk]; [by eexists|].
           by eapply rep_dom.
        -- intros k Hk. apply Hframe. set_solver.
      * rewrite offs_ins by done. apply NoDup_cons. split; [set_solver|].
        apply NoDup_cons. split; [|done]. intros Hin.
        destruct (rep_dom _ _ _ _ Hrep Hin) as [? Hx].
        rewrite Ho, fresh_at_mark in Hx; done.
      * intros k. rewrite offs_ins by done. rewrite elem_of_cons. intros [->|]; [lia|auto].
      * intros ls. by apply path_prop_ins.
      * intros ? [= <-]. rewrite sib_get_ins_eq by done. eauto.
      * done.
      * simpl. rewrite Heq, tok_cost. unfold bt_cost. lia.
    + eexists _, _, c.
      split; [apply find_bt_sibling_full; auto; lia|].
      apply ins_post_id; auto using new_bt_full; [lia|done].
Qed.
End level.

(** Bytes that suffice for the nodes of a name. *)
Fixpoint path_cost (ls : list cstr) : Z :=
  match ls with [] => 0 | n :: ls => bt_cost n + path_cost ls end.

Lemma path_cost_nonneg ls : (0 ≤ path_cost ls)%Z.
Proof. induction ls as [|n ls IH]; cbn [path_cost]; [lia|]. pose proof (bt_cost_pos n). lia. Qed.

(** Names without an empty token, the only ones a node is found or made for. *)
Definition well_formed (ls : list cstr) : Prop := Forall (.≠ []) ls.

#[export] Instance well_formed_dec ls : Decision (well_formed ls).
Proof. unfold well_formed. apply _. Defined.

Lemma path_get_well_formed ls c t : path_get ls c = Some t → well_formed ls.
Proof.
  revert c t. induction ls as [|n ls IH]; intros c t; cbn [path_get]; [constructor|].
  case_decide as Hn; [done|]. destruct (sib_get n c) as [t1|] eqn:E; [|done].
  destruct (sib_get_name _ _ _ E) as (o & p & l & r & cc & ->). intros H. constructor; [done|].
  destruct ls as [|n2 ls]; [constructor|]. by eapply IH.
Qed.

(** The offsets below a node are replaced by others, old ones or new. *)
Lemma nodup_replace cur o (old new rest : list Z) mark :
  cur ∉ o :: rest ++ old → (cur < mark)%Z → NoDup (o :: rest ++ old) → NoDup (o :: new) →
  (∀ k, k ∈ o :: rest ++ old → (k < mark)%Z) → (∀ k, k ∈ new → k ∈ old ∨ (mark ≤ k)%Z) →
  NoDup (cur :: o :: rest ++ new).
Proof.
  rewrite !NoDup_cons, !NoDup_app. intros Hcur Hlt (Ho & Hrest & Hro & _) [Hon Hnew] Hm Hk. split_and!; try done.
  - rewrite elem_of_cons, elem_of_app. intros [->|[Hin|Hin]]; [set_solver..|].
    destruct (Hk _ Hin); [set_solver|lia].
  - set_solver.
  - intros k Hr Hin. destruct (Hk _ Hin) as [Hold|Hge]; [by apply (Hro k)|].
    assert (k < mark)%Z; [apply Hm; set_solver|lia].
Qed.

(** The first token inserted, the others inserted below it. *)
Lemma ins_post_descend a cur b c n ls o a1 c1 p l r cc r2 a2 cc' :
  n ≠ [] → ls ≠ [] →
  good_label n →
  ins_post (good_label n) True (sib_get n) (bt_cost n) a cur b c (Some o) a1 c1 →
  sib_get n c1 = Some (Node o n p l r cc) →
  ins_post True (well_formed ls) (path_get ls) (path_cost ls) a1 o
    {| bt_namelen := Z.of_nat (length n); bt_prop := p; bt_left := link l;
       bt_right := link r; bt_children := link cc; bt_name := n |} cc r2 a2 cc' →
  ins_post True (well_formed (n :: ls)) (path_get (n :: ls)) (path_cost (n :: ls)) a cur b c r2 a2
    (sib_upd n (λ p _, (p, cc')) c1).
Proof.
  intros Hn Hls Hgl [Hcur1 Hrep1 Hg1 Hord1 Hlab1 Hnd1 Hoff1 Hpr1 _ _ Hc1] Hget
    [Hcur2 Hrep2 Hg2 Hord2 Hlab2 Hnd2 Hoff2 Hpr2 Hf2 Hn2 Hc2].
  destruct (offs_upd n (λ p _, (p, cc')) _ _ _ _ _ _ Hget) as (rest & Hp1 & Hp2).
  simpl in Hp2. rewrite NoDup_cons in Hnd1. destruct Hnd1 as [Hcn1 Hnd1].
  assert (Hlt1 : ∀ k, k ∈ offs c1 → (k < bytes_used a1)%Z).
  { intros k Hk. apply area_ok_lt; [apply (grows_ok _ _ _ Hg1)|]. by eapply rep_dom. }
  assert (Hframe : ∀ k, is_Some (data a1 !! k) → k ≠ o → k ∉ offs cc →
                   data a2 !! k = data a1 !! k).
  { intros k Hk ? ?. apply (grows_frame _ _ _ Hg2); [|set_solver].
    apply area_ok_lt; [apply (grows_ok _ _ _ Hg1)|done]. }
  assert (Hsub : ∀ k, k ∈ o :: offs cc → k ∈ offs c1) by (intros k; rewrite Hp1; set_solver).
  split.
  - rewrite link_upd, Hframe; [done|by eexists|..]; intros Hin; apply Hcn1, Hsub; set_solver.
  - eapply rep_upd; [exact Hrep1|done|exact Hget|..]; try done.
    intros k Hk. apply Hframe. by eapply rep_dom.
  - eapply grows_trans; [exact Hg1|exact Hg2|done|].
    intros k Hk Hlt. apply Hsub, Hoff1 in Hk. set_unfold. destruct Hk; [auto|lia].
  - intros Hord. apply ordered_upd; [auto|]. simpl. intros o' p' l' r' c' Hget'.
    rewrite Hget in Hget'. simplify_eq. apply Hord2. eapply ordered_get; [|exact Hget]. auto.
  - intros _ Hlab. apply labels_upd; [auto|]. simpl. intros o' p' l' r' c' Hget'.
    rewrite Hget in Hget'. simplify_eq. apply Hlab2; [done|].
    eapply (labels_get n) in Hget; [simpl in Hget; tauto|auto].
  - rewrite Hp2. apply (nodup_replace _ _ (offs cc) _ _ (bytes_used a1)); try done.
    + by rewrite <- Hp1.
    + apply area_ok_lt; [apply (grows_ok _ _ _ Hg1)|by eexists].
    + by rewrite <- Hp1.
    + intros k. rewrite <- Hp1. apply Hlt1.
  - intros k. rewrite Hp2. rewrite elem_of_cons, elem_of_app.
    pose proof (grows_mark _ _ _ Hg1). intros [->|[Hin|Hin]].
    + apply Hoff1, Hsub. left.
    + apply Hoff1. rewrite Hp1. set_solver.
    + destruct (Hoff2 _ Hin); [|right; lia]. apply Hoff1, Hsub. by right.
  - intros ls'. rewrite (path_prop_upd_children _ _ _ _ _ _ _ _ _ Hget Hpr2). apply Hpr1.
  - intros o' Ho'. destruct (Hf2 o' Ho') as (t' & Ht' & Hl'). exists t'. split; [|done].
    cbn [path_get]. rewrite decide_False by done.
    rewrite (sib_get_upd_eq _ _ _ _ _ _ _ _ Hget). by destruct ls.
  - intros Hr [_ Hw]%Forall_cons. specialize (Hn2 Hr Hw). cbn [path_cost]. lia.
  - cbn [path_cost]. lia.
Qed.

Lemma load_bt_data a o b : data a !! o = Some (OBt b) → load_bt a o = Ret b.
Proof. unfold load_bt. by intros ->. Qed.

Lemma u32_tok s : (Z.of_nat (length s) < 2 ^ 32)%Z → u32 (Z.of_nat (tok_len s)) = Z.of_nat (tok_len s).
Proof. intros H. pose proof (tok_len_le s). apply u32_small. lia. Qed.

(** The part of one iteration that looks for the token [name[0..n)] among the
    children of [cur], creating the first child when there is none. *)
Definition find_level (a : prop_area) (cur : Z) (b : prop_bt) (name : cstr) (n : Z)
    (alloc : bool) : cres (option Z * prop_area) :=
  let! (root, a) :=
    if negb (bt_children b =? 0)%Z then Ret (to_prop_obj pa_data_size (bt_children b), a)
    else if alloc then
      match new_prop_bt pa_data_size a name n with
      | None => Ret (None, a)
      | Some (o, a) => let! a := update_bt a cur (with_children o) in Ret (Some o, a)
      end
    else Ret (None, a) in
  match root with
  | None => Ret (None, a)
  | Some _ => find_bt_sibling pa_data_size (S (size (data a))) a root name n alloc
  end.

(** One step of the loop, on the token the loop computes. *)
Lemma find_bt_loop_step fuel a cur s alloc :
  (Z.of_nat (length s) < 2 ^ 32)%Z →
  find_bt_loop pa_data_size (S fuel) a cur s alloc =
    if decide (take (tok_len s) s = []) then Ret (None, a)
    else
      let! b := load_bt a cur in
      let! (found, a) := find_level a cur b s (Z.of_nat (tok_len s)) alloc in
      match found with
      | None => Ret (None, a)
      | Some cur =>
        match strchr s "."%char with
        | None => Ret (Some cur, a)
        | Some i => find_bt_loop pa_data_size fuel a cur (drop (S i) s) alloc
        end
      end.
Proof.
  intros Hs. cbn [find_bt_loop]. fold (tok_len s). rewrite u32_tok, tok_empty by done.
  case_bool_decide as Htok; [by rewrite decide_True|]. rewrite decide_False by done.
  destruct (load_bt a cur); [|done..]. cbn [cbind]. unfold find_level.
  destruct (negb _); cbn [cbind]; [by destruct (to_prop_obj _ _)|].
  destruct alloc; [|done]. destruct (new_prop_bt _ _ _ _) as [[o a1]|]; [|done].
  by destruct (update_bt _ _ _).
Qed.

Lemma find_level_search a cur b c name n :
  bt_children b = link c → rep (data a) c → NoDup (offs c) →
  (0 ≤ n ≤ Z.of_nat (length name))%Z →
  find_level a cur b name n false = Ret (link <$> sib_get (take (Z.to_nat n) name) c, a).
Proof.
  intros Hlink Hrep Hnd Hn. unfold find_level.
  rewrite Hlink, (rep_link_nonzero pa_data_size (data a)) by done.
  case_bool_decide as Hleaf; cbn [negb cbind]; [by subst|].
  rewrite (rep_to_prop_obj pa_data_size (data a)) by done.
  apply find_bt_sibling_search; [done..| |done].
  pose proof (sib_depth_size _ _ Hrep Hnd). lia.
Qed.

Lemma find_level_insert a cur b c name n :
  ins_pre a cur b c → (0 < n ≤ Z.of_nat (length name))%Z →
  ∃ r a1 c1, find_level a cur b name n true = Ret (r, a1) ∧
    ins_post (good_label (take (Z.to_nat n) name)) True (sib_get (take (Z.to_nat n) name)) (bt_cost (take (Z.to_nat n) name))
      a cur b c r a1 c1.
Proof.
  intros Hpre Hn. pose proof Hpre as [Hok Hcur Hlink Hrep Hnd]. unfold find_level.
  rewrite Hlink, (rep_link_nonzero pa_data_size (data a)) by done.
  case_bool_decide as Hleaf; cbn [negb cbind].
  - destruct (new_prop_bt pa_data_size a name n) as [[o a1]|] eqn:Hnew.
    + destruct (level_leaf a cur b c name n Hpre Hn o a1 Hleaf Hnew) as (-> & Ho & Hpost).
      cbn [cbind]. eexists _, _, _. split; [|exact Hpost].
      set (a2 := store a1 cur (OBt (with_children o b))) in *. rewrite Ho at 1.
      rewrite (find_bt_sibling_found a2 (Node o (take (Z.to_nat n) name) 0 Leaf Leaf Leaf)
                 name n _ (Node o (take (Z.to_nat n) name) 0 Leaf Leaf Leaf)); [done|..].
      * apply (ip_rep _ _ _ _ _ _ _ _ _ _ _ Hpost).
      * simpl. lia.
      * lia.
      * simpl. by rewrite (proj2 (lcmp_eq _ _) eq_refl).
    + eexists _, a, c. split; [done|]. pose proof (bt_cost_pos (take (Z.to_nat n) name)).
      apply ins_post_id; [done|lia|done|]. intros _ _. by apply (new_bt_full a name n).
  - rewrite (rep_to_prop_obj pa_data_size (data a)) by done.
    by apply (level_node a cur b c name n).
Qed.

(** Searching does not change the area and finds what the tree holds. *)
Lemma find_bt_loop_search fuel a cur b c s :
  load_bt a cur = Ret b → bt_children b = link c → rep (data a) c → NoDup (offs c) →
  (length s < fuel)%nat → (Z.of_nat (length s) < 2 ^ 32)%Z →
  find_bt_loop pa_data_size fuel a cur s false = Ret (link <$> path_get (split_dot s) c, a).
Proof.
  revert cur b c s. induction fuel as [|fuel IH]; [lia|].
  intros cur b c s Hb Hlink Hrep Hnd Hfuel Hlen.
  rewrite find_bt_loop_step, split_dot_tok by done. cbn [path_get].
  pose proof (tok_len_le s) as Htl.
  destruct (decide (take (tok_len s) s = [])) as [|Htok]; [done|].
  rewrite Hb. cbn [cbind].
  rewrite (find_level_search a cur b c s (Z.of_nat (tok_len s)) Hlink Hrep Hnd ltac:(lia)).
  rewrite Nat2Z.id. cbn [cbind].
  destruct (sib_get _ c) as [t|] eqn:Hget; [|done]. cbn [fmap option_fmap option_map].
  destruct (sib_get_name _ _ _ Hget) as (o & p & l & r & cc & ->). cbn [link].
  destruct (strchr s _) as [i|] eqn:Hsep; [|done].
  pose proof (split_dot_nonempty (drop (S i) s)) as Hne.
  pose proof (strchr_lt _ _ _ Hsep) as Hi.
  pose proof (rep_get _ _ _ _ _ Hrep Hget) as Hrept.
  rewrite (IH o _ cc (drop (S i) s) (load_rep _ _ _ _ _ _ _ _ Hrept eq_refl) eq_refl).
  - by destruct (split_dot _).
  - simpl in Hrept. tauto.
  - eapply NoDup_offs_children, NoDup_offs_get; [exact Hnd|exact Hget].
  - rewrite length_drop. lia.
  - rewrite length_drop. lia.
Qed.

(** The node an insertion returns, as the state of the next iteration. *)
Lemma ins_post_next lab well get cost a cur b c o a' c' n :
  ins_post lab well get cost a cur b c (Some o) a' c' → get = sib_get n →
  ∃ p l r cc, sib_get n c' = Some (Node o n p l r cc) ∧
    ins_pre a' o {| bt_namelen := Z.of_nat (length n); bt_prop := p; bt_left := link l;
                    bt_right := link r; bt_children := link cc; bt_name := n |} cc.
Proof.
  intros [Hcur Hrep Hg Hord _ Hnd Hoff Hpr Hf _ _] ->.
  destruct (Hf o eq_refl) as (t & Hget & <-).
  destruct (sib_get_name _ _ _ Hget) as (o & p & l & r & cc & ->). simpl.
  exists p, l, r, cc. split; [done|].
  pose proof (rep_get _ _ _ _ _ Hrep Hget) as Hrept. simpl in Hrept.
  rewrite NoDup_cons in Hnd. destruct Hnd as [_ Hnd].
  pose proof (NoDup_offs_get _ _ _ Hnd Hget) as Hndt. simpl in Hndt.
  rewrite NoDup_cons, !NoDup_app in Hndt.
  split; [apply (grows_ok _ _ _ Hg)|tauto|done|tauto|].
  apply NoDup_cons. split; [set_solver|tauto].
Qed.

(** Inserting a whole name below [cur]. *)
Lemma find_bt_loop_insert fuel a cur b c s :
  ins_pre a cur b c → (length s < fuel)%nat → (Z.of_nat (length s) < 2 ^ 32)%Z →
  ∃ r a' c', find_bt_loop pa_data_size fuel a cur s true = Ret (r, a') ∧
    ins_post True (well_formed (split_dot s)) (path_get (split_dot s)) (path_cost (split_dot s)) a cur b c r a' c'.
Proof.
  revert a cur b c s. induction fuel as [|fuel IH]; [lia|].
  intros a cur b c s Hpre Hfuel Hlen. rewrite find_bt_loop_step by done.
  pose proof (split_dot_tok s) as Hsplit.
  pose proof (tok_len_le s) as Htl. pose proof Hpre as [Hok Hcur Hlink Hrep Hnd].
  pose proof (path_cost_nonneg (split_dot s)) as Hnonneg.
  destruct (decide (take (tok_len s) s = [])) as [Htok|Htok].
  { eexists _, a, c. split; [done|]. apply ins_post_id; [done|done|done|]. intros _.
    rewrite Hsplit, Htok. by intros [[] _]%Forall_cons. }
  rewrite (load_bt_data _ _ _ Hcur). cbn [cbind].
  assert (Hn : (0 < Z.of_nat (tok_len s) ≤ Z.of_nat (length s))%Z)
    by (destruct (tok_len s); [done|lia]).
  destruct (find_level_insert _ _ _ _ s _ Hpre Hn) as (r & a1 & c1 & -> & Hpost).
  rewrite Nat2Z.id in Hpost. cbn [cbind].
  pose proof (conj Htok (tok_no_dot s)) as Hgl.
  destruct r as [o|].
  - destruct (ins_post_next _ _ _ _ _ _ _ _ _ _ _ _ Hpost eq_refl) as (p & l & r & cc & Hget & Hpre1).
    destruct (strchr s _) as [i|] eqn:Hsep.
    + pose proof (strchr_lt _ _ _ Hsep) as Hi.
      destruct (IH a1 o _ cc (drop (S i) s) Hpre1) as (r2 & a2 & cc' & -> & Hpost2);
        [rewrite length_drop; lia..|].
      eexists _, _, _. split; [reflexivity|]. rewrite Hsplit.
      eapply ins_post_descend; [done|apply split_dot_nonempty|done|exact Hpost|exact Hget|exact Hpost2].
    + eexists _, _, c1. split; [done|]. rewrite Hsplit. destruct Hpost.
      split; try done.
      * intros _. by apply ip_labels0.
      * intros o' Ho'. cbn [path_get]. rewrite decide_False by done.
        destruct (ip_found0 o' Ho') as (t' & Ht' & Hl'). exists t'. split; [|done].
        rewrite Ht'. by destruct (sib_get_name _ _ _ Ht') as (?&?&?&?&?&->).
      * cbn [path_cost]. lia.
  - eexists _, _, c1. split; [done|]. destruct Hpost.
    assert (bt_cost (take (tok_len s) s) ≤ path_cost (split_dot s))%Z as Hle.
    { rewrite Hsplit. cbn [path_cost].
      match goal with |- context [path_cost ?l] => pose proof (path_cost_nonneg l) end. lia. }
    split; try done; [|specialize (ip_full0 eq_refl I); lia|lia].
    intros _. by apply ip_labels0.
Qed.
End proofs.
