(* ===== verification/PropAreaSpec.v ===== *)
(** What a property area promises: it is a finite map from names to values.
    [represents a m] relates an area to the map; every public operation of
    [PropArea] is shown to act on the map as its contract says. *)

From Stdlib Require Import ZArith Lia Ascii.
From stdpp Require Import base numbers strings gmap list.
From S2P Require Import Prelude CString PropInfo PropArea PropTrie PropAreaProofs.

Lemma path_get_offs ls t t' : path_get ls t = Some t' → offs t' ⊆ offs t.
Proof.
  revert t. induction ls as [|n ls IH]; [done|]. intros t. cbn [path_get].
  case_decide; [done|]. destruct (sib_get n t) as [s|] eqn:E; [|done].
  pose proof (offs_get _ _ _ E) as Hsub.
  destruct (sib_get_name _ _ _ E) as (o & p & l & r & c & ->).
  destruct ls; [by intros [= <-]|]. intros H'. apply IH in H'. simpl in *. set_solver.
Qed.

Lemma path_get_node ls t t' :
  path_get ls t = Some t' → ∃ o n p l r c, t' = Node o n p l r c.
Proof.
  revert t. induction ls as [|n ls IH]; [done|]. intros t. cbn [path_get].
  case_decide; [done|]. destruct (sib_get n t) as [s|] eqn:E; [|done].
  destruct (sib_get_name _ _ _ E) as (o & p & l & r & c & ->).
  destruct ls; [intros [= <-]; eauto 7|]. apply IH.
Qed.

Section spec.
Context (pa_data_size : Z) (pads_u32 : (pa_data_size < 2 ^ 32)%Z).
Notation rep := (rep pa_data_size).
Notation area_ok := (area_ok pa_data_size).

(** The record of a node of a tree. *)
Definition node_bt (n : cstr) (p : Z) (l r c : bt) : prop_bt :=
  {| bt_namelen := Z.of_nat (length n); bt_prop := p; bt_left := link l;
     bt_right := link r; bt_children := link c; bt_name := n |}.

Lemma rep_path_get d ls t o n p l r c :
  rep d t → path_get ls t = Some (Node o n p l r c) → d !! o = Some (OBt (node_bt n p l r c)).
Proof.
  revert t. induction ls as [|m ls IH]; [done|]. intros t Hrep. cbn [path_get].
  case_decide; [done|]. destruct (sib_get m t) as [s|] eqn:E; [|done].
  pose proof (rep_get _ _ _ _ _ Hrep E) as Hs.
  destruct (sib_get_name _ _ _ E) as (o' & p' & l' & r' & c' & ->).
  destruct ls; simpl in Hs; [intros [= -> -> -> -> -> ->]; unfold node_bt; tauto|].
  apply IH. tauto.
Qed.

(** Storing into the [prop] field of the node at a path. *)
Lemma rep_set_prop d ls v t o n p l r c :
  rep d t → NoDup (offs t) → path_get ls t = Some (Node o n p l r c) →
  rep (<[o := OBt (node_bt n v l r c)]> d) (path_set_prop ls v t).
Proof.
  revert t. induction ls as [|m ls IH]; [done|]. intros t Hrep Hnd. cbn [path_get].
  case_decide; [done|]. destruct (sib_get m t) as [s|] eqn:E; [|done].
  pose proof (rep_get _ _ _ _ _ Hrep E) as Hs.
  pose proof (NoDup_offs_get _ _ _ Hnd E) as Hnds.
  destruct (sib_get_name _ _ _ E) as (o' & p' & l' & r' & c' & ->).
  simpl in Hs, Hnds. rewrite NoDup_cons, !NoDup_app in Hnds.
  destruct ls as [|m' ls].
  - intros [= -> -> -> -> -> ->]. cbn [path_set_prop].
    eapply rep_upd; [exact Hrep|done|exact E|..].
    + intros k _ Hk _. by rewrite lookup_insert_ne.
    + by rewrite lookup_insert_eq.
    + apply (rep_frame _ d); [tauto|]. intros k Hk. rewrite lookup_insert_ne; [done|].
      intros <-. set_solver.
  - intros Hget. pose proof (path_get_offs _ _ _ Hget) as Hsub.
    assert (Ho : o ∈ offs c') by (apply Hsub; left).
    change (path_set_prop (m :: m' :: ls) v t)
      with (sib_upd m (λ p c, (p, path_set_prop (m' :: ls) v c)) t).
    eapply rep_upd; [exact Hrep|done|exact E|..].
    + intros k _ _ Hk. rewrite lookup_insert_ne; [done|]. intros ->. done.
    + rewrite lookup_insert_ne by (intros ->; set_solver). cbn [fst snd].
      rewrite link_set_prop. tauto.
    + cbn [snd]. apply IH; tauto.
Qed.

(** ** Well-formed areas *)

(** The value of a record; a long record holds a value too long for a short
    one. *)
Definition has_value (a : prop_area) (o : Z) (v : cstr) : Prop :=
  prop_value a o = Ret v ∧
  ∀ pi, data a !! o = Some (OInfo pi) → is_long pi = true →
    (PROP_VALUE_MAX ≤ Z.of_nat (length v))%Z.

(** The area [a] holds the trie [c] below its root node. *)
Record area_tree (a : prop_area) (c : bt) : Prop := {
  at_ok : area_ok a;
  at_root : data a !! 0%Z = Some (OBt (node_bt [] 0 Leaf Leaf c));
  at_rep : rep (data a) c;
  at_nodup : NoDup (offs c);
  at_ordered : ordered c;
  at_labels : labels_ok c;
  at_props : ∀ ls, path_prop ls c ≠ 0%Z →
    (0 < path_prop ls c ≤ pa_data_size)%Z ∧
    (∃ pi, data a !! path_prop ls c = Some (OInfo pi) ∧ rec_ok (join_dot ls) pi) ∧
    ∃ v, has_value a (path_prop ls c) v
}.

(** The map [m] is what the trie [c] of [a] stores. *)
Definition holds (a : prop_area) (c : bt) (m : gmap cstr cstr) : Prop :=
  ∀ name v, m !! name = Some v ↔
    path_prop (split_dot name) c ≠ 0%Z ∧ prop_value a (path_prop (split_dot name) c) = Ret v.

Definition represents (a : prop_area) (m : gmap cstr cstr) : Prop :=
  ∃ c, area_tree a c ∧ holds a c m.

Lemma holds_None a c m name :
  area_tree a c → holds a c m → m !! name = None ↔ path_prop (split_dot name) c = 0%Z.
Proof.
  intros Ht Hm. split.
  - intros Hn. destruct (decide (path_prop (split_dot name) c = 0%Z)) as [|Hp]; [done|].
    destruct (at_props _ _ Ht _ Hp) as (_ & _ & v & Hv & _).
    assert (m !! name = Some v) by (by apply Hm). congruence.
  - intros Hp. destruct (m !! name) as [v|] eqn:E; [|done]. apply Hm in E. tauto.
Qed.

Lemma load_info_data a o pi : data a !! o = Some (OInfo pi) → load_info a o = Ret pi.
Proof. unfold load_info. by intros ->. Qed.

(** Records and their long values survive changes of trie nodes. *)
Lemma prop_value_frame a a' o v :
  prop_value a o = Ret v →
  (∀ k x, data a !! k = Some x → (∀ b, x ≠ OBt b) → data a' !! k = Some x) →
  prop_value a' o = Ret v.
Proof.
  unfold prop_value, load_info. intros Hv Hf.
  destruct (data a !! o) as [[| |]|] eqn:E; try done. rewrite (Hf _ _ E) by done.
  cbn [cbind] in *. destruct (is_long pi); [|done]. unfold long_value in *.
  destruct (long_property_offset pi) as [rel| |]; try done. cbn [cbind] in *.
  destruct (data a !! (o + rel)%Z) as [[| |]|] eqn:E2; try done. by rewrite (Hf _ _ E2).
Qed.

Lemma has_value_frame a a' o v :
  has_value a o v →
  (∀ k x, data a !! k = Some x → (∀ b, x ≠ OBt b) → data a' !! k = Some x) →
  has_value a' o v.
Proof.
  intros [Hv Hl] Hf. split; [by eapply prop_value_frame|]. intros pi Hpi.
  unfold prop_value, load_info in Hv. destruct (data a !! o) as [[|p|]|] eqn:E; try done.
  rewrite (Hf _ _ E) in Hpi by done. injection Hpi as <-. by apply Hl.
Qed.

Lemma grows_frame_records a a' c b :
  area_ok a → rep (data a) c → data a !! 0%Z = Some (OBt b) →
  grows pa_data_size a a' (0%Z :: offs c) →
  ∀ k x, data a !! k = Some x → (∀ b, x ≠ OBt b) → data a' !! k = Some x.
Proof.
  intros Hok Hrep H0 Hg k x Hk Hx. rewrite <- Hk. apply (grows_frame _ _ _ _ Hg).
  - by apply (area_ok_lt _ _ _ Hok).
  - rewrite elem_of_cons. intros [->|Hin]; [naive_solver|].
    assert (∃ b, data a !! k = Some (OBt b)) as [b' Hb']; [|naive_solver].
    clear -Hrep Hin. induction c as [|o n p l IHl r IHr c IHc]; simpl in *; [set_solver|].
    destruct Hrep as (_ & Ho & Hl & Hr & Hc). set_unfold. naive_solver.
Qed.

(** An extension of the trie that stores no property keeps the map. *)
Lemma area_tree_ext a c a' c' m :
  area_tree a c → holds a c m → grows pa_data_size a a' (0%Z :: offs c) →
  data a' !! 0%Z = Some (OBt (node_bt [] 0 Leaf Leaf c')) →
  rep (data a') c' → NoDup (offs c') → ordered c' → labels_ok c' →
  (∀ ls, path_prop ls c' = path_prop ls c) →
  area_tree a' c' ∧ holds a' c' m.
Proof.
  intros [Hok H0 Hrep Hnd Hord Hlab Hp] Hm Hg Hb' Hrep' Hnd' Hord' Hlab' Hpp.
  pose proof (grows_frame_records _ _ _ _ Hok Hrep H0 Hg) as Hf. split.
  - split; auto; [apply (grows_ok _ _ _ _ Hg)|]. intros ls. rewrite Hpp. intros Hne.
    destruct (Hp ls Hne) as (Hr & (pi & Hpi & Hn) & v & Hv). split_and!; try lia.
    + exists pi. split; [|done]. by apply Hf.
    + exists v. by eapply has_value_frame.
  - intros name v. rewrite Hpp, (Hm name v). split; intros [Hne Hv]; (split; [done|]).
    + by eapply prop_value_frame.
    + destruct (Hp _ Hne) as (_ & _ & v' & Hv' & _).
      assert (prop_value a' (path_prop (split_dot name) c) = Ret v')
        by (by eapply prop_value_frame). congruence.
Qed.

(** ** Allocating a record *)

Definition info_cost (name value : cstr) : Z :=
  align4 (sizeof_prop_info + Z.of_nat (length name) + 1) +
  (if (Z.of_nat (length value) >=? PROP_VALUE_MAX)%Z
   then align4 (Z.of_nat (length value) + 1) else 0).

Lemma new_prop_info_spec a name value r a' :
  area_ok a → no_nul value →
  new_prop_info pa_data_size a name (Z.of_nat (length name)) value (Z.of_nat (length value))
    = (r, a') →
  grows pa_data_size a a' [] ∧
  (r = None → (pa_data_size < bytes_used a + info_cost name value)%Z) ∧
  (∀ o, r = Some o → (bytes_used a ≤ o < bytes_used a')%Z ∧
     (∃ pi, data a' !! o = Some (OInfo pi) ∧ rec_ok name pi) ∧ has_value a' o value).
Proof.
  intros Hok Hv. unfold new_prop_info, info_cost.
  assert (Hs1 : (0 < sizeof_prop_info + Z.of_nat (length name) + 1)%Z)
    by (unfold sizeof_prop_info, PROP_VALUE_MAX; lia).
  pose proof (grows_refl _ a [] Hok) as Hg0. pose proof Hok as [[Hpos _] _].
  destruct (allocate_obj _ a _) as [[o1 a1]|] eqn:E1.
  2:{ apply allocate_None in E1. intros [= <- <-]. split_and!; [done| |done].
      intros _. pose proof (align4_bounds (Z.of_nat (length value) + 1)). case_match; lia. }
  destruct (grows_alloc _ pads_u32 _ _ _ _ _ _ Hpos Hg0 Hs1 E1) as (Hg1 & Ho1 & -> & Hd1 & Hm1).
  destruct (_ >=? _)%Z eqn:Hlong.
  - assert (Hs2 : (0 < Z.of_nat (length value) + 1)%Z) by lia.
    destruct (allocate_obj _ a1 _) as [[o2 a2]|] eqn:E2.
    2:{ apply allocate_None in E2. intros [= <- <-]. split_and!; [done| |done]. lia. }
    destruct (grows_alloc _ pads_u32 _ _ _ _ _ _ Hpos Hg1 Hs2 E2) as (Hg2 & Ho2 & -> & Hd2 & Hm2).
    intros [= <- <-]. rewrite Nat2Z.id, firstn_all.
    assert (Hle : (bytes_used a1 < 2 ^ 32)%Z)
      by (destruct (grows_ok _ _ _ _ Hg1) as [? _]; lia).
    split_and!; [|done|].
    + repeat apply grows_store_new; simpl; auto; lia.
    + intros o [= <-]. cbn [store set_data data bytes_used]. split_and!; try lia.
      * rewrite lookup_insert_eq. eexists. split; [reflexivity|]. apply long_rec_ok.
      * split; [|intros; by apply Z.geb_le].
        unfold prop_value, load_info. cbn [store set_data data]. rewrite lookup_insert_eq.
        cbn [cbind]. rewrite long_is_long. unfold long_value.
        rewrite u32_small, long_offset_roundtrip by lia. cbn [cbind store set_data data].
        rewrite lookup_insert_ne by lia.
        replace (bytes_used a + (bytes_used a1 - bytes_used a))%Z with (bytes_used a1) by lia.
        rewrite lookup_insert_eq. by rewrite c_str_of_app.
  - intros [= <- <-]. split_and!; [|done|].
    + apply grows_store_new; auto. lia.
    + intros o [= <-]. cbn [store set_data data bytes_used]. split_and!; try lia.
      * rewrite lookup_insert_eq. eexists. split; [reflexivity|]. rewrite Z.geb_leb in Hlong. apply Z.leb_gt in Hlong.
        by apply short_rec_ok.
      * split; cycle 1.
        { intros pi Hpi Hl. rewrite Z.geb_leb in Hlong. apply Z.leb_gt in Hlong.
          cbn [store set_data data] in Hpi. rewrite lookup_insert_eq in Hpi. injection Hpi as <-.
          rewrite short_not_long in Hl by (unfold PROP_VALUE_MAX in *; lia). done. }
        unfold prop_value, load_info. cbn [store set_data data]. rewrite lookup_insert_eq.
        cbn [cbind]. rewrite Z.geb_leb in Hlong. apply Z.leb_gt in Hlong.
        rewrite short_not_long by (unfold PROP_VALUE_MAX in *; lia).
        by rewrite short_value_c_str.
Qed.

(** ** The operations on the trie *)

(** Names whose length a [uint32_t] holds. *)
Definition name_ok (name : cstr) : Prop := (Z.of_nat (length name) < 2 ^ 32)%Z.

Lemma root_node_ok a : area_ok a → root_node pa_data_size = Some 0%Z.
Proof.
  intros [Hb _]. unfold root_node, to_prop_obj. rewrite Z.gtb_ltb.
  by rewrite (proj2 (Z.ltb_ge _ _)) by lia.
Qed.

Lemma find_prop_bt_search a c name :
  area_tree a c → name_ok name →
  find_prop_bt pa_data_size a (root_node pa_data_size) name false =
    Ret (link <$> path_get (split_dot name) c, a).
Proof.
  intros [Hok H0 Hrep Hnd _ _ _] Hn. rewrite (root_node_ok a Hok).
  cbn [find_prop_bt].
  by apply (find_bt_loop_search _ _ _ _ _ _ _ (load_bt_data _ _ _ H0)); auto; lia.
Qed.

Lemma find_property_search a c name v vl nl :
  area_tree a c → name_ok name →
  find_property pa_data_size a (root_node pa_data_size) name nl v vl false =
    Ret (if decide (path_prop (split_dot name) c = 0%Z) then None
         else Some (path_prop (split_dot name) c), a).
Proof.
  intros Ht Hn. unfold find_property. rewrite (find_prop_bt_search a c name Ht Hn).
  cbn [cbind]. pose proof (at_props _ _ Ht (split_dot name)) as Hp. unfold path_prop in *.
  destruct (path_get (split_dot name) c) as [t|] eqn:E; [|done].
  destruct (path_get_node _ _ _ E) as (o & n & p & l & r & cc & ->). simpl in *.
  rewrite (load_bt_data _ _ _ (rep_path_get _ _ _ _ _ _ _ _ _ (at_rep _ _ Ht) E)). simpl.
  destruct (decide (p = 0%Z)) as [->|Hne]; [done|].
  rewrite (proj2 (Z.eqb_neq _ _)) by done. simpl. unfold to_prop_obj. rewrite Z.gtb_ltb.
  by rewrite (proj2 (Z.ltb_ge _ _)) by (destruct (Hp Hne); lia).
Qed.

(** Storing a record offset at the node of a name. *)
Lemma area_tree_set_prop a c m name o n p l r cc q a' :
  area_tree a c → holds a c m → path_get (split_dot name) c = Some (Node o n p l r cc) →
  a' = store a o (OBt (node_bt n q l r cc)) →
  (q ≠ 0 → (0 < q ≤ pa_data_size) ∧
     (∃ pi, data a !! q = Some (OInfo pi) ∧ rec_ok name pi) ∧
     ∃ v, has_value a q v)%Z →
  area_tree a' (path_set_prop (split_dot name) q c) ∧
  holds a' (path_set_prop (split_dot name) q c)
    (if decide (q = 0%Z) then delete name m
     else match prop_value a q with Ret v => <[name := v]> m | _ => m end).
Proof.
  intros Ht Hm Hget -> Hq. pose proof Ht as [Hok H0 Hrep Hnd Hord Hlab Hp].
  pose proof (rep_path_get _ _ _ _ _ _ _ _ _ Hrep Hget) as Ho.
  assert (Hrec : ∀ k x, data a !! k = Some x → (∀ b, x ≠ OBt b) →
            data (store a o (OBt (node_bt n q l r cc))) !! k = Some x).
  { intros k x Hk Hx. simpl. rewrite lookup_insert_ne; [done|]. intros ->. naive_solver. }
  assert (Ho0 : o ≠ 0%Z).
  { intros ->. pose proof (path_get_offs _ _ _ Hget) as Hsub.
    pose proof (rep_offs_pos _ _ _ 0%Z Hrep (Hsub 0%Z ltac:(simpl; left))). lia. }
  split.
  - split; auto using ordered_set_prop, labels_set_prop.
    + eapply grows_ok, grows_store; [exact pads_u32|exact Hok|exact Ho].
    + simpl. rewrite lookup_insert_ne by done. rewrite H0. unfold node_bt. by rewrite link_set_prop.
    + simpl. by eapply rep_set_prop.
    + by rewrite offs_set_prop.
    + intros ls. destruct (decide (split_dot name = ls)) as [<-|Hne].
      * rewrite (path_prop_set_eq _ _ _ _ Hget). intros Hq0.
        destruct (Hq Hq0) as (Hb & (pi & Hpi & Hro) & v & Hv). split_and!; try lia.
        -- exists pi. split; [by apply Hrec|]. by rewrite join_split.
        -- exists v. by eapply has_value_frame.
      * rewrite (path_prop_set_ne _ _ _ _ Hne). intros Hp0.
        destruct (Hp ls Hp0) as (Hb & (pi & Hpi & Hn') & v & Hv). split_and!; try lia.
        -- exists pi. split; [by apply Hrec|done].
        -- exists v. by eapply has_value_frame.
  - intros name' v. destruct (decide (name = name')) as [<-|Hne].
    + rewrite (path_prop_set_eq _ _ _ _ Hget).
      destruct (decide (q = 0%Z)) as [->|Hq0].
      * rewrite lookup_delete_eq. naive_solver.
      * destruct (Hq Hq0) as (_ & _ & v' & Hv' & _). rewrite Hv', lookup_insert_eq.
        rewrite (prop_value_frame _ _ _ _ Hv' Hrec). naive_solver.
    + rewrite path_prop_set_ne by (intros E; apply Hne; by apply (inj split_dot)).
      transitivity (m !! name' = Some v).
      { destruct (decide (q = 0%Z)); [by rewrite lookup_delete_ne|].
        destruct (prop_value a q); [by rewrite lookup_insert_ne|done..]. }
      rewrite (Hm name' v). split; intros [Hp0 Hv]; (split; [done|]).
      * by eapply prop_value_frame.
      * destruct (Hp _ Hp0) as (_ & _ & v' & Hv' & _).
        rewrite (prop_value_frame _ _ _ _ Hv' Hrec) in Hv. congruence.
Qed.

(** ** The public operations *)

Lemma find_offset a c m name :
  area_tree a c → holds a c m → name_ok name →
  find pa_data_size a name =
    Ret (if decide (path_prop (split_dot name) c = 0%Z) then None
         else Some (path_prop (split_dot name) c)).
Proof.
  intros Ht Hm Hn. unfold find.
  by rewrite (find_property_search a c name _ _ _ Ht Hn).
Qed.

(** What [find] promises of a name of the map [m]. *)
Definition find_result (a : prop_area) (m : gmap cstr cstr) (name : cstr) (r : option Z) : Prop :=
  match r with
  | None => m !! name = None
  | Some o => ∃ v pi, m !! name = Some v ∧ data a !! o = Some (OInfo pi) ∧
                rec_ok name pi ∧ has_value a o v
  end.

Lemma find_result_ok a m name :
  represents a m → name_ok name →
  ∃ r, find pa_data_size a name = Ret r ∧ find_result a m name r.
Proof.
  intros (c & Ht & Hm) Hn. eexists. split; [by eapply find_offset|].
  case_decide as Hp; simpl.
  - by apply (holds_None a c m name Ht Hm).
  - destruct (at_props _ _ Ht _ Hp) as (_ & (pi & Hpi & Hname) & v & Hv).
    rewrite join_split in Hname. exists v, pi. do 3 (split; [by try apply Hm; destruct Hv|]). done.
Qed.

Lemma represents_new mg ver :
  (sizeof_prop_bt ≤ pa_data_size)%Z → represents (new_prop_area mg ver) ∅.
Proof.
  intros Hs. exists Leaf. split.
  - split; simpl; auto using NoDup_nil_2.
    + split; simpl; [unfold sizeof_prop_bt in *; lia|]. intros k o.
      rewrite lookup_singleton_Some. unfold sizeof_prop_bt. lia.
    + intros ls. by rewrite path_prop_Leaf.
  - intros name v. rewrite lookup_empty, path_prop_Leaf. naive_solver.
Qed.

(** Adding: the trie gets the path of the name, then the record. *)
Definition add_result (a : prop_area) (m : gmap cstr cstr) (name value : cstr)
    (ok : bool) (a' : prop_area) : Prop :=
  represents a' (if ok then <[name := default value (m !! name)]> m else m) ∧
  (ok = true → well_formed (split_dot name)) ∧
  (ok = false → well_formed (split_dot name) →
     (pa_data_size < bytes_used a + path_cost (split_dot name) + info_cost name value)%Z) ∧
  (bytes_used a ≤ bytes_used a')%Z ∧
  area_serial a' = area_serial a ∧ magic a' = magic a ∧ version a' = version a.

Lemma find_prop_bt_insert a c m name :
  area_tree a c → holds a c m → name_ok name →
  ∃ r a' c', find_prop_bt pa_data_size a (root_node pa_data_size) name true = Ret (r, a') ∧
    grows pa_data_size a a' (0%Z :: offs c) ∧ area_tree a' c' ∧ holds a' c' m ∧
    (∀ ls, path_prop ls c' = path_prop ls c) ∧
    match r with
    | Some o => ∃ n p l r cc, path_get (split_dot name) c' = Some (Node o n p l r cc)
    | None => well_formed (split_dot name) → (pa_data_size < bytes_used a + path_cost (split_dot name))%Z
    end ∧
    (bytes_used a' ≤ bytes_used a + path_cost (split_dot name))%Z.
Proof.
  intros Ht Hm Hn. pose proof Ht as [Hok H0 Hrep Hnd Hord Hlab _].
  assert (Hpre : ins_pre pa_data_size a 0 (node_bt [] 0 Leaf Leaf c) c).
  { split; auto. apply NoDup_cons. split; [|done]. intros Hin.
    pose proof (rep_offs_pos _ _ _ _ Hrep Hin). lia. }
  destruct (find_bt_loop_insert _ pads_u32 (S (length name)) a 0 _ c name Hpre ltac:(lia) Hn)
    as (r & a' & c' & Hrun & Hpost).
  rewrite (root_node_ok a Hok). cbn [find_prop_bt]. exists r, a', c'.
  destruct Hpost. split; [done|]. split; [done|].
  destruct (area_tree_ext a c a' c' m Ht Hm) as [Ht' Hm']; auto.
  { by apply NoDup_cons in ip_nodup as [_ ?]. }
  do 3 (split; [done|]). split; [|done]. destruct r as [o|]; [|auto].
  destruct (ip_found o eq_refl) as (t & Hg & <-).
  destruct (path_get_node _ _ _ Hg) as (o & n & p & l & r & cc & ->). eauto 8.
Qed.

(** The record is linked into a node that had none. *)
Lemma add_record a c m name value o n l r cc q :
  area_tree a c → holds a c m → no_nul value → path_get (split_dot name) c = Some (Node o n 0 l r cc) →
  ∀ ra, new_prop_info pa_data_size a name (Z.of_nat (length name)) value
      (Z.of_nat (length value)) = (q, ra) →
  match q with
  | None => represents ra m
  | Some q => represents (store ra o (OBt (node_bt n q l r cc))) (<[name := value]> m) ∧
      load_bt ra o = Ret (node_bt n 0 l r cc)
  end ∧ grows pa_data_size a ra [] ∧
  (q = None → (pa_data_size < bytes_used a + info_cost name value)%Z).
Proof.
  intros Ht Hm Hv Hget ra Hnew. pose proof Ht as [Hok H0 Hrep Hnd Hord Hlab _].
  destruct (new_prop_info_spec a name value q ra Hok Hv Hnew) as (Hg & Hnone & Hsome).
  assert (Hfr : ∀ k, is_Some (data a !! k) → data ra !! k = data a !! k).
  { intros k Hk. apply (grows_frame _ _ _ _ Hg); [by apply (area_ok_lt pa_data_size)|].
    apply not_elem_of_nil. }
  destruct (area_tree_ext a c ra c m Ht Hm) as [Ht' Hm']; auto.
  { destruct Hg. split; auto. intros k Hk _. apply grows_frame; [done|]. apply not_elem_of_nil. }
  { by rewrite Hfr by eauto. }
  { eapply rep_frame; [exact Hrep|]. intros k Hk. apply Hfr. by eapply rep_dom. }
  split; [|done]. destruct q as [q|]; [|by exists c].
  destruct (Hsome q eq_refl) as (Hq & Hpi & Hval).
  pose proof (grows_ok _ _ _ _ Hg) as [Hra _]. destruct Hok as [Hoka _].
  destruct (area_tree_set_prop ra c m name o n 0 l r cc q _ Ht' Hm' Hget eq_refl) as [H1 H2].
  { intros _. split; [lia|]. eauto. }
  rewrite decide_False in H2 by lia. rewrite (proj1 Hval) in H2. split; [by eexists|].
  apply load_bt_data. by apply (rep_path_get _ _ _ _ _ _ _ _ _ (at_rep _ _ Ht') Hget).
Qed.

Lemma add_result_ok a m name value :
  represents a m → name_ok name → no_nul value →
  ∃ ok a', add pa_data_size a name (Z.of_nat (length name)) value (Z.of_nat (length value))
             = Ret (ok, a') ∧ add_result a m name value ok a'.
Proof.
  intros (c & Ht & Hm) Hn Hv. unfold add, find_property, add_result.
  destruct (find_prop_bt_insert a c m name Ht Hm Hn)
    as (r & a1 & c1 & -> & Hg & Ht1 & Hm1 & Hpp & Hr & Hcost). cbn [cbind].
  assert (Hic : (0 ≤ info_cost name value)%Z).
  { unfold info_cost. pose proof (align4_bounds (sizeof_prop_info + Z.of_nat (length name) + 1)).
    pose proof (align4_bounds (Z.of_nat (length value) + 1)).
    unfold sizeof_prop_info, PROP_VALUE_MAX in *. destruct (_ >=? _)%Z; lia. }
  destruct r as [o|]; cycle 1.
  { eexists _, a1. split; [done|]. destruct Hg. split; [by exists c1|]. split_and!; auto; [done|]. intros _ Hw. cbv beta iota in Hr. specialize (Hr Hw). lia. }
  destruct Hr as (n & p & l & r & cc & Hget). pose proof (path_get_well_formed _ _ _ Hget) as Hwf.
  rewrite (load_bt_data _ _ _ (rep_path_get _ _ _ _ _ _ _ _ _ (at_rep _ _ Ht1) Hget)).
  cbn [cbind node_bt bt_prop]. assert (Hp : path_prop (split_dot name) c1 = p)
    by (unfold path_prop; by rewrite Hget).
  destruct (Z.eqb_spec p 0) as [->|Hne]; cbn [negb].
  - destruct (new_prop_info _ _ _ _ _ _) as [q ra] eqn:Hnew.
    destruct (add_record _ _ _ _ _ _ _ _ _ _ _ Ht1 Hm1 Hv Hget _ Hnew) as (Hq & Hgr & Hnone).
    rewrite (proj2 (holds_None a1 c1 m name Ht1 Hm1) Hp) by done.
    destruct Hg, Hgr. destruct q as [q|].
    + destruct Hq as [Hq Hld]. unfold update_bt. rewrite Hld. cbn [cbind].
      eexists _, _. split; [done|]. split; [exact Hq|].
      split_and!; simpl; try congruence; try lia.
    + cbn [cbind]. eexists _, _. split; [done|]. split; [exact Hq|].
      specialize (Hnone eq_refl). split_and!; try congruence; try lia.
  - destruct (at_props _ _ Ht1 (split_dot name)) as (Hb & _ & v & Hval & _); [congruence|].
    rewrite Hp in Hb. unfold to_prop_obj. rewrite Z.gtb_ltb.
    rewrite (proj2 (Z.ltb_ge _ _)) by lia. cbn [cbind].
    eexists _, a1. split; [done|]. assert (m !! name = Some v) as E by (apply Hm1; split; [congruence|done]).
    destruct Hg. split; [|split_and!; auto; done].
    rewrite E. simpl. rewrite insert_id by done. by exists c1.
Qed.

Lemma del_result_ok a m name :
  represents a m → name_ok name →
  ∃ ok a', del pa_data_size a name = Ret (ok, a') ∧ represents a' (delete name m) ∧
    (is_Some (m !! name) → ok = true) ∧ (ok = false → a' = a) ∧
    bytes_used a' = bytes_used a ∧ area_serial a' = area_serial a.
Proof.
  intros (c & Ht & Hm) Hn. unfold del. rewrite (find_prop_bt_search a c name Ht Hn).
  cbn [cbind]. destruct (path_get (split_dot name) c) as [t|] eqn:E.
  - destruct (path_get_node _ _ _ E) as (o & n & p & l & r & cc & ->).
    cbn [fmap option_fmap option_map link].
    pose proof (rep_path_get _ _ _ _ _ _ _ _ _ (at_rep _ _ Ht) E) as Ho.
    unfold update_bt. rewrite (load_bt_data _ _ _ Ho). cbn [cbind].
    eexists _, _. split; [done|]. split_and!; try done.
    destruct (area_tree_set_prop a c m name o n p l r cc 0 _ Ht Hm E eq_refl) as [H1 H2]; [done|].
    rewrite decide_True in H2 by done. by eexists.
  - cbn [fmap option_fmap option_map]. eexists _, _. split; [done|].
    assert (m !! name = None) as Hnone.
    { apply (holds_None a c m name Ht Hm). unfold path_prop. by rewrite E. }
    rewrite Hnone. split_and!; try done; try (by intros [? [=]]).
    rewrite delete_id by done. by exists c.
Qed.

(** ** Names and paths *)

Lemma split_join ls : ls ≠ [] → Forall good_label ls → split_dot (join_dot ls) = ls.
Proof.
  induction ls as [|n ls IH]; [done|]. intros _ [[_ Hn] Hls]%Forall_cons.
  destruct ls as [|m ls].
  - simpl. apply split_dot_None. by apply strchr_None.
  - change (join_dot (n :: m :: ls)) with (n ++ "."%char :: join_dot (m :: ls)).
    rewrite (split_dot_Some _ (length n)) by (by apply strchr_app).
    rewrite take_app_length. f_equal.
    replace (S (length n)) with (length n + 1)%nat by lia.
    rewrite drop_app_add. simpl. by apply IH.
Qed.

Lemma path_labels_good ls t :
  labels_ok t → path_prop ls t ≠ 0%Z → ls ≠ [] ∧ Forall good_label ls.
Proof.
  revert t. induction ls as [|n ls IH]; intros t Hlab; [by rewrite path_prop_nil|].
  rewrite path_prop_cons. case_decide as Hn; [done|].
  destruct (sib_get n t) as [s|] eqn:E; [|done].
  pose proof (labels_get _ _ _ Hlab E) as Hs.
  destruct (sib_get_name _ _ _ E) as (o & p & l & r & c & ->). simpl in Hs |- *.
  intros Hp. split; [done|]. apply Forall_cons. split; [tauto|].
  destruct ls; [constructor|]. apply (IH c); tauto.
Qed.

Lemma rep_node_obj d t o : PropTrie.rep pa_data_size d t → o ∈ offs t → ∃ b, d !! o = Some (OBt b).
Proof.
  induction t as [|k n p l IHl r IHr c IHc]; simpl; [set_solver|].
  intros (_ & Ho & Hl & Hr & Hc). rewrite elem_of_cons, !elem_of_app.
  intros [->|[?|[?|?]]]; eauto.
Qed.

(** ** Changes outside the trie *)

(** The header's serial is no part of the map. *)
Lemma represents_same a a' m :
  represents a m → data a' = data a → bytes_used a' = bytes_used a → represents a' m.
Proof.
  intros (c & [Hok H0 Hrep Hnd Hord Hlab Hp] & Hm) Hd Hb.
  assert (Hv : ∀ o, prop_value a' o = prop_value a o).
  { intros o. unfold prop_value, load_info, long_value. by rewrite Hd. }
  exists c. split.
  - split; auto.
    + destruct Hok. split; [by rewrite Hb|]. by rewrite Hd, Hb.
    + by rewrite Hd.
    + by rewrite Hd.
    + intros ls Hls. unfold has_value. rewrite Hd, Hv. by apply Hp.
  - intros name v. rewrite Hv. apply Hm.
Qed.

(** Rewriting one record leaves the values of the others. *)
Lemma has_value_other a o pi pi' k w :
  data a !! o = Some (OInfo pi) → k ≠ o → has_value a k w → has_value (store a o (OInfo pi')) k w.
Proof.
  intros Ho Hk [Hkv Hkl]. set (a' := store a o (OInfo pi')).
  assert (Hne : ∀ k x, data a !! k = Some x → (∀ q, x ≠ OInfo q) → data a' !! k = Some x).
  { intros j x Hj Hx. subst a'. simpl. rewrite lookup_insert_ne; [done|]. intros ->. naive_solver. }
  split; [revert Hkv; unfold prop_value, load_info|subst a'; simpl; by rewrite lookup_insert_ne].
  destruct (data a !! k) as [[| q |]|] eqn:E; try done.
  replace (data a' !! k) with (Some (OInfo q)) by (subst a'; simpl; by rewrite lookup_insert_ne).
  cbn [cbind]. destruct (is_long q); [|done]. unfold long_value.
  destruct (long_property_offset q) as [rel| |]; try done. cbn [cbind].
  destruct (data a !! (k + rel)%Z) as [[| |b]|] eqn:E2; try done. by rewrite (Hne _ _ E2).
Qed.

(** Rewriting the record of a name changes its value only. *)
Lemma represents_update a m name o pi pi' v :
  represents a m → name_ok name → find pa_data_size a name = Ret (Some o) →
  data a !! o = Some (OInfo pi) → pi_name pi' = pi_name pi → pi_ok pi' →
  has_value (store a o (OInfo pi')) o v →
  represents (store a o (OInfo pi')) (<[name := v]> m).
Proof.
  intros (c & Ht & Hm) Hn Hfind Ho Hname Hpok Hv.
  rewrite (find_offset a c m name Ht Hm Hn) in Hfind.
  destruct (decide _) as [|Hpn]; [done|]. injection Hfind as Hpo.
  pose proof Ht as [Hok H0 Hrep Hnd Hord Hlab Hp].
  set (a' := store a o (OInfo pi')) in *.
  assert (Hother : ∀ ls, path_prop ls c ≠ 0%Z → ls ≠ split_dot name → path_prop ls c ≠ o).
  { intros ls Hls Hneq E. destruct (Hp _ Hls) as (_ & (p1 & Hp1 & Hn1 & _) & _).
    destruct (Hp _ Hpn) as (_ & (p2 & Hp2 & Hn2 & _) & _). rewrite join_split in Hn2.
    rewrite E in Hp1. rewrite Hpo in Hp2. simplify_eq.
    apply Hneq. rewrite Hn1. symmetry. apply split_join; [by apply (path_labels_good ls c)|].
    by apply (path_labels_good ls c). }
  assert (Hval : ∀ k w, k ≠ o → has_value a k w → has_value a' k w) by (intros; by eapply has_value_other).
  assert (Hroot : data a' !! 0%Z = data a !! 0%Z) by (subst a'; simpl; rewrite lookup_insert_ne; congruence).
  rewrite <-Hroot in H0. exists c. split.
  - split; auto.
    + eapply grows_ok, grows_store; [exact pads_u32|exact Hok|exact Ho].
    + eapply rep_frame; [exact Hrep|]. intros k Hk. subst a'. simpl. rewrite lookup_insert_ne; [done|].
      intros <-. destruct (rep_node_obj _ _ _ Hrep Hk) as [b Hb]. congruence.
    + intros ls Hls. destruct (Hp _ Hls) as (Hb & (p1 & Hp1 & Hn1) & w & Hw). split; [done|].
      destruct (decide (ls = split_dot name)) as [->|Hneq].
      * rewrite Hpo in *. split; [|by exists v]. exists pi'. subst a'. simpl.
        rewrite lookup_insert_eq. split; [done|]. simplify_eq. destruct Hn1.
        split; [congruence|done].
      * pose proof (Hother _ Hls Hneq) as Hk. split; [|exists w; by apply Hval].
        exists p1. subst a'. simpl. by rewrite lookup_insert_ne.
  - intros name' w. destruct (decide (name = name')) as [<-|Hneq].
    + rewrite lookup_insert_eq, Hpo, (proj1 Hv). rewrite Hpo in Hpn. naive_solver.
    + rewrite lookup_insert_ne by done. rewrite (Hm name' w).
      assert (Hsd : split_dot name' ≠ split_dot name) by (intros E; apply Hneq; by apply (inj split_dot)).
      split; intros [Hk Hw]; (split; [done|]).
      * destruct (Hp _ Hk) as (_ & _ & w' & Hw').
        destruct (Hval _ _ (Hother _ Hk Hsd) Hw') as [E _]. destruct Hw'. congruence.
      * destruct (Hp _ Hk) as (_ & _ & w' & Hw').
        destruct (Hval _ _ (Hother _ Hk Hsd) Hw') as [E _]. destruct Hw'. congruence.
Qed.
End spec.
