(* ===== verification/PropAreaForeach.v ===== *)
(** Enumeration of a property area: [foreach] visits the records of the map
    the area represents, each exactly once. *)

From Stdlib Require Import ZArith Lia Ascii.
From stdpp Require Import base numbers strings gmap list.
From S2P Require Import Prelude CString PropInfo PropArea PropTrie PropAreaProofs.
From S2P Require Import PropAreaSpec.

(** The paths that store a property with their links, in visiting order. *)
Fixpoint entries (t : bt) : list (list cstr * Z) :=
  match t with
  | Leaf => []
  | Node _ n p l r c =>
    entries l ++ (if decide (p = 0%Z) then [] else [([n], p)]) ++
    (prod_map (cons n) id <$> entries c) ++ entries r
  end.

Lemma entries_nonempty t ls p : (ls, p) ∈ entries t → ls ≠ [].
Proof.
  revert ls p. induction t as [|o n q l IHl r IHr c IHc]; intros ls p; simpl; [by rewrite elem_of_nil|].
  rewrite !elem_of_app, list_elem_of_fmap. intros [?|[?|[([ls' p'] & E & ?)|?]]]; eauto.
  - case_decide; set_solver.
  - simpl in E. congruence.
Qed.

(** Heads of the paths are sibling names. *)
Lemma entries_head t n ls p : (n :: ls, p) ∈ entries t → n ∈ sib_names t.
Proof.
  induction t as [|o m q l IHl r IHr c IHc]; simpl; [set_solver|].
  rewrite !elem_of_app, elem_of_cons, elem_of_app, list_elem_of_fmap.
  intros [?|[?|[([ls' p'] & E & ?)|?]]]; auto.
  - case_decide; set_solver.
  - simpl in E. left. congruence.
Qed.

Lemma sib_get_names n t : n ∉ sib_names t → sib_get n t = None.
Proof.
  induction t as [|o m q l IHl r IHr c IHc]; simpl; [done|].
  rewrite not_elem_of_cons, not_elem_of_app. intros (Hne & Hl & Hr).
  destruct (lcmp n m) eqn:E; auto. by apply lcmp_eq in E.
Qed.

Lemma sib_names_good t n : labels_ok t → n ∈ sib_names t → n ≠ [].
Proof.
  induction t as [|o m q l IHl r IHr c IHc]; simpl; [set_solver|].
  rewrite elem_of_cons, elem_of_app. intros ([? _] & ? & ? & _) [->|[?|?]]; auto.
Qed.

(** The three parts of a node hold disjoint names. *)
Lemma ordered_disjoint o n p l r c :
  ordered (Node o n p l r c) →
  (∀ m, m ∈ sib_names l → lcmp m n = Lt) ∧ (∀ m, m ∈ sib_names r → lcmp m n = Gt).
Proof. simpl. rewrite !Forall_forall. tauto. Qed.

Lemma path_prop_node o n p l r c m ls :
  labels_ok (Node o n p l r c) →
  path_prop (m :: ls) (Node o n p l r c) =
    match lcmp m n with
    | Eq => match ls with [] => p | _ => path_prop ls c end
    | Lt => path_prop (m :: ls) l
    | Gt => path_prop (m :: ls) r
    end.
Proof.
  intros [[Hn _] _]. rewrite !path_prop_cons. simpl. destruct (lcmp m n) eqn:E.
  - apply lcmp_eq in E as ->. by rewrite decide_False.
  - done.
  - done.
Qed.

Lemma entries_spec t ls p :
  ordered t → labels_ok t → (ls, p) ∈ entries t ↔ p ≠ 0%Z ∧ path_prop ls t = p.
Proof.
  revert ls p. induction t as [|o n q l IHl r IHr c IHc]; intros ls p Hord Hlab.
  { rewrite path_prop_Leaf. simpl. set_solver. }
  destruct ls as [|m ls].
  { split; [by intros ?%entries_nonempty|]. rewrite path_prop_nil. naive_solver. }
  rewrite path_prop_node by done. pose proof (ordered_disjoint _ _ _ _ _ _ Hord) as [Hdl Hdr].
  simpl in Hord, Hlab. destruct Hord as (_ & _ & Hol & Hor & Hoc).
  destruct Hlab as (_ & Hll & Hlr & Hlc). cbn [entries].
  rewrite !elem_of_app, list_elem_of_fmap.
  assert (Hown : (m :: ls, p) ∈ (if decide (q = 0%Z) then [] else [([n], q)]) ↔
    p ≠ 0%Z ∧ q = p ∧ m = n ∧ ls = []).
  { case_decide; [set_solver by naive_solver|]. rewrite list_elem_of_singleton. naive_solver. }
  rewrite Hown. clear Hown.
  assert (Hch : (∃ y : list cstr * Z, (m :: ls, p) = prod_map (cons n) id y ∧ y ∈ entries c) ↔
    m = n ∧ ls ≠ [] ∧ p ≠ 0%Z ∧ path_prop ls c = p).
  { split.
    - intros ([ls' p'] & [= -> -> ->] & Hin). pose proof (entries_nonempty _ _ _ Hin).
      apply IHc in Hin; tauto.
    - intros (-> & _ & H). exists (ls, p). split; [done|]. by apply IHc. }
  rewrite Hch. clear Hch IHc.
  pose proof (IHl (m :: ls) p Hol Hll) as Hl. pose proof (IHr (m :: ls) p Hor Hlr) as Hr.
  pose proof (entries_head l m ls p) as Hhl. pose proof (entries_head r m ls p) as Hhr.
  destruct (lcmp m n) eqn:E.
  - apply lcmp_eq in E as ->. assert (lcmp n n = Eq) by by apply lcmp_eq.
    specialize (Hdl n). specialize (Hdr n). destruct ls; naive_solver congruence.
  - assert (m ≠ n) by (intros ->; assert (lcmp n n = Eq) by (by apply lcmp_eq); congruence).
    specialize (Hdr m). naive_solver congruence.
  - assert (m ≠ n) by (intros ->; assert (lcmp n n = Eq) by (by apply lcmp_eq); congruence).
    specialize (Hdl m). naive_solver congruence.
Qed.

Lemma entries_NoDup t : ordered t → labels_ok t → NoDup (entries t).*1.
Proof.
  induction t as [|o n q l IHl r IHr c IHc]; intros Hord Hlab; [constructor|].
  pose proof (ordered_disjoint _ _ _ _ _ _ Hord) as [Hdl Hdr].
  simpl in Hord, Hlab. destruct Hord as (_ & _ & Hol & Hor & Hoc).
  destruct Hlab as (_ & Hll & Hlr & Hlc). cbn [entries]. rewrite !fmap_app.
  assert (Hnn : lcmp n n = Eq) by by apply lcmp_eq.
  assert (Hhead : ∀ t ls, ls ∈ (entries t).*1 → ∃ m ls', ls = m :: ls' ∧ m ∈ sib_names t).
  { intros t ls ([ls' p] & -> & Hin)%list_elem_of_fmap. simpl.
    destruct ls' as [|m ls']; [by apply entries_nonempty in Hin|].
    apply entries_head in Hin. eauto. }
  assert (Hmid : ∀ ls, ls ∈ (if decide (q = 0%Z) then [] else [([n], q)]).*1 ++
                           (prod_map (cons n) id <$> entries c).*1 → ∃ ls', ls = n :: ls').
  { intros ls. rewrite elem_of_app, <- list_fmap_compose, !list_elem_of_fmap.
    intros [([ls' p] & -> & H)|([ls' p] & -> & _)]; [|simpl; eauto].
    case_decide; [set_solver|]. apply list_elem_of_singleton in H. exists []. by simplify_eq. }
  rewrite (app_assoc _ _ (entries r).*1), !NoDup_app. split_and!; auto.
  - intros ls Hin. rewrite elem_of_app. destruct (Hhead _ _ Hin) as (m & ls' & -> & Hm%Hdl).
    intros [Hx|Hx].
    + destruct (Hmid _ Hx). congruence.
    + destruct (Hhead _ _ Hx) as (m' & ls'' & [= <- <-] & Hm'%Hdr). congruence.
  - case_decide; simpl; [constructor|]. apply NoDup_singleton.
  - intros ls Hin. rewrite <- list_fmap_compose, list_elem_of_fmap. intros ([ls' p] & -> & Hc).
    pose proof (entries_nonempty _ _ _ Hc). case_decide; simpl in Hin; [set_solver|].
    apply list_elem_of_singleton in Hin. simpl in Hin. congruence.
  - assert (Hf : (prod_map (cons n) id <$> entries c).*1 = cons n <$> (entries c).*1)
      by (by rewrite <- !list_fmap_compose).
    rewrite Hf. apply NoDup_fmap_2; [|auto]. by intros ?? [=].
  - intros ls Hin Hx. destruct (Hmid _ Hin) as [ls' ->].
    destruct (Hhead _ _ Hx) as (m' & ls'' & [= <- <-] & Hm'%Hdr). congruence.
Qed.

(** ** The traversal *)

Fixpoint bt_depth (t : bt) : nat :=
  match t with
  | Leaf => 0
  | Node _ _ _ l r c => S (Nat.max (bt_depth l) (Nat.max (bt_depth r) (bt_depth c)))
  end.

Lemma bt_depth_offs t : (bt_depth t ≤ length (offs t))%nat.
Proof. induction t; simpl; rewrite ?length_app; lia. Qed.

(** The callback applied to the links in order. *)
Definition visit_all {C : Type} (propfn : Z → C → C) (os : list Z) (cookie : C) : C :=
  fold_left (λ c o, propfn o c) os cookie.

Lemma visit_all_app {C : Type} (propfn : Z → C → C) os1 os2 cookie :
  visit_all propfn (os1 ++ os2) cookie = visit_all propfn os2 (visit_all propfn os1 cookie).
Proof. apply fold_left_app. Qed.

Section foreach.
Context (pa_data_size : Z) (pads_u32 : (pa_data_size < 2 ^ 32)%Z).

Lemma foreach_property_visits {C : Type} (propfn : Z → C → C) fuel a t cookie :
  rep pa_data_size (data a) t → (bt_depth t < fuel)%nat →
  (∀ p, p ∈ (entries t).*2 → (p ≤ pa_data_size)%Z) → t ≠ Leaf →
  foreach_property pa_data_size fuel a (Some (link t)) propfn cookie =
    Ret (true, visit_all propfn (entries t).*2 cookie).
Proof.
  revert t cookie. induction fuel as [|fuel IH]; [lia|].
  intros t cookie Hrep Hfuel Hp Ht. destruct t as [|o n p l r c]; [done|].
  cbn [foreach_property link]. rewrite (load_rep _ _ _ _ _ _ _ _ _ Hrep eq_refl).
  cbn [cbind bt_left bt_right bt_children bt_prop].
  cbn [rep] in Hrep. destruct Hrep as (_ & _ & Hl & Hr & Hc). simpl in Hfuel.
  cbn [entries] in Hp |- *. rewrite !fmap_app in Hp |- *. rewrite !visit_all_app.
  assert (Hsub : ∀ s cookie, rep pa_data_size (data a) s → (bt_depth s < fuel)%nat →
    (∀ p, p ∈ (entries s).*2 → (p ≤ pa_data_size)%Z) →
    ∀ k : C → cres (bool * C),
    (if negb (link s =? 0)%Z then
       let! (err, cookie) := foreach_property pa_data_size fuel a (to_prop_obj pa_data_size (link s)) propfn cookie in
       if (Z.b2z err <? 0)%Z then Ret (false, cookie) else k cookie
     else k cookie) = k (visit_all propfn (entries s).*2 cookie)).
  { intros s ck Hs Hd Hps k. rewrite (rep_link_nonzero _ _ _ Hs). case_bool_decide as E.
    - by subst.
    - cbn [negb]. rewrite (rep_to_prop_obj _ _ _ Hs E), (IH s ck) by done. done. }
  rewrite (Hsub l) by (done || lia || set_solver).
  assert (Hcp : (prod_map (cons n) id <$> entries c).*2 = (entries c).*2)
    by (by rewrite <- list_fmap_compose). rewrite Hcp in Hp |- *.
  destruct (Z.eqb_spec p 0) as [->|Hne]; cbn [negb].
  - rewrite decide_True by done. rewrite (Hsub c) by (done || lia || set_solver).
    rewrite (Hsub r) by (done || lia || set_solver). done.
  - rewrite decide_False in Hp |- * by done.
    assert ((p ≤ pa_data_size)%Z) by (apply Hp; set_solver).
    unfold to_prop_obj at 1. rewrite Z.gtb_ltb, (proj2 (Z.ltb_ge _ _)) by lia.
    rewrite (Hsub c) by (done || lia || set_solver).
    rewrite (Hsub r) by (done || lia || set_solver). done.
Qed.

Lemma bt_depth_size d t : rep pa_data_size d t → NoDup (offs t) → (bt_depth t ≤ size d)%nat.
Proof.
  intros Hr Hnd. etrans; [apply bt_depth_offs|].
  rewrite <- (size_list_to_set (C := gset Z)) by done.
  rewrite <- size_dom. apply subseteq_size. intros o. rewrite elem_of_list_to_set.
  rewrite elem_of_dom. by apply rep_dom with pa_data_size.
Qed.

(** The whole area: the root node has no record and no siblings. *)
Lemma foreach_visits {C : Type} a c (propfn : Z → C → C) cookie :
  area_tree pa_data_size a c →
  foreach pa_data_size a propfn cookie = Ret (true, visit_all propfn (entries c).*2 cookie).
Proof.
  intros [Hok H0 Hrep Hnd Hord Hlab Hp]. unfold foreach.
  rewrite (root_node_ok _ a Hok). cbn [foreach_property].
  rewrite (load_bt_data _ _ _ H0). cbn.
  pose proof (bt_depth_size _ _ Hrep Hnd) as Hd.
  rewrite (rep_link_nonzero _ _ _ Hrep). case_bool_decide as E; [by subst|].
  cbn [negb]. rewrite (rep_to_prop_obj _ _ _ Hrep E).
  assert (Hd' : (bt_depth c < size (data a))%nat \/ size (data a) = bt_depth c) by lia.
  assert (Hlt : (S (bt_depth c) ≤ size (data a))%nat).
  { etrans; [apply le_n_S, bt_depth_offs|].
    assert (Hnd' : NoDup (0%Z :: offs c)).
    { apply NoDup_cons. split; [|done]. intros Hin. pose proof (rep_offs_pos _ _ _ _ Hrep Hin). lia. }
    change (S (length (offs c))) with (length (0%Z :: offs c)).
    rewrite <- (size_list_to_set (C := gset Z)) by done.
    rewrite <- size_dom. apply subseteq_size. intros o. rewrite elem_of_list_to_set, elem_of_dom.
    rewrite elem_of_cons. intros [->|Hin]; [eauto|]. by apply rep_dom with pa_data_size c. }
  rewrite foreach_property_visits; [done|done|lia| |done].
  intros p ([ls p'] & -> & Hin)%list_elem_of_fmap. apply entries_spec in Hin; [|done..].
  destruct Hin as [Hne <-]. destruct (Hp ls Hne). simpl. lia.
Qed.

(** The visited offsets are the records of the represented map. *)
Definition visits (a : prop_area) (m : gmap cstr cstr) (os : list Z) : Prop :=
  ∃ kvs, kvs ≡ₚ map_to_list m ∧
    Forall2 (λ o kv, ∃ pi, data a !! o = Some (OInfo pi) ∧ rec_ok kv.1 pi ∧
               has_value a o kv.2) os kvs.

Lemma foreach_visits_map a m :
  represents pa_data_size a m →
  ∃ os, visits a m os ∧
    ∀ (C : Type) (propfn : Z → C → C) cookie,
      foreach pa_data_size a propfn cookie = Ret (true, visit_all propfn os cookie).
Proof.
  intros (c & Ht & Hm). exists (entries c).*2. split; [|intros; by apply foreach_visits].
  pose proof Ht as [Hok H0 Hrep Hnd Hord Hlab Hp].
  set (val p := match prop_value a p with Ret v => v | _ => [] end).
  exists ((λ e, (join_dot e.1, val e.2)) <$> entries c). split.
  - apply NoDup_Permutation; [|apply NoDup_map_to_list|].
    + apply (NoDup_fmap_1 fst). rewrite <- list_fmap_compose.
      change (fst ∘ _) with (join_dot ∘ (fst : list cstr * Z → _)).
      rewrite list_fmap_compose. apply NoDup_fmap_2_strong; [|by apply entries_NoDup].
      assert (Hgood : ∀ ls, ls ∈ (entries c).*1 → ls ≠ [] ∧ Forall good_label ls).
      { intros ls ([ls' p] & -> & Hin)%list_elem_of_fmap. apply entries_spec in Hin; [|done..].
        apply (path_labels_good _ c); [done|]. simpl. destruct Hin as [? <-]. done. }
      intros x y Hx%Hgood Hy%Hgood Hxy. destruct Hx, Hy.
      rewrite <- (split_join x), <- (split_join y) by done. by rewrite Hxy.
    + intros [k v]. rewrite elem_of_map_to_list, list_elem_of_fmap. split.
      * intros ([ls p] & [= -> ->] & Hin). apply entries_spec in Hin; [|done..].
        destruct Hin as [Hne <-]. destruct (path_labels_good _ _ Hlab Hne) as [Hls Hg].
        apply Hm. simpl. rewrite split_join by done. split; [done|].
        destruct (Hp _ Hne) as (_ & _ & v & Hv & _). unfold val. by rewrite Hv.
      * intros Hk. apply Hm in Hk as [Hne Hv]. eexists (_, _). split.
        2:{ apply entries_spec; [done..|]. split; [exact Hne|done]. }
        simpl. unfold val. by rewrite Hv, join_split.
  - apply Forall2_fmap_l, Forall2_fmap_r, Forall_Forall2_diag, Forall_forall.
    intros [ls p] Hin. apply entries_spec in Hin; [|done..]. destruct Hin as [Hne <-].
    destruct (Hp _ Hne) as (_ & (pi & Hpi & Hn) & v & Hv & Hlong). exists pi. split_and!; [done|done|].
    simpl. unfold val. rewrite Hv. by split.
Qed.
End foreach.
