(* ===== verification/PropAreaTheorems.v ===== *)
(** The theorems on [PropArea] that the rest of the system relies on: an area
    is a finite map from names to values, and its operations act on the map as
    their names say, in every state, errors included. *)

From Stdlib Require Import ZArith Lia Ascii.
From stdpp Require Import base numbers strings gmap list.
From S2P Require Import Prelude CString PropInfo PropArea PropTrie PropAreaProofs.
From S2P Require Import PropAreaSpec PropAreaForeach.

Section theorems.
Context (pa_data_size : Z) (pads_u32 : (pa_data_size < 2 ^ 32)%Z).

(** C1. [find] on an area that holds the map [m] never faults and always
    terminates; it returns a record of that very name, at rest and with the
    value [m] gives, exactly when [m] has the name. *)
Theorem find_refines a m name :
  represents pa_data_size a m → name_ok name →
  ∃ r, find pa_data_size a name = Ret r ∧
    match r with
    | None => m !! name = None
    | Some o => ∃ v pi, m !! name = Some v ∧ data a !! o = Some (OInfo pi) ∧
                  rec_ok name pi ∧ has_value a o v
    end.
Proof. intros Hm Hn. destruct (find_result_ok _ a m name Hm Hn) as (r & H1 & H2). eauto. Qed.

(** C2. On an area that represents a map, for a name and a value that are strings
    of C, [add] never faults and terminates.  On success a new name is mapped to
    the value and an existing one keeps its value; on failure the map is
    unchanged.  It fails for every name with an empty token (such as "a..b"),
    and for any other name only when the area has too little room left for the
    nodes and the record.  The header's serial, magic and version are untouched. *)
Theorem add_refines a m name value :
  represents pa_data_size a m → name_ok name → no_nul value →
  ∃ ok a', add pa_data_size a name (Z.of_nat (length name)) value (Z.of_nat (length value))
             = Ret (ok, a') ∧
    represents pa_data_size a' (if ok then <[name := default value (m !! name)]> m else m) ∧
    (ok = true → well_formed (split_dot name)) ∧
    (ok = false → well_formed (split_dot name) →
       (pa_data_size < bytes_used a + path_cost (split_dot name) + info_cost name value)%Z) ∧
    (bytes_used a ≤ bytes_used a')%Z ∧
    area_serial a' = area_serial a ∧ magic a' = magic a ∧ version a' = version a.
Proof. intros Hm Hn Hv. exact (add_result_ok _ pads_u32 a m name value Hm Hn Hv). Qed.

(** C3. [del] removes the name from the map and nothing else, gives no space
    back, and reports false only when the area is unchanged and the name
    absent. *)
Theorem del_refines a m name :
  represents pa_data_size a m → name_ok name →
  ∃ ok a', del pa_data_size a name = Ret (ok, a') ∧ represents pa_data_size a' (delete name m) ∧
    (is_Some (m !! name) → ok = true) ∧ (ok = false → a' = a) ∧
    bytes_used a' = bytes_used a ∧ area_serial a' = area_serial a.
Proof. intros Hm Hn. exact (del_result_ok _ pads_u32 a m name Hm Hn). Qed.

(** C4. [foreach] calls the callback on the records of the map's entries, each
    exactly once, threads the cookie through the calls in one fixed order and
    returns true, whatever the callback does. *)
Theorem foreach_refines a m :
  represents pa_data_size a m →
  ∃ os, visits a m os ∧ length os = size m ∧
    ∀ (C : Type) (propfn : Z → C → C) cookie,
      foreach pa_data_size a propfn cookie =
        Ret (true, fold_left (λ c o, propfn o c) os cookie).
Proof.
  intros Hm. destruct (foreach_visits_map _ pads_u32 a m Hm) as (os & Hv & Hf). exists os.
  split; [done|]. split; [|exact Hf]. destruct Hv as (kvs & Hp & Hall).
  rewrite (Forall2_length _ _ _ Hall), Hp. apply length_map_to_list.
Qed.

(** A block [allocate_obj] hands out is aligned, starts at the old mark,
    lies inside the data of the area and overlaps nothing handed out before;
    it fails exactly when the rounded size does not fit. *)
Theorem allocate_obj_bounds a size :
  area_ok pa_data_size a → (0 < size)%Z → (bytes_used a `mod` 4 = 0)%Z →
  match allocate_obj pa_data_size a size with
  | Some (off, a') =>
      (off `mod` 4 = 0 ∧ off + size ≤ bytes_used a' ≤ pa_data_size ∧
       bytes_used a' `mod` 4 = 0 ∧ off = bytes_used a)%Z ∧
      data a' = data a ∧ (∀ k o, data a !! k = Some o → (k < off)%Z)
  | None => (pa_data_size < bytes_used a + align4 size)%Z
  end.
Proof.
  intros [Hb Hd] Hs Hmod. unfold allocate_obj.
  destruct (Z.gtb_spec (bytes_used a + align4 size) pa_data_size) as [Hgt|Hle]; [done|].
  pose proof (align4_bounds size) as Ha. pose proof (align4_multiple size) as Hm.
  cbn [set_bytes_used bytes_used data]. rewrite u32_small by lia.
  split; [|split; [done|intros k o Ho; apply Hd in Ho; lia]].
  split; [done|]. split; [lia|]. split; [|done].
  rewrite Z.add_mod, Hmod, Hm by lia. done.
Qed.
End theorems.

(** * Concrete instances *)

Definition sample_size : Z := 1000.

Definition sample_empty : prop_area := new_prop_area PROP_AREA_MAGIC PROP_AREA_VERSION.

Lemma sample_empty_represents : represents sample_size sample_empty ∅.
Proof. apply represents_new. vm_compute. discriminate. Qed.

Lemma find_refines_witness : ∃ r, find sample_size sample_empty (cs "ro.x") = Ret r ∧
  match r with None => (∅ : gmap cstr cstr) !! cs "ro.x" = None | Some _ => False end.
Proof.
  destruct (find_refines sample_size sample_empty ∅ (cs "ro.x") sample_empty_represents
    ltac:(vm_compute; reflexivity)) as ([o|] & H1 & H2).
  - destruct H2 as (v & pi & H & _). discriminate H.
  - exact (ex_intro _ None (conj H1 H2)).
Defined.

Lemma add_refines_witness : ∃ a', add sample_size sample_empty (cs "ro.x") 4 (cs "1") 1 = Ret (true, a') ∧
  represents sample_size a' (<[cs "ro.x" := cs "1"]> ∅).
Proof.
  destruct (add_refines sample_size ltac:(vm_compute; reflexivity) sample_empty ∅ (cs "ro.x") (cs "1")
    sample_empty_represents ltac:(vm_compute; reflexivity)
    ltac:(apply (bool_decide_unpack _); vm_compute; exact I)) as (ok & a' & H1 & H2 & _).
  exists a'. destruct ok; [exact (conj H1 H2)|]. exfalso. vm_compute in H1. discriminate H1.
Defined.

Lemma del_refines_witness : ∃ ok a', del sample_size sample_empty (cs "ro.x") = Ret (ok, a') ∧
  represents sample_size a' (delete (cs "ro.x") ∅).
Proof.
  destruct (del_refines sample_size ltac:(vm_compute; reflexivity) sample_empty ∅ (cs "ro.x")
    sample_empty_represents ltac:(vm_compute; reflexivity)) as (ok & a' & H1 & H2 & _).
  exact (ex_intro _ ok (ex_intro _ a' (conj H1 H2))).
Defined.

Lemma foreach_refines_witness : ∃ os : list Z, length os = size (∅ : gmap cstr cstr) ∧
  foreach sample_size sample_empty (λ o c, o :: c) [] =
    Ret (true, fold_left (λ c o, o :: c) os []).
Proof.
  destruct (foreach_refines sample_size ltac:(vm_compute; reflexivity) sample_empty ∅ sample_empty_represents)
    as (os & _ & H1 & H2).
  exact (ex_intro _ os (conj H1 (H2 _ _ _))).
Defined.

Lemma allocate_obj_bounds_witness :
  match allocate_obj sample_size sample_empty 97 with
  | Some (off, a') => (off = 20 ∧ off + 97 ≤ bytes_used a')%Z
  | None => False
  end.
Proof.
  assert (Hok : area_ok sample_size sample_empty).
  { split; [vm_compute; split; [reflexivity|discriminate]|]. intros k o.
    simpl. rewrite lookup_singleton_Some. unfold sizeof_prop_bt. lia. }
  pose proof (allocate_obj_bounds sample_size ltac:(vm_compute; reflexivity) sample_empty 97 Hok
    ltac:(lia) ltac:(vm_compute; reflexivity)) as H.
  destruct (allocate_obj sample_size sample_empty 97) as [[off a']|] eqn:E.
  - destruct H as ((_ & [H _] & _ & ->) & _). split; [reflexivity|exact H].
  - vm_compute in E. discriminate E.
Defined.

(** The result of a recursive call of [foreach_property] is a [bool]: the test
    [err < 0] never holds, so a subtree that cannot be visited (here the left
    child lies beyond the area) is skipped in silence. *)
Definition broken_area : prop_area :=
  set_data sample_empty
    {[ 0%Z := OBt (PropBt 0 0 0 0 20 []); 20%Z := OBt (PropBt 1 48 4096 0 0 (cs "a"));
       48%Z := OInfo (PropInfo 0 [] (cs "a")) ]}.

Lemma foreach_ignores_failure :
  foreach_property sample_size 5 broken_area (to_prop_obj sample_size 4096) (λ _ c, S c) 0 =
    Ret (false, 0) ∧
  foreach sample_size broken_area (λ _ c, S c) 0 = Ret (true, 1).
Proof. vm_compute. split; reflexivity. Qed.
