(* ===== verification/PropAreaSteps.v ===== *)
(** The lookup of a property in a [prop_area] as readers in other processes run
    it beside a writer (system_properties/prop_area.cpp: [find_prop_bt],
    [find_property], [find], [add]): one machine for both, whose every step
    makes one atomic load or store of a link.  Run alone it computes the
    functions of [PropArea]; what its steps keep and add to an area is what the
    interleavings of [PropAreaConcurrent] rest on. *)

From Stdlib Require Import ZArith Lia Ascii.
From stdpp Require Import base numbers strings gmap list relations.
From S2P Require Import Prelude CString PropInfo PropArea PropTrie PropAreaProofs.
From S2P Require Import PropAreaSpec.

(** * The machine *)

(** The links of a node. *)
Inductive field := FLeft | FRight | FChildren | FProp.

#[export] Instance field_eq_dec : EqDecision field.
Proof. solve_decision. Defined.

Definition get_field (f : field) (b : prop_bt) : Z :=
  match f with
  | FLeft => bt_left b | FRight => bt_right b | FChildren => bt_children b | FProp => bt_prop b
  end.

Definition with_field (f : field) (v : Z) (b : prop_bt) : prop_bt :=
  match f with
  | FLeft => with_left v b | FRight => with_right v b
  | FChildren => with_children v b | FProp => with_prop v b
  end.

(** The arguments of [find_property]: [find] passes no value, [add] passes
    the value and its length. *)
Record call := Call { q_name : cstr; q_value : list ascii; q_alloc : bool }.

Definition find_call (name : cstr) : call := Call name [] false.
Definition add_call (name value : cstr) : call := Call name value true.

(** Where a thread is in [find_property]:
    at the top of the loop over tokens, with the name that remains;
    between the test [link != 0] and the second load of the same link;
    at a node (or null pointer) of the binary tree of siblings;
    with a new object made, before the store that publishes it;
    at the node of the whole name, before the load of its [prop];
    back from the call. *)
Inductive pc :=
  | PLevel (current : Z) (remaining_name : cstr)
  | PLink (f : field) (current : Z) (remaining_name : cstr)
  | PSib (current : option Z) (remaining_name : cstr)
  | PStore (f : field) (current : Z) (remaining_name : cstr) (new_offset : Z)
  | PFound (current : Z)
  | PRet (result : option Z).

#[export] Instance pc_eq_dec : EqDecision pc.
Proof. solve_decision. Defined.

(** [substr_size] *)
Definition substr_size (s : cstr) : Z := u32 (Z.of_nat (tok_len s)).

(** The node of a token is found: the next token, or the end of the name. *)
Definition found (current : Z) (s : cstr) : pc :=
  match strchr s "."%char with
  | Some i => PLevel current (drop (S i) s)
  | None => PFound current
  end.

(** Through a link: to a sibling or the root of the children, or the result. *)
Definition enter (f : field) (off : option Z) (s : cstr) : pc :=
  match f with FProp => PRet off | _ => PSib off s end.

(** After the store of a link: a new sibling is the node of the token, the
    first child is compared with the token as any other. *)
Definition stored (f : field) (s : cstr) (new_offset : Z) : pc :=
  match f with
  | FProp => PRet (Some new_offset)
  | FChildren => PSib (Some new_offset) s
  | _ => found new_offset s
  end.

Section machine.
Context (pa_data_size : Z).

(** The object a missing link is going to point to, in memory that only this
    thread can reach so far. *)
Definition make (q : call) (a : prop_area) (f : field) (s : cstr) : option Z * prop_area :=
  match f with
  | FProp =>
    new_prop_info pa_data_size a (q_name q) (Z.of_nat (length (q_name q)))
      (q_value q) (Z.of_nat (length (q_value q)))
  | _ =>
    match new_prop_bt pa_data_size a s (substr_size s) with
    | Some (new_offset, a) => (Some new_offset, a)
    | None => (None, a)
    end
  end.

(** The relaxed load of a link and its test. *)
Definition follow (q : call) (a : prop_area) (f : field) (current : Z) (s : cstr)
    : cres (pc * prop_area) :=
  let! b := load_bt a current in
  if negb (get_field f b =? 0)%Z then Ret (PLink f current s, a)
  else if negb (q_alloc q) then Ret (PRet None, a)
  else
    match make q a f s with
    | (Some new_offset, a) => Ret (PStore f current s new_offset, a)
    | (None, a) => Ret (PRet None, a)
    end.

Definition pstep (q : call) (a : prop_area) (p : pc) : cres (pc * prop_area) :=
  match p with
  | PLevel current s =>
    if (substr_size s =? 0)%Z then Ret (PRet None, a) else follow q a FChildren current s
  | PLink f current s =>
    let! b := load_bt a current in
    Ret (enter f (to_prop_obj pa_data_size (get_field f b)) s, a)
  | PSib None s => Ret (PRet None, a)
  | PSib (Some current) s =>
    let! b := load_bt a current in
    match cmp_prop_name s (substr_size s) (bt_name b) (bt_namelen b) with
    | Eq => Ret (found current s, a)
    | Lt => follow q a FLeft current s
    | Gt => follow q a FRight current s
    end
  | PStore f current s new_offset =>
    let! a := update_bt a current (with_field f new_offset) in Ret (stored f s new_offset, a)
  | PFound current => follow q a FProp current []
  | PRet r => Ret (PRet r, a)
  end.

Definition start (q : call) : pc :=
  match root_node pa_data_size with Some t => PLevel t (q_name q) | None => PRet None end.

Definition pnext (q : call) (s s' : pc * prop_area) : Prop := pstep q s.2 s.1 = Ret s'.

(** The thread runs alone. *)
Definition runs (q : call) : pc * prop_area → pc * prop_area → Prop := rtc (pnext q).

Lemma runs_step q p a p' a' s :
  pstep q a p = Ret (p', a') → runs q (p', a') s → runs q (p, a) s.
Proof. intros H. apply rtc_l. exact H. Qed.

Lemma runs_one q p a p' a' : pstep q a p = Ret (p', a') → runs q (p, a) (p', a').
Proof. intros H. by apply rtc_once. Qed.

(** Steps are deterministic: a run to the end passes through every state the
    thread passes through. *)
Lemma runs_join q s s1 r a2 :
  runs q s s1 → runs q s (PRet r, a2) → runs q s1 (PRet r, a2).
Proof.
  induction 1 as [|s s' s1 H1 _ IH]; [done|]. intros H2. apply IH. clear IH.
  remember (PRet r, a2) as e eqn:E. destruct H2 as [s|s s2 e H3 H4].
  - subst. injection H1 as <-. constructor.
  - unfold pnext in *. assert (s' = s2) as -> by congruence. exact H4.
Qed.

Lemma runs_PRet q r a s : runs q (PRet r, a) s → s = (PRet r, a).
Proof.
  intros H. remember (PRet r, a) as s0 eqn:E. induction H as [|s0 s1 s2 H1 _ IH]; [done|].
  subst. injection H1 as <-. by apply IH.
Qed.

(** * Run alone, the machine is the function *)

Section sequential.
Context (q : call).

(** What becomes of the test of a link. *)
Lemma follow_nonzero a b f cur s p :
  pstep q a p = follow q a f cur s → load_bt a cur = Ret b → get_field f b ≠ 0%Z →
  runs q (p, a) (enter f (to_prop_obj pa_data_size (get_field f b)) s, a).
Proof.
  unfold follow. intros Hp Hb Hf. rewrite Hb in Hp. cbn [cbind] in Hp.
  rewrite (proj2 (Z.eqb_neq _ _)) in Hp by done. eapply runs_step; [exact Hp|].
  apply runs_one. cbn [pstep]. by rewrite Hb.
Qed.

Lemma follow_null a b f cur s p :
  pstep q a p = follow q a f cur s → load_bt a cur = Ret b → get_field f b = 0%Z →
  q_alloc q = false → runs q (p, a) (PRet None, a).
Proof.
  unfold follow. intros Hp Hb Hf Hq. rewrite Hb, Hq in Hp. cbn [cbind] in Hp.
  rewrite Hf in Hp. by apply runs_one.
Qed.

Lemma follow_full a b f cur s p a1 :
  pstep q a p = follow q a f cur s → load_bt a cur = Ret b → get_field f b = 0%Z →
  q_alloc q = true → make q a f s = (None, a1) → runs q (p, a) (PRet None, a1).
Proof.
  unfold follow. intros Hp Hb Hf Hq Hm. rewrite Hb, Hq in Hp. cbn [cbind] in Hp.
  rewrite Hf, Hm in Hp. by apply runs_one.
Qed.

Lemma follow_new a b f cur s p o a1 a2 :
  pstep q a p = follow q a f cur s → load_bt a cur = Ret b → get_field f b = 0%Z →
  q_alloc q = true → make q a f s = (Some o, a1) → update_bt a1 cur (with_field f o) = Ret a2 →
  runs q (p, a) (stored f s o, a2).
Proof.
  unfold follow. intros Hp Hb Hf Hq Hm Hu. rewrite Hb, Hq in Hp. cbn [cbind] in Hp.
  rewrite Hf, Hm in Hp. eapply runs_step; [exact Hp|]. apply runs_one. cbn [pstep]. by rewrite Hu.
Qed.

(** The next node of the tree of siblings, or a new one. *)
Lemma sibling_step fuel a b f cur s r a' :
  f = FLeft ∨ f = FRight →
  pstep q a (PSib (Some cur) s) = follow q a f cur s → load_bt a cur = Ret b →
  (∀ current, find_bt_sibling pa_data_size fuel a current s (substr_size s) (q_alloc q) = Ret (r, a') →
     runs q (PSib current s, a) (match r with Some o => found o s | None => PRet None end, a')) →
  (if negb (get_field f b =? 0)%Z then
     find_bt_sibling pa_data_size fuel a (to_prop_obj pa_data_size (get_field f b)) s
       (substr_size s) (q_alloc q)
   else if negb (q_alloc q) then Ret (None, a)
   else match new_prop_bt pa_data_size a s (substr_size s) with
        | None => Ret (None, a)
        | Some (o, a) => let! a := update_bt a cur (with_field f o) in Ret (Some o, a)
        end) = Ret (r, a') →
  runs q (PSib (Some cur) s, a) (match r with Some o => found o s | None => PRet None end, a').
Proof.
  intros Hf Hp Hb IH.
  assert (Hmake : make q a f s = match new_prop_bt pa_data_size a s (substr_size s) with
                                 | Some (o, a) => (Some o, a) | None => (None, a) end)
    by (by destruct Hf as [-> | ->]).
  destruct (Z.eqb_spec (get_field f b) 0) as [E|E]; cbn [negb].
  - destruct (q_alloc q) eqn:Hq; cbn [negb]; [|intros [= <- <-]; by eapply follow_null].
    destruct (new_prop_bt _ _ _ _) as [[o a1]|]; [|intros [= <- <-]; by eapply follow_full].
    destruct (update_bt a1 cur _) as [a2| |] eqn:Hu; [|done..]. intros [= <- <-].
    pose proof (follow_new _ _ _ _ _ _ _ _ _ Hp Hb E Hq Hmake Hu) as H.
    by destruct Hf as [-> | ->].
  - intros H. etrans; [by eapply follow_nonzero|]. destruct Hf as [-> | ->]; by apply IH.
Qed.

Lemma find_bt_sibling_runs fuel a current s r a' :
  find_bt_sibling pa_data_size fuel a current s (substr_size s) (q_alloc q) = Ret (r, a') →
  runs q (PSib current s, a) (match r with Some o => found o s | None => PRet None end, a').
Proof.
  revert a current r a'. induction fuel as [|fuel IH]; [done|]. intros a current r a'.
  cbn [find_bt_sibling]. destruct current as [cur|]; [|by intros [= <- <-]; apply runs_one].
  destruct (load_bt a cur) as [b| |] eqn:Hb; [|done..]. cbn [cbind].
  assert (Hp : pstep q a (PSib (Some cur) s) =
    match cmp_prop_name s (substr_size s) (bt_name b) (bt_namelen b) with
    | Eq => Ret (found cur s, a)
    | Lt => follow q a FLeft cur s
    | Gt => follow q a FRight cur s
    end) by (cbn [pstep]; by rewrite Hb).
  destruct (cmp_prop_name _ _ _ _).
  - intros [= <- <-]. by apply runs_one.
  - apply (sibling_step fuel a b FLeft cur s r a'); auto.
  - apply (sibling_step fuel a b FRight cur s r a'); auto.
Qed.

Lemma find_bt_loop_runs fuel a cur s r a' :
  find_bt_loop pa_data_size fuel a cur s (q_alloc q) = Ret (r, a') →
  runs q (PLevel cur s, a) (match r with Some o => PFound o | None => PRet None end, a').
Proof.
  revert a cur s r a'. induction fuel as [|fuel IH]; [done|]. intros a cur s r a'.
  cbn [find_bt_loop]. fold (tok_len s). fold (substr_size s).
  assert (Hp : pstep q a (PLevel cur s) =
    if (substr_size s =? 0)%Z then Ret (PRet None, a) else follow q a FChildren cur s) by done.
  destruct (_ =? 0)%Z; [by intros [= <- <-]; apply runs_one|].
  destruct (load_bt a cur) as [b| |] eqn:Hb; [|done..]. cbn [cbind].
  assert (Hlevel : ∀ a0 root,
    runs q (PLevel cur s, a) (PSib root s, a0) →
    (match root with
     | None => Ret (None, a0)
     | Some _ =>
       let! (found, a) := find_bt_sibling pa_data_size (S (size (data a0))) a0 root s
         (substr_size s) (q_alloc q) in
       match found with
       | None => Ret (None, a)
       | Some cur => match strchr s "."%char with
                     | None => Ret (Some cur, a)
                     | Some i => find_bt_loop pa_data_size fuel a cur (drop (S i) s) (q_alloc q)
                     end
       end
     end) = Ret (r, a') →
    runs q (PLevel cur s, a) (match r with Some o => PFound o | None => PRet None end, a')).
  { intros a0 root Hr H. etrans; [exact Hr|]. destruct root as [root|].
    2:{ injection H as <- <-. by apply runs_one. }
    destruct (find_bt_sibling _ _ _ _ _ _ _) as [[fnd a1]| |] eqn:Hs; [|done..].
    etrans; [by eapply find_bt_sibling_runs|]. cbn [cbind] in H.
    destruct fnd as [o|]; [|by injection H as <- <-]. unfold found.
    destruct (strchr s _) as [i|]; [by apply IH|]. by injection H as <- <-. }
  destruct (Z.eqb_spec (bt_children b) 0) as [E|E]; cbn [negb cbind].
  - destruct (q_alloc q) eqn:Hq; cbn [cbind].
    2:{ intros [= <- <-]. by eapply follow_null. }
    destruct (new_prop_bt _ _ _ _) as [[o a1]|] eqn:Hnew; cbn [cbind].
    2:{ intros [= <- <-]. eapply (follow_full a b FChildren cur s); try done.
        cbn [make]. by rewrite Hnew. }
    destruct (update_bt a1 cur _) as [a2| |] eqn:Hu; [|done..]. cbn [cbind]. intros H.
    apply (Hlevel a2 (Some o)); [|exact H].
    eapply (follow_new a b FChildren cur s _ o a1 a2); try done. cbn [make]. by rewrite Hnew.
  - intros H. eapply Hlevel; [|exact H]. by apply (follow_nonzero a b FChildren cur s).
Qed.

Lemma find_property_runs a r a' :
  find_property pa_data_size a (root_node pa_data_size) (q_name q) (Z.of_nat (length (q_name q)))
    (q_value q) (Z.of_nat (length (q_value q))) (q_alloc q) = Ret (r, a') →
  runs q (start q, a) (PRet r, a').
Proof.
  unfold find_property, find_prop_bt, start.
  destruct (root_node _) as [t|]; [|by intros [= <- <-]; constructor].
  destruct (find_bt_loop _ _ _ _ _ _) as [[current a1]| |] eqn:Hl; [|done..].
  apply find_bt_loop_runs in Hl. cbn [cbind].
  destruct current as [cur|]; [|by intros [= <- <-]]. intros H. etrans; [exact Hl|].
  destruct (load_bt a1 cur) as [b| |] eqn:Hb; [|done..]. cbn [cbind] in H.
  assert (Hp : pstep q a1 (PFound cur) = follow q a1 FProp cur []) by done.
  destruct (Z.eqb_spec (bt_prop b) 0) as [E|E]; cbn [negb] in H.
  - destruct (q_alloc q) eqn:Hq; [|injection H as <- <-; by eapply follow_null].
    destruct (new_prop_info _ _ _ _ _ _) as [[o|] a2] eqn:Hnew.
    + destruct (update_bt a2 cur _) as [a3| |] eqn:Hu; [|done..]. injection H as <- <-.
      by apply (follow_new a1 b FProp cur [] _ o a2 a3).
    + injection H as <- <-. by apply (follow_full a1 b FProp cur []).
  - injection H as <- <-. by apply (follow_nonzero a1 b FProp cur []).
Qed.
End sequential.
End machine.

(** * What the steps keep *)

Section invariant.
Context (pa_data_size : Z) (pads_u32 : (pa_data_size < 2 ^ 32)%Z).

Notation pstep := (pstep pa_data_size).
Notation runs := (runs pa_data_size).
Notation start := (start pa_data_size).
Notation area_ok := (area_ok pa_data_size).

Definition is_bt (a : prop_area) (o : Z) : Prop := ∃ b, data a !! o = Some (OBt b).

(** Nodes link to nodes, and to records as their properties. *)
Definition target (f : field) (x : obj) : Prop :=
  match f, x with FProp, OInfo _ => True | FProp, _ => False | _, OBt _ => True | _, _ => False end.

Definition links_to (a : prop_area) (o : Z) (f : field) (v : Z) : Prop :=
  (o < v ≤ pa_data_size)%Z ∧ ∃ x, data a !! v = Some x ∧ target f x.

(** Every link that is set points to an object made after its node. *)
Record linked (a : prop_area) : Prop := {
  linked_ok : area_ok a;
  linked_root : is_bt a 0;
  linked_links : ∀ o b f, data a !! o = Some (OBt b) → get_field f b ≠ 0%Z →
    links_to a o f (get_field f b)
}.

(** [a'] comes later than [a]: nodes keep their names and the links they have,
    records keep their names. *)
Record later (a a' : prop_area) : Prop := {
  later_bt : ∀ o b, data a !! o = Some (OBt b) → ∃ b', data a' !! o = Some (OBt b') ∧
    bt_name b' = bt_name b ∧ bt_namelen b' = bt_namelen b ∧
    ∀ f, get_field f b ≠ 0%Z → get_field f b' = get_field f b;
  later_info : ∀ o pi, data a !! o = Some (OInfo pi) →
    ∃ pi', data a' !! o = Some (OInfo pi') ∧ pi_name pi' = pi_name pi
}.

#[export] Instance later_preorder : PreOrder later.
Proof.
  split.
  - intros a. split; eauto.
  - intros a1 a2 a3 [B1 I1] [B2 I2]. split.
    + intros o b Hb. destruct (B1 _ _ Hb) as (b1 & Hb1 & N1 & L1 & F1).
      destruct (B2 _ _ Hb1) as (b2 & Hb2 & N2 & L2 & F2).
      exists b2. split_and!; [done|congruence..|]. intros f Hf. rewrite <-(F1 f Hf). apply F2. by rewrite F1.
    + intros o pi Hpi. destruct (I1 _ _ Hpi) as (p1 & H1 & N1). destruct (I2 _ _ H1) as (p2 & H2 & N2).
      exists p2. split; [done|congruence].
Qed.

Lemma later_is_bt a a' o : later a a' → is_bt a o → is_bt a' o.
Proof. intros Hl [b Hb]. destruct (later_bt _ _ Hl _ _ Hb) as (b' & ? & _). by exists b'. Qed.

Lemma later_links_to a a' o f v : later a a' → links_to a o f v → links_to a' o f v.
Proof.
  intros Hl (Hv & x & Hx & Ht). split; [done|]. destruct x as [b|pi|bytes].
  - destruct (later_bt _ _ Hl _ _ Hx) as (b' & ? & _). exists (OBt b'). by destruct f.
  - destruct (later_info _ _ Hl _ _ Hx) as (pi' & ? & _). exists (OInfo pi'). by destruct f.
  - by destruct f.
Qed.

Lemma is_bt_range a o : linked a → is_bt a o → (0 ≤ o < pa_data_size)%Z.
Proof. intros [[Hb Hd] _ _] [b Ho]. apply Hd in Ho. lia. Qed.

Lemma is_bt_load a o : is_bt a o → ∃ b, load_bt a o = Ret b ∧ data a !! o = Some (OBt b).
Proof. intros [b Hb]. exists b. split; [by apply load_bt_data|done]. Qed.

Lemma get_with_field f g v b :
  get_field f (with_field g v b) = if decide (f = g) then v else get_field f b.
Proof. by destruct f, g. Qed.

(** Where a thread can be in an area. *)
Definition pc_ok (a : prop_area) (p : pc) : Prop :=
  match p with
  | PLevel o _ | PFound o | PSib (Some o) _ => is_bt a o
  | PLink f o _ => ∃ b, data a !! o = Some (OBt b) ∧ get_field f b ≠ 0%Z
  | PStore f o _ v => (∃ b, data a !! o = Some (OBt b) ∧ get_field f b = 0%Z) ∧ links_to a o f v
  | PRet (Some o) => ∃ pi, data a !! o = Some (OInfo pi)
  | PSib None _ | PRet None => True
  end.

(** A reader makes and publishes nothing. *)
Definition reading (p : pc) : Prop := match p with PStore _ _ _ _ => False | _ => True end.

Lemma pc_ok_later a a' p : later a a' → reading p → pc_ok a p → pc_ok a' p.
Proof.
  intros Hl. pose proof (λ o, later_is_bt a a' o Hl) as Hbt. destruct p as [| |[]| | |[o|]]; cbn; eauto; try done.
  - intros _ (b & Hb & Hf). destruct (later_bt _ _ Hl _ _ Hb) as (b' & Hb' & _ & _ & Hf').
    exists b'. split; [done|]. by rewrite Hf'.
  - intros _ [pi Hpi]. destruct (later_info _ _ Hl _ _ Hpi) as (pi' & ? & _). by exists pi'.
Qed.

(** ** The object a link is going to point to *)

Lemma later_fresh a a' :
  (∀ k x, data a !! k = Some x → data a' !! k = Some x) → later a a'.
Proof. intros H. split; [intros o b Hb; exists b|intros o pi Hpi; exists pi]; split_and?; auto. Qed.

Lemma linked_fresh a a' :
  linked a → area_ok a' → (∀ k x, data a !! k = Some x → data a' !! k = Some x) →
  (∀ k b, data a' !! k = Some (OBt b) → data a !! k = Some (OBt b) ∨ ∀ f, get_field f b = 0%Z) →
  linked a'.
Proof.
  intros [_ [b0 H0] Hl] Hok Hsub Hnew. split; [done|exists b0; auto|].
  intros o b f Hb Hf. destruct (Hnew _ _ Hb) as [Hold|Hz]; [|by destruct Hf].
  apply (later_links_to a); [by apply later_fresh|]. auto.
Qed.

Lemma data_lt_mark a k x : area_ok a → data a !! k = Some x → (k < bytes_used a)%Z.
Proof. intros [_ H] Hk. apply H in Hk. lia. Qed.

(** A record, made in fresh memory. *)
Lemma new_prop_info_objects a name n v vl r a' :
  area_ok a → (0 ≤ n)%Z → (0 ≤ vl)%Z → new_prop_info pa_data_size a name n v vl = (r, a') →
  area_ok a' ∧ (∀ k x, data a !! k = Some x → data a' !! k = Some x) ∧
  (∀ k b, data a' !! k = Some (OBt b) → data a !! k = Some (OBt b)) ∧
  (∀ k pi, data a' !! k = Some (OInfo pi) → data a !! k = Some (OInfo pi) ∨ r = Some k) ∧
  ∀ o, r = Some o → (bytes_used a ≤ o ≤ pa_data_size)%Z ∧ ∃ pi, data a' !! o = Some (OInfo pi).
Proof.
  intros Hok Hn Hvl. unfold new_prop_info. pose proof Hok as [[Hpos _] _].
  pose proof (grows_refl pa_data_size a [] Hok) as Hg0.
  assert (Hsub : ∀ a1, grows pa_data_size a a1 [] → ∀ k x, data a !! k = Some x → data a1 !! k = Some x).
  { intros a1 Hg k x Hk. rewrite (grows_frame _ _ _ _ Hg); [done|by eapply data_lt_mark|set_solver]. }
  destruct (allocate_obj _ a _) as [[o1 a1]|] eqn:E1; [|intros [= <- <-]; split_and!; auto; done].
  assert (Hs1 : (0 < sizeof_prop_info + n + 1)%Z) by (unfold sizeof_prop_info, PROP_VALUE_MAX; lia).
  assert (Hs2 : (0 < vl + 1)%Z) by lia.
  destruct (grows_alloc _ pads_u32 _ _ _ _ _ _ Hpos Hg0 Hs1 E1) as (Hg1 & Ho1 & _ & Hd1 & _).
  pose proof (grows_ok _ _ _ _ Hg1) as [Hb1 _].
  destruct (_ >=? _)%Z.
  - destruct (allocate_obj _ a1 _) as [[o2 a2]|] eqn:E2.
    2:{ intros [= <- <-]. split_and!; [apply (grows_ok _ _ _ _ Hg1)|by apply Hsub|rewrite Hd1; auto..|done]. }
    destruct (grows_alloc _ pads_u32 _ _ _ _ _ _ Hpos Hg1 Hs2 E2) as (Hg2 & Ho2 & -> & Hd2 & _).
    intros [= <- <-].
    assert (Hg3 := grows_store_new _ a _ [] (bytes_used a1) (OLong (take (Z.to_nat vl) v ++ [NUL]))
      Hg2 Ho2 ltac:(lia)).
    assert (Hg4 := grows_store_new _ a _ [] o1
      (OInfo (prop_info_long name n (u32 (bytes_used a1 - o1)))) Hg3 ltac:(simpl; lia) ltac:(lia)).
    split_and!; [apply (grows_ok _ _ _ _ Hg4)|by apply Hsub| | |].
    + intros k b. cbn [store set_data data]. rewrite Hd2, Hd1, !lookup_insert_Some. naive_solver.
    + intros k pi. cbn [store set_data data]. rewrite Hd2, Hd1, !lookup_insert_Some. naive_solver.
    + intros o [= <-]. cbn [store set_data data]. rewrite lookup_insert_eq. split; [lia|eauto].
  - intros [= <- <-].
    assert (Hg3 := grows_store_new _ a _ [] o1 (OInfo (prop_info_short name n v vl)) Hg1 Ho1 ltac:(lia)).
    split_and!; [apply (grows_ok _ _ _ _ Hg3)|by apply Hsub| | |].
    + intros k b. cbn [store set_data data]. rewrite Hd1, lookup_insert_Some. naive_solver.
    + intros k pi. cbn [store set_data data]. rewrite Hd1, lookup_insert_Some. naive_solver.
    + intros o [= <-]. cbn [store set_data data]. rewrite lookup_insert_eq. split; [lia|eauto].
Qed.

Lemma make_spec q a f s r a' :
  linked a → make pa_data_size q a f s = (r, a') →
  linked a' ∧ (∀ k x, data a !! k = Some x → data a' !! k = Some x) ∧
  ∀ o new, is_bt a o → r = Some new → links_to a' o f new.
Proof.
  intros Hl Hm. pose proof Hl as [Hok _ _].
  assert (Hbt : f ≠ FProp → match new_prop_bt pa_data_size a s (substr_size s) with
                            | Some (o, a) => (Some o, a) | None => (None, a) end = (r, a') →
    linked a' ∧ (∀ k x, data a !! k = Some x → data a' !! k = Some x) ∧
    ∀ o new, is_bt a o → r = Some new → links_to a' o f new).
  { intros Hf Hn. destruct (new_prop_bt _ _ _ _) as [[o1 a1]|] eqn:E.
    2:{ injection Hn as <- <-. by split_and!. }
    injection Hn as <- <-. assert (0 ≤ substr_size s)%Z by apply u32_range.
    destruct (new_prop_bt_Some pa_data_size pads_u32 a s _ _ _ [] Hok H E) as (-> & Hlt & _ & Hg & Hd).
    assert (Hsub : ∀ k x, data a !! k = Some x → data a1 !! k = Some x).
    { intros k x Hk. rewrite Hd, lookup_insert_ne; [done|]. apply data_lt_mark in Hk; [lia|done]. }
    split_and!; [|done|].
    - apply (linked_fresh a); [done|apply (grows_ok _ _ _ _ Hg)|done|].
      intros k b. rewrite Hd, lookup_insert_Some. intros [(_ & [= <-])|[_ ?]]; [|by left].
      right. by intros [].
    - intros o new Ho [= <-]. destruct Ho as [b Ho]. apply data_lt_mark in Ho; [|done].
      destruct (grows_ok _ _ _ _ Hg) as [? _]. split; [lia|].
      exists (OBt (mk_prop_bt s (substr_size s))). rewrite Hd, lookup_insert_eq. by destruct f. }
  destruct f; [by apply Hbt..|]. clear Hbt. cbn [make] in Hm.
  destruct (new_prop_info_objects _ _ _ _ _ _ _ Hok (Nat2Z.is_nonneg _) (Nat2Z.is_nonneg _) Hm) as (Hok' & Hsub & Hbt & _ & Hr).
  split_and!; [|done|].
  - apply (linked_fresh a); auto.
  - intros o new [b Ho] Hnew. apply data_lt_mark in Ho; [|done]. destruct (Hr _ Hnew) as (Hrange & pi & Hpi).
    split; [lia|]. by exists (OInfo pi).
Qed.
(** ** One step *)

(** The store that publishes an object: the only one that changes a node. *)
Lemma publish_ok a o b f v :
  linked a → data a !! o = Some (OBt b) → get_field f b = 0%Z → links_to a o f v →
  let a' := store a o (OBt (with_field f v b)) in
  update_bt a o (with_field f v) = Ret a' ∧ linked a' ∧ later a a'.
Proof.
  intros Hl Hb Hf Hv a'.
  assert (Hlat : later a a').
  { split; intros k x Hk; subst a'; cbn [store set_data data].
    - destruct (decide (o = k)) as [<-|Hne].
      + rewrite Hb in Hk. injection Hk as <-. rewrite lookup_insert_eq. eexists. split; [done|].
        split; [by destruct f|]. split; [by destruct f|]. intros g Hg. rewrite get_with_field.
        destruct (decide (g = f)) as [->|]; [by destruct Hg|done].
      + rewrite lookup_insert_ne by done. eauto 6.
    - destruct (decide (o = k)) as [<-|Hne]; [congruence|]. rewrite lookup_insert_ne by done. eauto. }
  split; [unfold update_bt; by rewrite (load_bt_data _ _ _ Hb)|]. split; [|done].
  destruct Hl as [Hok Hroot Hlinks]. split.
  - eapply grows_ok, grows_store; [exact pads_u32|exact Hok|exact Hb].
  - by apply (later_is_bt a).
  - intros k x g Hk Hg. apply (later_links_to a); [done|]. subst a'. cbn [store set_data data] in Hk.
    apply lookup_insert_Some in Hk as [[<- [= <-]]|[_ Hk]]; [|by apply Hlinks].
    rewrite get_with_field in *. destruct (decide (g = f)) as [->|]; [done|]. by apply Hlinks.
Qed.

Definition step_ok (a : prop_area) (p' : pc) (a' : prop_area) : Prop :=
  linked a' ∧ later a a' ∧ pc_ok a' p'.

Lemma follow_ok q a f o s :
  linked a → is_bt a o →
  ∃ p' a', follow pa_data_size q a f o s = Ret (p', a') ∧ step_ok a p' a' ∧
    (q_alloc q = false → a' = a ∧ (p' = PLink f o s ∨ p' = PRet None)).
Proof.
  intros Hl Ho. destruct (is_bt_load _ _ Ho) as (b & Hload & Hb). unfold follow. rewrite Hload.
  cbn [cbind]. destruct (Z.eqb_spec (get_field f b) 0) as [E|E]; cbn [negb].
  - destruct (q_alloc q); cbn [negb].
    2:{ eexists _, _. split; [done|]. split; [by split_and!|auto]. }
    destruct (make _ _ _ _ _) as [r a'] eqn:Hm. destruct (make_spec _ _ _ _ _ _ Hl Hm) as (Hl' & Hsub & Hr).
    pose proof (later_fresh _ _ Hsub) as Hlat.
    destruct r as [new|]; eexists _, _; (split; [done|]); (split; [|done]);
      [|by split_and!].
    split; [done|]. split; [done|]. split; [|by apply Hr]. exists b. split; [by apply Hsub|done].
  - eexists _, _. split; [done|]. split; [|auto]. split_and!; [done..|]. by exists b.
Qed.

Lemma found_ok a o s : is_bt a o → pc_ok a (found o s).
Proof. unfold found. by destruct (strchr s _). Qed.

Lemma pc_ok_enter a f o v s :
  links_to a o f v → pc_ok a (enter f (to_prop_obj pa_data_size v) s).
Proof.
  intros (Hv & x & Hx & Ht). unfold to_prop_obj. rewrite Z.gtb_ltb, (proj2 (Z.ltb_ge _ _)) by lia.
  destruct f, x; try done; cbn; by eexists.
Qed.

(** No step faults: it finds a node where it loads one. *)
Lemma pstep_ok q a p :
  linked a → pc_ok a p → ∃ p' a', pstep q a p = Ret (p', a') ∧ step_ok a p' a'.
Proof.
  intros Hl Hp. assert (Hid : ∀ p', pc_ok a p' → step_ok a p' a) by (intros; by split_and!).
  destruct p as [o s|f o s|[o|] s|f o s v|o|r]; cbn [PropAreaSteps.pstep pc_ok] in *.
  - destruct (_ =? 0)%Z; [by eexists _, _|].
    destruct (follow_ok q a FChildren o s Hl Hp) as (p' & a' & -> & Hs & _). by eexists _, _.
  - destruct Hp as (b & Hb & Hf). rewrite (load_bt_data _ _ _ Hb). cbn [cbind].
    eexists _, _. split; [done|]. apply Hid. apply (pc_ok_enter a f o).
    by apply (linked_links a Hl).
  - destruct (is_bt_load _ _ Hp) as (b & Hload & Hb). rewrite Hload. cbn [cbind].
    destruct (cmp_prop_name _ _ _ _).
    + eexists _, _. split; [done|]. by apply Hid, found_ok.
    + destruct (follow_ok q a FLeft o s Hl Hp) as (p' & a' & -> & Hs & _). by eexists _, _.
    + destruct (follow_ok q a FRight o s Hl Hp) as (p' & a' & -> & Hs & _). by eexists _, _.
  - by eexists _, _.
  - destruct Hp as ((b & Hb & Hf) & Hv). destruct (publish_ok _ _ _ _ _ Hl Hb Hf Hv) as (-> & Hl' & Hlat).
    cbn [cbind]. eexists _, _. split; [done|]. split_and!; [done..|].
    pose proof (later_links_to _ _ _ _ _ Hlat Hv) as (_ & x & Hx & Ht).
    assert (is_bt (store a o (OBt (with_field f v b))) v → pc_ok (store a o (OBt (with_field f v b))) (found v s))
      by apply found_ok.
    destruct f, x; try done; cbn [stored pc_ok]; unfold is_bt in *; eauto.
  - destruct (follow_ok q a FProp o [] Hl Hp) as (p' & a' & -> & Hs & _). by eexists _, _.
  - eexists _, _. split; [done|]. by apply Hid.
Qed.

Lemma runs_ok q p a p' a' :
  linked a → pc_ok a p → runs q (p, a) (p', a') → step_ok a p' a'.
Proof.
  intros Hl Hp H. remember (p, a) as s eqn:E. remember (p', a') as s' eqn:E'.
  revert p a E Hl Hp. induction H as [s|s s1 s2 H1 _ IH]; intros p a -> Hl Hp.
  - injection E' as -> ->. by split_and!.
  - destruct s1 as [p1 a1]. destruct (pstep_ok q a p Hl Hp) as (p2 & a2 & H2 & Hl2 & Hlat & Hp2).
    unfold pnext in H1. cbn in H1. rewrite H1 in H2. injection H2 as -> ->.
    destruct (IH E' _ _ eq_refl Hl2 Hp2) as (Hl' & Hlat' & Hp'). split_and!; [done| |done].
    by etrans.
Qed.

(** ** The steps of a reader *)

(** A step of a reader: it leaves the area alone, and a later area, in which
    other threads have published more, lets it take the same step unless it
    gives up at a missing link. *)
Lemma reader_step q a p p' a' :
  q_alloc q = false → linked a → pc_ok a p → reading p → pstep q a p = Ret (p', a') →
  a' = a ∧ reading p' ∧
  ∀ a2, later a a2 → p' ≠ PRet None → pstep q a2 p = Ret (p', a2).
Proof.
  intros Hq Hl Hp Hr.
  assert (Hfollow : ∀ f o s, is_bt a o → follow pa_data_size q a f o s = Ret (p', a') →
    a' = a ∧ reading p' ∧
    ∀ a2, later a a2 → p' ≠ PRet None → follow pa_data_size q a2 f o s = Ret (p', a2)).
  { intros f o s [b Hb] Hs. unfold follow in *. rewrite (load_bt_data _ _ _ Hb), Hq in Hs. cbn [cbind] in Hs.
    destruct (Z.eqb_spec (get_field f b) 0) as [E|E]; injection Hs as <- <-; (do 2 (split; [done|])).
    - by intros a2 _ [].
    - intros a2 Hlat _. destruct (later_bt _ _ Hlat _ _ Hb) as (b2 & Hb2 & _ & _ & Hf).
      rewrite (load_bt_data _ _ _ Hb2). cbn [cbind]. rewrite Hf by done.
      by rewrite (proj2 (Z.eqb_neq _ _)). }
  destruct p as [o s|f o s|[o|] s|f o s v|o|r]; cbn [PropAreaSteps.pstep pc_ok] in *; try done.
  - destruct (_ =? 0)%Z; [|by apply Hfollow]. intros [= <- <-]. do 2 (split; [done|]). by intros a2 _ [].
  - destruct Hp as (b & Hb & Hf). rewrite (load_bt_data _ _ _ Hb). cbn [cbind]. intros [= <- <-].
    split; [done|]. split; [by destruct f|]. intros a2 Hlat _.
    destruct (later_bt _ _ Hlat _ _ Hb) as (b2 & Hb2 & _ & _ & Hg).
    rewrite (load_bt_data _ _ _ Hb2). cbn [cbind]. by rewrite Hg.
  - destruct Hp as [b Hb]. rewrite (load_bt_data _ _ _ Hb). cbn [cbind]. intros Hs.
    assert (Hsame : ∀ a2, later a a2 → ∃ b2, load_bt a2 o = Ret b2 ∧ bt_name b2 = bt_name b ∧ bt_namelen b2 = bt_namelen b).
    { intros a2 Hlat. destruct (later_bt _ _ Hlat _ _ Hb) as (b2 & Hb2 & ? & ? & _). exists b2.
      by rewrite (load_bt_data _ _ _ Hb2). }
    destruct (cmp_prop_name _ _ _ _) eqn:Hcmp.
    + injection Hs as <- <-. split; [done|]. split; [unfold found; by destruct (strchr s _)|].
      intros a2 Hlat _. destruct (Hsame _ Hlat) as (b2 & -> & Hn & Hn2). cbn [cbind]. by rewrite Hn, Hn2, Hcmp.
    + destruct (Hfollow _ _ _ (ex_intro _ b Hb) Hs) as (? & ? & Hpers). do 2 (split; [done|]).
      intros a2 Hlat Hne. destruct (Hsame _ Hlat) as (b2 & -> & Hn & Hn2). cbn [cbind]. rewrite Hn, Hn2, Hcmp. auto.
    + destruct (Hfollow _ _ _ (ex_intro _ b Hb) Hs) as (? & ? & Hpers). do 2 (split; [done|]).
      intros a2 Hlat Hne. destruct (Hsame _ Hlat) as (b2 & -> & Hn & Hn2). cbn [cbind]. rewrite Hn, Hn2, Hcmp. auto.
  - intros [= <- <-]. do 2 (split; [done|]). by intros a2 _ [].
  - by apply Hfollow.
  - intros [= <- <-]. by split_and!.
Qed.

(** Steps a reader has left before it returns, counted from above: the offsets
    of the nodes it visits increase. *)
Definition measure (p : pc) : nat :=
  match p with
  | PSib (Some o) _ => Z.to_nat (4 * (pa_data_size - o) + 3)
  | PLevel o _ | PFound o => Z.to_nat (4 * (pa_data_size - o) + 2)
  | PLink _ o _ | PStore _ o _ _ => Z.to_nat (4 * (pa_data_size - o) + 1)
  | PSib None _ => 1
  | PRet _ => 0
  end.

Lemma measure_start q : (measure (start q) ≤ Z.to_nat (4 * pa_data_size + 2))%nat.
Proof.
  unfold PropAreaSteps.start, root_node, to_prop_obj.
  destruct (Z.gtb_spec 0 pa_data_size); cbn [measure]; lia.
Qed.

Lemma reader_measure q a p p' a' :
  q_alloc q = false → linked a → pc_ok a p → reading p → (∀ r, p ≠ PRet r) →
  pstep q a p = Ret (p', a') → (measure p' < measure p)%nat.
Proof.
  intros Hq Hl Hp Hr Hret.
  assert (Hfollow : ∀ f o s, is_bt a o → follow pa_data_size q a f o s = Ret (p', a') →
    (measure p' ≤ Z.to_nat (4 * (pa_data_size - o) + 1))%nat).
  { intros f o s Ho Hs. destruct (follow_ok q a f o s Hl Ho) as (p1 & a1 & Hs1 & _ & Hp1).
    rewrite Hs in Hs1. injection Hs1 as <- <-. destruct (Hp1 Hq) as (_ & [-> | ->]); cbn [measure]; lia. }
  destruct p as [o s|f o s|[o|] s|f o s v|o|r]; cbn [PropAreaSteps.pstep pc_ok] in *; try done.
  - pose proof (is_bt_range _ _ Hl Hp). destruct (_ =? 0)%Z.
    + intros [= <- <-]. cbn [measure]. lia.
    + intros Hs. apply Hfollow in Hs; [|done]. cbn [measure]. lia.
  - destruct Hp as (b & Hb & Hf). rewrite (load_bt_data _ _ _ Hb). cbn [cbind]. intros [= <- <-].
    pose proof (is_bt_range _ _ Hl (ex_intro _ b Hb)). destruct (linked_links a Hl _ _ _ Hb Hf) as (Hv & _).
    unfold to_prop_obj. rewrite Z.gtb_ltb, (proj2 (Z.ltb_ge _ _)) by lia. destruct f; cbn [enter measure]; lia.
  - pose proof (is_bt_range _ _ Hl Hp). destruct (is_bt_load _ _ Hp) as (b & Hload & _). rewrite Hload. cbn [cbind].
    destruct (cmp_prop_name _ _ _ _).
    + intros [= <- <-]. unfold found. destruct (strchr s _); cbn [measure]; lia.
    + intros Hs. apply Hfollow in Hs; [|done]. cbn [measure]. lia.
    + intros Hs. apply Hfollow in Hs; [|done]. cbn [measure]. lia.
  - intros [= <- <-]. cbn [measure]. lia.
  - pose proof (is_bt_range _ _ Hl Hp). intros Hs. apply Hfollow in Hs; [|done]. cbn [measure]. lia.
  - by destruct (Hret r).
Qed.
(** ** The function on a linked area *)

(** The objects from [o] on: as many nodes a search can still visit. *)
Definition objects_from (a : prop_area) (o : Z) : gmap Z obj := filter (λ kx, (o ≤ kx.1)%Z) (data a).

Lemma objects_from_next a o v x :
  data a !! o = Some x → (o < v)%Z → (size (objects_from a v) < size (objects_from a o))%nat.
Proof.
  intros Ho Hv. rewrite <-!(size_dom (D := gset Z)). apply subset_size. split.
  - intros k. rewrite !elem_of_dom. intros [y Hy]. apply map_lookup_filter_Some in Hy as [Hy Hk].
    cbn in Hk. exists y. apply map_lookup_filter_Some. split; [done|]. cbn. lia.
  - intros Hsub. assert (Hin : o ∈ dom (objects_from a o)).
    { apply elem_of_dom. exists x. apply map_lookup_filter_Some. split; [done|]. cbn. lia. }
    apply Hsub, elem_of_dom in Hin as [y Hy]. apply map_lookup_filter_Some in Hy as [_ Hk]. cbn in Hk. lia.
Qed.

Lemma objects_from_all a o : (size (objects_from a o) ≤ size (data a))%nat.
Proof.
  rewrite <-!(size_dom (D := gset Z)). apply subseteq_size. intros k. rewrite !elem_of_dom.
  intros [y Hy]. apply map_lookup_filter_Some in Hy as [Hy _]. by exists y.
Qed.

Lemma to_prop_obj_link a o f v :
  links_to a o f v → to_prop_obj pa_data_size v = Some v ∧ (o < v)%Z.
Proof.
  intros (Hv & _). unfold to_prop_obj. rewrite Z.gtb_ltb, (proj2 (Z.ltb_ge _ _)) by lia. split; [done|lia].
Qed.

Lemma find_bt_sibling_total fuel a o s n :
  linked a → is_bt a o → (size (objects_from a o) ≤ fuel)%nat →
  ∃ r, find_bt_sibling pa_data_size fuel a (Some o) s n false = Ret (r, a) ∧ ∀ v, r = Some v → is_bt a v.
Proof.
  intros Hl. revert o. induction fuel as [|fuel IH]; intros o [b Hb] Hf.
  { pose proof (objects_from_next a o (o + 1) _ Hb ltac:(lia)). lia. }
  cbn [find_bt_sibling]. rewrite (load_bt_data _ _ _ Hb). cbn [cbind negb].
  assert (Hnext : ∀ f, f = FLeft ∨ f = FRight → ∃ r,
    (if negb (get_field f b =? 0)%Z
     then find_bt_sibling pa_data_size fuel a (to_prop_obj pa_data_size (get_field f b)) s n false
     else Ret (None, a)) = Ret (r, a) ∧ ∀ v, r = Some v → is_bt a v).
  { intros f Hfd. destruct (Z.eqb_spec (get_field f b) 0) as [E|E]; cbn [negb]; [by exists None|].
    pose proof (linked_links a Hl _ _ _ Hb E) as Hlink.
    destruct (to_prop_obj_link _ _ _ _ Hlink) as [-> Hlt]. destruct Hlink as (_ & x & Hx & Ht).
    apply IH; [destruct Hfd as [-> | ->], x; try done; by eexists|].
    pose proof (objects_from_next a o _ _ Hb Hlt). lia. }
  destruct (cmp_prop_name _ _ _ _); [|apply (Hnext FLeft); auto|apply (Hnext FRight); auto].
  exists (Some o). split; [done|]. intros v [= <-]. by exists b.
Qed.

Lemma find_bt_loop_total fuel a o s :
  linked a → is_bt a o → (length s < fuel)%nat →
  ∃ r, find_bt_loop pa_data_size fuel a o s false = Ret (r, a) ∧ ∀ v, r = Some v → is_bt a v.
Proof.
  intros Hl. revert o s. induction fuel as [|fuel IH]; [lia|]. intros o s [b Hb] Hf.
  cbn [find_bt_loop]. destruct (_ =? 0)%Z; [by exists None|].
  rewrite (load_bt_data _ _ _ Hb). cbn [cbind].
  destruct (Z.eqb_spec (bt_children b) 0) as [E|E]; cbn [negb cbind]; [by exists None|].
  pose proof (linked_links a Hl _ _ FChildren Hb E) as Hlink. cbn [get_field] in Hlink.
  destruct (to_prop_obj_link _ _ _ _ Hlink) as [-> Hlt]. destruct Hlink as (_ & x & Hx & Ht).
  assert (is_bt a (bt_children b)) as Hc by (destruct x; try done; by eexists).
  match goal with |- context [find_bt_sibling _ ?fl _ _ ?s0 ?n0 _] =>
    destruct (find_bt_sibling_total fl a _ s0 n0 Hl Hc) as (r & -> & Hr) end.
  { pose proof (objects_from_all a (bt_children b)). lia. }
  cbn [cbind]. destruct r as [v|]; [|by exists None]. specialize (Hr v eq_refl).
  destruct (strchr s _) as [i|] eqn:Hi; [|exists (Some v); split; [done|]; by intros ? [= <-]].
  apply strchr_lt in Hi. apply IH; [done|]. rewrite length_drop. lia.
Qed.

Lemma find_property_total a name :
  linked a → ∃ r, find_property pa_data_size a (root_node pa_data_size) name
    (Z.of_nat (length name)) [] 0 false = Ret (r, a).
Proof.
  intros Hl. unfold find_property, find_prop_bt.
  rewrite (root_node_ok pa_data_size a (linked_ok a Hl)).
  destruct (find_bt_loop_total (S (length name)) a 0 name Hl (linked_root a Hl) (Nat.lt_succ_diag_r _))
    as (r & -> & Hr).
  cbn [cbind]. destruct r as [v|]; [|by exists None]. destruct (is_bt_load _ _ (Hr v eq_refl)) as (b & -> & _).
  cbn [cbind]. destruct (negb _); by eexists.
Qed.

Lemma find_total a name : linked a → ∃ r, find pa_data_size a name = Ret r.
Proof. intros Hl. destruct (find_property_total a name Hl) as [r H]. exists r. unfold find. by rewrite H. Qed.

(** What a lookup finds is what the machine finds alone. *)
Lemma find_runs a name r :
  linked a → find pa_data_size a name = Ret r ↔ runs (find_call name) (start (find_call name), a) (PRet r, a).
Proof.
  intros Hl. destruct (find_property_total a name Hl) as (r0 & H0).
  pose proof (find_property_runs pa_data_size (find_call name) a r0 a H0) as Hr0.
  unfold find. rewrite H0. cbn [cbind]. split; [by intros [= <-]|]. intros H.
  apply (runs_join _ _ _ _ _ _ H) in Hr0. apply runs_PRet in Hr0. congruence.
Qed.
(** A run of a reader is a run in any later area, as long as it has not given
    up. *)
Lemma reader_runs_later q p a p' a' :
  q_alloc q = false → linked a → pc_ok a p → reading p → runs q (p, a) (p', a') →
  a' = a ∧ ∀ a2, later a a2 → p' ≠ PRet None → runs q (p, a2) (p', a2).
Proof.
  intros Hq Hl Hp Hr H. remember (p, a) as s eqn:E. remember (p', a') as s' eqn:E'.
  revert p E Hp Hr. induction H as [s|s s1 s2 H1 H2 IH]; intros p -> Hp Hr.
  - injection E' as -> ->. split; [done|]. intros. constructor.
  - destruct s1 as [p1 a1]. unfold pnext in H1. cbn in H1.
    destruct (pstep_ok q a p Hl Hp) as (p2 & a2 & Hs & _ & _ & Hp1). rewrite H1 in Hs. injection Hs as <- <-.
    destruct (reader_step _ _ _ _ _ Hq Hl Hp Hr H1) as (-> & Hr1 & Hstep).
    destruct (IH E' _ eq_refl Hp1 Hr1) as (-> & Hruns). split; [done|]. intros a2 Hlat Hne.
    eapply runs_step; [|by apply Hruns]. apply Hstep; [done|]. intros ->.
    apply runs_PRet in H2. congruence.
Qed.

Lemma find_runs_later name p a p' a2 :
  linked a → pc_ok a p → reading p → runs (find_call name) (p, a) (p', a) → later a a2 →
  p' ≠ PRet None → runs (find_call name) (p, a2) (p', a2).
Proof.
  intros Hl Hp Hr H. by apply (reader_runs_later (find_call name) p a p' a eq_refl Hl Hp Hr H).
Qed.

Lemma reading_start q : reading (start q).
Proof. unfold PropAreaSteps.start. by destruct (root_node _). Qed.

Lemma pc_ok_start a q : linked a → pc_ok a (start q).
Proof.
  intros Hl. unfold PropAreaSteps.start. rewrite (root_node_ok pa_data_size a (linked_ok a Hl)).
  apply (linked_root a Hl).
Qed.

(** ** Linked areas *)

Lemma linked_new mg ver : (sizeof_prop_bt ≤ pa_data_size)%Z → linked (new_prop_area mg ver).
Proof.
  unfold sizeof_prop_bt. intros Hs. split.
  - split; [cbn; unfold sizeof_prop_bt; lia|]. intros k o. cbn. rewrite lookup_singleton_Some.
    unfold sizeof_prop_bt. lia.
  - by exists (mk_prop_bt [] 0).
  - intros o b f. cbn. rewrite lookup_singleton_Some. intros [_ [= <-]] []. by destruct f.
Qed.

(** A store into a record that keeps its name. *)
Lemma store_info_ok a o pi pi' :
  linked a → data a !! o = Some (OInfo pi) → pi_name pi' = pi_name pi →
  linked (store a o (OInfo pi')) ∧ later a (store a o (OInfo pi')).
Proof.
  intros [Hok Hroot Hlinks] Ho Hname.
  assert (Hlat : later a (store a o (OInfo pi'))).
  { split; intros k x Hk; cbn [store set_data data]; destruct (decide (o = k)) as [<-|Hne].
    - congruence.
    - rewrite lookup_insert_ne by done. eauto 6.
    - rewrite lookup_insert_eq. exists pi'. split; [done|]. congruence.
    - rewrite lookup_insert_ne by done. eauto. }
  split; [|done]. split.
  - eapply grows_ok, grows_store; [exact pads_u32|exact Hok|exact Ho].
  - by apply (later_is_bt a).
  - intros k b f Hk Hf. apply (later_links_to a); [done|]. cbn [store set_data data] in Hk.
    apply lookup_insert_Some in Hk as [[_ ?]|[_ Hk]]; [done|]. by apply Hlinks.
Qed.

Lemma set_serial_ok a n : linked a → linked (set_serial a n) ∧ later a (set_serial a n).
Proof.
  intros [Hok Hroot Hlinks]. assert (Hlat : later a (set_serial a n)) by (split; eauto 6).
  split; [|done]. by split.
Qed.
(** ** The values of the records *)

(** Every record of the area has its value: it was written before the record
    could be reached. *)
Definition complete (a : prop_area) : Prop :=
  ∀ o pi, data a !! o = Some (OInfo pi) → ∃ v, has_value a o v.

(** Records and long values of [a] are still there, unchanged. *)
Definition keeps_records (a a' : prop_area) : Prop :=
  ∀ k x, data a !! k = Some x → (∀ b, x ≠ OBt b) → data a' !! k = Some x.

#[export] Instance keeps_records_preorder : PreOrder keeps_records.
Proof. split; [by intros a k x|]. intros a1 a2 a3 H1 H2 k x Hk Hx. auto. Qed.

Lemma complete_new mg ver : complete (new_prop_area mg ver).
Proof. intros o pi. cbn. rewrite lookup_singleton_Some. by intros [_ ?]. Qed.

Lemma complete_serial a n : complete a → complete (set_serial a n).
Proof. intros Hc o pi Ho. destruct (Hc o pi Ho) as [v Hv]. exists v. exact Hv. Qed.

Lemma complete_update a o pi pi' v :
  complete a → data a !! o = Some (OInfo pi) → has_value (store a o (OInfo pi')) o v →
  complete (store a o (OInfo pi')).
Proof.
  intros Hc Ho Hv k pk Hk. destruct (decide (k = o)) as [->|Hne]; [by exists v|].
  cbn [store set_data data] in Hk. rewrite lookup_insert_ne in Hk by done.
  destruct (Hc _ _ Hk) as [w Hw]. exists w. by eapply has_value_other.
Qed.

(** A new record has its value as soon as it is there. *)
Lemma make_complete q a f s r a' :
  linked a → no_nul (q_value q) → complete a → make pa_data_size q a f s = (r, a') →
  keeps_records a a' ∧ complete a'.
Proof.
  intros Hl Hv Hc Hm. destruct (make_spec _ _ _ _ _ _ Hl Hm) as (_ & Hsub & _).
  assert (Hk : keeps_records a a') by (intros k x Hk _; auto). split; [done|].
  assert (Hold : ∀ o pi, data a !! o = Some (OInfo pi) → ∃ v, has_value a' o v).
  { intros o pi Ho. destruct (Hc _ _ Ho) as [v Hv']. exists v. by eapply has_value_frame. }
  intros o pi Ho. destruct (decide (f = FProp)) as [->|Hf].
  - cbn [make] in Hm. pose proof (linked_ok a Hl) as Hok.
    destruct (new_prop_info_objects _ _ _ _ _ _ _ Hok (Nat2Z.is_nonneg _) (Nat2Z.is_nonneg _) Hm)
      as (_ & _ & _ & Hinfo & _).
    destruct (Hinfo _ _ Ho) as [Hin|Hr]; [by eapply Hold|].
    destruct (new_prop_info_spec _ pads_u32 _ _ _ _ _ Hok Hv Hm) as (_ & _ & Hnew).
    destruct (Hnew o Hr) as (_ & _ & Hval). by eexists.
  - assert (Hbt : match new_prop_bt pa_data_size a s (substr_size s) with
      | Some (o, a) => (Some o, a) | None => (None, a) end = (r, a')) by (by destruct f).
    destruct (new_prop_bt _ _ _ _) as [[o1 a1]|] eqn:E; injection Hbt as <- <-; [|by eapply Hc].
    assert (0 ≤ substr_size s)%Z by apply u32_range.
    destruct (new_prop_bt_Some pa_data_size pads_u32 a s _ _ _ [] (linked_ok a Hl) H E) as (_ & _ & _ & _ & Hd).
    rewrite Hd, lookup_insert_Some in Ho. destruct Ho as [[_ [=]]|[_ Ho]]. by eapply Hold.
Qed.

Lemma pstep_complete q a p p' a' :
  linked a → pc_ok a p → no_nul (q_value q) → complete a → pstep q a p = Ret (p', a') →
  keeps_records a a' ∧ complete a'.
Proof.
  intros Hl Hp Hv Hc.
  assert (Hfollow : ∀ f o s, is_bt a o → follow pa_data_size q a f o s = Ret (p', a') → keeps_records a a' ∧ complete a').
  { intros f o s [b Hb]. unfold follow. rewrite (load_bt_data _ _ _ Hb). cbn [cbind].
    destruct (negb (get_field f b =? 0)%Z); [by intros [= _ <-]|]. destruct (negb (q_alloc q)); [by intros [= _ <-]|].
    destruct (make _ _ _ _ _) as [r a1] eqn:Hm. pose proof (make_complete _ _ _ _ _ _ Hl Hv Hc Hm) as H.
    destruct r; by intros [= _ <-]. }
  destruct p as [o s|f o s|[o|] s|f o s v|o|r]; cbn [PropAreaSteps.pstep pc_ok] in *.
  - destruct (_ =? 0)%Z; [by intros [= _ <-]|]. by apply Hfollow.
  - destruct Hp as (b & Hb & _). rewrite (load_bt_data _ _ _ Hb). by intros [= _ <-].
  - destruct (is_bt_load _ _ Hp) as (b & -> & _). cbn [cbind].
    destruct (cmp_prop_name _ _ _ _); [by intros [= _ <-]|by apply Hfollow..].
  - by intros [= _ <-].
  - destruct Hp as ((b & Hb & Hf) & Hlink). destruct (publish_ok _ _ _ _ _ Hl Hb Hf Hlink) as (-> & _ & _).
    intros [= _ <-]. set (a1 := store _ _ _).
    assert (Hk : keeps_records a a1).
    { intros k x Hk Hx. subst a1. cbn [store set_data data]. rewrite lookup_insert_ne; [done|]. intros <-.
      rewrite Hb in Hk. injection Hk as <-. by apply (Hx b). }
    split; [done|]. intros k pi Hki. subst a1. cbn [store set_data data] in Hki.
    apply lookup_insert_Some in Hki as [[_ [=]]|[_ Hki]]. destruct (Hc _ _ Hki) as [w Hw]. exists w.
    by eapply has_value_frame.
  - by apply Hfollow.
  - by intros [= _ <-].
Qed.

Lemma runs_complete q p a p' a' :
  linked a → pc_ok a p → no_nul (q_value q) → complete a → runs q (p, a) (p', a') →
  keeps_records a a' ∧ complete a'.
Proof.
  intros Hl Hp Hv Hc H. remember (p, a) as s eqn:E. remember (p', a') as s' eqn:E'.
  revert p a E Hl Hp Hc. induction H as [s|s s1 s2 H1 _ IH]; intros p a -> Hl Hp Hc.
  - by injection E' as -> ->.
  - destruct s1 as [p1 a1]. unfold pnext in H1. cbn in H1.
    destruct (pstep_ok q a p Hl Hp) as (p2 & a2 & H2 & Hl2 & _ & Hp2). rewrite H1 in H2. injection H2 as <- <-.
    destruct (pstep_complete _ _ _ _ _ Hl Hp Hv Hc H1) as [Hk Hc1].
    destruct (IH E' _ _ eq_refl Hl2 Hp2 Hc1) as [Hk2 Hc2]. split; [by etrans|done].
Qed.
End invariant.
