(* ===== verification/PropAreaConcurrent.v ===== *)
(** Lookups beside a writer: any number of threads run [find] on an area while
    one thread adds properties, updates records and bumps the area's serial
    (system_properties/prop_area.cpp; SystemProperties::Add, Update and Find).
    Every step is one atomic load or store of [PropAreaSteps], interleaved on a
    sequentially consistent memory.  An update is one step here: what a reader
    of the record sees of it is the subject of [SeqLock]. *)

From Stdlib Require Import ZArith Lia Ascii.
From stdpp Require Import base numbers strings gmap list relations.
From S2P Require Import Prelude CString PropInfo PropArea PropTrie PropAreaProofs.
From S2P Require Import PropAreaSpec.
From S2P Require Import PropAreaTheorems PropAreaSteps.

(** * The threads *)

(** A lookup; [r_from] and [r_steps] record, for the theorems, the area at its
    call and how many steps it has made. *)
Record reader := Reader { r_name : cstr; r_pc : pc; r_from : prop_area; r_steps : nat }.

(** The writer; [base] is the area at the call of [add]. *)
Inductive writer := WIdle | WAdd (name value : cstr) (p : pc) (base : prop_area).

Record conf := Conf { c_area : prop_area; c_writer : writer; c_readers : list reader }.

Section concurrent.
Context (pa_data_size : Z) (pads_u32 : (pa_data_size < 2 ^ 32)%Z).

Notation find := (find pa_data_size).
Notation pstep := (pstep pa_data_size).
Notation start := (start pa_data_size).
Notation runs := (runs pa_data_size).
Notation linked := (linked pa_data_size).
Notation represents := (represents pa_data_size).
Notation measure := (measure pa_data_size).

(** [dels]: whether properties are deleted, too.  [del] looks the name up,
    which changes nothing, and makes one store. *)
Inductive step (dels : bool) : conf → conf → Prop :=
  | s_add a rs name value :
    name_ok name → no_nul value →
    step dels (Conf a WIdle rs) (Conf a (WAdd name value (start (add_call name value)) a) rs)
  | s_write a name value p base rs p' a' :
    (∀ r, p ≠ PRet r) → pstep (add_call name value) a p = Ret (p', a') →
    step dels (Conf a (WAdd name value p base) rs) (Conf a' (WAdd name value p' base) rs)
  | s_return a name value r base rs :
    step dels (Conf a (WAdd name value (PRet r) base) rs) (Conf a WIdle rs)
  | s_update a rs name o pi pi' v :
    name_ok name → find a name = Ret (Some o) → data a !! o = Some (OInfo pi) →
    pi_name pi' = pi_name pi → pi_ok pi' → has_value (store a o (OInfo pi')) o v →
    step dels (Conf a WIdle rs) (Conf (store a o (OInfo pi')) WIdle rs)
  | s_serial a n rs : step dels (Conf a WIdle rs) (Conf (set_serial a n) WIdle rs)
  | s_del a rs name ok a' :
    dels = true → del pa_data_size a name = Ret (ok, a') →
    step dels (Conf a WIdle rs) (Conf a' WIdle rs)
  | s_call a w rs name :
    name_ok name →
    step dels (Conf a w rs) (Conf a w (rs ++ [Reader name (start (find_call name)) a 0]))
  | s_read a w rs i name p from n p' a' :
    rs !! i = Some (Reader name p from n) → (∀ r, p ≠ PRet r) →
    pstep (find_call name) a p = Ret (p', a') →
    step dels (Conf a w rs) (Conf a' w (<[i := Reader name p' from (S n)]> rs)).

(** An area that nobody is using yet. *)
Definition init (a : prop_area) : conf := Conf a WIdle [].

Definition reachable (dels : bool) (a : prop_area) : conf → Prop := rtc (step dels) (init a).

(** * The invariant *)

(** A lookup that has not given up is where it would be had it run alone in the
    area of now; one that would have succeeded at its call is going to. *)
Record reader_ok (a : prop_area) (r : reader) : Prop := {
  ro_pc : pc_ok pa_data_size a (r_pc r);
  ro_reading : reading (r_pc r);
  ro_from : linked (r_from r) ∧ later (r_from r) a;
  ro_now : r_pc r = PRet None ∨
    runs (find_call (r_name r)) (start (find_call (r_name r)), a) (r_pc r, a);
  ro_then : ∀ o, runs (find_call (r_name r)) (start (find_call (r_name r)), r_from r) (PRet (Some o), r_from r) →
    runs (find_call (r_name r)) (r_pc r, a) (PRet (Some o), a);
  ro_steps : (r_steps r + measure (r_pc r) ≤ Z.to_nat (4 * pa_data_size + 2))%nat
}.

Definition writer_ok (a : prop_area) (w : writer) : Prop :=
  match w with
  | WIdle => ∃ m, represents a m
  | WAdd name value p base =>
    (name_ok name ∧ no_nul value) ∧ (linked base ∧ ∃ m, represents base m) ∧
    pc_ok pa_data_size a p ∧
    runs (add_call name value) (start (add_call name value), base) (p, a)
  end.

Record inv (c : conf) : Prop := {
  inv_linked : linked (c_area c);
  inv_writer : writer_ok (c_area c) (c_writer c);
  inv_readers : Forall (reader_ok (c_area c)) (c_readers c)
}.

Lemma reader_ok_later a a' r : linked a → later a a' → reader_ok a r → reader_ok a' r.
Proof.
  intros Hl Hlat [Hp Hr [Hf Hfl] Hnow Hthen Hs].
  assert (Hstart := pc_ok_start pa_data_size a (find_call (r_name r)) Hl).
  assert (Hrst := reading_start pa_data_size (find_call (r_name r))).
  split; [by eapply pc_ok_later|done|split; [done|by etrans]| | |done].
  - destruct Hnow as [|Hnow]; [by left|]. destruct (decide (r_pc r = PRet None)) as [|Hne]; [by left|right].
    by apply (find_runs_later _ pads_u32 _ _ a).
  - intros o Ho. apply Hthen in Ho.
    by apply (find_runs_later _ pads_u32 _ _ a).
Qed.
Lemma readers_ok_later a a' rs :
  linked a → later a a' → Forall (reader_ok a) rs → Forall (reader_ok a') rs.
Proof. intros Hl Hlat H. eapply Forall_impl; [exact H|]. intros r. by apply reader_ok_later. Qed.

Lemma reader_ok_start a name : linked a → reader_ok a (Reader name (start (find_call name)) a 0).
Proof.
  intros Hl. split; cbn [r_pc r_from r_name r_steps].
  - by apply pc_ok_start.
  - apply reading_start.
  - done.
  - right. constructor.
  - done.
  - apply measure_start.
Qed.

Lemma reader_ok_step a name p from n p' a' :
  linked a → reader_ok a (Reader name p from n) → (∀ r, p ≠ PRet r) →
  pstep (find_call name) a p = Ret (p', a') → a' = a ∧ reader_ok a (Reader name p' from (S n)).
Proof.
  intros Hl [Hp Hr Hf Hnow Hthen Hs] Hret Hstep. cbn [r_pc r_from r_name r_steps] in *.
  destruct (reader_step _ (find_call name) _ _ _ _ eq_refl Hl Hp Hr Hstep) as (-> & Hr' & _).
  destruct (pstep_ok _ pads_u32 (find_call name) _ _ Hl Hp) as (p1 & a1 & Hstep' & _ & _ & Hp').
  rewrite Hstep in Hstep'. injection Hstep' as <- <-.
  pose proof (reader_measure _ pads_u32 (find_call name) _ _ _ _ eq_refl Hl Hp Hr Hret Hstep) as Hm.
  split; [done|]. split; cbn [r_pc r_from r_name r_steps]; [done|done|done| | |lia].
  - right. destruct Hnow as [->|Hnow]; [by destruct (Hret None)|]. eapply rtc_r; [exact Hnow|exact Hstep].
  - intros o Ho. apply Hthen in Ho. eapply runs_join; [|exact Ho]. by apply runs_one.
Qed.

Lemma threads_inv_init a m : linked a → represents a m → inv (init a).
Proof. intros Hl Hm. split; [done|by exists m|constructor]. Qed.

Lemma threads_inv_step c c' : step false c c' → inv c → inv c'.
Proof.
  intros Hstep [Hl Hw Hr].
  destruct Hstep as [a rs name value Hn Hv|a name value p base rs p' a' Hret Hs|a name value r base rs
    |a rs name o pi pi' v Hn Hfind Ho Hname Hpok Hval|a n rs|a rs name ok a' Hd|a w rs name Hn
    |a w rs i name p from n p' a' Hi Hret Hs]; cbn [c_area c_writer c_readers] in *.
  - split; cbn [c_area c_writer c_readers]; [done| |done]. split; [done|]. split; [done|].
    split; [by apply pc_ok_start|constructor].
  - destruct Hw as (Hq & Hb & Hp & Hruns).
    destruct (pstep_ok _ pads_u32 (add_call name value) _ _ Hl Hp) as (p1 & a1 & Hs' & Hl' & Hlat & Hp').
    rewrite Hs in Hs'. injection Hs' as <- <-.
    split; cbn [c_area c_writer c_readers]; [done| |by apply (readers_ok_later a)].
    do 3 (split; [done|]). eapply rtc_r; [exact Hruns|exact Hs].
  - destruct Hw as ((Hn & Hv) & (Hb & m & Hm) & _ & Hruns).
    split; cbn [c_area c_writer c_readers]; [done| |done].
    destruct (add_result_ok _ pads_u32 base m name value Hm Hn Hv) as (ok & a1 & Hadd & Hm1 & _).
    unfold add in Hadd.
    destruct (find_property _ _ _ _ _ _ _ _) as [[r1 a2]| |] eqn:Hfp; [|done..]. injection Hadd as <- <-.
    apply (find_property_runs _ (add_call name value)) in Hfp.
    apply (runs_join _ _ _ _ _ _ Hruns), runs_PRet in Hfp. injection Hfp as -> ->. by eexists.
  - destruct Hw as [m Hm]. destruct (store_info_ok _ pads_u32 _ _ _ _ Hl Ho Hname) as [Hl' Hlat].
    split; cbn [c_area c_writer c_readers]; [done| |by apply (readers_ok_later a)].
    exists (<[name := v]> m). by eapply represents_update.
  - destruct Hw as [m Hm]. destruct (set_serial_ok _ _ n Hl) as [Hl' Hlat].
    split; cbn [c_area c_writer c_readers]; [done| |by apply (readers_ok_later a)].
    exists m. by apply (represents_same _ a).
  - done.
  - split; cbn [c_area c_writer c_readers]; [done|done|]. apply Forall_app. split; [done|].
    constructor; [|constructor]. by apply reader_ok_start.
  - pose proof (Forall_lookup_1 _ _ _ _ Hr Hi) as Hri.
    destruct (reader_ok_step _ _ _ _ _ _ _ Hl Hri Hret Hs) as [-> Hri'].
    split; cbn [c_area c_writer c_readers]; [done|done|]. by apply Forall_insert.
Qed.

Lemma threads_inv_reachable a m c : linked a → represents a m → reachable false a c → inv c.
Proof.
  intros Hl Hm. apply (rtc_ind_r inv); [by eapply threads_inv_init|]. intros c1 c2 _ Hs Hc. by eapply threads_inv_step.
Qed.

(** * What a lookup returns *)

(** The map of the area when the writer's call has returned, and the area then. *)
Lemma writer_completes a name value p base m :
  linked a → writer_ok a (WAdd name value p base) → represents base m →
  ∃ ok r a', add pa_data_size base name (Z.of_nat (length name)) value (Z.of_nat (length value)) = Ret (ok, a') ∧
    runs (add_call name value) (p, a) (PRet r, a') ∧ later a a' ∧ linked a' ∧
    represents a' (if ok then <[name := default value (m !! name)]> m else m).
Proof.
  intros Hl ((Hn & Hv) & (Hb & _) & Hp & Hruns) Hm.
  destruct (add_result_ok _ pads_u32 base m name value Hm Hn Hv) as (ok & a' & Hadd & Hm' & _).
  exists ok. unfold add in Hadd |- *.
  destruct (find_property _ _ _ _ _ _ _ _) as [[r a2]| |] eqn:Hfp; [|done..].
  apply (find_property_runs _ (add_call name value)) in Hfp.
  apply (runs_join _ _ _ _ _ _ Hruns) in Hfp. exists r, a'.
  injection Hadd as <- <-. destruct (runs_ok _ pads_u32 _ _ _ _ _ Hl Hp Hfp) as (Hl' & Hlat & _). done.
Qed.

(** A later area has what an earlier one has. *)
Lemma find_later a a' name o :
  linked a → linked a' → later a a' → find a name = Ret (Some o) → find a' name = Ret (Some o).
Proof.
  intros Hl Hl' Hlat H. apply find_runs in H; [|done]. apply find_runs; [done|].
  apply (find_runs_later _ pads_u32 _ _ a); auto using pc_ok_start, reading_start.
Qed.

(** The record a lookup finds is that of the name, at any moment. *)
Lemma found_named a w name o :
  linked a → writer_ok a w → name_ok name → find a name = Ret (Some o) →
  ∃ pi, data a !! o = Some (OInfo pi) ∧ pi_name pi = name.
Proof.
  intros Hl Hw Hn Hfind.
  assert (Hm : ∃ a' m, linked a' ∧ later a a' ∧ represents a' m).
  { destruct w as [|nm v p base]; [destruct Hw as [m Hm]; by exists a, m|].
    destruct Hw as (Hq & (Hb & m & Hm) & Hrest).
    destruct (writer_completes a nm v p base m Hl) as (ok & r & a' & _ & _ & Hlat & Hl' & Hm'); [|done|by eauto].
    split; [done|]. split; [|done]. split; [done|by exists m]. }
  destruct Hm as (a' & m & Hl' & Hlat & Hm).
  pose proof (find_later _ _ _ _ Hl Hl' Hlat Hfind) as Hfind'.
  destruct (find_result_ok _ a' m name Hm Hn) as (r & Hr & Hres). rewrite Hfind' in Hr. injection Hr as <-.
  destruct Hres as (v & pi' & _ & Hpi' & [Hname _] & _).
  apply find_runs in Hfind; [|done].
  destruct (runs_ok _ pads_u32 (find_call name) _ _ _ _ Hl (pc_ok_start _ _ _ Hl) Hfind) as (_ & _ & pi & Hpi).
  exists pi. split; [done|]. destruct (later_info _ _ Hlat _ _ Hpi) as (pi2 & Hpi2 & Hnm). congruence.
Qed.
(** C8. Lookups are linearizable, whatever the interleaving of any number of
    them with a writer that adds and updates properties: one that returns a
    record returns what [find] returns on the area of that moment, and that is
    a record of the name asked for; one that returns null had nothing to find
    when it was called. *)
Theorem lookup_linearizable a m c i name r from n :
  linked a → represents a m → reachable false a c →
  c_readers c !! i = Some (Reader name (PRet r) from n) → name_ok name →
  match r with
  | Some o => find (c_area c) name = Ret (Some o) ∧
              ∃ pi, data (c_area c) !! o = Some (OInfo pi) ∧ pi_name pi = name
  | None => find from name = Ret None
  end.
Proof.
  intros Hl Hm Hreach Hi Hn. destruct (threads_inv_reachable _ _ _ Hl Hm Hreach) as [Hlc Hw Hrs].
  destruct (Forall_lookup_1 _ _ _ _ Hrs Hi) as [_ _ [Hf _] Hnow Hthen _].
  cbn [r_pc r_from r_name r_steps] in *. destruct r as [o|].
  - destruct Hnow as [|Hnow]; [done|]. assert (find (c_area c) name = Ret (Some o)) as Hfind
      by (by apply find_runs).
    split; [done|]. by eapply found_named.
  - destruct (find_total _ from name Hf) as [r0 Hfrom]. destruct r0 as [o|]; [|done]. apply find_runs in Hfrom; [|done..].
    apply Hthen, runs_PRet in Hfrom. congruence.
Qed.

(** C10. Lookups are wait-free and safe: whatever the writer and the other
    readers do, a lookup makes at most four steps per byte of the area, and as
    long as it has not returned its next step does not fault, so that it can
    always go on. *)
Theorem lookup_wait_free a m c i name p from n :
  linked a → represents a m → reachable false a c →
  c_readers c !! i = Some (Reader name p from n) →
  (n ≤ Z.to_nat (4 * pa_data_size + 2))%nat ∧
  ((∃ r, p = PRet r) ∨
   ∃ p', pstep (find_call name) (c_area c) p = Ret (p', c_area c) ∧
     step false c (Conf (c_area c) (c_writer c) (<[i := Reader name p' from (S n)]> (c_readers c)))).
Proof.
  intros Hl Hm Hreach Hi. destruct (threads_inv_reachable _ _ _ Hl Hm Hreach) as [Hlc Hw Hrs].
  pose proof (Forall_lookup_1 _ _ _ _ Hrs Hi) as Hri. pose proof Hri as [Hp Hr _ _ _ Hs].
  cbn [r_pc r_from r_name r_steps] in *. split; [lia|].
  assert (Hret : (∃ r, p = PRet r) ∨ ∀ r, p ≠ PRet r) by (destruct p; eauto).
  destruct Hret as [|Hne]; [by left|right].
  destruct (pstep_ok _ pads_u32 (find_call name) _ _ Hlc Hp) as (p' & a' & Hstep & _).
  destruct (reader_ok_step _ _ _ _ _ _ _ Hlc Hri Hne Hstep) as [-> _].
  exists p'. split; [done|]. destruct c as [ca cw cr]. by eapply s_read.
Qed.

(** Every record has its value whenever another thread can look. *)
Lemma complete_step c c' : step false c c' → inv c → complete (c_area c) → complete (c_area c').
Proof.
  intros Hstep [Hl Hw Hr] Hc.
  destruct Hstep as [a rs name value Hn Hv|a name value p base rs p' a' Hret Hs|a name value r base rs
    |a rs name o pi pi' v Hn Hfind Ho Hname Hpok Hval|a n rs|a rs name ok a' Hd|a w rs name Hn
    |a w rs i name p from n p' a' Hi Hret Hs]; cbn [c_area c_writer c_readers] in *; try done.
  - destruct Hw as ((_ & Hv) & _ & Hp & _). by apply (pstep_complete _ pads_u32 (add_call name value) _ _ _ _ Hl Hp Hv Hc Hs).
  - by eapply complete_update.
  - destruct (reader_ok_step _ _ _ _ _ _ _ Hl (Forall_lookup_1 _ _ _ _ Hr Hi) Hret Hs) as [-> _]. done.
Qed.

Lemma complete_reachable a m c :
  linked a → represents a m → complete a → reachable false a c → complete (c_area c).
Proof.
  intros Hl Hm Hc Hreach. apply (threads_inv_init a m) in Hl; [|done].
  assert (H : inv c ∧ complete (c_area c)); [|apply H]. revert Hreach.
  apply (rtc_ind_r (λ c, inv c ∧ complete (c_area c))); [done|]. intros c1 c2 _ Hs [Hi1 Hc1].
  split; [by eapply threads_inv_step|by eapply complete_step].
Qed.

(** What [find] gives for [k] is what the map [m] has: the record of the name
    with its value, or null. *)
Definition finds (a : prop_area) (m : gmap cstr cstr) (k : cstr) : Prop :=
  ∃ r, find a k = Ret r ∧
    match r with
    | None => m !! k = None
    | Some o => ∃ v pi, m !! k = Some v ∧ data a !! o = Some (OInfo pi) ∧ rec_ok k pi ∧ has_value a o v
    end.

(** What is found in the middle of an [add] is there at its end, with the value
    it already has. *)
Lemma find_middle a a' m' k :
  linked a → linked a' → later a a' → keeps_records a a' → complete a → represents a' m' → name_ok k →
  ∃ r, find a k = Ret r ∧
    match r with
    | None => True
    | Some o => ∃ v pi, m' !! k = Some v ∧ data a !! o = Some (OInfo pi) ∧ rec_ok k pi ∧ has_value a o v
    end.
Proof.
  intros Hl Hl' Hlat Hkeep Hc Hm' Hk. destruct (find_total _ a k Hl) as [r Hf]. exists r. split; [done|].
  destruct r as [o|]; [|done]. pose proof (find_later _ _ _ _ Hl Hl' Hlat Hf) as Hf'.
  destruct (find_result_ok _ a' m' k Hm' Hk) as (r1 & Hf1 & Hres). rewrite Hf' in Hf1. injection Hf1 as <-.
  destruct Hres as (v & pi' & Hv & Hpi' & Hrec & Hval).
  apply find_runs in Hf; [|done].
  destruct (runs_ok _ pads_u32 (find_call k) _ _ _ _ Hl (pc_ok_start _ _ _ Hl) Hf) as (_ & _ & pi & Hpi).
  assert (pi' = pi) as -> by (pose proof (Hkeep _ _ Hpi ltac:(done)); congruence).
  destruct (Hc _ _ Hpi) as [v0 Hv0]. pose proof (has_value_frame _ _ _ _ Hv0 Hkeep) as [Hv0' _].
  destruct Hval as [Hval _]. exists v, pi. split; [done|]. split; [done|]. split; [done|]. congruence.
Qed.

(** C9. [add] is atomic for the lookups of all names, from an area in which every
    record has its value, with no deletion: in the middle of it, with some of
    its nodes published and some not, every [find] gives what the map before
    the call has, or every [find] gives what the map with the new name has, the
    record with its name and its value included; and when it returns, the area
    is the one that [add] makes when it runs alone. *)
Theorem add_atomic a0 m0 c name value p base m :
  linked a0 → represents a0 m0 → complete a0 → reachable false a0 c →
  c_writer c = WAdd name value p base → represents base m →
  (∃ m', (m' = m ∨ m' = <[name := default value (m !! name)]> m) ∧
     ∀ k, name_ok k → finds (c_area c) m' k) ∧
  ∀ r, p = PRet r →
    ∃ ok, add pa_data_size base name (Z.of_nat (length name)) value (Z.of_nat (length value)) =
      Ret (ok, c_area c).
Proof.
  intros Hl Hm0 Hc0 Hreach Hw Hm. destruct (threads_inv_reachable _ _ _ Hl Hm0 Hreach) as [Hlc Hwok _].
  pose proof (complete_reachable _ _ _ Hl Hm0 Hc0 Hreach) as Hc.
  rewrite Hw in Hwok. destruct (writer_completes _ _ _ _ _ _ Hlc Hwok Hm)
    as (ok & r & a' & Hadd & Hruns & Hlat & Hl' & Hm').
  split.
  2:{ intros r0 ->. apply runs_PRet in Hruns. exists ok. congruence. }
  destruct Hwok as ((Hn & Hv) & (Hb & _) & Hp & Hdone).
  destruct (runs_ok _ pads_u32 _ _ _ _ _ Hb (pc_ok_start _ _ _ Hb) Hdone) as (_ & Hlatb & _).
  destruct (runs_complete _ pads_u32 (add_call name value) _ _ _ _ Hlc Hp Hv Hc Hruns) as [Hkeep _].
  set (m2 := <[name := default value (m !! name)]> m) in *.
  assert (Hbase : ∀ k r, name_ok k → find (c_area c) k = Ret r → is_Some (m !! k) → is_Some r).
  { intros k rk Hk Hfk [v Hkv]. destruct (find_result_ok _ base m k Hm Hk) as ([o|] & Hfb & Hres).
    - apply (find_later _ _ _ _ Hb Hlc Hlatb) in Hfb. rewrite Hfb in Hfk. by injection Hfk as <-.
    - cbn in Hres. congruence. }
  pose proof (λ k Hk, find_middle _ _ _ k Hlc Hl' Hlat Hkeep Hc Hm' Hk) as Hmid.
  assert (Hother : ∀ k, k ≠ name → (if ok then m2 else m) !! k = m !! k)
    by (intros k Hk; subst m2; destruct ok; [by rewrite lookup_insert_ne|done]).
  destruct (Hmid name Hn) as (rn & Hfn & Hrn). destruct rn as [on|].
  - exists m2. split; [by right|]. intros k Hk. destruct (Hmid k Hk) as (rk & Hfk & Hrk). exists rk. split; [done|].
    destruct (decide (k = name)) as [->|Hne].
    + rewrite Hfn in Hfk. injection Hfk as <-. destruct Hrk as (v & pi & Hkv & Hrest). exists v, pi. split; [|done].
      destruct ok; [done|]. subst m2. by rewrite lookup_insert_eq, Hkv.
    + rewrite Hother in Hrk by done. subst m2. rewrite lookup_insert_ne by done. destruct rk as [o|]; [done|].
      apply eq_None_not_Some. intros Hs. by destruct (Hbase k None Hk Hfk Hs).
  - exists m. split; [by left|]. intros k Hk. destruct (Hmid k Hk) as (rk & Hfk & Hrk). exists rk. split; [done|].
    destruct rk as [o|]; [|apply eq_None_not_Some; intros Hs; by destruct (Hbase k None Hk Hfk Hs)].
    destruct (decide (k = name)) as [->|Hne]; [congruence|]. by rewrite Hother in Hrk.
Qed.
(** C11. Type soundness of the offsets: in an area whose links point where their
    types say, a thread that is where it can be (lookup or insertion, with any
    name and value, whatever is left of the area) stays in such areas and never
    takes a step that faults: no link leads to an object of another type, no
    offset outside the area, and objects keep their types and names. *)
Theorem runs_type_safe q a p p' a' :
  linked a → pc_ok pa_data_size a p → runs q (p, a) (p', a') →
  linked a' ∧ pc_ok pa_data_size a' p' ∧ later a a' ∧ ∃ p2 a2, pstep q a' p' = Ret (p2, a2).
Proof.
  intros Hl Hp Hruns. destruct (runs_ok _ pads_u32 _ _ _ _ _ Hl Hp Hruns) as (Hl' & Hlat & Hp').
  destruct (pstep_ok _ pads_u32 q _ _ Hl' Hp') as (p2 & a2 & Hs & _). split_and!; eauto.
Qed.
End concurrent.

(** * Schedules *)

(** What one thread does next. *)
Inductive action :=
  | AAdd (name value : cstr) | AWrite | AReturn | ADel (name : cstr)
  | ACall (name : cstr) | ARead (i : nat).

Definition returned (p : pc) : bool := match p with PRet _ => true | _ => false end.

(** The configuration after an action; [None] when the thread cannot take it. *)
Definition act (pa_data_size : Z) (dels : bool) (x : action) (c : conf) : option conf :=
  let '(Conf a w rs) := c in
  match x, w with
  | AAdd name value, WIdle =>
    if bool_decide (name_ok name ∧ no_nul value)
    then Some (Conf a (WAdd name value (start pa_data_size (add_call name value)) a) rs) else None
  | AWrite, WAdd name value p base =>
    if returned p then None else
    match pstep pa_data_size (add_call name value) a p with
    | Ret (p, a) => Some (Conf a (WAdd name value p base) rs)
    | _ => None
    end
  | AReturn, WAdd name value (PRet r) base => Some (Conf a WIdle rs)
  | ADel name, WIdle =>
    if dels then match del pa_data_size a name with
                 | Ret (ok, a) => Some (Conf a WIdle rs) | _ => None
                 end
    else None
  | ACall name, _ =>
    if bool_decide (name_ok name)
    then Some (Conf a w (rs ++ [Reader name (start pa_data_size (find_call name)) a 0])) else None
  | ARead i, _ =>
    match rs !! i with
    | Some (Reader name p from n) =>
      if returned p then None else
      match pstep pa_data_size (find_call name) a p with
      | Ret (p, a) => Some (Conf a w (<[i := Reader name p from (S n)]> rs))
      | _ => None
      end
    | None => None
    end
  | _, _ => None
  end.

Fixpoint schedule (pa_data_size : Z) (dels : bool) (l : list action) (c : conf) : option conf :=
  match l with
  | [] => Some c
  | x :: l => c ← act pa_data_size dels x c; schedule pa_data_size dels l c
  end.

Lemma act_step pads dels x c c' : act pads dels x c = Some c' → step pads dels c c'.
Proof.
  assert (Hret : ∀ p, returned p = false → ∀ r, p ≠ PRet r) by (by intros [] ? ?).
  destruct c as [a w rs]. destruct x as [name value| | |name|name|i]; cbn [act].
  - destruct w; [|done]. case_bool_decide as H; [|done]. destruct H. intros [= <-]. by apply s_add.
  - destruct w as [|nm v p base]; [done|]. destruct (returned p) eqn:E; [done|].
    destruct (pstep _ _ _ _) as [[p' a']| |] eqn:Hs; [|done|done]. intros [= <-]. apply s_write; auto.
  - destruct w as [|nm v p base]; [done|]. destruct p; try done. intros [= <-]. apply s_return.
  - destruct w; [|done]. destruct dels eqn:Hd; [|done].
    destruct (del _ _ _) as [[ok a']| |] eqn:E; [|done|done]. intros [= <-]. by eapply s_del.
  - case_bool_decide; [|by destruct w]. intros H'. destruct w; injection H' as <-; by apply s_call.
  - destruct (rs !! i) as [[nm p from n]|] eqn:Hi; [|by destruct w].
    destruct (returned p) eqn:E; [by destruct w|].
    destruct (pstep _ _ _ _) as [[p' a']| |] eqn:Hs; [|by destruct w|by destruct w].
    intros H'. destruct w; injection H' as <-; eapply s_read; eauto.
Qed.

Lemma schedule_steps pads dels l c c' : schedule pads dels l c = Some c' → rtc (step pads dels) c c'.
Proof.
  revert c. induction l as [|x l IH]; intros c; cbn [schedule]; [by intros [= <-]|].
  destruct (act _ _ _ _) as [c1|] eqn:E; [|done]. cbn. intros H. eapply rtc_l; [by eapply act_step|by apply IH].
Qed.

(** * Concrete instances *)

Definition sample_schedule (l : list action) : conf :=
  default (init sample_empty) (schedule sample_size false l (init sample_empty)).

(** A lookup of "a" that overtakes the [add] of "a" at its last store, and one
    of "b" that does not find it. *)
Definition sample_overtake : list action :=
  [AAdd (cs "a") (cs "1"); ACall (cs "a"); AWrite; AWrite; ARead 0; ARead 0; AWrite; AWrite; ARead 0;
   AWrite; ARead 0; ARead 0; ACall (cs "b"); ARead 1; ARead 1; ARead 1].

Lemma sample_linked : linked sample_size sample_empty.
Proof. apply linked_new. vm_compute. discriminate. Qed.

Lemma sample_overtake_reachable : reachable sample_size false sample_empty (sample_schedule sample_overtake).
Proof. apply (schedule_steps _ _ sample_overtake). vm_compute. reflexivity. Qed.

Lemma lookup_linearizable_witness :
  PropArea.find sample_size (c_area (sample_schedule sample_overtake)) (cs "a") = Ret (Some 44%Z) ∧
  PropArea.find sample_size (c_area (sample_schedule sample_overtake)) (cs "b") = Ret None.
Proof.
  assert (name_ok (cs "a") ∧ name_ok (cs "b")) as [Ha Hb] by (split; vm_compute; reflexivity).
  split.
  - destruct (lookup_linearizable sample_size ltac:(vm_compute; reflexivity) sample_empty ∅
      (sample_schedule sample_overtake) 0 (cs "a") (Some 44%Z) sample_empty 5
      sample_linked sample_empty_represents sample_overtake_reachable
      ltac:(vm_compute; reflexivity) Ha) as [H _]. exact H.
  - exact (lookup_linearizable sample_size ltac:(vm_compute; reflexivity) sample_empty ∅
      (sample_schedule sample_overtake) 1 (cs "b") None (c_area (sample_schedule sample_overtake)) 3
      sample_linked sample_empty_represents sample_overtake_reachable
      ltac:(vm_compute; reflexivity) Hb).
Defined.

Lemma runs_type_safe_witness : ∃ p2 a2,
  pstep sample_size (add_call (cs "a.b") (cs "1")) sample_empty (PLevel 0 (cs "a.b")) = Ret (p2, a2).
Proof.
  destruct (runs_type_safe sample_size ltac:(vm_compute; reflexivity) (add_call (cs "a.b") (cs "1"))
    sample_empty (PLevel 0 (cs "a.b")) (PLevel 0 (cs "a.b")) sample_empty
    sample_linked (linked_root _ _ sample_linked) ltac:(constructor)) as (_ & _ & _ & H). exact H.
Defined.

(** In the middle of the [add]. *)
Definition sample_middle : list action := take 10 sample_overtake.

Lemma sample_middle_reachable : reachable sample_size false sample_empty (sample_schedule sample_middle).
Proof. apply (schedule_steps _ _ sample_middle). vm_compute. reflexivity. Qed.

Lemma lookup_wait_free_witness :
  ∃ p' : pc, pstep sample_size (find_call (cs "a")) (c_area (sample_schedule (take 8 sample_overtake))) (PSib (Some 20%Z) (cs "a")) =
    Ret (p', c_area (sample_schedule (take 8 sample_overtake))).
Proof.
  destruct (lookup_wait_free sample_size ltac:(vm_compute; reflexivity) sample_empty ∅
    (sample_schedule (take 8 sample_overtake)) 0 (cs "a") (PSib (Some 20%Z) (cs "a")) sample_empty 2
    sample_linked sample_empty_represents
    ltac:(apply (schedule_steps _ _ (take 8 sample_overtake)); vm_compute; reflexivity)
    ltac:(vm_compute; reflexivity)) as [_ [[r H]|(p' & H & _)]]; [discriminate H|exact (ex_intro _ p' H)].
Defined.

(** One step on the record is published: its value is there. *)
Lemma add_atomic_witness :
  ∃ m' : gmap cstr cstr, (m' = ∅ ∨ m' = <[cs "a" := cs "1"]> ∅) ∧
    finds sample_size (c_area (sample_schedule sample_middle)) m' (cs "a") ∧ m' !! cs "a" = Some (cs "1").
Proof.
  destruct (add_atomic sample_size ltac:(vm_compute; reflexivity) sample_empty ∅
    (sample_schedule sample_middle) (cs "a") (cs "1") (PRet (Some 44%Z)) sample_empty ∅
    sample_linked sample_empty_represents (complete_new _ _) sample_middle_reachable
    ltac:(vm_compute; reflexivity) sample_empty_represents) as [(m' & Hm & H) _].
  specialize (H (cs "a") ltac:(vm_compute; reflexivity)). exists m'. split; [exact Hm|]. split; [exact H|].
  destruct Hm as [-> | ->]; [|reflexivity]. exfalso. destruct H as (r & Hr & H).
  assert (E : PropArea.find sample_size (c_area (sample_schedule sample_middle)) (cs "a") = Ret (Some 44%Z))
    by (vm_compute; reflexivity).
  rewrite Hr in E. injection E as ->. destruct H as (v & pi & Hv & _). discriminate Hv.
Defined.

(** Deletion is not safe beside lookups.  [find_property] tests [prop] and then
    loads it again: a [del] between the two makes it return the offset 0, the
    root node of the trie, as the record of the property. *)
Theorem del_race :
  ∃ c r, rtc (step sample_size true) (init sample_empty) c ∧ c_readers c !! 0%nat = Some r ∧
    r_name r = cs "a" ∧ r_pc r = PRet (Some 0%Z) ∧ load_info (c_area c) 0 = Fault.
Proof.
  set (l := [AAdd (cs "a") (cs "1"); AWrite; AWrite; AWrite; AWrite; AWrite; AReturn;
             ACall (cs "a"); ARead 0; ARead 0; ARead 0; ARead 0; ADel (cs "a"); ARead 0]).
  destruct (schedule sample_size true l (init sample_empty)) as [c|] eqn:E; [|by vm_compute in E].
  exists c. pose proof (schedule_steps _ _ _ _ _ E) as Hs. vm_compute in E. injection E as <-.
  eexists. split; [exact Hs|]. split_and!; reflexivity.
Qed.
