(* ===== verification/PropertyInfoParser.v ===== *)
(** property_info_parser/property_info_parser.{h,cpp}: the read-only serialized
    trie that maps a property name to the index of its SELinux context and of
    its type.  The file is a byte buffer; pointers into it are offsets. *)

From Stdlib Require Import ZArith Lia Ascii Sorted.
From stdpp Require Import base numbers strings gmap list.
From S2P Require Import Prelude CString PropTrie.

(** * The serialized structures *)

Record PropertyEntry := mkPropertyEntry {
  name_offset : Z;
  namelen : Z;
  context_index : Z;
  type_index : Z
}.

Record TrieNodeInternal := mkTrieNodeInternal {
  property_entry : Z;
  num_child_nodes : Z;
  child_nodes : Z;
  num_prefixes : Z;
  prefix_entries : Z;
  num_exact_matches : Z;
  exact_match_entries : Z
}.

Record PropertyInfoAreaHeader := mkHeader {
  current_version : Z;
  minimum_supported_version : Z;
  hdr_size : Z;
  contexts_offset : Z;
  types_offset : Z;
  root_offset : Z
}.

(** A 32-bit load at a byte offset of the mapping. *)
Definition word (d : list ascii) (off : Z) : cres Z :=
  if (off <? 0)%Z then Fault else deref (get_le32 d (Z.to_nat off)).

(** The string at an offset: it must end inside the mapping. *)
Definition string_at (d : list ascii) (off : Z) : cres cstr :=
  if (off <? 0)%Z then Fault
  else let s := drop (Z.to_nat off) d in
       if decide (NUL ∈ s) then Ret (c_str_of s) else Fault.

Definition load_entry (d : list ascii) (off : Z) : cres PropertyEntry :=
  let! a := word d off in let! b := word d (off + 4) in
  let! c := word d (off + 8) in let! t := word d (off + 12) in
  Ret (mkPropertyEntry a b c t).

Definition load_node (d : list ascii) (off : Z) : cres TrieNodeInternal :=
  let! a := word d off in let! b := word d (off + 4) in
  let! c := word d (off + 8) in let! e := word d (off + 12) in
  let! f := word d (off + 16) in let! g := word d (off + 20) in
  let! h := word d (off + 24) in Ret (mkTrieNodeInternal a b c e f g h).

Definition load_header (d : list ascii) : cres PropertyInfoAreaHeader :=
  let! a := word d 0 in let! b := word d 4 in let! c := word d 8 in
  let! e := word d 12 in let! f := word d 16 in let! g := word d 20 in
  Ret (mkHeader a b c e f g).

(** ** [SerializedData]: offsets are checked against the header's size *)

Definition area_size (d : list ascii) : cres Z := word d 8.

(** [c_string], [uint32_array] and [trie]: [None] is the null pointer. *)
Definition checked (d : list ascii) (offset : Z) : cres (option Z) :=
  let! size := area_size d in
  Ret (if negb (offset =? 0)%Z && (offset >? size)%Z then None else Some offset).

Definition c_string (d : list ascii) (offset : Z) : cres (option Z) := checked d offset.

Definition uint32_array (d : list ascii) (offset : Z) : cres (option Z) := checked d offset.

(** [uint32(offset)] *)
Definition uint32 (d : list ascii) (offset : Z) : cres Z :=
  let! size := area_size d in
  if negb (offset =? 0)%Z && (offset >? size)%Z then Ret UINT32_MAX else word d offset.

(** [uint32_array(offset)[n]] and the string a [c_string] result points to. *)
Definition array_at (d : list ascii) (offset n : Z) : cres Z :=
  let! p := uint32_array d offset in let! p := deref p in word d (p + 4 * n).

Definition c_string_at (d : list ascii) (offset : Z) : cres cstr :=
  let! p := c_string d offset in let! p := deref p in string_at d p.

(** ** [TrieNode]: an offset, [None] for a default-constructed node *)

Definition TrieNode := option Z.

Definition trie_node_base (d : list ascii) (t : TrieNode) : cres TrieNodeInternal :=
  let! off := deref t in load_node d off.

Definition node_property_entry (d : list ascii) (t : TrieNode) : cres PropertyEntry :=
  let! n := trie_node_base d t in load_entry d (property_entry n).

Definition node_name (d : list ascii) (t : TrieNode) : cres cstr :=
  let! e := node_property_entry d t in c_string_at d (name_offset e).

Definition child_node (d : list ascii) (t : TrieNode) (n : Z) : cres TrieNode :=
  let! b := trie_node_base d t in
  let! off := array_at d (child_nodes b) n in Ret (Some off).

Definition prefix (d : list ascii) (t : TrieNode) (n : Z) : cres PropertyEntry :=
  let! b := trie_node_base d t in
  let! off := array_at d (prefix_entries b) n in load_entry d off.

Definition exact_match (d : list ascii) (t : TrieNode) (n : Z) : cres PropertyEntry :=
  let! b := trie_node_base d t in
  let! off := array_at d (exact_match_entries b) n in load_entry d off.

Definition trie (d : list ascii) (offset : Z) : cres TrieNode := checked d offset.

Definition root_node (d : list ascii) : cres TrieNode :=
  let! h := load_header d in trie d (root_offset h).

(** * Searching *)

(** [int] arithmetic that leaves the range of [int] is undefined. *)
Definition int_of (z : Z) : cres Z :=
  if ((- 2 ^ 31 <=? z) && (z <? 2 ^ 31))%Z then Ret z else Fault.

(** The loop of [Find]: [f] compares the element with the key. *)
Fixpoint Find_loop (fuel : nat) (bottom top : Z) (f : Z → cres comparison) : cres Z :=
  match fuel with
  | O => OutOfFuel
  | S fuel =>
    if (top >=? bottom)%Z then
      let! sum := int_of (top + bottom) in
      let search := Z.quot sum 2 in
      let! cmp := f search in
      match cmp with
      | Eq => Ret search
      | Lt => let! bottom := int_of (search + 1) in Find_loop fuel bottom top f
      | Gt => let! top := int_of (search - 1) in Find_loop fuel bottom top f
      end
    else Ret (-1)%Z
  end.

(** [Find(array_length, f)]; the [uint32_t] difference is read as an [int]. *)
Definition Find (array_length : Z) (f : Z → cres comparison) : cres Z :=
  let top := i32 (u32 (array_length - 1)) in
  Find_loop (S (S (Z.to_nat top))) 0 top f.

Definition FindContextIndex (d : list ascii) (context : cstr) : cres Z :=
  let! h := load_header d in
  let! n := array_at d (contexts_offset h) 0 in
  Find n (λ i, let! off := array_at d (u32 (contexts_offset h + 4)) i in
               let! s := c_string_at d off in Ret (strcmp s context)).

Definition FindTypeIndex (d : list ascii) (type : cstr) : cres Z :=
  let! h := load_header d in
  let! n := array_at d (types_offset h) 0 in
  Find n (λ i, let! off := array_at d (u32 (types_offset h + 4)) i in
               let! s := c_string_at d off in Ret (strcmp s type)).

(** The comparison of [FindChildForString]: a child whose name only starts
    with the piece compares greater. *)
Definition cmp_child (child_name name : cstr) (namelen : nat) : comparison :=
  match strncmp child_name name namelen with
  | Eq => if (namelen <? length child_name)%nat then Gt else Eq
  | c => c
  end.

Definition FindChildForString (d : list ascii) (t : TrieNode) (name : cstr) (namelen : nat)
    : cres (option TrieNode) :=
  let! b := trie_node_base d t in
  let! node_index :=
    Find (num_child_nodes b) (λ array_offset,
      let! c := child_node d t array_offset in
      let! child_name := node_name d c in
      Ret (cmp_child child_name name namelen)) in
  if (node_index =? -1)%Z then Ret None
  else let! c := child_node d t node_index in Ret (Some c).

(** [if (v != ~0u) x = v;] *)
Definition set_if (v x : Z) : Z := if (v =? UINT32_MAX)%Z then x else v.

(** The loop of [CheckPrefixMatch] from index [i], [n] iterations left. *)
Fixpoint CheckPrefixMatch_loop (n : nat) (i : Z) (d : list ascii) (remaining_name : cstr)
    (t : TrieNode) (ci ti : Z) : cres (Z * Z) :=
  match n with
  | O => Ret (ci, ti)
  | S n =>
    let! e := prefix d t i in
    if (namelen e >? Z.of_nat (length remaining_name))%Z then
      CheckPrefixMatch_loop n (i + 1) d remaining_name t ci ti
    else
      let! s := c_string_at d (name_offset e) in
      if strneq s remaining_name (Z.to_nat (namelen e)) then
        Ret (set_if (context_index e) ci, set_if (type_index e) ti)
      else CheckPrefixMatch_loop n (i + 1) d remaining_name t ci ti
  end.

Definition CheckPrefixMatch (d : list ascii) (remaining_name : cstr) (t : TrieNode) (ci ti : Z)
    : cres (Z * Z) :=
  let! b := trie_node_base d t in
  CheckPrefixMatch_loop (Z.to_nat (num_prefixes b)) 0 d remaining_name t ci ti.

(** The descent of [GetPropertyInfoIndexes]: node and name where it stops. *)
Fixpoint descend (fuel : nat) (d : list ascii) (t : TrieNode) (remaining_name : cstr)
    (ci ti : Z) : cres (TrieNode * cstr * Z * Z) :=
  match fuel with
  | O => OutOfFuel
  | S fuel =>
    let sep := strchr remaining_name "."%char in
    let! e := node_property_entry d t in
    let ci := set_if (context_index e) ci in
    let ti := set_if (type_index e) ti in
    let! (ci, ti) := CheckPrefixMatch d remaining_name t ci ti in
    match sep with
    | None => Ret (t, remaining_name, ci, ti)
    | Some substr_size =>
      let! child := FindChildForString d t remaining_name substr_size in
      match child with
      | None => Ret (t, remaining_name, ci, ti)
      | Some child => descend fuel d child (drop (S substr_size) remaining_name) ci ti
      end
    end
  end.

(** The loop over the exact matches. *)
Fixpoint exact_loop (n : nat) (i : Z) (d : list ascii) (remaining_name : cstr) (t : TrieNode)
    : cres (option PropertyEntry) :=
  match n with
  | O => Ret None
  | S n =>
    let! e := exact_match d t i in
    let! s := c_string_at d (name_offset e) in
    if streq s remaining_name then Ret (Some e)
    else exact_loop n (i + 1) d remaining_name t
  end.

Definition GetPropertyInfoIndexes (d : list ascii) (name : cstr) : cres (Z * Z) :=
  let! t := root_node d in
  let! (t, remaining_name, ci, ti) :=
    descend (S (length name)) d t name UINT32_MAX UINT32_MAX in
  let! b := trie_node_base d t in
  let! m := exact_loop (Z.to_nat (num_exact_matches b)) 0 d remaining_name t in
  match m with
  | Some e => Ret (set_if (context_index e) ci, set_if (type_index e) ti)
  | None => CheckPrefixMatch d remaining_name t ci ti
  end.

(** [context(index)], [type(index)]: offsets of the strings. *)
Definition context (d : list ascii) (index : Z) : cres cstr :=
  let! h := load_header d in
  let! off := array_at d (u32 (contexts_offset h + 4)) index in string_at d off.

Definition type (d : list ascii) (index : Z) : cres cstr :=
  let! h := load_header d in
  let! off := array_at d (u32 (types_offset h + 4)) index in string_at d off.

Definition GetPropertyInfo (d : list ascii) (property : cstr) : cres (option cstr * option cstr) :=
  let! (ci, ti) := GetPropertyInfoIndexes d property in
  let! c := if (ci =? UINT32_MAX)%Z then Ret None else let! s := context d ci in Ret (Some s) in
  let! t := if (ti =? UINT32_MAX)%Z then Ret None else let! s := type d ti in Ret (Some s) in
  Ret (c, t).

(** * [PropertyInfoAreaFile] *)

Record stat_t := mkStat { st_uid : Z; st_gid : Z; st_mode : Z; st_size : Z }.

Definition S_IWGRP : Z := 0x10.
Definition S_IWOTH : Z := 0x02.

(** [sizeof(PropertyInfoArea)]: the class has one member, [char data_base_[0]]. *)
Definition sizeof_PropertyInfoArea : Z := 0.

(** What the kernel answers: [fstat] (it also fails on the descriptor of a
    failed [open]) and [mmap], the bytes of the mapped pages. *)
Record kernel_file := mkKernelFile { kf_fstat : option stat_t; kf_mmap : option (list ascii) }.

Record PropertyInfoAreaFile := mkAreaFile { mmap_base : option (list ascii); mmap_size : Z }.

Inductive map_event := EvOpen | EvClose | EvMmap | EvMunmap.

Definition empty_file : PropertyInfoAreaFile := mkAreaFile None 0.

Definition LoadPath (f : PropertyInfoAreaFile) (k : kernel_file)
    : cres (bool * PropertyInfoAreaFile * list map_event) :=
  match kf_fstat k with
  | None => Ret (false, f, [EvOpen; EvClose])
  | Some st =>
    if negb (st_uid st =? 0)%Z || negb (st_gid st =? 0)%Z ||
       negb (Z.land (st_mode st) (Z.lor S_IWGRP S_IWOTH) =? 0)%Z ||
       (st_size st <? sizeof_PropertyInfoArea)%Z
    then Ret (false, f, [EvOpen; EvClose])
    else
      match kf_mmap k with
      | None => Ret (false, f, [EvOpen; EvClose])
      | Some d =>
        let! v := word d 4 in
        let! reject := if (v >? 1)%Z then Ret true
                       else let! s := area_size d in Ret (negb (s =? st_size st)%Z) in
        if reject then Ret (false, f, [EvOpen; EvMmap; EvMunmap; EvClose])
        else Ret (true, mkAreaFile (Some d) (st_size st), [EvOpen; EvMmap; EvClose])
      end
  end.

Definition Reset (f : PropertyInfoAreaFile) : PropertyInfoAreaFile * list map_event :=
  (empty_file, if (mmap_size f >? 0)%Z then [EvMunmap] else []).

(** * Binary search *)

(** [f] compares a sorted sequence of [n] elements with a key. *)
Record sorted_cmp (n : nat) (f : Z → cres comparison) (g : nat → comparison) : Prop := {
  sc_run : ∀ i, (i < n)%nat → f (Z.of_nat i) = Ret (g i);
  sc_lt : ∀ i j, (i < j < n)%nat → g j = Lt → g i = Lt;
  sc_gt : ∀ i j, (i < j < n)%nat → g i = Gt → g j = Gt
}.

Definition find_post (n : nat) (g : nat → comparison) (r : Z) : Prop :=
  (r = -1 ∧ ∀ i, (i < n)%nat → g i ≠ Eq)%Z ∨ ∃ i, (i < n)%nat ∧ r = Z.of_nat i ∧ g i = Eq.

Lemma int_of_Ret z : (- 2 ^ 31 ≤ z < 2 ^ 31)%Z → int_of z = Ret z.
Proof.
  intros H. unfold int_of. by rewrite (proj2 (Z.leb_le _ _)), (proj2 (Z.ltb_lt _ _)) by lia.
Qed.

Lemma Find_loop_spec n f g fuel bottom top :
  sorted_cmp n f g → (Z.of_nat n < 2 ^ 30)%Z →
  (0 ≤ bottom ≤ top + 1)%Z → (top < Z.of_nat n)%Z → (top - bottom + 1 < Z.of_nat fuel)%Z →
  (∀ i, (Z.of_nat i < bottom)%Z → (i < n)%nat → g i = Lt) →
  (∀ i, (top < Z.of_nat i)%Z → (i < n)%nat → g i = Gt) →
  ∃ r, Find_loop fuel bottom top f = Ret r ∧ find_post n g r.
Proof.
  intros [Hrun Hlt Hgt] Hn. revert bottom top. induction fuel as [|fuel IH]; [lia|].
  intros bottom top Hb Ht Hfuel Hlow Hhigh. cbn [Find_loop].
  destruct (Z.geb_spec top bottom) as [Hge|Hge].
  - rewrite int_of_Ret by lia. cbn [cbind]. rewrite Z.quot_div_nonneg by lia.
    set (s := ((top + bottom) / 2)%Z).
    assert (Hs : (bottom ≤ s ≤ top)%Z) by (subst s; Z.div_mod_to_equations; lia).
    pose proof (Hrun (Z.to_nat s) ltac:(lia)) as Hrs. rewrite Z2Nat.id in Hrs by lia.
    rewrite Hrs. cbn [cbind]. destruct (g (Z.to_nat s)) eqn:Eg.
    + eexists. split; [done|]. right. exists (Z.to_nat s). split_and!; [lia|lia|done].
    + rewrite int_of_Ret by lia. cbn [cbind]. apply IH; try lia; [|done].
      intros i Hi Hin. destruct (decide (i = Z.to_nat s)) as [->|]; [done|].
      apply (Hlt i (Z.to_nat s)); [lia|done].
    + rewrite int_of_Ret by lia. cbn [cbind]. apply IH; try lia; [done|].
      intros i Hi Hin. destruct (decide (i = Z.to_nat s)) as [->|]; [done|].
      apply (Hgt (Z.to_nat s) i); [lia|done].
  - eexists. split; [done|]. left. split; [done|]. intros i Hi.
    destruct (decide (Z.of_nat i < bottom)%Z); [rewrite Hlow by lia; done|].
    rewrite Hhigh by lia. done.
Qed.

Lemma Find_spec n f g :
  sorted_cmp n f g → (Z.of_nat n < 2 ^ 30)%Z →
  ∃ r, Find (Z.of_nat n) f = Ret r ∧ find_post n g r.
Proof.
  intros Hf Hn. unfold Find.
  assert (i32 (u32 (Z.of_nat n - 1)) = Z.of_nat n - 1)%Z as ->.
  { unfold i32, u32. destruct n as [|n]; [reflexivity|].
    rewrite (Z.mod_small (_ - 1)) by lia. rewrite Z.mod_small; lia. }
  apply (Find_loop_spec n f g); [done|lia..| |]; intros; lia.
Qed.

Lemma Find_ext n f f' :
  (∀ i, f i = f' i) → Find n f = Find n f'.
Proof.
  intros H. unfold Find. generalize (S (S (Z.to_nat (i32 (u32 (n - 1)))))) as fuel.
  generalize 0%Z as b, (i32 (u32 (n - 1))) as t. intros b t fuel. revert b t.
  induction fuel as [|fuel IH]; [done|]. intros b t. simpl. case_match; [|done].
  destruct (int_of _); [|done..]. cbn [cbind]. rewrite H. destruct (f' _) as [[]| |]; try done; cbn [cbind];
  destruct (int_of _); try done; apply IH.
Qed.

(** Strings in strictly increasing order. *)
Definition names_sorted (ns : list cstr) : Prop := StronglySorted (λ a b, strcmp a b = Lt) ns.

Lemma names_sorted_lookup ns i j a b :
  names_sorted ns → ns !! i = Some a → ns !! j = Some b → (i < j)%nat → strcmp a b = Lt.
Proof.
  intros H. revert i j. induction H as [|x l Hl IH Hx]; [done|]. intros i j Ha Hb Hij.
  destruct j as [|j]; [lia|]. destruct i as [|i]; simpl in *.
  - simplify_eq. rewrite Forall_forall in Hx. apply Hx. by eapply list_elem_of_lookup_2.
  - apply (IH i j); auto with lia.
Qed.

(** Searching sorted names for a key. *)
Lemma names_sorted_cmp ns key f :
  names_sorted ns → (∀ i s, ns !! i = Some s → f (Z.of_nat i) = Ret (strcmp s key)) →
  sorted_cmp (length ns) f (λ i, strcmp (default [] (ns !! i)) key).
Proof.
  intros Hs Hf. split.
  - intros i Hi. apply lookup_lt_is_Some in Hi as [s Hi]. rewrite (Hf _ _ Hi). by rewrite Hi.
  - intros i j Hij. assert (Hi : (i < length ns)%nat) by lia. assert (Hj : (j < length ns)%nat) by lia.
    apply lookup_lt_is_Some in Hi as [a Ha], Hj as [b Hb]. rewrite Ha, Hb. simpl.
    apply strcmp_lt_trans. apply (names_sorted_lookup ns i j); auto with lia.
  - intros i j Hij. assert (Hi : (i < length ns)%nat) by lia. assert (Hj : (j < length ns)%nat) by lia.
    apply lookup_lt_is_Some in Hi as [a Ha], Hj as [b Hb]. rewrite Ha, Hb. simpl.
    pose proof (names_sorted_lookup ns i j a b Hs Ha Hb ltac:(lia)) as Hab.
    rewrite (strcmp_antisym key a), (strcmp_antisym key b).
    destruct (strcmp key a) eqn:E; try done. intros _.
    by rewrite (strcmp_lt_trans _ _ _ E Hab).
Qed.

Lemma names_search ns key f :
  names_sorted ns → (Z.of_nat (length ns) < 2 ^ 30)%Z →
  (∀ i s, ns !! i = Some s → f (Z.of_nat i) = Ret (strcmp s key)) →
  ∃ r, Find (Z.of_nat (length ns)) f = Ret r ∧
    ((r = -1)%Z ∧ key ∉ ns ∨ ∃ i, r = Z.of_nat i ∧ ns !! i = Some key).
Proof.
  intros Hs Hn Hf.
  destruct (Find_spec _ _ _ (names_sorted_cmp _ _ _ Hs Hf) Hn) as (r & -> & Hr).
  exists r. split; [done|]. destruct Hr as [[-> Hne]|(i & Hi & -> & Heq)].
  - left. split; [done|]. intros (i & Hi)%list_elem_of_lookup_1.
    apply (Hne i); [by eapply lookup_lt_Some|]. rewrite Hi. simpl. apply strcmp_refl.
  - right. exists i. split; [done|]. apply lookup_lt_is_Some in Hi as [s Hs'].
    rewrite Hs' in Heq |- *. simpl in Heq. apply strcmp_eq in Heq as ->. done.
Qed.

Lemma cmp_child_strcmp child tok rest :
  cmp_child child (tok ++ rest) (length tok) = strcmp child tok.
Proof.
  unfold cmp_child. rewrite strncmp_take, take_app_length.
  revert child. induction tok as [|x tok IH]; intros [|y child]; simpl; try done.
  destruct (ord y ?= ord x)%Z; [|done..]. by rewrite <- (IH child).
Qed.

(** * The trie the bytes encode *)

(** A name with a context index and a type index. *)
Record pentry := mkPentry { pe_name : cstr; pe_ctx : Z; pe_type : Z }.

Inductive ptrie :=
  PNode (entry : pentry) (prefixes exacts : list pentry) (children : list ptrie).

Definition pt_entry (t : ptrie) : pentry := let 'PNode e _ _ _ := t in e.
Definition pt_prefixes (t : ptrie) : list pentry := let 'PNode _ ps _ _ := t in ps.
Definition pt_exacts (t : ptrie) : list pentry := let 'PNode _ _ xs _ := t in xs.
Definition pt_children (t : ptrie) : list ptrie := let 'PNode _ _ _ cs := t in cs.

Definition set_entry (e : pentry) (acc : Z * Z) : Z * Z :=
  (set_if (pe_ctx e) acc.1, set_if (pe_type e) acc.2).

(** The first element of a list that satisfies a test. *)
Fixpoint first_such {A} (f : A → bool) (l : list A) : option A :=
  match l with [] => None | x :: l => if f x then Some x else first_such f l end.

Definition prefix_match (ps : list pentry) (name : cstr) (acc : Z * Z) : Z * Z :=
  match first_such (λ e, bool_decide (pe_name e `prefix_of` name)) ps with
  | Some e => set_entry e acc
  | None => acc
  end.

(** The node and the rest of the name where the descent along [toks] stops. *)
Fixpoint trie_descend (t : ptrie) (toks : list cstr) (acc : Z * Z) : ptrie * cstr * (Z * Z) :=
  let rem := join_dot toks in
  let acc := prefix_match (pt_prefixes t) rem (set_entry (pt_entry t) acc) in
  match toks with
  | tok :: ((_ :: _) as toks') =>
    match first_such (λ c, bool_decide (pe_name (pt_entry c) = tok)) (pt_children t) with
    | Some c => trie_descend c toks' acc
    | None => (t, rem, acc)
    end
  | _ => (t, rem, acc)
  end.

(** The indexes the trie gives a name. *)
Definition trie_lookup (t : ptrie) (name : cstr) : Z * Z :=
  let '(t, rem, acc) := trie_descend t (split_dot name) (UINT32_MAX, UINT32_MAX) in
  match first_such (λ e, bool_decide (pe_name e = rem)) (pt_exacts t) with
  | Some e => set_entry e acc
  | None => prefix_match (pt_prefixes t) rem acc
  end.

Section encodes.
Context (d : list ascii).

Definition encodes_entry (off : Z) (p : pentry) : Prop :=
  ∃ e, load_entry d off = Ret e ∧ c_string_at d (name_offset e) = Ret (pe_name p) ∧
    namelen e = Z.of_nat (length (pe_name p)) ∧
    context_index e = pe_ctx p ∧ type_index e = pe_type p.

(** An array of offsets whose elements encode the list. *)
Definition encodes_array {A} (enc : Z → A → Prop) (arr n : Z) (l : list A) : Prop :=
  n = Z.of_nat (length l) ∧ (n < 2 ^ 30)%Z ∧
  ∀ i x, l !! i = Some x → ∃ o, array_at d arr (Z.of_nat i) = Ret o ∧ enc o x.

(** Children are sorted by name, as the comment of the structure says. *)
Inductive encodes : Z → ptrie → Prop :=
  | encodes_node off b e ps xs cs :
      load_node d off = Ret b →
      encodes_entry (property_entry b) e →
      encodes_array encodes_entry (prefix_entries b) (num_prefixes b) ps →
      encodes_array encodes_entry (exact_match_entries b) (num_exact_matches b) xs →
      encodes_array encodes (child_nodes b) (num_child_nodes b) cs →
      names_sorted ((pe_name ∘ pt_entry) <$> cs) →
      encodes off (PNode e ps xs cs).

Lemma encodes_inv off t :
  encodes off t → ∃ b, load_node d off = Ret b ∧ encodes_entry (property_entry b) (pt_entry t) ∧
    encodes_array encodes_entry (prefix_entries b) (num_prefixes b) (pt_prefixes t) ∧
    encodes_array encodes_entry (exact_match_entries b) (num_exact_matches b) (pt_exacts t) ∧
    encodes_array encodes (child_nodes b) (num_child_nodes b) (pt_children t) ∧
    names_sorted ((pe_name ∘ pt_entry) <$> pt_children t).
Proof. intros []. eauto 10. Qed.

Lemma encodes_node_name o t :
  encodes o t → node_name d (Some o) = Ret (pe_name (pt_entry t)).
Proof.
  intros (b & Hb & (en & He & Hs & _) & _)%encodes_inv.
  unfold node_name, node_property_entry, trie_node_base. cbn. rewrite Hb. cbn.
  rewrite He. cbn. done.
Qed.

Lemma CheckPrefixMatch_loop_spec off b ps rem n i ci ti :
  load_node d off = Ret b →
  encodes_array encodes_entry (prefix_entries b) (num_prefixes b) ps →
  (i + n = length ps)%nat →
  CheckPrefixMatch_loop n (Z.of_nat i) d rem (Some off) ci ti =
    Ret (prefix_match (drop i ps) rem (ci, ti)).
Proof.
  intros Hb (Hn & _ & He). revert i. induction n as [|n IH]; intros i Hi.
  - rewrite drop_ge by lia. done.
  - destruct (lookup_lt_is_Some_2 ps i ltac:(lia)) as [x Hx].
    rewrite (drop_S _ _ _ Hx). destruct (He _ _ Hx) as (o & Ho & e & Hle & Hs & Hnl & Hc & Ht).
    cbn [CheckPrefixMatch_loop]. unfold prefix, trie_node_base. cbn [deref cbind].
    rewrite Hb. cbn [cbind]. rewrite Ho. cbn [cbind]. rewrite Hle. cbn [cbind].
    unfold prefix_match. cbn [first_such]. fold (prefix_match (drop (S i) ps) rem (ci, ti)).
    replace (Z.of_nat i + 1)%Z with (Z.of_nat (S i)) by lia.
    rewrite Hnl. destruct (Z.gtb_spec (Z.of_nat (length (pe_name x))) (Z.of_nat (length rem))) as [Hgt|Hle'].
    + rewrite bool_decide_false by (intros ?%prefix_length; lia). apply IH. lia.
    + rewrite Hs. cbn [cbind]. rewrite Nat2Z.id.
      destruct (strneq (pe_name x) rem (length (pe_name x))) eqn:E.
      * apply strneq_prefix in E. rewrite bool_decide_true by done.
        unfold set_entry. by rewrite Hc, Ht.
      * rewrite bool_decide_false; [apply IH; lia|]. intros Hp%strneq_prefix. congruence.
Qed.

Lemma CheckPrefixMatch_spec off t rem ci ti :
  encodes off t →
  CheckPrefixMatch d rem (Some off) ci ti = Ret (prefix_match (pt_prefixes t) rem (ci, ti)).
Proof.
  intros (b & Hb & _ & Hps & _)%encodes_inv. unfold CheckPrefixMatch, trie_node_base.
  cbn [deref cbind]. rewrite Hb. cbn [cbind]. pose proof Hps as (Hn & _). rewrite Hn, Nat2Z.id.
  by rewrite (CheckPrefixMatch_loop_spec _ _ _ _ _ 0 _ _ Hb Hps).
Qed.

Lemma first_such_Some {A} (f : A → bool) l i x :
  l !! i = Some x → f x = true → (∀ j y, (j < i)%nat → l !! j = Some y → f y = false) →
  first_such f l = Some x.
Proof.
  revert i. induction l as [|y l IH]; intros i Hx Hf Hlt; [done|]. simpl.
  destruct i as [|i]; simpl in Hx; [simplify_eq; by rewrite Hf|].
  rewrite (Hlt 0%nat y) by (done || lia). apply (IH i); auto.
  intros j z Hj Hz. apply (Hlt (S j)); [lia|done].
Qed.

Lemma first_such_None {A} (f : A → bool) l : (∀ x, x ∈ l → f x = false) → first_such f l = None.
Proof.
  induction l as [|y l IH]; intros H; [done|]. simpl. rewrite H by left.
  apply IH. intros. apply H. by right.
Qed.

Lemma FindChildForString_spec off t tok rest :
  encodes off t →
  match first_such (λ c, bool_decide (pe_name (pt_entry c) = tok)) (pt_children t) with
  | Some c => ∃ o, FindChildForString d (Some off) (tok ++ rest) (length tok) = Ret (Some (Some o)) ∧
                encodes o c
  | None => FindChildForString d (Some off) (tok ++ rest) (length tok) = Ret None
  end.
Proof.
  intros (b & Hb & _ & _ & _ & (Hn & Hmax & Hcs) & Hsort)%encodes_inv.
  set (cs := pt_children t) in *.
  unfold FindChildForString, trie_node_base. cbn [deref cbind]. rewrite Hb. cbn [cbind].
  set (ns := (pe_name ∘ pt_entry) <$> cs) in *.
  assert (Hlen : length ns = length cs) by (unfold ns; by rewrite length_fmap).
  rewrite Hn, <- Hlen.
  edestruct (names_search ns tok) as (r & -> & Hr); [done|lia| |].
  { intros i s Hs. unfold ns in Hs. rewrite list_lookup_fmap, fmap_Some in Hs.
    destruct Hs as (c & Hc & ->). destruct (Hcs _ _ Hc) as (o & Ho & Hoc).
    unfold child_node, trie_node_base. cbn [deref cbind]. rewrite Hb. cbn [cbind].
    rewrite Ho. cbn [cbind]. rewrite (encodes_node_name _ _ Hoc). cbn [cbind].
    by rewrite cmp_child_strcmp. }
  cbn [cbind]. destruct Hr as [[-> Hnin]|(i & -> & Hi)].
  - rewrite first_such_None; [done|]. intros c Hc. apply bool_decide_eq_false.
    intros <-. apply Hnin. unfold ns. apply list_elem_of_fmap. eauto.
  - pose proof Hi as Hi'. unfold ns in Hi'. rewrite list_lookup_fmap, fmap_Some in Hi'.
    destruct Hi' as (c & Hc & Heq). simpl in Heq.
    rewrite (first_such_Some _ cs i c); [|done|by apply bool_decide_eq_true|].
    + destruct (Hcs _ _ Hc) as (o & Ho & Hoc). exists o. split; [|done].
      rewrite (proj2 (Z.eqb_neq _ _)) by lia.
      unfold child_node, trie_node_base. cbn [deref cbind]. rewrite Hb. cbn [cbind].
      by rewrite Ho.
    + intros j c' Hj Hc'. apply bool_decide_eq_false. intros E.
      assert (ns !! j = Some tok).
      { unfold ns. rewrite list_lookup_fmap, Hc'. simpl. by rewrite E. }
      pose proof (names_sorted_lookup ns j i tok tok Hsort ltac:(done) Hi Hj).
      rewrite strcmp_refl in *. done.
Qed.

Lemma join_dot_cons tok toks : toks ≠ [] → join_dot (tok :: toks) = tok ++ "."%char :: join_dot toks.
Proof. by destruct toks. Qed.

Lemma descend_spec fuel off t toks ci ti :
  encodes off t → toks ≠ [] → Forall (λ n : cstr, "."%char ∉ n) toks → (length toks ≤ fuel)%nat →
  ∃ off', let '(t', rem', acc') := trie_descend t toks (ci, ti) in
    descend fuel d (Some off) (join_dot toks) ci ti = Ret (Some off', rem', acc'.1, acc'.2) ∧
    encodes off' t'.
Proof.
  revert off t toks ci ti. induction fuel as [|fuel IH]; intros off t toks ci ti Henc Hne Hdots Hfuel.
  { destruct toks; simpl in Hfuel; [done|lia]. }
  pose proof (CheckPrefixMatch_spec off t (join_dot toks)) as Hcp.
  destruct (encodes_inv _ _ Henc) as (b & Hb & (en & He & Hs & _ & Hci & Hti) & _).
  cbn [descend]. unfold node_property_entry at 1, trie_node_base at 1. cbn [deref cbind].
  rewrite Hb. cbn [cbind]. rewrite He. cbn [cbind]. rewrite (Hcp _ _ Henc). cbn [cbind].
  rewrite Hci, Hti.
  destruct toks as [|tok [|tok2 toks]]; [done| |].
  - apply Forall_cons in Hdots as [Hd _]. exists off. cbn [trie_descend join_dot].
    unfold set_entry. cbn [fst snd]. rewrite (proj2 (strchr_None tok _) Hd).
    destruct (prefix_match _ _ _). done.
  - apply Forall_cons in Hdots as [Hd Hds].
    assert (Hsep : strchr (join_dot (tok :: tok2 :: toks)) "."%char = Some (length tok))
      by (rewrite join_dot_cons by done; by apply strchr_app).
    rewrite Hsep. cbn [trie_descend]. unfold set_entry at 1 2 3. cbn [fst snd].
    destruct (prefix_match (pt_prefixes t) _ _) as [ci' ti'] eqn:Epm.
    pose proof (FindChildForString_spec off t tok ("."%char :: join_dot (tok2 :: toks)) Henc) as Hfc.
    rewrite <- join_dot_cons in Hfc by done.
    destruct (first_such _ (pt_children t)) as [c|] eqn:Ec.
    + destruct Hfc as (o & Hfc & Hoc). rewrite Hfc. cbn [cbind].
      destruct (IH o c (tok2 :: toks) ci' ti' Hoc) as (off' & Hx); [done|done|simpl in *; lia|].
      exists off'. rewrite (join_dot_cons tok) by done.
      replace (S (length tok)) with (length tok + 1)%nat by lia.
      rewrite drop_app_add. exact Hx.
    + rewrite Hfc. cbn [cbind]. exists off. done.
Qed.

Lemma exact_loop_spec off b xs rem n i :
  load_node d off = Ret b →
  encodes_array encodes_entry (exact_match_entries b) (num_exact_matches b) xs →
  (i + n = length xs)%nat →
  ∃ r, exact_loop n (Z.of_nat i) d rem (Some off) = Ret r ∧
    match r, first_such (λ e, bool_decide (pe_name e = rem)) (drop i xs) with
    | Some e, Some p => context_index e = pe_ctx p ∧ type_index e = pe_type p
    | None, None => True
    | _, _ => False
    end.
Proof.
  intros Hb (Hn & _ & He). revert i. induction n as [|n IH]; intros i Hi.
  - rewrite drop_ge by lia. eexists. done.
  - destruct (lookup_lt_is_Some_2 xs i ltac:(lia)) as [x Hx].
    rewrite (drop_S _ _ _ Hx). destruct (He _ _ Hx) as (o & Ho & e & Hle & Hs & Hnl & Hc & Ht).
    cbn [exact_loop]. unfold exact_match, trie_node_base. cbn [deref cbind].
    rewrite Hb. cbn [cbind]. rewrite Ho. cbn [cbind]. rewrite Hle. cbn [cbind].
    rewrite Hs. cbn [cbind first_such].
    replace (Z.of_nat i + 1)%Z with (Z.of_nat (S i)) by lia.
    destruct (streq (pe_name x) rem) eqn:E.
    + apply streq_spec in E. rewrite bool_decide_true by done.
      eexists. split; [reflexivity|]. done.
    + rewrite bool_decide_false; [apply IH; lia|]. intros Hp%streq_spec. congruence.
Qed.

Lemma split_dot_no_dot s : Forall (λ n : cstr, "."%char ∉ n) (split_dot s).
Proof.
  induction s as [|x s IH]; simpl; [repeat constructor; apply not_elem_of_nil|].
  assert (Hnil : "."%char ∉ ([] : cstr)) by apply not_elem_of_nil.
  destruct (split_dot s) as [|n ls].
  - case_decide; repeat apply Forall_cons_2; auto. set_solver.
  - apply Forall_cons in IH as [? ?].
    case_decide; repeat apply Forall_cons_2; auto. set_solver.
Qed.

(** The lookup in the bytes is the lookup in the trie. *)
Lemma GetPropertyInfoIndexes_trie h t name :
  load_header d = Ret h → trie d (root_offset h) = Ret (Some (root_offset h)) →
  encodes (root_offset h) t →
  GetPropertyInfoIndexes d name = Ret (trie_lookup t name).
Proof.
  intros Hh Hroot Henc. unfold GetPropertyInfoIndexes, root_node. rewrite Hh. cbn [cbind].
  rewrite Hroot. cbn [cbind].
  assert (Hfuel : (length (split_dot name) ≤ S (length name))%nat).
  { clear. induction name as [|x s IH]; simpl; [lia|].
    destruct (split_dot s); case_decide; simpl in *; lia. }
  destruct (descend_spec (S (length name)) (root_offset h) t (split_dot name)
              UINT32_MAX UINT32_MAX Henc (split_dot_nonempty _) (split_dot_no_dot _) Hfuel)
    as (off' & Hd). unfold trie_lookup. rewrite join_split in Hd.
  destruct (trie_descend _ _ _) as [[t' rem'] acc']. destruct Hd as [-> Hoff'].
  cbn [cbind]. destruct (encodes_inv _ _ Hoff') as (b & Hb & _ & _ & Hxs & _).
  unfold trie_node_base. cbn [deref cbind]. rewrite Hb. cbn [cbind].
  pose proof Hxs as (Hn & _). rewrite Hn, Nat2Z.id.
  destruct (exact_loop_spec _ _ _ rem' (length (pt_exacts t')) 0 Hb Hxs eq_refl) as (r & Hxl & Hr).
  change (Z.of_nat 0) with 0%Z in Hxl. rewrite Hxl.
  cbn [cbind]. rewrite drop_0 in Hr.
  destruct r as [en|], (first_such _ (pt_exacts t')) as [p|]; try done.
  - destruct Hr as [-> ->]. done.
  - rewrite (CheckPrefixMatch_spec _ _ _ _ _ Hoff'). by destruct acc'.
Qed.
End encodes.

(** ** The indexes are words *)

Lemma word_nonneg d off x : word d off = Ret x → (0 ≤ x)%Z.
Proof.
  unfold word. case_match; [done|]. destruct (get_le32 _ _) as [z|] eqn:E; intros [= <-].
  by apply get_le32_range in E as [? _].
Qed.

Lemma encodes_entry_nonneg d off p : encodes_entry d off p → (0 ≤ pe_ctx p)%Z.
Proof.
  intros (e & He & _ & _ & <- & _). unfold load_entry in He. cres_inv. cbn. eauto using word_nonneg.
Qed.

Lemma encodes_array_elem {A} d (enc : Z → A → Prop) arr n l x :
  encodes_array d enc arr n l → x ∈ l → ∃ o, enc o x.
Proof. intros (_ & _ & H) (i & Hi)%list_elem_of_lookup_1. destruct (H i x Hi) as (o & _ & Ho). eauto. Qed.

Lemma first_such_elem {A} (f : A → bool) l x : first_such f l = Some x → x ∈ l.
Proof.
  induction l as [|y l IH]; [done|]. cbn [first_such]. case_match; [intros [= ->]; by left|]. right. auto.
Qed.

Lemma set_entry_nonneg e acc : (0 ≤ pe_ctx e)%Z → (0 ≤ acc.1)%Z → (0 ≤ (set_entry e acc).1)%Z.
Proof. unfold set_entry, set_if. cbn. by case_match. Qed.

Lemma prefix_match_nonneg d arr n ps name acc :
  encodes_array d (encodes_entry d) arr n ps → (0 ≤ acc.1)%Z → (0 ≤ (prefix_match ps name acc).1)%Z.
Proof.
  intros Hps Hacc. unfold prefix_match. destruct (first_such _ ps) as [e|] eqn:E; [|done].
  apply first_such_elem in E. destruct (encodes_array_elem _ _ _ _ _ _ Hps E) as (o & Ho).
  apply set_entry_nonneg; eauto using encodes_entry_nonneg.
Qed.

Lemma trie_descend_nonneg d off t toks acc :
  encodes d off t → (0 ≤ acc.1)%Z →
  ∃ off' t' rem acc', trie_descend t toks acc = (t', rem, acc') ∧ encodes d off' t' ∧ (0 ≤ acc'.1)%Z.
Proof.
  revert off t acc. induction toks as [|tok toks IH]; intros off t acc Ht Hacc;
    destruct (encodes_inv _ _ _ Ht) as (b & _ & He & Hps & _ & Hcs & _);
    assert (Hacc' : ∀ name, (0 ≤ (prefix_match (pt_prefixes t) name (set_entry (pt_entry t) acc)).1)%Z)
      by (intros name; eapply prefix_match_nonneg; eauto using set_entry_nonneg, encodes_entry_nonneg);
    cbn [trie_descend]; [by eauto 10|].
  destruct toks as [|tok2 toks]; [by eauto 10|].
  destruct (first_such _ (pt_children t)) as [c|] eqn:E; [|by eauto 10].
  apply first_such_elem in E. destruct (encodes_array_elem _ _ _ _ _ _ Hcs E) as (o & Ho). eauto.
Qed.

(** The context index of a name is not negative. *)
Lemma trie_lookup_nonneg d off t name : encodes d off t → (0 ≤ (trie_lookup t name).1)%Z.
Proof.
  intros Ht. unfold trie_lookup.
  destruct (trie_descend_nonneg d off t (split_dot name) (UINT32_MAX, UINT32_MAX) Ht) as
    (off' & t' & rem & acc & -> & Ht' & Hacc); [vm_compute; discriminate|].
  destruct (encodes_inv _ _ _ Ht') as (b & _ & _ & Hps & Hxs & _).
  destruct (first_such _ (pt_exacts t')) as [e|] eqn:E; [|by eapply prefix_match_nonneg].
  apply first_such_elem in E. destruct (encodes_array_elem _ _ _ _ _ _ Hxs E) as (o & Ho).
  apply set_entry_nonneg; eauto using encodes_entry_nonneg.
Qed.

(** * Properties *)

(** A sample file: contexts u:def and u:ro; a child "ro", a prefix "debug" and
    an exact match "exact" at the root, the prefixes "boothw" and "boot" below
    "ro". *)
Definition sample_words : list Z := [1;1;262;24;36;44;2;222;217;1;228;100;1;196;1;200;1;204;116;0;0;2;208;0;0;216;0;0;4294967295;235;2;4294967295;4294967295;238;5;1;0;244;5;1;4294967295;255;6;1;4294967295;250;4;4294967295;0;72;132;148;164;180]%Z.

Definition sample_area : list ascii :=
  concat (le32_bytes <$> sample_words) ++
  concat ((λ s, cs s ++ [NUL]) <$>
    [""; "u:ro"; "u:def"; "string"; "ro"; "debug"; "exact"; "boot"; "boothw"]%string).

Definition sample_ro : ptrie :=
  PNode (mkPentry (cs "ro") UINT32_MAX UINT32_MAX)
    [mkPentry (cs "boothw") 1 UINT32_MAX; mkPentry (cs "boot") UINT32_MAX 0] [] [].

Definition sample_trie : ptrie :=
  PNode (mkPentry [] 0 UINT32_MAX) [mkPentry (cs "debug") 1 0]
    [mkPentry (cs "exact") 1 UINT32_MAX] [sample_ro].

Lemma sample_entry off p e :
  load_entry sample_area off = Ret e → c_string_at sample_area (name_offset e) = Ret (pe_name p) →
  namelen e = Z.of_nat (length (pe_name p)) → context_index e = pe_ctx p →
  type_index e = pe_type p → encodes_entry sample_area off p.
Proof. unfold encodes_entry. eauto 10. Qed.

Ltac sample_entry := eapply sample_entry; vm_compute; reflexivity.

Lemma encodes_array_nil {A} d (enc : Z → A → Prop) arr : encodes_array d enc arr 0 [].
Proof. split; [done|]. split; [lia|]. intros i x Hx. done. Qed.

Lemma sample_encodes : encodes sample_area 44 sample_trie.
Proof.
  eapply encodes_node; [vm_compute; reflexivity|sample_entry|..].
  - split; [done|]. split; [vm_compute; done|]. intros [|i] x; [intros [= <-]|done].
    eexists. split; [vm_compute; reflexivity|sample_entry].
  - split; [done|]. split; [vm_compute; done|]. intros [|i] x; [intros [= <-]|done].
    eexists. split; [vm_compute; reflexivity|sample_entry].
  - split; [done|]. split; [vm_compute; done|]. intros [|i] x; [intros [= <-]|done].
    eexists. split; [vm_compute; reflexivity|].
    eapply encodes_node; [vm_compute; reflexivity|sample_entry|..].
    + split; [done|]. split; [vm_compute; done|].
      intros [|[|i]] x; [intros [= <-]|intros [= <-]|done];
        (eexists; split; [vm_compute; reflexivity|sample_entry]).
    + apply encodes_array_nil.
    + apply encodes_array_nil.
    + constructor.
  - repeat constructor.
Qed.

(** Every word of the first bytes of a buffer can be read. *)
Lemma word_in d off : (Z.to_nat off + 4 ≤ length d)%nat → (0 ≤ off)%Z → ∃ v, word d off = Ret v.
Proof.
  intros Hl Ho. unfold word, get_le32. rewrite (proj2 (Z.ltb_ge _ _)) by done.
  destruct (lookup_lt_is_Some_2 d (Z.to_nat off) ltac:(lia)) as [? ->].
  destruct (lookup_lt_is_Some_2 d (Z.to_nat off + 1) ltac:(lia)) as [? ->].
  destruct (lookup_lt_is_Some_2 d (Z.to_nat off + 2) ltac:(lia)) as [? ->].
  destruct (lookup_lt_is_Some_2 d (Z.to_nat off + 3) ltac:(lia)) as [? ->].
  simpl. eauto.
Qed.

(** What an accepted file satisfies, and that every descriptor and every
    mapping that is not kept is released. *)
Definition accepted (st : stat_t) (d : list ascii) : Prop :=
  st_uid st = 0%Z ∧ st_gid st = 0%Z ∧
  Z.land (st_mode st) (Z.lor S_IWGRP S_IWOTH) = 0%Z ∧
  area_size d = Ret (st_size st) ∧ ∃ v, word d 4 = Ret v ∧ (v ≤ 1)%Z.

#[export] Instance map_event_eq_dec : EqDecision map_event.
Proof. solve_decision. Defined.

Definition count_ev (e : map_event) (l : list map_event) : nat := length (filter (eq e) l).

(** C31. [LoadPath] never reads outside a mapping of at least the three header
    words it looks at (the kernel maps whole pages).  It accepts only a
    root-owned file that group and others cannot write, whose header names a
    version this code reads and the file's own size; otherwise the object is
    unchanged.  The descriptor is closed once on every path and a mapping that
    is not kept is unmapped. *)
Theorem LoadPath_checks f k :
  (∀ d, kf_mmap k = Some d → (12 ≤ length d)%nat) →
  ∃ ok f' evs, LoadPath f k = Ret (ok, f', evs) ∧
    (if ok then ∃ st d, kf_fstat k = Some st ∧ kf_mmap k = Some d ∧ accepted st d ∧
                  f' = mkAreaFile (Some d) (st_size st)
     else f' = f) ∧
    count_ev EvClose evs = count_ev EvOpen evs ∧
    (count_ev EvMmap evs = count_ev EvMunmap evs + Nat.b2n ok)%nat.
Proof.
  intros Hlen. unfold LoadPath, accepted.
  destruct (kf_fstat k) as [st|]; [|by eexists false, f, _].
  destruct (_ || _) eqn:Hchk; [by eexists false, f, _|].
  rewrite !orb_false_iff, !negb_false_iff, !Z.eqb_eq in Hchk.
  destruct Hchk as [[[Hu Hg] Hm] _].
  destruct (kf_mmap k) as [d|]; [|by eexists false, f, _].
  destruct (word_in d 4) as [v Hv]; [specialize (Hlen d eq_refl); lia|lia|].
  destruct (word_in d 8) as [s Hs]; [specialize (Hlen d eq_refl); lia|lia|].
  rewrite Hv. cbn [cbind].
  destruct (Z.gtb_spec v 1) as [|Hle]; cbn [cbind]; [by eexists false, f, _|].
  assert (Has : area_size d = Ret s) by exact Hs. rewrite Has. cbn [cbind].
  destruct (Z.eqb_spec s (st_size st)) as [->|]; cbn [negb]; [|by eexists false, f, _].
  eexists true, _, _. split; [done|]. split; [|done]. exists st, d. split_and!; eauto.
Qed.

Lemma LoadPath_checks_witness : ∃ ok f' evs,
  LoadPath empty_file (mkKernelFile (Some (mkStat 0 0 0x1a4 262)) (Some sample_area)) = Ret (ok, f', evs) ∧
  count_ev EvClose evs = count_ev EvOpen evs.
Proof.
  destruct (LoadPath_checks empty_file (mkKernelFile (Some (mkStat 0 0 0x1a4 262)) (Some sample_area)))
    as (ok & f' & evs & H1 & _ & H2 & _).
  - intros d [= <-]. apply (bool_decide_unpack _). vm_compute. exact I.
  - exact (ex_intro _ ok (ex_intro _ f' (ex_intro _ evs (conj H1 H2)))).
Defined.

(** The sample file is accepted. *)
Example LoadPath_accepts_sample :
  LoadPath empty_file (mkKernelFile (Some (mkStat 0 0 0x1a4 262)) (Some sample_area)) =
    Ret (true, mkAreaFile (Some sample_area) 262, [EvOpen; EvMmap; EvClose]).
Proof. vm_compute. reflexivity. Qed.
