(* ===== verification/PropertyInfoLookup.v ===== *)
(** What the lookup in a serialized property_info file means: the entries of the
    trie are rules for names, and a name gets its indexes from the longest rule
    that matches it (property_info_parser.cpp: GetPropertyInfoIndexes,
    CheckPrefixMatch; property_info_parser.h says how the arrays are sorted). *)

From Stdlib Require Import ZArith Lia Ascii Sorted.
From stdpp Require Import base numbers sorting strings gmap list.
From S2P Require Import Prelude CString PropTrie PropertyInfoParser.

(** * Rules *)

(** "a.b." for every property below a node, "a.b.x" for every one that starts so,
    "a.b.x" for the one of that name. *)
Inductive kind := KNode | KPrefix | KExact.

#[export] Instance kind_eq_dec : EqDecision kind.
Proof. solve_decision. Defined.

(** The rules of a trie: the labels on the way to the node, the kind, the entry. *)
Inductive has_rule : ptrie → list cstr → kind → pentry → Prop :=
  | hr_node t : has_rule t [] KNode (pt_entry t)
  | hr_prefix t e : e ∈ pt_prefixes t → has_rule t [] KPrefix e
  | hr_exact t e : e ∈ pt_exacts t → has_rule t [] KExact e
  | hr_child t c path k e :
    c ∈ pt_children t → has_rule c path k e → has_rule t (pe_name (pt_entry c) :: path) k e.

Fixpoint below (path : list cstr) (s : cstr) : cstr :=
  match path with [] => s | l :: path => l ++ "."%char :: below path s end.

Definition rule_text (path : list cstr) (k : kind) (e : pentry) : cstr :=
  below path (match k with KNode => [] | _ => pe_name e end).

Definition matches (path : list cstr) (k : kind) (e : pentry) (name : cstr) : Prop :=
  match k with KExact => rule_text path k e = name | _ => rule_text path k e `prefix_of` name end.

(** A prefix counts unless the same node has a longer one for the name. *)
Definition applies (t : ptrie) (name : cstr) (path : list cstr) (k : kind) (e : pentry) : Prop :=
  has_rule t path k e ∧ matches path k e name ∧
  (k = KPrefix → ∀ e', has_rule t path KPrefix e' → matches path KPrefix e' name →
     (length (pe_name e') ≤ length (pe_name e))%nat).

(** [res] is what the longest rule says that applies and says anything, an exact
    one before the others; [none] when there is no such rule. *)
Definition best (f : pentry → Z) (none : Z) (t : ptrie) (name : cstr) (res : Z) : Prop :=
  (∃ path k e, applies t name path k e ∧ f e = res ∧ res ≠ UINT32_MAX ∧
     ∀ path' k' e', applies t name path' k' e' → f e' ≠ UINT32_MAX →
       (k' = KExact → k = KExact) ∧ (length (rule_text path' k' e') ≤ length (rule_text path k e))%nat) ∨
  (res = none ∧ ∀ path k e, applies t name path k e → f e = UINT32_MAX).

Definition no_dot (s : cstr) : Prop := "."%char ∉ s.

(** Tries as the comments of property_info_parser.h describe them: prefixes
    sorted longest to smallest, no name twice in an array, labels without dots. *)
Inductive trie_ok : ptrie → Prop :=
  | trie_ok_node e ps xs cs :
    Forall no_dot (pe_name <$> ps) → Forall no_dot (pe_name <$> xs) →
    NoDup (pe_name <$> ps) → NoDup (pe_name <$> xs) →
    StronglySorted (λ p q, (length (pe_name q) ≤ length (pe_name p))%nat) ps →
    NoDup ((pe_name ∘ pt_entry) <$> cs) → Forall no_dot ((pe_name ∘ pt_entry) <$> cs) →
    (∀ c, c ∈ cs → trie_ok c) →
    trie_ok (PNode e ps xs cs).

(** * Matching *)

(** A label and the rest against a name that starts with a token. *)
Lemma label_prefix l tok (s r : cstr) :
  no_dot l → no_dot tok → l ++ "."%char :: s `prefix_of` tok ++ "."%char :: r ↔ l = tok ∧ s `prefix_of` r.
Proof.
  unfold no_dot. intros Hl Ht. split.
  - revert tok Ht. induction l as [|x l IH]; intros [|y tok] Ht H; cbn [app] in H.
    + apply prefix_cons_inv_2 in H. done.
    + apply prefix_cons_inv_1 in H. subst. set_solver.
    + apply prefix_cons_inv_1 in H. subst. set_solver.
    + pose proof (prefix_cons_inv_1 _ _ _ _ H) as ->. apply prefix_cons_inv_2 in H.
      destruct (IH ltac:(set_solver) tok ltac:(set_solver) H) as [-> ?]. done.
  - intros [-> H]. by apply prefix_app, prefix_cons.
Qed.

Lemma label_not_prefix l tok s : no_dot tok → ¬ l ++ "."%char :: s `prefix_of` tok.
Proof. intros Ht [r ->]. apply Ht. set_solver. Qed.

(** Without a dot a prefix of the name is one of its first token. *)
Lemma prefix_first_token s tok r : no_dot s → s `prefix_of` tok ++ "."%char :: r → s `prefix_of` tok.
Proof.
  unfold no_dot. revert tok. induction s as [|x s IH]; intros tok Hs H; [apply prefix_nil|].
  destruct tok as [|y tok]; cbn [app] in H.
  - apply prefix_cons_inv_1 in H. set_solver.
  - pose proof (prefix_cons_inv_1 _ _ _ _ H) as ->. apply prefix_cons_inv_2 in H.
    apply prefix_cons, IH; [set_solver|done].
Qed.

Lemma matches_child l path k e tok r :
  no_dot l → no_dot tok → matches (l :: path) k e (tok ++ "."%char :: r) ↔ l = tok ∧ matches path k e r.
Proof.
  intros Hl Ht. unfold matches, rule_text. cbn [below]. destruct k; try by apply label_prefix.
  set (s := below path _). split; [|by intros [-> ->]]. intros E.
  destruct (proj1 (label_prefix l tok s r Hl Ht)) as [-> _]; [by rewrite E|].
  apply app_inv_head in E. by injection E.
Qed.

Lemma matches_child_none l path k e tok : no_dot tok → ¬ matches (l :: path) k e tok.
Proof.
  intros Ht H. assert (rule_text (l :: path) k e `prefix_of` tok) as Hp by (destruct k; [done|done|by rewrite <-H]).
  by apply label_not_prefix in Hp.
Qed.

(** The first prefix that matches is the one that applies. *)
Lemma first_such_inv {A} (f : A → bool) l x :
  first_such f l = Some x → ∃ l1 l2, l = l1 ++ x :: l2 ∧ f x = true ∧ ∀ y, y ∈ l1 → f y = false.
Proof.
  induction l as [|y l IH]; [done|]. cbn [first_such]. destruct (f y) eqn:E.
  - intros [= ->]. exists [], l. split; [done|]. split; [done|]. by intros ? ?%elem_of_nil.
  - intros H. destruct (IH H) as (l1 & l2 & -> & Hx & Hl1). exists (y :: l1), l2. split; [done|]. split; [done|].
    intros z [->|Hz]%elem_of_cons; auto.
Qed.

Lemma first_such_none_inv {A} (f : A → bool) l x : first_such f l = None → x ∈ l → f x = false.
Proof.
  induction l as [|y l IH]; [by intros _ ?%elem_of_nil|]. cbn [first_such]. destruct (f y) eqn:E; [done|].
  intros H [->|Hx]%elem_of_cons; auto.
Qed.

Lemma prefixes_same_length (a b s : cstr) : a `prefix_of` s → b `prefix_of` s → length a = length b → a = b.
Proof.
  intros [ra ->] [rb E] Hl. apply (f_equal (take (length a))) in E.
  rewrite take_app_length, Hl, take_app_length in E. by rewrite E.
Qed.

Lemma NoDup_fmap_eq {A B} (f : A → B) l x y : NoDup (f <$> l) → x ∈ l → y ∈ l → f x = f y → x = y.
Proof.
  induction l as [|z l IH]; [by intros _ ?%elem_of_nil|]. rewrite fmap_cons, NoDup_cons, !elem_of_cons.
  intros [Hz Hl] [->|Hx] [->|Hy] E; auto; exfalso; apply Hz; [rewrite E|rewrite <-E]; by apply list_elem_of_fmap_2.
Qed.

(** * One of the two indexes *)

Section field.
Context (f : pentry → Z) (g : Z * Z → Z).
Context (g_set : ∀ e acc, g (set_entry e acc) = set_if (f e) (g acc)).

(** What a node says by itself of the rest of a name. *)
Definition node_acc (t : ptrie) (rem : cstr) (acc : Z * Z) : Z * Z :=
  prefix_match (pt_prefixes t) rem (set_entry (pt_entry t) acc).

Lemma set_if_cases v x : (v = UINT32_MAX ∧ set_if v x = x) ∨ (v ≠ UINT32_MAX ∧ set_if v x = v).
Proof. unfold set_if. destruct (Z.eqb_spec v UINT32_MAX); auto. Qed.

(** The prefix that [prefix_match] takes is the only one that applies. *)
Lemma prefix_applies t rem :
  trie_ok t →
  match first_such (λ e, bool_decide (pe_name e `prefix_of` rem)) (pt_prefixes t) with
  | Some p => applies t rem [] KPrefix p ∧ ∀ e, applies t rem [] KPrefix e → e = p
  | None => ∀ e, ¬ applies t rem [] KPrefix e
  end.
Proof.
  intros Ht. destruct Ht as [e ps xs cs _ _ Hnd _ Hs _ _ _]. cbn [pt_prefixes].
  assert (Hrule : ∀ p, has_rule (PNode e ps xs cs) [] KPrefix p ↔ p ∈ ps).
  { intros p. split; [by inversion 1|]. intros Hp. by apply (hr_prefix (PNode e ps xs cs)). }
  destruct (first_such _ ps) as [p|] eqn:E.
  - pose proof (first_such_elem _ _ _ E) as Hp.
    apply first_such_inv in E as (l1 & l2 & El & Hm & Hl1). apply bool_decide_eq_true in Hm.
    assert (Hlong : ∀ q, q ∈ ps → pe_name q `prefix_of` rem → (length (pe_name q) ≤ length (pe_name p))%nat).
    { intros q Hq Hqm. rewrite El in Hq, Hs. apply elem_of_app in Hq as [Hq|[->|Hq]%elem_of_cons]; [|lia|].
      - specialize (Hl1 _ Hq). by apply bool_decide_eq_false in Hl1.
      - apply StronglySorted_app_1_r, StronglySorted_inv in Hs as [_ Hs].
        by apply (proj1 (Forall_forall _ _) Hs). }
    split.
    + split; [by apply Hrule|]. split; [done|]. intros _ q Hq%Hrule Hqm. by apply Hlong.
    + intros q (Hq%Hrule & Hqm & Hql). apply (NoDup_fmap_eq pe_name ps); [done..|].
      apply (prefixes_same_length _ _ rem); [done..|].
      pose proof (Hql eq_refl p (proj2 (Hrule p) Hp) Hm). specialize (Hlong q Hq Hqm). lia.
  - intros q (Hq%Hrule & Hqm & _). pose proof (first_such_none_inv _ _ _ E Hq) as Hf. by apply bool_decide_eq_false in Hf.
Qed.

(** The node and its prefixes by themselves. *)
Lemma node_acc_best t rem acc :
  trie_ok t →
  (∃ k e, k ≠ KExact ∧ applies t rem [] k e ∧ f e = g (node_acc t rem acc) ∧ f e ≠ UINT32_MAX ∧
     ∀ k' e', k' ≠ KExact → applies t rem [] k' e' → f e' ≠ UINT32_MAX →
       (length (rule_text [] k' e') ≤ length (rule_text [] k e))%nat) ∨
  (g (node_acc t rem acc) = g acc ∧ ∀ k e, k ≠ KExact → applies t rem [] k e → f e = UINT32_MAX).
Proof.
  intros Ht. pose proof (prefix_applies t rem Ht) as Hp. unfold node_acc, prefix_match.
  assert (Hnode : applies t rem [] KNode (pt_entry t)) by (split; [constructor|split; [apply prefix_nil|done]]).
  assert (Hent : ∀ e, applies t rem [] KNode e → e = pt_entry t) by (intros e (H & _); by inversion H).
  assert (Hn : (f (pt_entry t) ≠ UINT32_MAX ∧ g (set_entry (pt_entry t) acc) = f (pt_entry t)) ∨
               (f (pt_entry t) = UINT32_MAX ∧ g (set_entry (pt_entry t) acc) = g acc)).
  { rewrite g_set. destruct (set_if_cases (f (pt_entry t)) (g acc)) as [[-> ->]|[? ->]]; auto. }
  destruct (first_such _ _) as [p|].
  - destruct Hp as [Hap Hun]. rewrite g_set.
    destruct (set_if_cases (f p) (g (set_entry (pt_entry t) acc))) as [[Hf ->]|[Hf ->]].
    + destruct Hn as [[Hne Hg]|[He ->]]; [left|right].
      * exists KNode, (pt_entry t). split_and!; try done. intros [] e' Hk Ha Hfe; [done| |done].
        rewrite (Hun _ Ha) in Hfe. done.
      * split; [done|]. intros [] e' Hk Ha; [|by rewrite (Hun _ Ha)|done]. by rewrite (Hent _ Ha).
    + left. exists KPrefix, p. split_and!; try done. intros [] e' Hk Ha Hfe; [cbn; lia| |done].
      by rewrite (Hun _ Ha).
  - destruct Hn as [[Hne Hg]|[He ->]]; [left|right].
    + exists KNode, (pt_entry t). split_and!; try done. intros [] e' Hk Ha Hfe; [done| |done]. by destruct (Hp e').
    + split; [done|]. intros [] e' Hk Ha; [by rewrite (Hent _ Ha)|by destruct (Hp e')|done].
Qed.

(** Looking at the prefixes once more changes nothing. *)
Lemma prefix_match_again ps rem acc : g (prefix_match ps rem (prefix_match ps rem acc)) = g (prefix_match ps rem acc).
Proof.
  unfold prefix_match. destruct (first_such _ ps) as [p|]; [|done]. rewrite !g_set. unfold set_if.
  by destruct (f p =? UINT32_MAX)%Z.
Qed.

(** What becomes of the name at the node where the descent stops. *)
Definition finish (t : ptrie) (rem : cstr) (acc : Z * Z) : Z * Z :=
  match first_such (λ e, bool_decide (pe_name e = rem)) (pt_exacts t) with
  | Some e => set_entry e acc
  | None => prefix_match (pt_prefixes t) rem acc
  end.

Lemma exact_applies t rem :
  trie_ok t →
  match first_such (λ e, bool_decide (pe_name e = rem)) (pt_exacts t) with
  | Some x => applies t rem [] KExact x ∧ ∀ e, applies t rem [] KExact e → e = x
  | None => ∀ e, ¬ applies t rem [] KExact e
  end.
Proof.
  intros Ht. destruct Ht as [e ps xs cs _ _ _ Hnd _ _ _ _]. cbn [pt_exacts].
  assert (Hrule : ∀ p, has_rule (PNode e ps xs cs) [] KExact p ↔ p ∈ xs).
  { intros p. split; [by inversion 1|]. intros Hp. by apply (hr_exact (PNode e ps xs cs)). }
  destruct (first_such _ xs) as [x|] eqn:E.
  - pose proof (first_such_elem _ _ _ E) as Hx. apply first_such_inv in E as (l1 & l2 & _ & Hm & _).
    apply bool_decide_eq_true in Hm. split; [split; [by apply Hrule|done]|].
    intros y (Hy%Hrule & Hym & _). apply (NoDup_fmap_eq pe_name xs); [done..|]. cbn in Hym. congruence.
  - intros y (Hy%Hrule & Hym & _). pose proof (first_such_none_inv _ _ _ E Hy) as Hf. by apply bool_decide_eq_false in Hf.
Qed.

(** Where no child is entered. *)
Lemma finish_best t rem acc :
  trie_ok t → (∀ l path k e, ¬ applies t rem (l :: path) k e) →
  best f (g acc) t rem (g (finish t rem (node_acc t rem acc))).
Proof.
  intros Ht Hno. pose proof (exact_applies t rem Ht) as Hx. pose proof (node_acc_best t rem acc Ht) as Hn.
  assert (Hlen : ∀ k e, applies t rem [] k e → (length (rule_text [] k e) ≤ length rem)%nat).
  { intros k e (_ & Hm & _). destruct k; [by apply prefix_length|by apply prefix_length|by rewrite <-Hm]. }
  assert (Hrest : ∀ x, (∀ e, applies t rem [] KExact e → f e = UINT32_MAX) →
    x = g (node_acc t rem acc) → best f (g acc) t rem x).
  { intros x He ->. destruct Hn as [(k & e & Hk & Ha & Hf & Hne & Hl)|[Hg Hn]]; [left|right].
    - exists [], k, e. split_and!; [done|done|congruence|]. intros [|l path'] k' e' Ha' Hf'; [|by destruct (Hno _ _ _ _ Ha')].
      destruct (decide (k' = KExact)) as [->|Hk']; [by rewrite (He _ Ha') in Hf'|]. split; [done|by apply Hl].
    - split; [done|]. intros [|l path'] k' e' Ha'; [|by destruct (Hno _ _ _ _ Ha')].
      destruct (decide (k' = KExact)) as [->|Hk']; [by apply He|by eapply Hn]. }
  unfold finish. destruct (first_such _ (pt_exacts t)) as [x|].
  - destruct Hx as [Hax Hun]. rewrite g_set. destruct (set_if_cases (f x) (g (node_acc t rem acc))) as [[Hf ->]|[Hf ->]].
    + apply Hrest; [|done]. intros e Ha. by rewrite (Hun _ Ha).
    + left. exists [], KExact, x. split_and!; try done. intros [|l path'] k' e' Ha' Hf'; [|by destruct (Hno _ _ _ _ Ha')].
      split; [done|]. destruct Hax as (_ & Hm & _). cbn in Hm. cbn. rewrite Hm. by apply Hlen.
  - apply Hrest; [intros e Ha; by destruct (Hx e)|]. apply prefix_match_again.
Qed.

(** ** A child that is entered *)

Lemma has_rule_child t l path k e :
  has_rule t (l :: path) k e → ∃ c, c ∈ pt_children t ∧ l = pe_name (pt_entry c) ∧ has_rule c path k e.
Proof. inversion 1; subst. by eexists. Qed.

Lemma trie_ok_child t c :
  trie_ok t → c ∈ pt_children t → trie_ok c ∧ no_dot (pe_name (pt_entry c)).
Proof.
  destruct 1 as [e ps xs cs _ _ _ _ _ _ Hl Hc]. cbn [pt_children]. intros Hin. split; [auto|].
  eapply Forall_forall; [exact Hl|]. by apply (list_elem_of_fmap_2 (pe_name ∘ pt_entry)).
Qed.

Lemma applies_child t c r path k e :
  trie_ok t → c ∈ pt_children t →
  let tok := pe_name (pt_entry c) in
  applies t (tok ++ "."%char :: r) (tok :: path) k e ↔ applies c r path k e.
Proof.
  intros Ht Hin tok. destruct (trie_ok_child _ _ Ht Hin) as [_ Hd].
  assert (Hnd : NoDup ((pe_name ∘ pt_entry) <$> pt_children t)) by (by destruct Ht).
  assert (Hr : ∀ path k e, has_rule t (tok :: path) k e ↔ has_rule c path k e).
  { intros p k0 e0. split; [|by apply hr_child]. intros (c' & Hin' & E & Hr)%has_rule_child.
    by rewrite (NoDup_fmap_eq _ _ c c' Hnd Hin Hin' E). }
  unfold applies. rewrite Hr, (matches_child tok path k e tok r Hd Hd). split.
  - intros (H1 & [_ H2] & H3). split; [done|]. split; [done|]. intros Hk e' He Hm.
    apply H3; [done|by apply Hr|]. by apply (matches_child tok path KPrefix e' tok r).
  - intros (H1 & H2 & H3). split; [done|]. split; [done|]. intros Hk e' He Hm. apply H3; [done|by apply Hr|].
    by apply (matches_child tok path KPrefix e' tok r) in Hm as [_ ?].
Qed.

(** The rules that apply at a node whose name goes on below it. *)
Lemma applies_inner t tok r path k e :
  trie_ok t → no_dot tok → applies t (tok ++ "."%char :: r) path k e →
  (path = [] ∧ k ≠ KExact ∧ (length (rule_text path k e) ≤ length tok)%nat) ∨
  ∃ c path', c ∈ pt_children t ∧ pe_name (pt_entry c) = tok ∧ path = tok :: path' ∧ applies c r path' k e.
Proof.
  intros Ht Hd Ha. destruct path as [|l path].
  - left. split; [done|]. destruct Ha as (Hr & Hm & _).
    assert (Hps : Forall no_dot (pe_name <$> pt_prefixes t)) by (by destruct Ht).
    assert (Hxs : Forall no_dot (pe_name <$> pt_exacts t)) by (by destruct Ht).
    rewrite Forall_forall in Hps, Hxs. inversion Hr; subst; cbn.
    + split; [done|lia].
    + split; [done|]. apply prefix_length, (prefix_first_token _ _ r); [|exact Hm]. apply Hps. by apply list_elem_of_fmap_2.
    + exfalso. cbn in Hm. apply (Hxs (pe_name e)); [by apply list_elem_of_fmap_2|]. rewrite Hm. set_solver.
  - right. destruct Ha as (Hr & Hm & Hl). pose proof Hr as (c & Hin & -> & Hr')%has_rule_child.
    destruct (trie_ok_child _ _ Ht Hin) as [_ Hdc].
    pose proof (proj1 (matches_child _ _ _ _ _ _ Hdc Hd) Hm) as [E _]. exists c, path.
    split; [done|]. split; [done|]. split; [by rewrite E|]. subst tok.
    apply (applies_child t); [done|done|]. by split.
Qed.

Lemma child_best t c r acc res :
  trie_ok t → c ∈ pt_children t →
  let rem := pe_name (pt_entry c) ++ "."%char :: r in
  best f (g (node_acc t rem acc)) c r res → best f (g acc) t rem res.
Proof.
  intros Ht Hin rem. set (tok := pe_name (pt_entry c)) in *.
  destruct (trie_ok_child _ _ Ht Hin) as [_ Hd]. fold tok in Hd.
  assert (Hnd : NoDup ((pe_name ∘ pt_entry) <$> pt_children t)) by (by destruct Ht).
  assert (Hinner : ∀ path k e, applies t rem path k e →
    (path = [] ∧ k ≠ KExact ∧ (length (rule_text path k e) ≤ length tok)%nat) ∨
    ∃ path', path = tok :: path' ∧ applies c r path' k e).
  { intros path k e Ha. destruct (applies_inner t tok r path k e Ht Hd Ha) as [?|(c' & p' & Hin' & E & -> & Ha')]; [by left|right].
    exists p'. split; [done|]. by rewrite (NoDup_fmap_eq _ _ c c' Hnd Hin Hin' (eq_sym E)). }
  intros [(path & k & e & Ha & Hf & Hne & Hb)|[-> Hno]].
  - left. exists (tok :: path), k, e. split; [by apply applies_child|]. split; [done|]. split; [done|].
    intros path' k' e' Ha' Hf'. unfold rule_text at 2. cbn [below]. rewrite length_app. cbn [length].
    destruct (Hinner _ _ _ Ha') as [(-> & Hk' & Hl)|(p' & -> & Ha2)]; [split; [done|lia]|].
    destruct (Hb _ _ _ Ha2 Hf') as [H1 H2]. split; [done|]. unfold rule_text in *. cbn [below].
    rewrite length_app. cbn [length]. lia.
  - destruct (node_acc_best t rem acc Ht) as [(k & e & Hk & Ha & Hf & Hne & Hl)|[Hg Hn]]; [left|right].
    + exists [], k, e. split; [done|]. split; [done|]. split; [congruence|]. intros path' k' e' Ha' Hf'.
      destruct (Hinner _ _ _ Ha') as [(-> & Hk' & _)|(p' & -> & Ha2)]; [split; [done|by apply Hl]|].
      by rewrite (Hno _ _ _ Ha2) in Hf'.
    + split; [done|]. intros path' k' e' Ha'.
      destruct (Hinner _ _ _ Ha') as [(-> & Hk' & _)|(p' & -> & Ha2)]; [by eapply Hn|by eapply Hno].
Qed.

Lemma descend_best t toks acc :
  trie_ok t → toks ≠ [] → Forall no_dot toks →
  best f (g acc) t (join_dot toks) (g (let '(t', rem, acc') := trie_descend t toks acc in finish t' rem acc')).
Proof.
  intros Ht Hne Hd. revert t acc Ht. induction Hd as [|tok toks Hd Hds IH]; intros t acc Ht; [done|].
  destruct toks as [|tok2 toks].
  - cbn [trie_descend join_dot]. apply finish_best; [done|]. intros l path k e (_ & Hm & _). by apply matches_child_none in Hm.
  - cbn [trie_descend]. rewrite join_dot_cons by done. set (r := join_dot (tok2 :: toks)) in *.
    destruct (first_such _ (pt_children t)) as [c|] eqn:E.
    + pose proof (first_such_elem _ _ _ E) as Hin. apply first_such_inv in E as (_ & _ & _ & Hc & _).
      apply bool_decide_eq_true in Hc. subst tok. destruct (trie_ok_child _ _ Ht Hin) as [Hok _].
      apply child_best; [done|done|]. apply (IH ltac:(done) c); done.
    + apply finish_best; [done|]. intros l path k e Ha.
      destruct (applies_inner t tok r (l :: path) k e Ht Hd Ha) as [[? _]|(c & p' & Hin & Hc & _)]; [done|].
      pose proof (first_such_none_inv _ _ _ E Hin) as Hf. by apply bool_decide_eq_false in Hf.
Qed.

Lemma trie_lookup_best t name : trie_ok t → best f (g (UINT32_MAX, UINT32_MAX)) t name (g (trie_lookup t name)).
Proof.
  intros Ht. pose proof (descend_best t (split_dot name) (UINT32_MAX, UINT32_MAX) Ht (split_dot_nonempty _)
    (split_dot_no_dot _)) as H. by rewrite join_split in H.
Qed.
End field.


(** * Concrete instances *)

Lemma sample_trie_ok : trie_ok sample_trie.
Proof.
  assert (Hdec : ∀ P `{Decision P}, bool_decide P = true → P) by (intros P ?; apply bool_decide_eq_true_1).
  unfold sample_trie, sample_ro.
  repeat (match goal with
    | |- trie_ok _ => constructor
    | |- StronglySorted _ _ => repeat constructor; cbn; lia
    | |- ∀ c, c ∈ [] → _ => by intros ? ?%elem_of_nil
    | |- ∀ c, c ∈ [_] → _ => intros ? ->%list_elem_of_singleton
    | |- Forall no_dot _ => unfold no_dot; apply (Hdec _ _); vm_compute; reflexivity
    | |- NoDup _ => apply (Hdec _ _); vm_compute; reflexivity
    end).
Qed.

