(* ===== verification/Contexts.v ===== *)
(** How property areas are mapped ([map_prop_area*] of prop_area.cpp), the node
    that owns the mapping of one SELinux context (context_node.{h,cpp}), the
    interface [Contexts] (contexts.h) and its simplest implementation
    [ContextsPreSplit].

    An area is a file mapped MAP_SHARED: a pointer to it is the name of the
    file, and every mapping of the file sees the same [prop_area]. *)

From Stdlib Require Import ZArith Lia Ascii.
From stdpp Require Import base numbers strings gmap list.
From S2P Require Import Prelude CString PropInfo PropArea PropertyInfoParser.

(** * The kernel and the files *)

Inductive create_answer := CreateOk | CreateEACCES | CreateError.

(** Answers of system calls that the files alone do not determine. *)
Record kernel := mkKernel {
  k_create : cstr → create_answer;       (** open(O_CREAT | O_EXCL) of a new name *)
  k_setxattr : cstr → cstr → bool;       (** fsetxattr of the SELinux label succeeds *)
  k_truncate : cstr → bool;              (** ftruncate succeeds *)
  k_mmap : cstr → bool;                  (** mmap succeeds *)
  k_open : cstr → bool;                  (** open(O_RDWR | O_NOFOLLOW) of an existing file *)
  k_access : cstr → bool;                (** access(R_OK) == 0 *)
  k_is_dir : cstr → bool;                (** stat succeeds and S_ISDIR *)
  k_anon_mmap : Z → bool;                (** anonymous mmap of that many bytes *)
  k_text : cstr → option (list ascii);   (** text files fopen can read *)
  k_property_info : kernel_file;         (** /dev/__properties__/property_info *)
  k_uid : Z;
  k_gid : Z
}.

Record area_file := mkAreaFileEntry { af_stat : stat_t; af_area : prop_area }.

(** The shared files and the statics [pa_size_] and [pa_data_size_]. *)
Record world := mkWorld {
  w_files : gmap cstr area_file;
  w_pa_size : Z;
  w_pa_data_size : Z
}.

Definition set_files (w : world) (fs : gmap cstr area_file) : world :=
  mkWorld fs (w_pa_size w) (w_pa_data_size w).

Definition set_pa_size (w : world) (n : Z) : world :=
  mkWorld (w_files w) n (n - sizeof_prop_area).

Definition get_area (w : world) (p : cstr) : cres prop_area :=
  let! f := deref (w_files w !! p) in Ret (af_area f).

Definition put_area (w : world) (p : cstr) (a : prop_area) : world :=
  match w_files w !! p with
  | Some f => set_files w (<[p := mkAreaFileEntry (af_stat f) a]> (w_files w))
  | None => w
  end.

(** The bytes of a file that was only created or extended. *)
Definition zero_area : prop_area := PropArea 0 0 0 0 ∅.

Section mapping.
Context (k : kernel).

(** [map_prop_area_rw]: [ff] is the flag [fsetxattr_failed] points to, if
    any.  [abort()] ends the process: [Fault]. *)
Definition map_prop_area_rw (w : world) (filename : cstr) (context : option cstr)
    (ff : option bool) : cres (option cstr * option bool * world) :=
  match w_files w !! filename with
  | Some _ => Ret (None, ff, w)
  | None =>
    match k_create k filename with
    | CreateEACCES => Fault
    | CreateError => Ret (None, ff, w)
    | CreateOk =>
      let st n := mkStat (k_uid k) (k_gid k) 0x124 n in
      let ff := match context with
                | Some c => if k_setxattr k filename c then ff else (λ _, true) <$> ff
                | None => ff
                end in
      if negb (k_truncate k filename) then
        Ret (None, ff, set_files w (<[filename := mkAreaFileEntry (st 0%Z) zero_area]> (w_files w)))
      else
        let w := set_pa_size w PA_SIZE in
        if negb (k_mmap k filename) then
          Ret (None, ff,
               set_files w (<[filename := mkAreaFileEntry (st PA_SIZE) zero_area]> (w_files w)))
        else
          Ret (Some filename, ff,
               set_files w (<[filename := mkAreaFileEntry (st PA_SIZE)
                                (new_prop_area PROP_AREA_MAGIC PROP_AREA_VERSION)]> (w_files w)))
    end
  end.

(** [map_fd_rw] of an open file. *)
Definition map_fd_rw (w : world) (filename : cstr) (f : area_file) : option cstr * world :=
  let st := af_stat f in
  if negb (st_uid st =? 0)%Z || negb (st_gid st =? 0)%Z ||
     negb (Z.land (st_mode st) (Z.lor S_IWGRP S_IWOTH) =? 0)%Z ||
     (st_size st <? sizeof_prop_area)%Z
  then (None, w)
  else
    let w := set_pa_size w (st_size st) in
    if negb (k_mmap k filename) then (None, w)
    else
      let pa := af_area f in
      if negb (magic pa =? PROP_AREA_MAGIC)%Z || negb (version pa =? PROP_AREA_VERSION)%Z
      then (None, w) else (Some filename, w).

Definition map_prop_area (w : world) (filename : cstr) : option cstr * world :=
  match w_files w !! filename with
  | Some f => if k_open k filename then map_fd_rw w filename f else (None, w)
  | None => (None, w)
  end.

(** * [ContextNode] *)

Record ContextNode := mkContextNode {
  cn_lock : bool;
  cn_context : cstr;
  cn_pa : option cstr;
  cn_no_access : bool;
  cn_filename : cstr
}.

Definition new_ContextNode (context filename : cstr) : ContextNode :=
  mkContextNode false context None false filename.

Definition set_pa (n : ContextNode) (pa : option cstr) : ContextNode :=
  mkContextNode (cn_lock n) (cn_context n) pa (cn_no_access n) (cn_filename n).
Definition set_no_access (n : ContextNode) (b : bool) : ContextNode :=
  mkContextNode (cn_lock n) (cn_context n) (cn_pa n) b (cn_filename n).

(** [lock_.lock()] by the only thread: it would wait forever on itself. *)
Definition cn_acquire (n : ContextNode) : cres ContextNode :=
  if cn_lock n then Fault
  else Ret (mkContextNode true (cn_context n) (cn_pa n) (cn_no_access n) (cn_filename n)).
Definition cn_release (n : ContextNode) : ContextNode :=
  mkContextNode false (cn_context n) (cn_pa n) (cn_no_access n) (cn_filename n).

Definition PROP_FILENAME_MAX : Z := 1024.

(** [async_safe_format_buffer(filename, sizeof(filename), "%s/%s", dir, base)]:
    [None] when the result does not fit. *)
Definition format_path (dir base : cstr) : option cstr :=
  let s := dir ++ cs "/" ++ base in
  if (Z.of_nat (length s) >=? PROP_FILENAME_MAX)%Z then None else Some s.

Definition cn_Open (n : ContextNode) (w : world) (access_rw : bool) (ff : option bool)
    : cres (bool * ContextNode * option bool * world) :=
  let! n := cn_acquire n in
  match cn_pa n with
  | Some _ => Ret (true, cn_release n, ff, w)
  | None =>
    match format_path (cn_filename n) (cn_context n) with
    | None => Ret (false, cn_release n, ff, w)
    | Some filename =>
      let! (pa, ff, w) :=
        if access_rw then map_prop_area_rw w filename (Some (cn_context n)) ff
        else let '(pa, w) := map_prop_area w filename in Ret (pa, ff, w) in
      let n := cn_release (set_pa n pa) in
      Ret (bool_decide (is_Some pa), n, ff, w)
    end
  end.

Definition cn_CheckAccess (n : ContextNode) : bool :=
  match format_path (cn_filename n) (cn_context n) with
  | None => false
  | Some filename => k_access k filename
  end.

Definition cn_CheckAccessAndOpen (n : ContextNode) (w : world)
    : cres (bool * ContextNode * world) :=
  let! (n, w) :=
    if negb (bool_decide (is_Some (cn_pa n))) && negb (cn_no_access n) then
      if negb (cn_CheckAccess n) then Ret (set_no_access n true, w)
      else
        let! (ok, n, _, w) := cn_Open n w false None in
        Ret (if ok then n else set_no_access n true, w)
    else Ret (n, w) in
  Ret (bool_decide (is_Some (cn_pa n)), n, w).

Definition cn_Unmap (n : ContextNode) : ContextNode := set_pa n None.

Definition cn_ResetAccess (n : ContextNode) : ContextNode :=
  if negb (cn_CheckAccess n) then set_no_access (cn_Unmap n) true
  else set_no_access n false.

(** [foreach] of the area a node has mapped; a record is named by its file
    and offset. *)
Definition area_foreach {C} (w : world) (p : cstr) (propfn : cstr * Z → C → C) (cookie : C)
    : cres C :=
  let! a := get_area w p in
  let! (_, c) := foreach (w_pa_data_size w) a (λ off, propfn (p, off)) cookie in Ret c.

(** [map_prop_area*] of "<dir>/properties_serial", the same in both
    implementations that have one. *)
Definition MapSerialPropertyArea (w : world) (filename_ : cstr) (access_rw : bool)
    (ff : option bool) : cres (option cstr * option bool * world) :=
  match format_path filename_ (cs "properties_serial") with
  | None => Ret (None, ff, w)
  | Some filename =>
    if access_rw then
      map_prop_area_rw w filename (Some (cs "u:object_r:properties_serial:s0")) ff
    else let '(pa, w) := map_prop_area w filename in Ret (pa, ff, w)
  end.
End mapping.

(** * The interface *)

(** [class Contexts]: an object state [S] and the virtual functions. *)
Class Contexts (k : kernel) (S : Type) := {
  Initialize : world → bool → cstr → option bool → cres (bool * S * option bool * world);
  GetPropAreaForName : S → world → cstr → cres (option cstr * S * world);
  GetSerialPropArea : S → option cstr;
  ForEach : ∀ {C : Type}, S → world → (cstr * Z → C → C) → C → cres (C * S * world);
  ResetAccess : S → S;
  FreeAndUnmap : S → S
}.

(** What a client may rely on.  [ctx_ok s w]: the areas the object has mapped
    are files of [w] (and its locks are free). *)
Class ContextsLaws (k : kernel) (S : Type) `{Contexts k S} := {
  ctx_ok : S → world → Prop;
  ctx_ok_files : ∀ s w w', dom (w_files w) ⊆ dom (w_files w') → ctx_ok s w → ctx_ok s w';
  ctx_serial : ∀ s w p, ctx_ok s w → GetSerialPropArea (k := k) s = Some p → is_Some (w_files w !! p);
  ctx_get : ∀ s w name, ctx_ok s w →
    ∃ r s' w', GetPropAreaForName (k := k) s w name = Ret (r, s', w') ∧ ctx_ok s' w' ∧
      w_files w' = w_files w ∧ GetSerialPropArea (k := k) s' = GetSerialPropArea (k := k) s ∧
      (w_pa_data_size w' = w_pa_data_size w ∨
       ∃ f, f ∈ map_to_list (w_files w) ∧ w_pa_data_size w' = st_size (af_stat f.2) - sizeof_prop_area)%Z ∧
      ∀ p, r = Some p → is_Some (w_files w !! p) ∧
        ∀ w'', GetPropAreaForName (k := k) s' w'' name = Ret (Some p, s', w'')
}.

(** * [ContextsPreSplit] *)

Record ContextsPreSplit := mkPreSplit { pre_split_prop_area : option cstr }.

#[export] Instance PreSplit_Contexts (k : kernel) : Contexts k ContextsPreSplit := {
  Initialize w _ filename ff :=
    let '(pa, w) := map_prop_area k w filename in
    Ret (bool_decide (is_Some pa), mkPreSplit pa, ff, w);
  GetPropAreaForName s w _ := Ret (pre_split_prop_area s, s, w);
  GetSerialPropArea s := pre_split_prop_area s;
  ForEach C s w propfn cookie :=
    let! p := deref (pre_split_prop_area s) in
    let! c := area_foreach w p propfn cookie in Ret (c, s, w);
  ResetAccess s := s;
  FreeAndUnmap _ := mkPreSplit None
}.

(** * Facts *)

(** The statics after mapping a file of [w]. *)
Definition size_step (w w' : world) : Prop :=
  (w_pa_data_size w' = w_pa_data_size w ∨
   ∃ f, f ∈ map_to_list (w_files w) ∧ w_pa_data_size w' = st_size (af_stat f.2) - sizeof_prop_area)%Z.

Section facts.
Context (k : kernel).

Lemma map_prop_area_spec w filename pa w' :
  map_prop_area k w filename = (pa, w') →
  w_files w' = w_files w ∧ size_step w w' ∧
  ∀ p, pa = Some p → p = filename ∧ is_Some (w_files w !! p).
Proof.
  unfold map_prop_area, size_step.
  assert (Hnone : ∀ w', w_files w' = w_files w →
    (w_pa_data_size w' = w_pa_data_size w ∨ ∃ f, f ∈ map_to_list (w_files w) ∧
       w_pa_data_size w' = st_size (af_stat f.2) - sizeof_prop_area)%Z →
    (None, w') = (pa, w') → w_files w' = w_files w ∧
    (w_pa_data_size w' = w_pa_data_size w ∨ ∃ f, f ∈ map_to_list (w_files w) ∧
       w_pa_data_size w' = st_size (af_stat f.2) - sizeof_prop_area)%Z ∧
    ∀ p, pa = Some p → p = filename ∧ is_Some (w_files w !! p)) by (intros ? ? ? [= <-]; done).
  destruct (w_files w !! filename) as [f|] eqn:E; [|intros [= <- <-]; auto].
  destruct (k_open k filename); [|intros [= <- <-]; auto]. unfold map_fd_rw.
  destruct (_ || _); [intros [= <- <-]; auto|]. cbv zeta.
  assert (Hs : ∃ f', f' ∈ map_to_list (w_files w) ∧
     (st_size (af_stat f) - sizeof_prop_area = st_size (af_stat f'.2) - sizeof_prop_area)%Z).
  { exists (filename, f). split; [by apply elem_of_map_to_list|done]. }
  destruct (negb (k_mmap k filename)); [intros [= <- <-]; auto|].
  destruct (_ || _); intros [= <- <-]; [auto|]. split; [done|]. split; [auto|].
  intros p [= <-]. eauto.
Qed.

Lemma size_step_refl w : size_step w w.
Proof. by left. Qed.

(** A node at rest: unlocked, its mapping a file. *)
Definition node_ok (n : ContextNode) (w : world) : Prop :=
  cn_lock n = false ∧ ∀ p, cn_pa n = Some p → is_Some (w_files w !! p).

Lemma node_ok_files n w w' :
  dom (w_files w) ⊆ dom (w_files w') → node_ok n w → node_ok n w'.
Proof.
  intros Hd [Hl Hp]. split; [done|]. intros p Hn. apply elem_of_dom, Hd, elem_of_dom. auto.
Qed.

Lemma new_node_ok c f w : node_ok (new_ContextNode c f) w.
Proof. by split. Qed.

(** Opening for reading: the node is at rest again, the files are untouched,
    and a mapping, once made, is kept. *)
Lemma cn_Open_ro n w ff :
  node_ok n w →
  ∃ ok n' w', cn_Open k n w false ff = Ret (ok, n', ff, w') ∧ node_ok n' w' ∧
    w_files w' = w_files w ∧ size_step w w' ∧
    (ok = bool_decide (is_Some (cn_pa n'))) ∧ (∀ p, cn_pa n = Some p → n' = n ∧ w' = w) ∧
    cn_context n' = cn_context n ∧ cn_filename n' = cn_filename n ∧ cn_no_access n' = cn_no_access n.
Proof.
  intros [Hl Hp]. unfold cn_Open, cn_acquire. rewrite Hl. cbn [cbind cn_pa cn_filename cn_context].
  destruct (cn_pa n) as [p|] eqn:E.
  - eexists _, _, w. split; [reflexivity|]. assert (Hn : cn_release
      {| cn_lock := true; cn_context := cn_context n; cn_pa := Some p;
         cn_no_access := cn_no_access n; cn_filename := cn_filename n |} = n)
      by (destruct n; unfold cn_release; simpl in *; subst; done).
    rewrite Hn, E. split_and!; auto using size_step_refl. split; auto.
    intros p' Hp'. apply Hp. congruence.
  - destruct (format_path _ _) as [filename|].
    + destruct (map_prop_area k w filename) as [pa w'] eqn:Em. cbn [cbind].
      destruct (map_prop_area_spec _ _ _ _ Em) as (Hf & Hs & Hpa).
      eexists _, _, _. split; [reflexivity|]. split_and!; auto; try done.
      split; [done|]. simpl. intros p Hpp. rewrite Hf. by apply Hpa.
    + eexists _, _, w. split; [reflexivity|]. split_and!; auto using size_step_refl; done.
Qed.

(** A node that denied access is not tried again before [ResetAccess]. *)
Lemma cn_CheckAccessAndOpen_spec n w :
  node_ok n w →
  ∃ ok n' w', cn_CheckAccessAndOpen k n w = Ret (ok, n', w') ∧ node_ok n' w' ∧
    w_files w' = w_files w ∧ size_step w w' ∧ ok = bool_decide (is_Some (cn_pa n')) ∧
    (ok = false → cn_no_access n' = true) ∧
    (cn_pa n = None → cn_no_access n = true → ok = false ∧ n' = n ∧ w' = w).
Proof.
  intros Hn. unfold cn_CheckAccessAndOpen.
  destruct (cn_pa n) as [p|] eqn:E; cbn [bool_decide negb andb].
  - rewrite bool_decide_true by eauto. cbn [negb andb cbind].
    eexists _, _, _. split; [reflexivity|]. rewrite E. rewrite bool_decide_true by eauto.
    split_and!; auto using size_step_refl; done.
  - rewrite bool_decide_false by (intros [? [=]]). cbn [negb andb].
    destruct (cn_no_access n) eqn:Ena; cbn [negb cbind].
    + eexists _, _, _. split; [reflexivity|]. rewrite E.
      rewrite bool_decide_false by (intros [? [=]]). split_and!; auto using size_step_refl.
    + destruct (cn_CheckAccess k n) eqn:Hca; cbn [negb cbind].
      * destruct (cn_Open_ro n w None Hn) as (ok & n' & w' & -> & Hn' & Hf & Hs & Hok & _ & _).
        cbn [cbind]. destruct ok.
        -- eexists _, _, _. split; [reflexivity|]. rewrite <- Hok. split_and!; auto; done.
        -- eexists _, _, _. split; [reflexivity|]. cbn [set_no_access cn_pa]. rewrite <- Hok.
           split_and!; auto; done.
      * eexists _, _, _. split; [reflexivity|]. cbn [set_no_access cn_pa]. rewrite E.
        rewrite bool_decide_false by (intros [? [=]]). split_and!; auto using size_step_refl; done.
Qed.

Lemma cn_ResetAccess_ok n w : node_ok n w → node_ok (cn_ResetAccess k n) w.
Proof. intros [Hl Hp]. unfold cn_ResetAccess. destruct (negb _); by split. Qed.
End facts.

#[export] Instance PreSplit_Laws (k : kernel) : ContextsLaws k ContextsPreSplit.
Proof.
  refine {| ctx_ok := λ s w, ∀ p, pre_split_prop_area s = Some p → is_Some (w_files w !! p) |}.
  - intros s w w' Hd H p Hp. apply elem_of_dom, Hd, elem_of_dom. auto.
  - auto.
  - intros s w name H. eexists _, _, _. split; [reflexivity|]. split_and!; auto.
    intros p Hp. simpl in *. subst. split; [auto|]. simpl. congruence.
Defined.
