(* ===== verification/ContextsSplit.v ===== *)
(** contexts_split.{h,cpp}: contexts read from the text files of the SELinux
    policy: parsing of the lines, the list of prefixes ordered so that the first
    match is the longest one, and the [Contexts] implementation over them. *)

From Stdlib Require Import ZArith Lia Ascii.
From stdpp Require Import base numbers strings gmap list.
From S2P Require Import Prelude CString PropInfo PropArea PropertyInfoParser Contexts.

(** * Data *)

(** [struct PrefixNode]: the [context] pointer is named by the context, of
    which the list of contexts holds one node. *)
Record PrefixNode := mkPrefixNode { prefix_ : cstr; prefix_context : cstr }.

#[export] Instance PrefixNode_eq_dec : EqDecision PrefixNode.
Proof. solve_decision. Defined.

Record ContextsSplit := mkContextsSplit {
  prefixes_ : list PrefixNode;
  contexts_ : list ContextNode;
  serial_prop_area_ : option cstr;
  filename_ : cstr
}.

Definition with_lists (s : ContextsSplit) (ps : list PrefixNode) (cs : list ContextNode)
    : ContextsSplit := mkContextsSplit ps cs (serial_prop_area_ s) (filename_ s).

(** * The lists *)

(** [l->prefix[0] == '*'] *)
Definition is_star (p : cstr) : bool :=
  match p with c :: _ => bool_decide (c = "*"%char) | [] => false end.

Fixpoint ListAddAfterLen (l : list PrefixNode) (n : PrefixNode) : list PrefixNode :=
  match l with
  | [] => [n]
  | m :: rest =>
    if (length (prefix_ m) <? length (prefix_ n))%nat || is_star (prefix_ m) then n :: m :: rest
    else m :: ListAddAfterLen rest n
  end.

Fixpoint ListFind {A} (l : list A) (func : A → bool) : option A :=
  match l with [] => None | x :: l => if func x then Some x else ListFind l func end.

(** * Parsing *)

Fixpoint skip_space (s : cstr) : cstr :=
  match s with c :: s' => if isspace c then skip_space s' else s | [] => [] end.

Fixpoint span_token (s : cstr) : cstr * cstr :=
  match s with
  | c :: s' => if isspace c then ([], s) else let '(t, r) := span_token s' in (c :: t, r)
  | [] => ([], [])
  end.

(** [read_spec_entry]: the entry ([None] for a null pointer) and the rest. *)
Definition read_spec_entry (ptr : cstr) : option cstr * cstr :=
  let '(tok, rest) := span_token (skip_space ptr) in
  (match tok with [] => None | _ => Some tok end, rest).

(** The loop of [read_spec_entries]: [args] output pointers are left for
    [va_arg], whose use past the last argument C does not define. *)
Fixpoint spec_loop (fuel : nat) (args : nat) (items num_args : nat) (buf_p : cstr)
    (out : list (option cstr)) : cres (nat * list (option cstr)) :=
  match fuel with
  | O => OutOfFuel
  | S fuel =>
    if (items <? num_args)%nat then
      match args with
      | O => Fault
      | S args =>
        match buf_p with
        | [] => Ret (items, out)
        | _ =>
          let '(entry, buf_p) := read_spec_entry buf_p in
          spec_loop fuel args
            (match entry with Some _ => S items | None => items end) num_args buf_p
            (out ++ [entry])
        end
      end
    else Ret (items, out)
  end.

(** [read_spec_entries(line_buf, num_args, ...)]: the number of items and what
    was stored through the output pointers, in order. *)
Definition read_spec_entries (line_buf : cstr) (num_args : nat)
    : cres (nat * list (option cstr)) :=
  let! lst := deref (last line_buf) in
  let line := if bool_decide (lst = chr 10) then removelast line_buf else line_buf in
  match skip_space line with
  | [] => Ret (0, [])
  | (c :: _) as buf_p =>
    if bool_decide (c = "#"%char) then Ret (0, [])
    else spec_loop (S (S num_args)) num_args 0 num_args buf_p []
  end.

(** [getline]: the lines of a file, each with its newline. *)
Fixpoint getlines (f : list ascii) : list (list ascii) :=
  match f with
  | [] => []
  | c :: f =>
    if decide (c = chr 10) then [c] :: getlines f
    else match getlines f with
         | [] => [[c]]
         | l :: ls => (c :: l) :: ls
         end
  end.

(** * Reading the context files *)

Definition add_entry (s : ContextsSplit) (prop_prefix context : cstr) : ContextsSplit :=
  match ListFind (contexts_ s) (λ l, streq (cn_context l) context) with
  | Some _ => with_lists s (ListAddAfterLen (prefixes_ s) (mkPrefixNode prop_prefix context))
                (contexts_ s)
  | None =>
    with_lists s (ListAddAfterLen (prefixes_ s) (mkPrefixNode prop_prefix context))
      (new_ContextNode context (filename_ s) :: contexts_ s)
  end.

(** One iteration of the loop over the lines. *)
Definition process_line (s : ContextsSplit) (buffer : list ascii) : cres ContextsSplit :=
  let! (items, out) := read_spec_entries (c_str_of buffer) 2 in
  match items with
  | 0 | 1 => Ret s
  | _ =>
    match out with
    | Some prop_prefix :: Some context :: _ =>
      if strneq prop_prefix (cs "ctl.") 4 then Ret s
      else Ret (add_entry s prop_prefix context)
    | _ => Fault
    end
  end%nat.

Fixpoint process_lines (s : ContextsSplit) (ls : list (list ascii)) : cres ContextsSplit :=
  match ls with
  | [] => Ret s
  | l :: ls => let! s := process_line s l in process_lines s ls
  end.

Section split.
Context (k : kernel).

Definition InitializePropertiesFromFile (s : ContextsSplit) (filename : cstr)
    : cres (bool * ContextsSplit) :=
  match k_text k filename with
  | None => Ret (false, s)
  | Some f => let! s := process_lines s (getlines f) in Ret (true, s)
  end.

Definition InitializeProperties (s : ContextsSplit) : cres (bool * ContextsSplit) :=
  let! (ok, s) := InitializePropertiesFromFile s (cs "/property_contexts") in
  if ok then Ret (true, s)
  else if k_access k (cs "/system/etc/selinux/plat_property_contexts") then
    let! (ok, s) :=
      InitializePropertiesFromFile s (cs "/system/etc/selinux/plat_property_contexts") in
    if negb ok then Ret (false, s)
    else
      let! (_, s) :=
        if k_access k (cs "/vendor/etc/selinux/vendor_property_contexts") then
          InitializePropertiesFromFile s (cs "/vendor/etc/selinux/vendor_property_contexts")
        else InitializePropertiesFromFile s (cs "/vendor/etc/selinux/nonplat_property_contexts")
      in Ret (true, s)
  else
    let! (ok, s) := InitializePropertiesFromFile s (cs "/plat_property_contexts") in
    if negb ok then Ret (false, s)
    else
      let! (_, s) :=
        if k_access k (cs "/vendor_property_contexts") then
          InitializePropertiesFromFile s (cs "/vendor_property_contexts")
        else InitializePropertiesFromFile s (cs "/nonplat_property_contexts")
      in Ret (true, s).

(** Opening every node for writing: the loop of [Initialize]. *)
Fixpoint open_all (ns : list ContextNode) (w : world) (ff : option bool) (open_failed : bool)
    : cres (list ContextNode * option bool * bool * world) :=
  match ns with
  | [] => Ret ([], ff, open_failed, w)
  | n :: ns =>
    let! (ok, n, ff, w) := cn_Open k n w true ff in
    let! (ns, ff, open_failed, w) := open_all ns w ff (open_failed || negb ok) in
    Ret (n :: ns, ff, open_failed, w)
  end.

Definition free_and_unmap (s : ContextsSplit) : ContextsSplit :=
  mkContextsSplit [] [] None (filename_ s).

Definition initialize (w : world) (writable : bool) (filename : cstr) (ff : option bool)
    : cres (bool * ContextsSplit * option bool * world) :=
  let! (ok, s) := InitializeProperties (mkContextsSplit [] [] None filename) in
  if negb ok then Ret (false, s, ff, w)
  else if writable then
    (* mkdir(filename_, ...): its result is not used *)
    let ff := (λ _, false) <$> ff in
    let! (cs, ff, open_failed, w) := open_all (contexts_ s) w ff false in
    let s := with_lists s (prefixes_ s) cs in
    if open_failed then Ret (false, free_and_unmap s, ff, w)
    else
      let! (pa, ff, w) := MapSerialPropertyArea k w filename true ff in
      match pa with
      | None => Ret (false, free_and_unmap s, ff, w)
      | Some _ => Ret (true, mkContextsSplit (prefixes_ s) (contexts_ s) pa filename, ff, w)
      end
  else
    let! (pa, _, w) := MapSerialPropertyArea k w filename false None in
    match pa with
    | None => Ret (false, free_and_unmap s, ff, w)
    | Some _ => Ret (true, mkContextsSplit (prefixes_ s) (contexts_ s) pa filename, ff, w)
    end.

(** The test of [GetPropAreaForName]. *)
Definition prefix_matches (name : cstr) (l : PrefixNode) : bool :=
  is_star (prefix_ l) || strneq (prefix_ l) name (length (prefix_ l)).

(** The node with a context, updated in place. *)
Fixpoint with_node (ns : list ContextNode) (context : cstr)
    (f : ContextNode → cres (ContextNode * world)) (w : world)
    : cres (option cstr * list ContextNode * world) :=
  match ns with
  | [] => Fault
  | n :: ns =>
    if decide (cn_context n = context) then
      let! (n, w) := f n in Ret (cn_pa n, n :: ns, w)
    else let! (pa, ns, w) := with_node ns context f w in Ret (pa, n :: ns, w)
  end.

Definition get_prop_area (s : ContextsSplit) (w : world) (name : cstr)
    : cres (option cstr * ContextsSplit * world) :=
  match ListFind (prefixes_ s) (prefix_matches name) with
  | None => Ret (None, s, w)
  | Some entry =>
    let! (pa, cs, w) := with_node (contexts_ s) (prefix_context entry) (λ cnode,
      match cn_pa cnode with
      | Some _ => Ret (cnode, w)
      | None => let! (_, cnode, _, w) := cn_Open k cnode w false None in Ret (cnode, w)
      end) w in
    Ret (pa, with_lists s (prefixes_ s) cs, w)
  end.

Fixpoint foreach_nodes {C} (ns : list ContextNode) (w : world) (propfn : cstr * Z → C → C)
    (cookie : C) : cres (C * list ContextNode * world) :=
  match ns with
  | [] => Ret (cookie, [], w)
  | n :: ns =>
    let! (ok, n, w) := cn_CheckAccessAndOpen k n w in
    let! cookie :=
      if ok then let! p := deref (cn_pa n) in area_foreach w p propfn cookie
      else Ret cookie in
    let! (cookie, ns, w) := foreach_nodes ns w propfn cookie in
    Ret (cookie, n :: ns, w)
  end.

#[export] Instance Split_Contexts : Contexts k ContextsSplit := {
  Initialize := initialize;
  GetPropAreaForName := get_prop_area;
  GetSerialPropArea := serial_prop_area_;
  ForEach C s w propfn cookie :=
    let! (cookie, cs, w) := foreach_nodes (contexts_ s) w propfn cookie in
    Ret (cookie, with_lists s (prefixes_ s) cs, w);
  ResetAccess s := with_lists s (prefixes_ s) (cn_ResetAccess k <$> contexts_ s);
  FreeAndUnmap := free_and_unmap
}.
End split.

(** * The order of the prefixes *)

(** "*" is the only prefix with a star; an entry of the file is not empty. *)
Definition good_prefix (e : PrefixNode) : Prop :=
  prefix_ e ≠ [] ∧ (is_star (prefix_ e) = true → prefix_ e = cs "*").

Definition rank (e : PrefixNode) : nat := if is_star (prefix_ e) then 0 else length (prefix_ e).

Definition ranked (l : list PrefixNode) : Prop :=
  ∀ i j a b, l !! i = Some a → l !! j = Some b → (i < j)%nat → (rank b ≤ rank a)%nat.

Lemma ranked_cons a l : ranked (a :: l) ↔ (∀ b, b ∈ l → (rank b ≤ rank a)%nat) ∧ ranked l.
Proof.
  split.
  - intros H. split.
    + intros b (j & Hj)%list_elem_of_lookup_1. apply (H 0%nat (S j) a b); [done|done|lia].
    + intros i j x y Hx Hy Hij. apply (H (S i) (S j)); [done|done|lia].
  - intros [Ha Hl] [|i] [|j] x y Hx Hy Hij; simpl in *; simplify_eq; try lia.
    + apply Ha. by eapply list_elem_of_lookup_2.
    + apply (Hl i j); [done|done|lia].
Qed.

Lemma ListAddAfterLen_perm l n : ListAddAfterLen l n ≡ₚ n :: l.
Proof.
  induction l as [|m l IH]; simpl; [done|]. destruct (_ || _); [done|].
  rewrite IH. constructor.
Qed.

Lemma ListAddAfterLen_ranked l n :
  ranked l → Forall good_prefix (n :: l) → ranked (ListAddAfterLen l n).
Proof.
  induction l as [|m l IH]; intros Hr Hg; simpl.
  { apply ranked_cons. split; [set_solver|done]. }
  apply ranked_cons in Hr as [Hm Hr]. apply Forall_cons in Hg as [Hn Hg].
  apply Forall_cons in Hg as [Hgm Hg].
  destruct (_ || _) eqn:E.
  - apply ranked_cons. split; [|by apply ranked_cons].
    assert (Hmn : (rank m ≤ rank n)%nat).
    { unfold rank in *. apply orb_true_iff in E as [E%Nat.ltb_lt|E]; [|rewrite E; apply Nat.le_0_l].
      destruct (is_star (prefix_ n)) eqn:Es, (is_star (prefix_ m)) eqn:Em; try lia.
      destruct Hn as [_ Hn]. rewrite (Hn Es) in E. simpl in E. lia. }
    intros b. rewrite elem_of_cons. intros [->|Hb]; [done|]. specialize (Hm b Hb). lia.
  - apply orb_false_iff in E as [E%Nat.ltb_ge Em].
    apply ranked_cons. split; [|apply IH; [done|by constructor]].
    intros b. rewrite (ListAddAfterLen_perm l n), elem_of_cons. intros [->|Hb]; [|auto].
    unfold rank. rewrite Em. destruct (is_star (prefix_ n)); cbn; lia.
Qed.

Lemma ListFind_Some {A} (l : list A) f x :
  ListFind l f = Some x →
  ∃ i, l !! i = Some x ∧ f x = true ∧ ∀ j y, (j < i)%nat → l !! j = Some y → f y = false.
Proof.
  induction l as [|y l IH]; simpl; [done|]. destruct (f y) eqn:E.
  - intros [= <-]. exists 0%nat. split_and!; [done|done|lia].
  - intros (i & H1 & H2 & H3)%IH. exists (S i). split_and!; [done|done|].
    intros [|j] z Hj Hz; simpl in Hz; [by simplify_eq|]. apply (H3 j); [lia|done].
Qed.

Lemma ListFind_None {A} (l : list A) f : ListFind l f = None → ∀ x, x ∈ l → f x = false.
Proof.
  induction l as [|y l IH]; simpl; [set_solver|]. destruct (f y) eqn:E; [done|].
  intros H x. rewrite elem_of_cons. intros [->|?]; auto.
Qed.

Lemma prefixes_ranked es l :
  ranked l → Forall good_prefix (l ++ es) →
  ranked (foldl ListAddAfterLen l es) ∧ foldl ListAddAfterLen l es ≡ₚ l ++ es.
Proof.
  revert l. induction es as [|e es IH]; intros l Hr Hg; simpl.
  { by rewrite app_nil_r. }
  assert (Hp : ListAddAfterLen l e ++ es ≡ₚ l ++ e :: es).
  { rewrite ListAddAfterLen_perm. simpl. by rewrite Permutation_middle. }
  destruct (IH (ListAddAfterLen l e)) as [H1 H2].
  - apply ListAddAfterLen_ranked; [done|]. rewrite Forall_app, Forall_cons in Hg.
    apply Forall_cons. tauto.
  - by rewrite Hp.
  - split; [done|]. by rewrite H2.
Qed.

(** C13. Whatever the order in which the policy files list the prefixes, the
    first node of the list that matches a name is one with the longest matching
    prefix, and "*" matches only when no other prefix does. *)
Theorem first_match_is_longest es name :
  Forall good_prefix es →
  match ListFind (foldl ListAddAfterLen [] es) (prefix_matches name) with
  | Some e => e ∈ es ∧ prefix_matches name e = true ∧
      ∀ e', e' ∈ es → prefix_matches name e' = true → (rank e' ≤ rank e)%nat
  | None => ∀ e, e ∈ es → prefix_matches name e = false
  end.
Proof.
  intros Hg. destruct (prefixes_ranked es []) as [Hr Hp]; [intros i j a b Ha; done|done|].
  simpl in Hp. destruct (ListFind _ _) as [e|] eqn:E.
  - apply ListFind_Some in E as (i & Hi & Hm & Hlt). split_and!; [|done|].
    + rewrite <- Hp. by eapply list_elem_of_lookup_2.
    + intros e'. rewrite <- Hp. intros (j & Hj)%list_elem_of_lookup_1 Hm'.
      destruct (decide (j < i)%nat) as [Hji|Hji].
      * rewrite (Hlt _ _ Hji Hj) in Hm'. done.
      * destruct (decide (i = j)) as [->|]; [by simplify_eq|]. apply (Hr i j); [done|done|lia].
  - intros e. rewrite <- Hp. by apply ListFind_None.
Qed.

Lemma first_match_is_longest_witness :
  Forall good_prefix (mkPrefixNode (cs "ro.") (cs "c1") :: mkPrefixNode (cs "*") (cs "c0") ::
    mkPrefixNode (cs "ro.boot") (cs "c2") :: []) ∧
  ListFind (foldl ListAddAfterLen []
    [mkPrefixNode (cs "ro.") (cs "c1"); mkPrefixNode (cs "*") (cs "c0");
     mkPrefixNode (cs "ro.boot") (cs "c2")]) (prefix_matches (cs "ro.bootmode")) =
    Some (mkPrefixNode (cs "ro.boot") (cs "c2")) ∧
  (rank (mkPrefixNode (cs "ro.") (cs "c1")) ≤ rank (mkPrefixNode (cs "ro.boot") (cs "c2")))%nat.
Proof.
  assert (Hg : Forall good_prefix [mkPrefixNode (cs "ro.") (cs "c1");
    mkPrefixNode (cs "*") (cs "c0"); mkPrefixNode (cs "ro.boot") (cs "c2")])
    by (repeat constructor; done).
  split; [exact Hg|]. split; [vm_compute; reflexivity|].
  refine (proj2 (proj2 (first_match_is_longest _ (cs "ro.bootmode") Hg)) _ _ _);
    [left|vm_compute; reflexivity].
Defined.

(** A prefix that starts with a star but is longer hides shorter prefixes: the
    list puts it before them and the lookup takes it for "*". *)
Lemma star_prefix_hides :
  ListFind (foldl ListAddAfterLen []
    [mkPrefixNode (cs "ro.") (cs "c1"); mkPrefixNode (cs "*abc") (cs "c0")])
    (prefix_matches (cs "ro.serialno")) = Some (mkPrefixNode (cs "*abc") (cs "c0")).
Proof. vm_compute. reflexivity. Qed.

(** * The parser *)

Definition all_space (s : cstr) : Prop := Forall (λ c, isspace c = true) s.
Definition token (s : cstr) : Prop := s ≠ [] ∧ Forall (λ c, isspace c = false) s.
(** The rest of a line after a token. *)
Definition ends_token (s : cstr) : Prop := match s with [] => True | c :: _ => isspace c = true end.

Lemma skip_space_app s r : all_space s → skip_space (s ++ r) = skip_space r.
Proof. intros H. induction H as [|c s Hc H IH]; simpl; [done|]. by rewrite Hc. Qed.

Lemma skip_space_token t r : token t → skip_space (t ++ r) = t ++ r.
Proof. intros [Hne Ht]. destruct Ht as [|c s Hc _]; [done|]. simpl. by rewrite Hc. Qed.

Lemma span_token_app t r : token t → ends_token r → span_token (t ++ r) = (t, r).
Proof.
  intros [_ Ht] Hr. induction Ht as [|c s Hc H IH]; simpl.
  - destruct r as [|c r]; simpl; [done|]. simpl in Hr. by rewrite Hr.
  - by rewrite Hc, IH.
Qed.

Lemma read_spec_entry_token s t r :
  all_space s → token t → ends_token r → read_spec_entry (s ++ t ++ r) = (Some t, r).
Proof.
  intros Hs Ht Hr. unfold read_spec_entry.
  rewrite skip_space_app, skip_space_token, span_token_app by done.
  destruct t; [|done]. by destruct Ht.
Qed.

Lemma removelast_snoc {A} (l : list A) x : removelast (l ++ [x]) = l.
Proof. apply removelast_last. Qed.

Lemma spec_loop_token fuel args items num s t r out :
  all_space s → token t → ends_token r → (items < num)%nat →
  spec_loop (S fuel) (S args) items num (s ++ t ++ r) out =
    spec_loop fuel args (S items) num r (out ++ [Some t]).
Proof.
  intros Hs Ht Hr Hi. cbn [spec_loop]. rewrite (proj2 (Nat.ltb_lt _ _)) by done.
  rewrite (read_spec_entry_token s t r) by done.
  destruct (s ++ t ++ r) eqn:E; [|done]. destruct Ht as [Hne _]. by destruct s, t.
Qed.

(** A line "<prefix> <context> ..." of a context file, however it is spaced
    and whatever follows, yields exactly its first two words. *)
Theorem read_spec_entries_two s1 t1 s2 t2 r :
  all_space s1 → token t1 → head t1 ≠ Some "#"%char → all_space s2 → s2 ≠ [] → token t2 →
  ends_token r →
  read_spec_entries (s1 ++ t1 ++ s2 ++ t2 ++ r ++ [chr 10]) 2 = Ret (2, [Some t1; Some t2]).
Proof.
  intros Hs1 Ht1 Hh Hs2 Hne Ht2 Hr. unfold read_spec_entries.
  replace (s1 ++ t1 ++ s2 ++ t2 ++ r ++ [chr 10]) with ((s1 ++ t1 ++ s2 ++ t2 ++ r) ++ [chr 10])
    by (by rewrite <- !app_assoc).
  rewrite last_snoc. cbn [deref cbind]. rewrite bool_decide_true by done.
  rewrite removelast_snoc, skip_space_app, skip_space_token by done.
  assert (He2 : ends_token (s2 ++ t2 ++ r)) by (destruct Hs2; [done|simpl; auto]).
  pose proof Ht1 as Htok. destruct Ht1 as [Hne1 Ht1]. destruct Ht1 as [|c t1 Hc Ht1]; [done|].
  cbn [app]. rewrite bool_decide_false by (intros ->; by apply Hh).
  etrans; [apply (spec_loop_token 3 1 0 2 [] (c :: t1) (s2 ++ t2 ++ r)); [constructor|done|done|lia]|].
  rewrite (spec_loop_token 2 0 1 2) by (done || lia). done.
Qed.

Lemma read_spec_entries_two_witness :
  read_spec_entries (cs "  net.  u:object_r:net_radio_prop:s0 #x" ++ [chr 10]) 2 =
    Ret (2, [Some (cs "net."); Some (cs "u:object_r:net_radio_prop:s0")]).
Proof.
  refine (read_spec_entries_two (cs "  ") (cs "net.") (cs "  ")
    (cs "u:object_r:net_radio_prop:s0") (cs " #x") _ _ _ _ _ _ _);
    first [done | by repeat constructor].
Defined.

(** A line with one word and trailing space makes the loop ask for a third
    output pointer. *)
Lemma read_spec_entries_one_word : read_spec_entries (cs "net. " ++ [chr 10]) 2 = Fault.
Proof. vm_compute. reflexivity. Qed.

(** * The interface *)

Definition split_ok (s : ContextsSplit) (w : world) : Prop :=
  (∀ p, serial_prop_area_ s = Some p → is_Some (w_files w !! p)) ∧
  Forall (λ n, node_ok n w) (contexts_ s) ∧
  Forall (λ e, ∃ n, n ∈ contexts_ s ∧ cn_context n = prefix_context e) (prefixes_ s).

Section laws.
Context (k : kernel).

Definition open_if_unmapped (w : world) (cnode : ContextNode) : cres (ContextNode * world) :=
  match cn_pa cnode with
  | Some _ => Ret (cnode, w)
  | None => let! (_, cnode, _, w) := cn_Open k cnode w false None in Ret (cnode, w)
  end.

Lemma open_if_unmapped_spec w n :
  node_ok n w → ∃ n' w', open_if_unmapped w n = Ret (n', w') ∧ node_ok n' w' ∧
    w_files w' = w_files w ∧ size_step w w' ∧ cn_context n' = cn_context n.
Proof.
  intros Hn. unfold open_if_unmapped. destruct (cn_pa n) eqn:E.
  - eexists _, _. split; [reflexivity|]. auto using size_step_refl.
  - destruct (cn_Open_ro k n w None Hn) as (ok & n' & w' & -> & H1 & H2 & H3 & _ & _ & H4 & _).
    cbn [cbind]. eexists _, _. split; [reflexivity|]. auto.
Qed.

Lemma with_node_spec ns c w :
  Forall (λ n, node_ok n w) ns → (∃ n, n ∈ ns ∧ cn_context n = c) →
  ∃ pa ns' w', with_node ns c (open_if_unmapped w) w = Ret (pa, ns', w') ∧
    Forall (λ n, node_ok n w') ns' ∧ w_files w' = w_files w ∧ size_step w w' ∧
    cn_context <$> ns' = cn_context <$> ns ∧
    (∀ p, pa = Some p → is_Some (w_files w !! p) ∧
       ∀ w'', with_node ns' c (open_if_unmapped w'') w'' = Ret (Some p, ns', w'')).
Proof.
  intros Hok. induction Hok as [|n ns Hn Hok IH]; intros (m & Hm & Hc); [set_solver|].
  cbn [with_node]. destruct (decide (cn_context n = c)) as [<-|Hne].
  - destruct (open_if_unmapped_spec w n Hn) as (n' & w' & -> & Hn' & Hf & Hs & Hcn).
    cbn [cbind]. eexists _, _, _. split; [reflexivity|]. split_and!; auto.
    + apply Forall_cons. split; [done|]. eapply Forall_impl; [exact Hok|].
      intros x Hx. eapply node_ok_files; [|exact Hx]. by rewrite Hf.
    + by rewrite !fmap_cons, Hcn.
    + intros p Hp. split; [rewrite <- Hf; by apply Hn'|]. intros w''. cbn [with_node].
      rewrite decide_True by done. unfold open_if_unmapped. rewrite Hp. cbn [cbind].
      by rewrite Hp.
  - destruct IH as (pa & ns' & w' & -> & Hok' & Hf & Hs & Hcs & Hp).
    { exists m. split; [|done]. set_unfold. destruct Hm; [subst; done|done]. }
    cbn [cbind]. eexists _, _, _. split; [reflexivity|]. split_and!; auto.
    + apply Forall_cons. split; [|done]. eapply node_ok_files; [|exact Hn]. by rewrite Hf.
    + by rewrite !fmap_cons, Hcs.
    + intros p ->. destruct (Hp p eq_refl) as [H1 H2]. split; [done|]. intros w''.
      cbn [with_node]. rewrite decide_False by done. by rewrite H2.
Qed.

#[export] Instance Split_Laws : ContextsLaws k ContextsSplit.
Proof.
  refine {| ctx_ok := split_ok |}.
  - intros s w w' Hd (H1 & H2 & H3). split_and!; [|by eapply Forall_impl; eauto using node_ok_files|done].
    intros p Hp. apply elem_of_dom, Hd, elem_of_dom. auto.
  - intros s w p H. apply H.
  - intros s w name (H1 & H2 & H3). simpl. unfold get_prop_area.
    destruct (ListFind (prefixes_ s) (prefix_matches name)) as [e|] eqn:E.
    + assert (He : ∃ n, n ∈ contexts_ s ∧ cn_context n = prefix_context e).
      { apply ListFind_Some in E as (i & Hi & _). rewrite Forall_forall in H3. apply H3.
        by eapply list_elem_of_lookup_2. }
      destruct (with_node_spec (contexts_ s) (prefix_context e) w H2 He)
        as (pa & ns' & w' & Hrun & Hok & Hf & Hs & Hcs & Hp).
      unfold open_if_unmapped in Hrun at 1. rewrite Hrun. cbn [cbind].
      eexists _, _, _. split; [reflexivity|]. split_and!; auto.
      * split_and!; cbn [with_lists contexts_ prefixes_ serial_prop_area_]; [by rewrite Hf|done|].
        rewrite Forall_forall in H3 |- *. intros e' He'. destruct (H3 e' He') as (n & Hn & Hc).
        assert (Hin : prefix_context e' ∈ cn_context <$> ns').
        { rewrite Hcs, <- Hc. by apply list_elem_of_fmap_2. }
        apply list_elem_of_fmap in Hin as (n' & -> & Hn'). eauto.
      * intros p ->. destruct (Hp p eq_refl) as [Hx Hy]. split; [done|]. intros w''.
        cbn [with_lists prefixes_ contexts_]. rewrite E.
        specialize (Hy w''). unfold open_if_unmapped in Hy at 1. by rewrite Hy.
    + eexists _, _, _. split; [reflexivity|]. split_and!; auto using size_step_refl; done.
Defined.
End laws.
