(* ===== verification/ContextsSerialized.v ===== *)
(** contexts_serialized.{h,cpp}: contexts found through the serialized trie of
    [PropertyInfoParser], one node for each context of the file. *)

From Stdlib Require Import ZArith Lia Ascii.
From stdpp Require Import base numbers strings gmap list.
From S2P Require Import Prelude CString PropInfo PropArea PropTrie PropertyInfoParser.
From S2P Require Import Contexts.

(** [context_nodes_] is an anonymous mapping of [num_context_nodes_] nodes. *)
Record ContextsSerialized := mkSerialized {
  property_info_area_file_ : PropertyInfoAreaFile;
  context_nodes_ : option (list ContextNode);
  num_context_nodes_ : Z;
  ser_serial_prop_area_ : option cstr;
  ser_filename_ : cstr
}.

Definition fresh_serialized : ContextsSerialized := mkSerialized empty_file None 0 None [].

Definition set_nodes (s : ContextsSerialized) (ns : list ContextNode) : ContextsSerialized :=
  mkSerialized (property_info_area_file_ s) (Some ns) (num_context_nodes_ s)
    (ser_serial_prop_area_ s) (ser_filename_ s).

Definition set_serial_area (s : ContextsSerialized) (pa : option cstr) : ContextsSerialized :=
  mkSerialized (property_info_area_file_ s) (context_nodes_ s) (num_context_nodes_ s) pa
    (ser_filename_ s).

Definition sizeof_ContextNode : Z := 40.

(** [num_contexts()] *)
Definition num_contexts (d : list ascii) : cres Z :=
  let! h := load_header d in array_at d (contexts_offset h) 0.

(** The loop that constructs the nodes, from index [i], [n] left. *)
Fixpoint make_nodes (n : nat) (i : Z) (d : list ascii) (filename : cstr)
    : cres (list ContextNode) :=
  match n with
  | O => Ret []
  | S n =>
    let! c := context d i in
    let! ns := make_nodes n (i + 1) d filename in
    Ret (new_ContextNode c filename :: ns)
  end.

Section serialized.
Context (k : kernel).

Definition ser_FreeAndUnmap (s : ContextsSerialized) : ContextsSerialized :=
  mkSerialized (Reset (property_info_area_file_ s)).1 None (num_context_nodes_ s) None
    (ser_filename_ s).

Definition InitializeContextNodes (s : ContextsSerialized) : cres (bool * ContextsSerialized) :=
  let! d := deref (mmap_base (property_info_area_file_ s)) in
  let! n := num_contexts d in
  if negb (k_anon_mmap k (sizeof_ContextNode * n)) then Ret (false, s)
  else
    let! ns := make_nodes (Z.to_nat n) 0 d (ser_filename_ s) in
    Ret (true, mkSerialized (property_info_area_file_ s) (Some ns) n
                 (ser_serial_prop_area_ s) (ser_filename_ s)).

Definition ser_InitializeProperties (s : ContextsSerialized) : cres (bool * ContextsSerialized) :=
  let! (ok, f, _) := LoadPath (property_info_area_file_ s) (k_property_info k) in
  let s := mkSerialized f (context_nodes_ s) (num_context_nodes_ s) (ser_serial_prop_area_ s)
             (ser_filename_ s) in
  if negb ok then Ret (false, s)
  else
    let! (ok, s) := InitializeContextNodes s in
    if negb ok then Ret (false, ser_FreeAndUnmap s) else Ret (true, s).

Fixpoint ser_open_all (ns : list ContextNode) (w : world) (ff : option bool) (open_failed : bool)
    : cres (list ContextNode * option bool * bool * world) :=
  match ns with
  | [] => Ret ([], ff, open_failed, w)
  | n :: ns =>
    let! (ok, n, ff, w) := cn_Open k n w true ff in
    let! (ns, ff, open_failed, w) := ser_open_all ns w ff (open_failed || negb ok) in
    Ret (n :: ns, ff, open_failed, w)
  end.

Definition ser_Initialize (w : world) (writable : bool) (filename : cstr) (ff : option bool)
    : cres (bool * ContextsSerialized * option bool * world) :=
  let s := mkSerialized empty_file None 0 None filename in
  let! (ok, s) := ser_InitializeProperties s in
  if negb ok then Ret (false, s, ff, w)
  else if writable then
    (* mkdir(filename_, ...): its result is not used *)
    let ff := (λ _, false) <$> ff in
    let! ns := deref (context_nodes_ s) in
    let! (ns, ff, open_failed, w) := ser_open_all ns w ff false in
    let s := set_nodes s ns in
    if open_failed then Ret (false, ser_FreeAndUnmap s, ff, w)
    else
      let! (pa, ff, w) := MapSerialPropertyArea k w filename true ff in
      match pa with
      | None => Ret (false, ser_FreeAndUnmap s, ff, w)
      | Some _ => Ret (true, set_serial_area s pa, ff, w)
      end
  else
    let! (pa, _, w) := MapSerialPropertyArea k w filename false None in
    match pa with
    | None => Ret (false, ser_FreeAndUnmap s, ff, w)
    | Some _ => Ret (true, set_serial_area s pa, ff, w)
    end.

Definition ser_GetPropAreaForName (s : ContextsSerialized) (w : world) (name : cstr)
    : cres (option cstr * ContextsSerialized * world) :=
  let! d := deref (mmap_base (property_info_area_file_ s)) in
  let! (index, _) := GetPropertyInfoIndexes d name in
  if (index =? UINT32_MAX)%Z || (index >=? num_context_nodes_ s)%Z then Ret (None, s, w)
  else
    let! ns := deref (context_nodes_ s) in
    let! context_node := deref (ns !! Z.to_nat index) in
    match cn_pa context_node with
    | Some pa => Ret (Some pa, s, w)
    | None =>
      let! (_, context_node, _, w) := cn_Open k context_node w false None in
      Ret (cn_pa context_node, set_nodes s (<[Z.to_nat index := context_node]> ns), w)
    end.

Fixpoint ser_foreach {C} (ns : list ContextNode) (w : world) (propfn : cstr * Z → C → C)
    (cookie : C) : cres (C * list ContextNode * world) :=
  match ns with
  | [] => Ret (cookie, [], w)
  | n :: ns =>
    let! (ok, n, w) := cn_CheckAccessAndOpen k n w in
    let! cookie :=
      if ok then let! p := deref (cn_pa n) in area_foreach w p propfn cookie
      else Ret cookie in
    let! (cookie, ns, w) := ser_foreach ns w propfn cookie in
    Ret (cookie, n :: ns, w)
  end.

#[export] Instance Serialized_Contexts : Contexts k ContextsSerialized := {
  Initialize := ser_Initialize;
  GetPropAreaForName := ser_GetPropAreaForName;
  GetSerialPropArea := ser_serial_prop_area_;
  ForEach C s w propfn cookie :=
    match context_nodes_ s with
    | Some ns =>
      let! (cookie, ns, w) := ser_foreach ns w propfn cookie in
      Ret (cookie, set_nodes s ns, w)
    | None => if (num_context_nodes_ s =? 0)%Z then Ret (cookie, s, w) else Fault
    end;
  ResetAccess s :=
    match context_nodes_ s with
    | Some ns => set_nodes s (cn_ResetAccess k <$> ns)
    | None => s
    end;
  FreeAndUnmap := ser_FreeAndUnmap
}.

(** * The interface *)

(** An initialised object: the mapped file encodes a trie and there is a node
    for each context it names. *)
Definition serialized_ok (s : ContextsSerialized) (w : world) : Prop :=
  (∃ d h t, mmap_base (property_info_area_file_ s) = Some d ∧ load_header d = Ret h ∧
     trie d (root_offset h) = Ret (Some (root_offset h)) ∧ encodes d (root_offset h) t) ∧
  (∃ ns, context_nodes_ s = Some ns ∧ num_context_nodes_ s = Z.of_nat (length ns) ∧
     Forall (λ n, node_ok n w) ns) ∧
  (∀ p, ser_serial_prop_area_ s = Some p → is_Some (w_files w !! p)).

#[export] Instance Serialized_Laws : ContextsLaws k ContextsSerialized.
Proof.
  refine {| ctx_ok := serialized_ok |}.
  - intros s w w' Hd (H1 & (ns & Hns & Hl & Hok) & H3). split_and!; [done| |].
    + exists ns. split_and!; auto. by eapply Forall_impl; eauto using node_ok_files.
    + intros p Hp. apply elem_of_dom, Hd, elem_of_dom. auto.
  - intros s w p (_ & _ & H). apply H.
  - intros s w name Hs. pose proof Hs as ((d & h & t & Hd & Hh & Hr & Ht) & (ns & Hns & Hl & Hok) & H3).
    simpl. unfold ser_GetPropAreaForName. rewrite Hd. cbn [deref cbind].
    pose proof (GetPropertyInfoIndexes_trie d h t name Hh Hr Ht) as Hg.
    pose proof (trie_lookup_nonneg d _ t name Ht) as Hnn. destruct (trie_lookup t name) as [index ti]. simpl in Hnn.
    rewrite Hg. cbn [cbind].
    destruct (_ || _) eqn:Hx.
    { eexists _, _, _. split; [reflexivity|]. split_and!; auto using size_step_refl; done. }
    apply orb_false_iff in Hx as [Hx1 Hx2]. rewrite Z.geb_leb, Hl, Z.leb_gt in Hx2.
    rewrite Hns. cbn [deref cbind].
    destruct (lookup_lt_is_Some_2 ns (Z.to_nat index) ltac:(lia)) as [n Hn].
    rewrite Hn. cbn [deref cbind].
    assert (Hnok : node_ok n w) by (rewrite Forall_forall in Hok; apply Hok; by eapply list_elem_of_lookup_2).
    destruct (cn_pa n) as [pa|] eqn:Hpa.
    + eexists _, _, _. split; [reflexivity|]. split_and!; auto using size_step_refl.
      intros p [= <-]. split; [by apply Hnok|]. intros w''. rewrite Hd. cbn [deref cbind].
      rewrite Hg. cbn [cbind]. rewrite Hx1, Z.geb_leb, Hl, (proj2 (Z.leb_gt _ _)) by done.
      cbn [orb]. rewrite Hns. cbn [deref cbind]. rewrite Hn. cbn [deref cbind]. by rewrite Hpa.
    + destruct (cn_Open_ro k n w None Hnok) as (ok & n' & w' & -> & Hn' & Hf & Hss & _ & _).
      cbn [cbind]. eexists _, _, _. split; [reflexivity|]. split_and!; auto.
      * split; [exact (proj1 Hs)|]. split; [|simpl; by rewrite Hf].
        exists (<[Z.to_nat index := n']> ns). split; [done|]. split; [by rewrite length_insert|].
        apply Forall_insert; [|done]. eapply Forall_impl; [exact Hok|]. intros x Hxx.
        eapply node_ok_files; [|exact Hxx]. by rewrite Hf.
      * intros p Hp. split; [rewrite <- Hf; by apply Hn'|]. intros w''.
        cbn [set_nodes property_info_area_file_ num_context_nodes_ context_nodes_].
        rewrite Hd. cbn [deref cbind].
        rewrite Hg. cbn [cbind]. rewrite Hx1, Z.geb_leb, Hl, (proj2 (Z.leb_gt _ _)) by done.
        cbn [orb deref cbind]. rewrite list_lookup_insert_eq by (by eapply lookup_lt_Some).
        cbn [deref cbind]. by rewrite Hp.
Defined.
End serialized.
