(* ===== verification/SystemProperties.v ===== *)
(** system_properties.{h,cpp}: the class that finds the area of a property
    through [Contexts] and reads and updates its record.  One thread runs at a
    time here; [SeqLock] interleaves readers with the writer. *)

From Stdlib Require Import ZArith Lia Ascii.
From stdpp Require Import base numbers strings gmap list.
From S2P Require Import Prelude CString PropInfo PropArea PropertyInfoParser Contexts.
From S2P Require Import ContextsSplit ContextsSerialized.

(** * The object *)

(** [contexts_] points to one of three classes. *)
Inductive AnyContexts :=
  | ASerialized (s : ContextsSerialized)
  | ASplit (s : ContextsSplit)
  | APreSplit (s : ContextsPreSplit).

Definition cmap3 {A B C D} (f : A → B) (m : cres (C * A * D)) : cres (C * B * D) :=
  let! (c, a, d) := m in Ret (c, f a, d).

(** Virtual dispatch. *)
#[export] Instance Any_Contexts (k : kernel) : Contexts k AnyContexts := {
  Initialize w writable filename ff :=
    let! (ok, s, ff, w) := Initialize (k := k) (S := ContextsSerialized) w writable filename ff in
    Ret (ok, ASerialized s, ff, w);
  GetPropAreaForName c w name :=
    match c with
    | ASerialized s => cmap3 ASerialized (GetPropAreaForName (k := k) s w name)
    | ASplit s => cmap3 ASplit (GetPropAreaForName (k := k) s w name)
    | APreSplit s => cmap3 APreSplit (GetPropAreaForName (k := k) s w name)
    end;
  GetSerialPropArea c :=
    match c with
    | ASerialized s => GetSerialPropArea (k := k) s
    | ASplit s => GetSerialPropArea (k := k) s
    | APreSplit s => GetSerialPropArea (k := k) s
    end;
  ForEach C c w propfn cookie :=
    match c with
    | ASerialized s => cmap3 ASerialized (ForEach (k := k) s w propfn cookie)
    | ASplit s => cmap3 ASplit (ForEach (k := k) s w propfn cookie)
    | APreSplit s => cmap3 APreSplit (ForEach (k := k) s w propfn cookie)
    end;
  ResetAccess c :=
    match c with
    | ASerialized s => ASerialized (ResetAccess (k := k) s)
    | ASplit s => ASplit (ResetAccess (k := k) s)
    | APreSplit s => APreSplit (ResetAccess (k := k) s)
    end;
  FreeAndUnmap c :=
    match c with
    | ASerialized s => ASerialized (FreeAndUnmap (k := k) s)
    | ASplit s => ASplit (FreeAndUnmap (k := k) s)
    | APreSplit s => APreSplit (FreeAndUnmap (k := k) s)
    end
}.

(** [class SystemProperties]; [None] is the null [contexts_] of .bss. *)
Record SystemProperties (S : Type) := mkSystemProperties {
  sp_contexts : option S;
  initialized_ : bool;
  property_filename_ : cstr
}.
Arguments mkSystemProperties {S} _ _ _.
Arguments sp_contexts {S} _.
Arguments initialized_ {S} _.
Arguments property_filename_ {S} _.

(** The object in zero-filled memory. *)
Definition zero_properties {S} : SystemProperties S := mkSystemProperties None false [].

(** A record is named by its area and its offset. *)
Definition prop_ptr : Type := cstr * Z.

Definition load_pi (w : world) (pi : prop_ptr) : cres prop_info :=
  let! a := get_area w pi.1 in load_info a pi.2.

Definition store_pi (w : world) (pi : prop_ptr) (r : prop_info) : cres world :=
  let! a := get_area w pi.1 in
  let! _ := load_info a pi.2 in
  Ret (put_area w pi.1 (store a pi.2 (OInfo r))).

Definition set_pi_serial (r : prop_info) (s : Z) : prop_info :=
  PropInfo s (pi_value r) (pi_name r).
Definition set_pi_value (r : prop_info) (v : list ascii) : prop_info :=
  PropInfo (pi_serial r) v (pi_name r).

Definition is_read_only (name : cstr) : bool := strneq name (cs "ro.") 3.

Definition INT_MINUS_1 : Z := -1.

(** * Initialisation *)

Section init.
Context (k : kernel).

Definition Init (sp : SystemProperties AnyContexts) (w : world) (filename : cstr)
    : cres (bool * SystemProperties AnyContexts * world) :=
  if initialized_ sp then Ret (true, sp, w)
  else if (Z.of_nat (length filename) >=? PROP_FILENAME_MAX)%Z then Ret (false, sp, w)
  else
    let! (ok, c, w) :=
      if k_is_dir k filename then
        if k_access k (cs "/dev/__properties__/property_info") then
          let! (ok, s, _, w) := Initialize (k := k) (S := ContextsSerialized) w false filename None in
          Ret (ok, ASerialized s, w)
        else
          let! (ok, s, _, w) := Initialize (k := k) (S := ContextsSplit) w false filename None in
          Ret (ok, ASplit s, w)
      else
        let! (ok, s, _, w) := Initialize (k := k) (S := ContextsPreSplit) w false filename None in
        Ret (ok, APreSplit s, w) in
    Ret (ok, mkSystemProperties (Some c) ok filename, w).

Definition AreaInit (sp : SystemProperties AnyContexts) (w : world) (filename : cstr)
    (fsetxattr_failed : option bool)
    : cres (bool * SystemProperties AnyContexts * option bool * world) :=
  if (Z.of_nat (length filename) >=? PROP_FILENAME_MAX)%Z then
    Ret (false, sp, fsetxattr_failed, w)
  else
    let! (ok, s, ff, w) :=
      Initialize (k := k) (S := ContextsSerialized) w true filename fsetxattr_failed in
    Ret (ok, mkSystemProperties (Some (ASerialized s)) (initialized_ sp || ok) filename, ff, w).
End init.

(** * Operations, over any implementation of [Contexts] *)

Section ops.
Context (k : kernel) {S : Type} `{!Contexts k S}.

Definition set_ctx (sp : SystemProperties S) (c : S) : SystemProperties S :=
  mkSystemProperties (Some c) (initialized_ sp) (property_filename_ sp).

Definition AreaSerial (sp : SystemProperties S) (w : world) : cres Z :=
  if negb (initialized_ sp) then Ret (u32 (-1))
  else
    let! c := deref (sp_contexts sp) in
    match GetSerialPropArea (k := k) c with
    | None => Ret (u32 (-1))
    | Some p => let! a := get_area w p in Ret (area_serial a)
    end.

Definition Find (sp : SystemProperties S) (w : world) (name : cstr)
    : cres (option prop_ptr * SystemProperties S * world) :=
  if negb (initialized_ sp) then Ret (None, sp, w)
  else
    let! c := deref (sp_contexts sp) in
    let! (pa, c, w) := GetPropAreaForName (k := k) c w name in
    match pa with
    | None => Ret (None, set_ctx sp c, w)
    | Some p =>
      let! a := get_area w p in
      let! r := find (w_pa_data_size w) a name in
      Ret ((λ off, (p, off)) <$> r, set_ctx sp c, w)
    end.

(** [Serial]: with no writer to wake it the wait on a dirty serial does not
    end. *)
Definition Serial (w : world) (pi : prop_ptr) : cres Z :=
  let! r := load_pi w pi in
  if SERIAL_DIRTY (pi_serial r) then OutOfFuel else Ret (pi_serial r).

(** [memcpy] out of the 92 bytes of the union. *)
Definition copy_value (r : prop_info) (n : Z) : cres (list ascii) :=
  if (n >? Z.of_nat (length (pi_value r)))%Z then Fault
  else Ret (take (Z.to_nat n) (pi_value r)).

(** [Read(pi, name, value)]: the length returned, the bytes copied to [value]
    and what the [name] buffer holds. *)
Definition Read (w : world) (pi : prop_ptr) : cres (Z * list ascii * cstr) :=
  let! serial := Serial w pi in
  let len := SERIAL_VALUE_LEN serial in
  let! r := load_pi w pi in
  let! value := copy_value r (len + 1) in
  let name := strlcpy_contents (pi_name r) (Z.to_nat PROP_NAME_MAX) in
  let! _ := if is_read_only (pi_name r) && is_long r
            then let! a := get_area w pi.1 in long_value a pi.2 r
            else Ret [] in
  Ret (len, value, name).

(** [ReadCallback]: the arguments the callback gets. *)
Definition ReadCallback (w : world) (pi : prop_ptr) : cres (cstr * cstr * Z) :=
  let! r := load_pi w pi in
  if is_read_only (pi_name r) then
    let! serial := Serial w pi in
    if is_long r then
      let! a := get_area w pi.1 in
      let! v := long_value a pi.2 r in Ret (pi_name r, v, serial)
    else Ret (pi_name r, c_str_of (pi_value r), serial)
  else
    let! serial := Serial w pi in
    let! value_buf := copy_value r (SERIAL_VALUE_LEN serial) in
    Ret (pi_name r, c_str_of (value_buf ++ [NUL]), serial).

(** [Get(name, value)]: the value buffer as a C string. *)
Definition Get (sp : SystemProperties S) (w : world) (name : cstr)
    : cres (Z * cstr * SystemProperties S * world) :=
  let! (pi, sp, w) := Find sp w name in
  match pi with
  | Some pi => let! (len, value, _) := Read w pi in Ret (len, c_str_of value, sp, w)
  | None => Ret (0%Z, [], sp, w)
  end.

(** Adding one to the serial of the serial area. *)
Definition bump_serial (w : world) (p : cstr) : cres world :=
  let! a := get_area w p in
  Ret (put_area w p (set_serial a (u32 (area_serial a + 1)))).

(** The union after [strlcpy(pi->value, value, len + 1)]. *)
Definition write_value (r : prop_info) (value : cstr) (len : Z) : prop_info :=
  set_pi_value r (buf_write (pi_value r) 0 (take (Z.to_nat len) value ++ [NUL])).

(** The serial published at the end of an update. *)
Definition final_serial (serial len : Z) : Z :=
  Z.lor (u32 (Z.shiftl len 24)) (Z.land (u32 (serial + 1)) 0xffffff).

Definition Update (sp : SystemProperties S) (w : world) (pi : prop_ptr) (value : cstr) (len : Z)
    : cres (Z * world) :=
  if (len >=? PROP_VALUE_MAX)%Z then Ret (-1, w)%Z
  else if negb (initialized_ sp) then Ret (-1, w)%Z
  else
    let! c := deref (sp_contexts sp) in
    match GetSerialPropArea (k := k) c with
    | None => Ret (-1, w)%Z
    | Some pa =>
      let! r := load_pi w pi in
      let serial := Z.lor (pi_serial r) 1 in
      let! w := store_pi w pi (set_pi_serial r serial) in
      let! r := load_pi w pi in
      let! w := store_pi w pi (write_value r value len) in
      let! r := load_pi w pi in
      let! w := store_pi w pi (set_pi_serial r (final_serial serial len)) in
      let! w := bump_serial w pa in
      Ret (0%Z, w)
    end.

Definition Add (sp : SystemProperties S) (w : world) (name : cstr) (namelen : Z)
    (value : cstr) (valuelen : Z) : cres (Z * SystemProperties S * world) :=
  if (valuelen >=? PROP_VALUE_MAX)%Z && negb (is_read_only name) then Ret (-1, sp, w)%Z
  else if (namelen <? 1)%Z then Ret (-1, sp, w)%Z
  else if negb (initialized_ sp) then Ret (-1, sp, w)%Z
  else
    let! c := deref (sp_contexts sp) in
    match GetSerialPropArea (k := k) c with
    | None => Ret (-1, sp, w)%Z
    | Some serial_pa =>
      let! (pa, c, w) := GetPropAreaForName (k := k) c w name in
      match pa with
      | None => Ret (-1, set_ctx sp c, w)%Z
      | Some p =>
        let! a := get_area w p in
        let! (ret, a) := add (w_pa_data_size w) a name namelen value valuelen in
        let w := put_area w p a in
        if negb ret then Ret (-1, set_ctx sp c, w)%Z
        else let! w := bump_serial w serial_pa in Ret (0%Z, set_ctx sp c, w)
      end
    end.

Definition Delete (sp : SystemProperties S) (w : world) (name : cstr)
    : cres (Z * SystemProperties S * world) :=
  if negb (initialized_ sp) then Ret (-1, sp, w)%Z
  else
    let! c := deref (sp_contexts sp) in
    match GetSerialPropArea (k := k) c with
    | None => Ret (-1, sp, w)%Z
    | Some serial_pa =>
      let! (pa, c, w) := GetPropAreaForName (k := k) c w name in
      match pa with
      | None => Ret (-1, set_ctx sp c, w)%Z
      | Some p =>
        let! a := get_area w p in
        let! (ret, a) := del (w_pa_data_size w) a name in
        let w := put_area w p a in
        if negb ret then Ret (-1, set_ctx sp c, w)%Z
        else let! w := bump_serial w serial_pa in Ret (0%Z, set_ctx sp c, w)
      end
    end.

(** [Wait]: the answers of the futex, each with the serial read after it.
    The result is the [bool] returned and [*new_serial_ptr] when written. *)
Inductive futex_answer := Woken | TimedOut.

Fixpoint wait_loop (env : list (futex_answer * Z)) (old_serial : Z) : cres (bool * option Z) :=
  match env with
  | [] => OutOfFuel
  | (TimedOut, _) :: _ => Ret (false, None)
  | (Woken, new_serial) :: env =>
    if (new_serial =? old_serial)%Z then wait_loop env old_serial
    else Ret (true, Some new_serial)
  end.

(** [return -1] in a function that returns [bool] is [true]. *)
Definition Wait (sp : SystemProperties S) (pi : option prop_ptr) (old_serial : Z)
    (env : list (futex_answer * Z)) : cres (bool * option Z) :=
  match pi with
  | Some _ => wait_loop env old_serial
  | None =>
    if negb (initialized_ sp) then Ret (true, None)
    else
      let! c := deref (sp_contexts sp) in
      match GetSerialPropArea (k := k) c with
      | None => Ret (true, None)
      | Some _ => wait_loop env old_serial
      end
  end.

(** [WaitAny]: the local [new_serial] is returned even if [Wait] did not
    write it. *)
Definition WaitAny (sp : SystemProperties S) (old_serial : Z) (env : list (futex_answer * Z))
    : cres Z :=
  let! (_, new_serial) := Wait sp None old_serial env in deref new_serial.

Definition Foreach {C} (sp : SystemProperties S) (w : world) (propfn : prop_ptr → C → C)
    (cookie : C) : cres (Z * C * SystemProperties S * world) :=
  if negb (initialized_ sp) then Ret ((-1)%Z, cookie, sp, w)
  else
    let! c := deref (sp_contexts sp) in
    let! (cookie, c, w) := ForEach (k := k) c w propfn cookie in
    Ret (0%Z, cookie, set_ctx sp c, w).

(** [find_nth::fn]: [current++ == sought]. *)
Definition find_nth_fn (sought : Z) (pi : prop_ptr) (st : Z * option prop_ptr)
    : Z * option prop_ptr :=
  (u32 (st.1 + 1), if (st.1 =? sought)%Z then Some pi else st.2).

Definition FindNth (sp : SystemProperties S) (w : world) (n : Z)
    : cres (option prop_ptr * SystemProperties S * world) :=
  let! (_, st, sp, w) := Foreach sp w (find_nth_fn n) (0%Z, None) in Ret (st.2, sp, w).
End ops.
