(* ===== verification/SystemPropertiesSpec.v ===== *)
(** What [SystemProperties] promises: reading back what was added or updated,
    for any implementation of [Contexts] that keeps the interface's laws. *)

From Stdlib Require Import ZArith Lia Ascii.
From stdpp Require Import base numbers strings gmap list.
From S2P Require Import Prelude CString PropInfo PropArea PropTrie PropAreaProofs.
From S2P Require Import PropAreaSpec PropAreaForeach PropertyInfoParser Contexts.
From S2P Require Import ContextsSplit ContextsSerialized SystemProperties.

(** [pa_data_size_] when every area has the size the code creates. *)
Definition PA_DATA_SIZE : Z := PA_SIZE - sizeof_prop_area.

Lemma PA_DATA_SIZE_u32 : (PA_DATA_SIZE < 2 ^ 32)%Z.
Proof. vm_compute. done. Qed.

(** The area at [p] holds the map [m]. *)
Definition stores (w : world) (p : cstr) (m : gmap cstr cstr) : Prop :=
  ∃ f, w_files w !! p = Some f ∧ represents PA_DATA_SIZE (af_area f) m.

Record world_ok (w : world) : Prop := {
  wo_size : w_pa_data_size w = PA_DATA_SIZE;
  wo_files : ∀ p f, w_files w !! p = Some f →
    st_size (af_stat f) = PA_SIZE ∧ ∃ m, represents PA_DATA_SIZE (af_area f) m
}.

Lemma stores_get w p m :
  stores w p m → ∃ a, get_area w p = Ret a ∧ represents PA_DATA_SIZE a m.
Proof. intros (f & Hf & Hm). unfold get_area. rewrite Hf. eauto. Qed.

Lemma world_ok_stores w p : world_ok w → is_Some (w_files w !! p) → ∃ m, stores w p m.
Proof.
  intros Hw [f Hf]. destruct (wo_files _ Hw _ _ Hf) as (_ & m & Hm). exists m, f. done.
Qed.

(** Replacing the contents of one area. *)
Lemma put_area_eq w p a m :
  is_Some (w_files w !! p) → represents PA_DATA_SIZE a m → stores (put_area w p a) p m.
Proof.
  intros [f Hf] Hm. unfold stores, put_area. rewrite Hf. simpl. rewrite lookup_insert_eq. eauto.
Qed.

Lemma put_area_ne w p q a m : p ≠ q → stores w q m → stores (put_area w p a) q m.
Proof.
  intros Hne (f & Hf & Hm). unfold stores, put_area. destruct (w_files w !! p); [|eauto].
  simpl. rewrite lookup_insert_ne by done. eauto.
Qed.

Lemma put_area_ok w p a m : world_ok w → represents PA_DATA_SIZE a m → world_ok (put_area w p a).
Proof.
  intros [Hs Hf] Hm. unfold put_area. destruct (w_files w !! p) as [f|] eqn:E; [|by split].
  split; [done|]. intros q g. simpl. rewrite lookup_insert. case_decide; [|apply Hf].
  intros [= <-]. simpl. split; [by apply (Hf p f)|eauto].
Qed.

Lemma put_area_dom w p a : dom (w_files (put_area w p a)) = dom (w_files w).
Proof.
  unfold put_area. destruct (w_files w !! p) eqn:E; [|done]. simpl.
  rewrite dom_insert_L. apply elem_of_dom_2 in E. set_solver.
Qed.

Lemma get_put_area w p a : is_Some (w_files w !! p) → get_area (put_area w p a) p = Ret a.
Proof. intros [f Hf]. unfold get_area, put_area. rewrite Hf. simpl. by rewrite lookup_insert_eq. Qed.

Lemma bump_serial_spec w p :
  world_ok w → is_Some (w_files w !! p) →
  ∃ w', bump_serial w p = Ret w' ∧ world_ok w' ∧ dom (w_files w') = dom (w_files w) ∧
    (∀ q m, stores w q m → stores w' q m) ∧
    (∀ q a, get_area w q = Ret a → ∃ a', get_area w' q = Ret a' ∧ data a' = data a) ∧
    ∃ a a', get_area w p = Ret a ∧ get_area w' p = Ret a' ∧
      area_serial a' = u32 (area_serial a + 1).
Proof.
  intros Hw Hp. destruct (world_ok_stores _ _ Hw Hp) as (m & Hm).
  destruct (stores_get _ _ _ Hm) as (a & Ha & Hr). unfold bump_serial. rewrite Ha. cbn [cbind].
  set (a' := set_serial a _).
  assert (Hsame : ∀ m, represents PA_DATA_SIZE a m → represents PA_DATA_SIZE a' m)
    by (intros; by apply (represents_same _ a)).
  eexists. split; [reflexivity|]. split_and!.
  - apply (put_area_ok _ _ _ m); auto.
  - apply put_area_dom.
  - intros q mq Hq. destruct (decide (p = q)) as [<-|Hne]; [|by apply put_area_ne].
    apply put_area_eq; [done|]. destruct (stores_get _ _ _ Hq) as (a2 & Ha2 & Hr2).
    rewrite Ha in Ha2. injection Ha2 as <-. auto.
  - intros q b Hb. destruct (decide (p = q)) as [<-|Hne].
    + rewrite get_put_area by done. eexists. split; [done|].
      rewrite Ha in Hb. by injection Hb as <-.
    + exists b. split; [|done]. unfold get_area, put_area in *. destruct Hp as [f Hf]. rewrite Hf. simpl.
      by rewrite lookup_insert_ne.
  - exists a, a'. rewrite get_put_area by done. done.
Qed.

Section spec.
Context (k : kernel) {S : Type} `{!Contexts k S} `{!ContextsLaws k S}.

(** An initialised object over a well-formed world. *)
Record sp_ok (sp : SystemProperties S) (w : world) : Prop := {
  so_world : world_ok w;
  so_init : initialized_ sp = true;
  so_ctx : ∃ c, sp_contexts sp = Some c ∧ ctx_ok (k := k) c w ∧
    is_Some (GetSerialPropArea (k := k) c)
}.

(** [GetPropAreaForName] of such an object answers, and again the same. *)
Record area_of (sp : SystemProperties S) (w : world) (name : cstr) (p : cstr) : Prop := {
  ao_some : is_Some (w_files w !! p);
  ao_get : ∀ w', ∃ c, sp_contexts sp = Some c ∧
    GetPropAreaForName (k := k) c w' name = Ret (Some p, c, w')
}.

Lemma get_spec sp w name c :
  sp_ok sp w → sp_contexts sp = Some c →
  ∃ r c' w', GetPropAreaForName (k := k) c w name = Ret (r, c', w') ∧
    sp_ok (set_ctx sp c') w' ∧ w_files w' = w_files w ∧
    GetSerialPropArea (k := k) c' = GetSerialPropArea (k := k) c ∧
    ∀ p, r = Some p → area_of (set_ctx sp c') w' name p.
Proof.
  intros [Hw Hi (c0 & Hc & Hok & Hser)] Hc'. rewrite Hc' in Hc. injection Hc as <-.
  destruct (ctx_get c w name Hok) as (r & c' & w' & Hrun & Hok' & Hf & Hser' & Hsz & Hp).
  exists r, c', w'. split; [done|]. assert (Hw' : world_ok w').
  { split; [|rewrite Hf; apply Hw]. destruct Hsz as [->|([q f] & Hin & ->)]; [apply Hw|].
    apply elem_of_map_to_list in Hin. simpl.
    by destruct (wo_files _ Hw _ _ Hin) as [-> _]. }
  split_and!; auto.
  - split; [done|done|]. exists c'. rewrite Hser'. done.
  - intros p Hr. destruct (Hp p Hr) as [H1 H2]. split; [by rewrite Hf|]. intros w''.
    exists c'. split; [done|]. apply H2.
Qed.

(** Looking up a name whose area is known. *)
Lemma Find_known sp w name p m :
  sp_ok sp w → area_of sp w name p → stores w p m → name_ok name →
  ∃ r a, Find k sp w name = Ret ((λ o, (p, o)) <$> r, sp, w) ∧ get_area w p = Ret a ∧
    represents PA_DATA_SIZE a m ∧ find PA_DATA_SIZE a name = Ret r ∧ find_result a m name r.
Proof.
  intros [Hw Hi _] [_ Hg] Hm Hn. destruct (Hg w) as (c & Hc & Hrun). unfold Find.
  rewrite Hi, Hc. cbn [negb deref cbind]. rewrite Hrun. cbn [cbind].
  destruct (stores_get _ _ _ Hm) as (a & -> & Hr). cbn [cbind]. rewrite (wo_size _ Hw).
  destruct (find_result_ok _ a m name Hr Hn) as (r & Hf & Hres). rewrite Hf. cbn [cbind].
  exists r, a. split_and!; try done. unfold set_ctx. destruct sp. simpl in *. subst. done.
Qed.

Lemma load_pi_data w p o a r :
  get_area w p = Ret a → data a !! o = Some (OInfo r) → load_pi w (p, o) = Ret r.
Proof. intros Ha Hr. unfold load_pi. simpl. rewrite Ha. simpl. by apply load_info_data. Qed.

(** Reading a short record at rest. *)
Lemma Read_short w p o a r v name :
  get_area w p = Ret a → data a !! o = Some (OInfo r) → rec_ok name r →
  has_value a o v → (Z.of_nat (length v) < PROP_VALUE_MAX)%Z →
  ∃ bytes nm, Read w (p, o) = Ret (Z.of_nat (length v), bytes, nm) ∧ c_str_of bytes = v.
Proof.
  intros Ha Hr (_ & Hlen & Hs & Hd & Hmax & Hvl) [Hv Hl] Hshort.
  assert (Hlong : is_long r = false).
  { destruct (is_long r) eqn:E; [|done]. pose proof (Hl r Hr E). lia. }
  unfold prop_value in Hv. rewrite (load_info_data _ _ _ Hr) in Hv. cbn [cbind] in Hv.
  rewrite Hlong in Hv. injection Hv as Hv.
  unfold Read, Serial. rewrite (load_pi_data _ _ _ _ _ Ha Hr). cbn [cbind]. rewrite Hd.
  cbn [cbind]. unfold PROP_VALUE_MAX in Hmax. unfold copy_value. rewrite Hlen.
  destruct (Z.gtb_spec (SERIAL_VALUE_LEN (pi_serial r) + 1) (Z.of_nat 92)); [lia|]. cbn [cbind].
  rewrite Hlong, andb_false_r. cbn [cbind]. eexists _, _. split; [by rewrite Hvl, Hv|].
  rewrite <- Hv. apply c_str_of_take. lia.
Qed.

(** ** Adding and deleting *)

Lemma put_area_get w p a q b :
  is_Some (w_files w !! p) → p ≠ q → get_area w q = Ret b → get_area (put_area w p a) q = Ret b.
Proof.
  intros [f Hf] Hne Hb. unfold get_area, put_area in *. rewrite Hf. simpl.
  by rewrite lookup_insert_ne.
Qed.

Lemma area_of_world sp w w' name p :
  dom (w_files w') = dom (w_files w) → area_of sp w name p → area_of sp w' name p.
Proof.
  intros Hd [H1 H2]. split; [|done]. apply elem_of_dom. rewrite Hd. by apply elem_of_dom.
Qed.

Lemma sp_ok_world sp w w' :
  dom (w_files w') = dom (w_files w) → world_ok w' → sp_ok sp w → sp_ok sp w'.
Proof.
  intros Hd Hw' [Hw Hi (c & Hc & Hok & Hs)]. split; [done|done|]. exists c. split_and!; try done.
  eapply ctx_ok_files; [|exact Hok]. by rewrite Hd.
Qed.

(** Changing the area of a name and bumping the serial, as [Add] and
    [Delete] do. *)
Lemma change_spec sp w p a m spa :
  sp_ok sp w → is_Some (w_files w !! p) → represents PA_DATA_SIZE a m →
  is_Some (w_files w !! spa) →
  ∃ w', bump_serial (put_area w p a) spa = Ret w' ∧ sp_ok sp w' ∧
    dom (w_files w') = dom (w_files w) ∧ stores w' p m ∧
    (∀ q m', q ≠ p → stores w q m' → stores w' q m') ∧
    ∃ a', get_area w' p = Ret a' ∧ data a' = data a.
Proof.
  intros Hsp Hp Hm Hspa. pose proof (so_world _ _ Hsp) as Hw.
  pose proof (put_area_ok w p a m Hw Hm) as Hw1. pose proof (put_area_dom w p a) as Hd1.
  assert (Hspa1 : is_Some (w_files (put_area w p a) !! spa))
    by (apply elem_of_dom; rewrite Hd1; by apply elem_of_dom).
  destruct (bump_serial_spec _ _ Hw1 Hspa1) as (w' & Hb & Hw' & Hd & Hst & Hget & _).
  assert (Hdom : dom (w_files w') = dom (w_files w)) by congruence.
  exists w'. split_and!; auto.
  - by apply (sp_ok_world sp w).
  - apply Hst. by apply put_area_eq.
  - intros q m' Hq Hsq. apply Hst. by apply put_area_ne.
  - apply Hget. by apply get_put_area.
Qed.

(** The outcome of [Add]. *)
Definition add_outcome (sp : SystemProperties S) (w : world) (name value : cstr) (r : Z)
    (sp' : SystemProperties S) (w' : world) : Prop :=
  sp_ok sp' w' ∧ dom (w_files w') = dom (w_files w) ∧
  ((r = -1)%Z ∨
   (r = 0)%Z ∧ ∃ p m, area_of sp' w' name p ∧ stores w p m ∧
     stores w' p (<[name := default value (m !! name)]> m) ∧
     ∀ q m', q ≠ p → stores w q m' → stores w' q m').

Lemma Add_outcome sp w name value :
  sp_ok sp w → name_ok name → no_nul value →
  ∃ r sp' w', Add k sp w name (Z.of_nat (length name)) value (Z.of_nat (length value)) =
    Ret (r, sp', w') ∧ add_outcome sp w name value r sp' w'.
Proof.
  intros Hsp Hn Hv. pose proof Hsp as [Hw Hi (c & Hc & Hok & [spa Hspa])]. unfold Add.
  assert (Hno : add_outcome sp w name value (-1) sp w) by (split; auto).
  destruct (_ && _); [eauto|]. destruct (_ <? 1)%Z; [eauto|].
  rewrite Hi, Hc. cbn [negb deref cbind]. rewrite Hspa.
  destruct (get_spec sp w name c Hsp Hc) as (r & c' & w1 & -> & Hsp1 & Hf & Hser & Ha).
  cbn [cbind]. destruct r as [p|]; cycle 1.
  { eexists _, _, _. split; [done|]. split; [done|]. split; [by rewrite Hf|]. auto. }
  destruct (Ha p eq_refl) as [Hp Hg]. pose proof (so_world _ _ Hsp1) as Hw1.
  destruct (world_ok_stores _ _ Hw1 Hp) as (m & Hm).
  destruct (stores_get _ _ _ Hm) as (a & -> & Hr). cbn [cbind]. rewrite (wo_size _ Hw1).
  destruct (add_result_ok _ PA_DATA_SIZE_u32 a m name value Hr Hn Hv) as (ok & a' & -> & Hres & _).
  cbn [cbind]. destruct ok; cbn [negb].
  - assert (Hspa1 : is_Some (w_files w1 !! spa)).
    { apply (ctx_serial c' w1); [|by rewrite Hser]. destruct Hsp1 as [_ _ (c2 & [= <-] & H & _)]. done. }
    destruct (change_spec _ _ p a' _ spa Hsp1 Hp Hres Hspa1)
      as (w2 & -> & Hsp2 & Hd2 & Hst & Hoth & _). cbn [cbind].
    eexists _, _, _. split; [done|]. split; [done|]. split; [congruence|]. right. split; [done|].
    exists p, m. split; [|split].
    + apply (area_of_world _ w1); [done|]. by split.
    + destruct Hm as (f & Hm1 & Hm2). exists f. by rewrite <- Hf.
    + split; [done|]. intros q m' Hq (f & Hm1 & Hm2). apply Hoth; [done|]. exists f. by rewrite Hf.
  - eexists _, _, _. split; [done|]. pose proof (put_area_dom w1 p a') as Hd. split; [|split].
    + apply (sp_ok_world _ w1); [done| |done]. by apply (put_area_ok _ _ _ m).
    + rewrite Hd. by rewrite Hf.
    + auto.
Qed.

Definition delete_outcome (sp : SystemProperties S) (w : world) (name : cstr) (r : Z)
    (sp' : SystemProperties S) (w' : world) : Prop :=
  sp_ok sp' w' ∧ dom (w_files w') = dom (w_files w) ∧
  ((r = -1)%Z ∧ (∀ q m, stores w q m → stores w' q m) ∨
   (r = 0)%Z ∧ ∃ p m, area_of sp' w' name p ∧ stores w p m ∧ stores w' p (delete name m) ∧
     ∀ q m', q ≠ p → stores w q m' → stores w' q m') ∧
  (∀ p m, area_of sp w name p → stores w p m → is_Some (m !! name) → r = 0%Z).

Lemma stores_files w w' q m : w_files w' = w_files w → stores w q m → stores w' q m.
Proof. unfold stores. by intros ->. Qed.

Lemma Delete_outcome sp w name :
  sp_ok sp w → name_ok name →
  ∃ r sp' w', Delete k sp w name = Ret (r, sp', w') ∧ delete_outcome sp w name r sp' w'.
Proof.
  intros Hsp Hn. pose proof Hsp as [Hw Hi (c & Hc & Hok & [spa Hspa])]. unfold Delete.
  rewrite Hi, Hc. cbn [negb deref cbind]. rewrite Hspa.
  destruct (get_spec sp w name c Hsp Hc) as (r & c' & w1 & Hrun & Hsp1 & Hf & Hser & Ha).
  assert (Hsame : ∀ p, area_of sp w name p → r = Some p).
  { intros p [_ Hg]. destruct (Hg w) as (c2 & Hc2 & Hg2). rewrite Hc in Hc2.
    injection Hc2 as <-. rewrite Hrun in Hg2. congruence. }
  rewrite Hrun. cbn [cbind]. destruct r as [p|]; cycle 1.
  { eexists _, _, _. split; [done|]. split; [done|]. split; [by rewrite Hf|]. split.
    - left. split; [done|]. intros q m. by apply stores_files.
    - intros p m Hp. by apply Hsame in Hp. }
  destruct (Ha p eq_refl) as [Hp Hg]. pose proof (so_world _ _ Hsp1) as Hw1.
  destruct (world_ok_stores _ _ Hw1 Hp) as (m & Hm).
  destruct (stores_get _ _ _ Hm) as (a & Hga & Hr). rewrite Hga. cbn [cbind].
  rewrite (wo_size _ Hw1).
  destruct (del_result_ok _ PA_DATA_SIZE_u32 a m name Hr Hn) as (ok & a' & -> & Hres & Hin & Hid & _).
  cbn [cbind]. destruct ok; cbn [negb].
  - assert (Hspa1 : is_Some (w_files w1 !! spa)).
    { apply (ctx_serial c' w1); [|by rewrite Hser]. destruct Hsp1 as [_ _ (c2 & [= <-] & H & _)]. done. }
    destruct (change_spec _ _ p a' _ spa Hsp1 Hp Hres Hspa1)
      as (w2 & -> & Hsp2 & Hd2 & Hst & Hoth & _). cbn [cbind].
    eexists _, _, _. split; [done|]. split; [done|]. split; [congruence|]. split; [|done].
    right. split; [done|]. exists p, m. split; [|split].
    + apply (area_of_world _ w1); [done|]. by split.
    + by apply (stores_files w1).
    + split; [done|]. intros q m' Hq Hs. apply Hoth; [done|]. by apply (stores_files w).
  - rewrite (Hid eq_refl) in *. eexists _, _, _. split; [done|].
    pose proof (put_area_dom w1 p a) as Hd. split; [|split; [|split]].
    + apply (sp_ok_world _ w1); [done| |done]. by apply (put_area_ok _ _ _ m).
    + rewrite Hd. by rewrite Hf.
    + left. split; [done|]. intros q mq Hq. destruct (decide (p = q)) as [<-|Hne].
      * apply put_area_eq; [done|]. destruct (stores_get w1 p mq) as (b & Hb & Hrb);
          [by apply (stores_files w)|]. rewrite Hga in Hb. by injection Hb as <-.
      * apply put_area_ne; [done|]. by apply (stores_files w).
    + intros p' m' Hp' Hm' Hsome. apply Hsame in Hp'. injection Hp' as <-. exfalso.
      destruct (stores_get w1 p m') as (b & Hb & Hrb); [by apply (stores_files w)|].
      rewrite Hga in Hb. injection Hb as <-.
      destruct (find_result_ok _ a m name Hr Hn) as (r & Hfa & Hra).
      destruct (find_result_ok _ a m' name Hrb Hn) as (r' & Hfb & Hrb').
      rewrite Hfa in Hfb. injection Hfb as <-. destruct r as [o|]; simpl in *.
      * destruct Hra as (v & pi & Hmn & _). rewrite Hmn in Hin. discriminate Hin. eauto.
      * destruct Hsome. congruence.
Qed.

(** The value of a name whose area and map are known. *)
Lemma Get_known sp w name p m v :
  sp_ok sp w → area_of sp w name p → stores w p m → name_ok name → m !! name = Some v →
  (Z.of_nat (length v) < PROP_VALUE_MAX)%Z →
  Get k sp w name = Ret (Z.of_nat (length v), v, sp, w).
Proof.
  intros Hsp Ha Hm Hn Hv Hshort.
  destruct (Find_known sp w name p m Hsp Ha Hm Hn) as (r & a & Hf & Hga & _ & _ & Hr).
  unfold Get. rewrite Hf. cbn [cbind]. destruct r as [o|]; simpl in Hr; [|congruence].
  destruct Hr as (v' & pi & Hv' & Hpi & Hro & Hhv). assert (v' = v) as -> by congruence.
  destruct (Read_short w p o a pi v name Hga Hpi Hro Hhv Hshort) as (bytes & nm & Hrd & Hb).
  cbn [fmap option_fmap option_map]. rewrite Hrd. cbn [cbind]. by rewrite Hb.
Qed.

(** ** Updating *)

Lemma low_bits_disjoint a b : Z.land (Z.shiftl a 24) (b `mod` 2 ^ 24) = 0%Z.
Proof.
  apply Z.bits_inj'. intros n Hn. rewrite Z.bits_0, Z.land_spec.
  destruct (Z.ltb_spec n 24).
  - by rewrite Z.shiftl_spec_low.
  - rewrite Z.mod_pow2_bits_high by lia. apply andb_false_r.
Qed.

Lemma final_serial_eq serial len :
  (0 ≤ len < 256)%Z → final_serial serial len = (len * 2 ^ 24 + (serial + 1) `mod` 2 ^ 24)%Z.
Proof.
  intros Hlen. unfold final_serial. change 0xffffff%Z with (Z.ones 24).
  rewrite Z.land_ones by lia.
  assert (Hs : (Z.shiftl len 24 = len * 2 ^ 24)%Z) by (by rewrite Z.shiftl_mul_pow2).
  rewrite (u32_small (Z.shiftl len 24)) by (rewrite Hs; lia). unfold u32.
  replace ((serial + 1) `mod` 2 ^ 32 `mod` 2 ^ 24)%Z with ((serial + 1) `mod` 2 ^ 24)%Z.
  - rewrite <- Z.lxor_lor, <- Z.add_nocarry_lxor by apply low_bits_disjoint. by rewrite Hs.
  - apply Znumtheory.Zmod_div_mod; [lia|lia|]. by exists (2 ^ 8)%Z.
Qed.

Lemma dirty_mod s : SERIAL_DIRTY s = negb (s `mod` 2 =? 0)%Z.
Proof. unfold SERIAL_DIRTY. change 1%Z with (Z.ones 1) at 1. by rewrite Z.land_ones. Qed.

Lemma lor_1_clean s : SERIAL_DIRTY s = false → Z.lor s 1 = (s + 1)%Z.
Proof.
  unfold SERIAL_DIRTY. rewrite negb_false_iff, Z.eqb_eq. intros H.
  by rewrite <- Z.lxor_lor, <- Z.add_nocarry_lxor.
Qed.

(** The record an update leaves behind. *)
Definition updated (r : prop_info) (value : cstr) : prop_info :=
  let len := Z.of_nat (length value) in
  set_pi_serial (write_value r value len) (final_serial (Z.lor (pi_serial r) 1) len).

Lemma updated_ok r value name :
  rec_ok name r → no_nul value → (Z.of_nat (length value) < PROP_VALUE_MAX)%Z →
  rec_ok name (updated r value) ∧ c_str_of (pi_value (updated r value)) = value ∧
  pi_serial (updated r value) =
    (Z.of_nat (length value) * 2 ^ 24 + (pi_serial r + 2) `mod` 2 ^ 24)%Z.
Proof.
  intros (Hnm & Hlen & Hs & Hd & Hmax & Hvl) Hn Hl. unfold PROP_VALUE_MAX in Hl, Hmax.
  assert (Hser : pi_serial (updated r value) =
    (Z.of_nat (length value) * 2 ^ 24 + (pi_serial r + 2) `mod` 2 ^ 24)%Z).
  { cbn [updated set_pi_serial pi_serial]. rewrite final_serial_eq by lia.
    rewrite lor_1_clean by done. by replace (pi_serial r + 1 + 1)%Z with (pi_serial r + 2)%Z by lia. }
  assert (Hcs : c_str_of (pi_value (updated r value)) = value).
  { cbn [updated set_pi_serial write_value set_pi_value pi_value].
    rewrite Nat2Z.id, firstn_all. unfold buf_write. rewrite <- !app_assoc. simpl.
    by apply c_str_of_app. }
  split; [|done]. split; [done|].
  assert (Hm : (0 ≤ (pi_serial r + 2) `mod` 2 ^ 24 < 2 ^ 24)%Z) by (apply Z.mod_pos_bound; lia).
  split_and!.
  - cbn [updated set_pi_serial write_value set_pi_value pi_value].
    rewrite Nat2Z.id, firstn_all, length_buf_write, Hlen; [done|].
    rewrite Hlen, length_app. simpl. lia.
  - rewrite Hser. lia.
  - rewrite Hser. lia.
  - rewrite dirty_mod, Hser in *. rewrite negb_false_iff, Z.eqb_eq in *.
    clear -Hd. Z.div_mod_to_equations. lia.
  - unfold SERIAL_VALUE_LEN. rewrite Hser, Z.shiftr_div_pow2 by lia. unfold PROP_VALUE_MAX.
    rewrite Z.div_add_l, Z.div_small by lia. lia.
  - unfold SERIAL_VALUE_LEN. rewrite Hcs, Hser, Z.shiftr_div_pow2 by lia.
    rewrite Z.div_add_l, Z.div_small by lia. lia.
Qed.

(** [load_pi], [store_pi] on an area that is a file. *)
Lemma store_pi_spec w p o a r r' :
  get_area w p = Ret a → data a !! o = Some (OInfo r) →
  store_pi w (p, o) r' = Ret (put_area w p (store a o (OInfo r'))) ∧
  is_Some (w_files w !! p).
Proof.
  intros Ha Hr. unfold store_pi. simpl. rewrite Ha. cbn [cbind].
  rewrite (load_info_data _ _ _ Hr). split; [done|].
  unfold get_area in Ha. destruct (w_files w !! p); [eauto|done].
Qed.

Lemma put_put w p a b : put_area (put_area w p a) p b = put_area w p b.
Proof.
  unfold put_area. destruct (w_files w !! p) eqn:E; [|by rewrite E]. simpl.
  rewrite lookup_insert_eq. unfold set_files. simpl. by rewrite insert_insert_eq.
Qed.

Lemma store_store a o x y : store (store a o x) o y = store a o y.
Proof. unfold store, set_data. simpl. by rewrite insert_insert_eq. Qed.

(** The whole of [Update]: the record becomes [updated], the serial of the
    serial area is bumped. *)
Lemma Update_run sp w p o a r value spa c :
  initialized_ sp = true → sp_contexts sp = Some c →
  GetSerialPropArea (k := k) c = Some spa →
  get_area w p = Ret a → data a !! o = Some (OInfo r) →
  (Z.of_nat (length value) < PROP_VALUE_MAX)%Z →
  Update k sp w (p, o) value (Z.of_nat (length value)) =
    (let! w' := bump_serial (put_area w p (store a o (OInfo (updated r value)))) spa in
     Ret (0%Z, w')).
Proof.
  intros Hi Hc Hspa Ha Hr Hl. unfold Update. rewrite Z.geb_leb, (proj2 (Z.leb_gt _ _)) by done.
  rewrite Hi, Hc. cbn [negb deref cbind]. rewrite Hspa.
  rewrite (load_pi_data _ _ _ _ _ Ha Hr). cbn [cbind].
  destruct (store_pi_spec w p o a r (set_pi_serial r (Z.lor (pi_serial r) 1)) Ha Hr) as [-> Hp].
  cbn [cbind]. set (a1 := store a o _). set (w1 := put_area w p a1).
  assert (Ha1 : get_area w1 p = Ret a1) by by apply get_put_area.
  assert (Hr1 : data a1 !! o = Some (OInfo (set_pi_serial r (Z.lor (pi_serial r) 1))))
    by (subst a1; simpl; by rewrite lookup_insert_eq).
  rewrite (load_pi_data _ _ _ _ _ Ha1 Hr1). cbn [cbind].
  edestruct (store_pi_spec w1 p o a1) as [-> _]; [done|exact Hr1|].
  cbn [cbind]. subst a1 w1. rewrite put_put, store_store.
  set (r2 := write_value _ _ _). set (a2 := store a o (OInfo r2)). set (w2 := put_area w p a2).
  assert (Ha2 : get_area w2 p = Ret a2) by by apply get_put_area.
  assert (Hr2 : data a2 !! o = Some (OInfo r2)) by (subst a2; simpl; by rewrite lookup_insert_eq).
  rewrite (load_pi_data _ _ _ _ _ Ha2 Hr2). cbn [cbind].
  edestruct (store_pi_spec w2 p o a2) as [-> _]; [done|exact Hr2|].
  cbn [cbind]. subst a2 w2. rewrite put_put, store_store. done.
Qed.

(** Storing a short value into the record of a name. *)
Lemma represents_updated a m name o r v value :
  represents PA_DATA_SIZE a m → name_ok name → find PA_DATA_SIZE a name = Ret (Some o) →
  data a !! o = Some (OInfo r) → rec_ok name r → no_nul value →
  (Z.of_nat (length value) < PROP_VALUE_MAX)%Z → is_long (updated r value) = false → 
  m !! name = Some v →
  represents PA_DATA_SIZE (store a o (OInfo (updated r value))) (<[name := value]> m).
Proof.
  intros Hrep Hn Hfa Hpi Hro Hv Hl Hlong Hmv.
  destruct (updated_ok r value name Hro Hv Hl) as ([Hun Huok] & Hucs & _).
  apply (represents_update _ PA_DATA_SIZE_u32 a m name o r); auto.
  assert (Hd : data (store a o (OInfo (updated r value))) !! o = Some (OInfo (updated r value)))
    by (simpl; by rewrite lookup_insert_eq).
  split.
  - unfold prop_value. rewrite (load_info_data _ _ _ Hd). cbn [cbind]. by rewrite Hlong, Hucs.
  - intros pi. rewrite Hd. intros [= <-]. congruence.
Qed.

(** A short record: the map gets the new value.  The counter in the low bits
    of the serial must not have reached the bit of [kLongFlag]. *)
Lemma Update_outcome sp w name p o m v value r :
  sp_ok sp w → area_of sp w name p → stores w p m → name_ok name → no_nul value →
  (Z.of_nat (length value) < PROP_VALUE_MAX)%Z →
  Find k sp w name = Ret (Some (p, o), sp, w) → m !! name = Some v →
  load_pi w (p, o) = Ret r → is_long (updated r value) = false →
  ∃ w', Update k sp w (p, o) value (Z.of_nat (length value)) = Ret (0%Z, w') ∧
    sp_ok sp w' ∧ area_of sp w' name p ∧ stores w' p (<[name := value]> m) ∧
    (∀ q m', q ≠ p → stores w q m' → stores w' q m') ∧
    load_pi w' (p, o) = Ret (updated r value) ∧ rec_ok name r.
Proof.
  intros Hsp Har Hm Hn Hv Hl Hfind Hmv Hld Hlong.
  destruct (Find_known sp w name p m Hsp Har Hm Hn) as (r0 & a & Hf & Hga & Hrep & Hfa & Hr).
  rewrite Hfind in Hf. destruct r0 as [o'|]; [|done]. injection Hf as <-. simpl in Hr.
  destruct Hr as (v' & r' & _ & Hpi & Hro & _).
  rewrite (load_pi_data _ _ _ _ _ Hga Hpi) in Hld. injection Hld as ->.
  pose proof Hsp as [Hw Hi (c & Hc & Hok & [spa Hspa])].
  rewrite (Update_run sp w p o a r value spa c Hi Hc Hspa Hga Hpi Hl).
  pose proof (represents_updated a m name o r v value Hrep Hn Hfa Hpi Hro Hv Hl Hlong Hmv) as Hrep'.
  destruct (change_spec sp w p _ _ spa Hsp (ao_some _ _ _ _ Har) Hrep' (ctx_serial _ _ _ Hok Hspa))
    as (w' & -> & Hsp' & Hd & Hst & Hoth & a' & Hga' & Hda'). cbn [cbind].
  exists w'. split; [done|]. split; [done|]. split; [by apply (area_of_world sp w)|].
  split; [done|]. split; [done|]. split; [|done].
  apply (load_pi_data _ _ _ _ _ Hga'). rewrite Hda'. simpl. by rewrite lookup_insert_eq.
Qed.
End spec.

(** * Properties *)

Section properties.
Context (k : kernel) {S : Type} `{!Contexts k S} `{!ContextsLaws k S}.

(** A property that no area holds yet, once [Add] reports success, is
    found by [Get] with exactly the value and the length that were added,
    whichever implementation of [Contexts] is in use. *)
Theorem Add_then_Get sp w name value sp' w' :
  sp_ok k sp w → name_ok name → no_nul value →
  (Z.of_nat (length value) < PROP_VALUE_MAX)%Z →
  (∀ p m, stores w p m → m !! name = None) →
  Add k sp w name (Z.of_nat (length name)) value (Z.of_nat (length value)) = Ret (0%Z, sp', w') →
  Get k sp' w' name = Ret (Z.of_nat (length value), value, sp', w').
Proof.
  intros Hsp Hn Hv Hl Hfresh Hadd.
  destruct (Add_outcome k sp w name value Hsp Hn Hv) as (r & sp2 & w2 & Hrun & Ho).
  rewrite Hrun in Hadd. injection Hadd as -> -> ->.
  destruct Ho as (Hsp' & _ & [|(_ & p & m & Ha & Hm & Hm' & _)]); [done|].
  rewrite (Hfresh p m Hm) in Hm'. apply (Get_known k sp' w' name p _ value Hsp' Ha Hm' Hn); [|done].
  by rewrite lookup_insert_eq.
Qed.

(** [Update] of a short property whose counter has not reached the bit of
    [kLongFlag] succeeds; [Get] then returns the new value, the record's
    serial is clean again with the new length, and its counter went up by
    two. *)
Theorem Update_then_Get sp w name p o m v value r :
  sp_ok k sp w → area_of k sp w name p → stores w p m → name_ok name → no_nul value →
  (Z.of_nat (length value) < PROP_VALUE_MAX)%Z →
  Find k sp w name = Ret (Some (p, o), sp, w) → m !! name = Some v →
  load_pi w (p, o) = Ret r → is_long (updated r value) = false →
  ∃ w' r', Update k sp w (p, o) value (Z.of_nat (length value)) = Ret (0%Z, w') ∧
    Get k sp w' name = Ret (Z.of_nat (length value), value, sp, w') ∧
    load_pi w' (p, o) = Ret r' ∧ SERIAL_DIRTY (pi_serial r') = false ∧
    pi_serial r' = (Z.of_nat (length value) * 2 ^ 24 + (pi_serial r + 2) `mod` 2 ^ 24)%Z.
Proof.
  intros Hsp Ha Hm Hn Hv Hl Hf Hmv Hld Hlong.
  destruct (Update_outcome k sp w name p o m v value r Hsp Ha Hm Hn Hv Hl Hf Hmv Hld Hlong)
    as (w' & Hu & Hsp' & Ha' & Hm' & _ & Hld' & Hro).
  destruct (updated_ok r value name Hro Hv Hl) as ([_ Hok] & _ & Hser).
  exists w', (updated r value). split; [done|]. split; [|split; [done|]].
  - apply (Get_known k sp w' name p _ value Hsp' Ha' Hm' Hn); [|done]. by rewrite lookup_insert_eq.
  - split; [apply Hok|done].
Qed.

(** After a [Delete] that reports success [Find] no longer finds the
    property, and [Delete] does succeed on a property that exists. *)
Theorem Delete_then_Find sp w name :
  sp_ok k sp w → name_ok name →
  ∃ r sp' w', Delete k sp w name = Ret (r, sp', w') ∧ sp_ok k sp' w' ∧
    (r = 0%Z → Find k sp' w' name = Ret (None, sp', w')) ∧
    (∀ p m, area_of k sp w name p → stores w p m → is_Some (m !! name) → r = 0%Z).
Proof.
  intros Hsp Hn. destruct (Delete_outcome k sp w name Hsp Hn) as (r & sp' & w' & Hrun & Ho).
  exists r, sp', w'. destruct Ho as (Hsp' & _ & Ho & Hsome). split_and!; [done|done| |done].
  intros ->. destruct Ho as [[? _]|(_ & p & m & Ha & _ & Hm' & _)]; [done|].
  destruct (Find_known k sp' w' name p _ Hsp' Ha Hm' Hn) as (r & a & Hf & _ & _ & _ & Hr).
  rewrite Hf. destruct r as [o|]; [|done]. simpl in Hr.
  destruct Hr as (v & pi & Hv & _). by rewrite lookup_delete_eq in Hv.
Qed.
End properties.

(** * Concrete instances *)

Definition sample_kernel : kernel :=
  mkKernel (λ _, CreateOk) (λ _ _, true) (λ _, true) (λ _, true) (λ _, true) (λ _, true)
    (λ _, false) (λ _, true) (λ _, None) (mkKernelFile None None) 0 0.

Definition sample_path : cstr := cs "/dev/__properties__".

Definition sample_world (a : prop_area) : world :=
  mkWorld {[ sample_path := mkAreaFileEntry (mkStat 0 0 0x124 PA_SIZE) a ]} PA_SIZE PA_DATA_SIZE.

Definition sample_sp : SystemProperties ContextsPreSplit :=
  mkSystemProperties (Some (mkPreSplit (Some sample_path))) true sample_path.

(** An area after additions. *)
Definition add_all (a : prop_area) (kvs : list (cstr * cstr)) : prop_area :=
  foldl (λ a kv, match add PA_DATA_SIZE a kv.1 (Z.of_nat (length kv.1)) kv.2
                         (Z.of_nat (length kv.2)) with Ret (_, a') => a' | _ => a end) a kvs.

Definition empty_area : prop_area := new_prop_area PROP_AREA_MAGIC PROP_AREA_VERSION.

Lemma empty_represents : represents PA_DATA_SIZE empty_area ∅.
Proof. apply represents_new. vm_compute. discriminate. Qed.

Lemma add_one_represents a m name value a' :
  represents PA_DATA_SIZE a m → name_ok name → no_nul value → m !! name = None →
  add PA_DATA_SIZE a name (Z.of_nat (length name)) value (Z.of_nat (length value)) = Ret (true, a') →
  represents PA_DATA_SIZE a' (<[name := value]> m).
Proof.
  intros Hm Hn Hv Hnone Ha.
  destruct (add_result_ok _ PA_DATA_SIZE_u32 a m name value Hm Hn Hv) as (ok & a2 & Hrun & Hres & _).
  rewrite Ha in Hrun. injection Hrun as <- <-. by rewrite Hnone in Hres.
Qed.

Lemma sample_sp_ok a m :
  represents PA_DATA_SIZE a m → sp_ok sample_kernel sample_sp (sample_world a).
Proof.
  intros Hm. split.
  - split; [done|]. intros p f. simpl. rewrite lookup_singleton_Some. intros [<- <-]. simpl. eauto.
  - done.
  - eexists. split; [done|]. split; [|simpl; eauto]. simpl. intros p [= <-].
    by rewrite lookup_singleton_eq.
Qed.

Lemma sample_stores a p m : stores (sample_world a) p m → p = sample_path ∧ represents PA_DATA_SIZE a m.
Proof. intros (f & Hf & Hm). simpl in Hf. apply lookup_singleton_Some in Hf as [<- <-]. done. Qed.

Lemma sample_area_of a name : area_of sample_kernel sample_sp (sample_world a) name sample_path.
Proof.
  split; [simpl; by rewrite lookup_singleton_eq|]. intros w'. by eexists.
Qed.

Lemma sample_fresh a m name :
  represents PA_DATA_SIZE a m → name_ok name → find PA_DATA_SIZE a name = Ret None →
  ∀ p m', stores (sample_world a) p m' → m' !! name = None.
Proof.
  intros Hm Hn Hf p m' [_ Hm']%sample_stores.
  destruct (find_result_ok _ a m' name Hm' Hn) as (r & Hr & Hres). rewrite Hf in Hr.
  by injection Hr as <-.
Qed.

Definition sample_area1 : prop_area :=
  Eval vm_compute in add_all empty_area [(cs "ro.product", cs "zeroflte")].

Lemma sample_area1_represents :
  represents PA_DATA_SIZE sample_area1 {[ cs "ro.product" := cs "zeroflte" ]}.
Proof.
  apply (add_one_represents empty_area ∅).
  - apply empty_represents.
  - vm_compute. done.
  - vm_compute. set_solver.
  - done.
  - vm_compute. reflexivity.
Qed.

Lemma Add_then_Get_witness : ∃ w',
  Add sample_kernel sample_sp (sample_world sample_area1) (cs "debug.sf.hw") 11 (cs "1") 1
    = Ret (0%Z, sample_sp, w') ∧
  Get sample_kernel sample_sp w' (cs "debug.sf.hw") = Ret (1%Z, cs "1", sample_sp, w').
Proof.
  eexists. split; [vm_compute; reflexivity|].
  apply (Add_then_Get sample_kernel sample_sp (sample_world sample_area1)
           (cs "debug.sf.hw") (cs "1") sample_sp).
  - apply (sample_sp_ok _ _ sample_area1_represents).
  - vm_compute. done.
  - apply (bool_decide_unpack _). vm_compute. exact I.
  - vm_compute. done.
  - apply (sample_fresh _ _ _ sample_area1_represents); vm_compute; done.
  - vm_compute. reflexivity.
Defined.

Lemma Update_then_Get_witness : ∃ w' r',
  Update sample_kernel sample_sp (sample_world sample_area1) (sample_path, 72%Z) (cs "zerolte") 7
    = Ret (0%Z, w') ∧
  Get sample_kernel sample_sp w' (cs "ro.product") = Ret (7%Z, cs "zerolte", sample_sp, w') ∧
  load_pi w' (sample_path, 72%Z) = Ret r' ∧ SERIAL_DIRTY (pi_serial r') = false.
Proof.
  destruct (Update_then_Get sample_kernel sample_sp (sample_world sample_area1) (cs "ro.product")
    sample_path 72%Z {[ cs "ro.product" := cs "zeroflte" ]} (cs "zeroflte") (cs "zerolte")
    (match load_pi (sample_world sample_area1) (sample_path, 72%Z) with Ret r => r
     | _ => PropInfo 0 [] [] end)) as (w' & r' & H1 & H2 & H3 & H4 & _).
  - apply (sample_sp_ok _ _ sample_area1_represents).
  - apply sample_area_of.
  - eexists. split; [apply lookup_singleton_eq|apply sample_area1_represents].
  - vm_compute. done.
  - apply (bool_decide_unpack _). vm_compute. exact I.
  - vm_compute. done.
  - vm_compute. reflexivity.
  - apply lookup_singleton_eq.
  - vm_compute. reflexivity.
  - vm_compute. reflexivity.
  - exact (ex_intro _ w' (ex_intro _ r' (conj H1 (conj H2 (conj H3 H4))))).
Defined.

Lemma Delete_then_Find_witness : ∃ r sp' w',
  Delete sample_kernel sample_sp (sample_world sample_area1) (cs "ro.product") = Ret (r, sp', w') ∧
  (r = 0%Z → Find sample_kernel sp' w' (cs "ro.product") = Ret (None, sp', w')).
Proof.
  destruct (Delete_then_Find sample_kernel sample_sp (sample_world sample_area1) (cs "ro.product"))
    as (r & sp' & w' & H1 & _ & H2 & _).
  - apply (sample_sp_ok _ _ sample_area1_represents).
  - vm_compute. done.
  - exact (ex_intro _ r (ex_intro _ sp' (ex_intro _ w' (conj H1 H2)))).
Defined.

(** * Behaviours at the edge of the contract *)

Definition long_value_100 : cstr := replicate 100 "x"%char.

Definition sample_area2 : prop_area :=
  Eval vm_compute in add_all empty_area [(cs "ro.long", long_value_100); (cs "sys.a.b", cs "1")].

Definition find_off (a : prop_area) (name : cstr) : Z :=
  match find PA_DATA_SIZE a name with Ret (Some o) => o | _ => 0 end.

(** [Update] of a long property returns 0, yet [ReadCallback] still reports the
    old value: the serial keeps [kLongFlag]. *)
Lemma update_long_keeps_value :
  let pi := (sample_path, find_off sample_area2 (cs "ro.long")) in
  match Update sample_kernel sample_sp (sample_world sample_area2) pi (cs "short") 5 with
  | Ret (r, w') =>
    r = 0%Z ∧ match ReadCallback w' pi with
              | Ret (_, v, _) => v = long_value_100 | _ => False end
  | _ => False
  end.
Proof. vm_compute. split; reflexivity. Qed.

(** [Delete] of a name that is only an inner node of the trie returns 0. *)
Lemma delete_inner_node :
  match Find sample_kernel sample_sp (sample_world sample_area2) (cs "sys.a") with
  | Ret (r, _, _) => r = None | _ => False end ∧
  match Delete sample_kernel sample_sp (sample_world sample_area2) (cs "sys.a") with
  | Ret (r, _, _) => r = 0%Z | _ => False end.
Proof. vm_compute. split; reflexivity. Qed.

(** [Add] of a name that exists returns 0 and leaves the old value. *)
Lemma add_existing_keeps_value :
  match Add sample_kernel sample_sp (sample_world sample_area2) (cs "sys.a.b") 7 (cs "2") 1 with
  | Ret (r, sp', w') =>
    r = 0%Z ∧ match Get sample_kernel sp' w' (cs "sys.a.b") with
              | Ret (_, v, _, _) => v = cs "1" | _ => False end
  | _ => False
  end.
Proof. vm_compute. split; reflexivity. Qed.

(** [Wait] on the global serial of an uninitialised object returns true without
    writing the new serial, and [WaitAny] then returns an unset variable. *)
Lemma wait_uninitialised env :
  Wait sample_kernel (S := ContextsPreSplit) zero_properties None 0 env = Ret (true, None) ∧
  WaitAny sample_kernel (S := ContextsPreSplit) zero_properties 0 env = Fault.
Proof. split; reflexivity. Qed.

(** The 32768th update of a short property sets the bit that marks long ones. *)
Lemma counter_reaches_long_flag :
  let r := PropInfo (1 * 2 ^ 24 + (2 ^ 16 - 2)) (buf_write fresh_union 0 (cs "1")) (cs "ro.x") in
  is_long r = false ∧ is_long (updated r (cs "2")) = true.
Proof. vm_compute. split; reflexivity. Qed.
