(* ===== verification/SeqLock.v ===== *)
(** How readers and the one writer of a property share its record
    (system_properties.cpp: [Serial], [Read], [ReadCallback], [Update]): an
    update makes the serial odd, copies the value byte by byte and publishes an
    even serial; a reader waits for an even serial, copies the value and starts
    again when the serial has changed; a read-only property [ReadCallback] hands
    to the callback without a copy.  Steps of the threads are interleaved on
    a sequentially consistent memory. *)

From Stdlib Require Import ZArith Lia Ascii.
From stdpp Require Import base numbers strings gmap list relations.
From S2P Require Import Prelude CString PropInfo PropArea SystemProperties.
From S2P Require Import SystemPropertiesSpec.

(** * The threads *)

(** [Read] copies the terminator of the value, [ReadCallback] adds its own. *)
Inductive op := OpRead | OpReadCallback.

Definition copied (o : op) (serial : Z) : nat :=
  Z.to_nat (SERIAL_VALUE_LEN serial) + match o with OpRead => 1 | OpReadCallback => 0 end.

Definition terminator (o : op) : list ascii :=
  match o with OpRead => [] | OpReadCallback => [NUL] end.

(** [ReadCallback] hands a read-only property to the callback where it is. *)
Definition direct (o : op) (name : cstr) : bool :=
  match o with OpRead => false | OpReadCallback => is_read_only name end.

(** Where a reader is: at the load of [Serial], about to call futex_wait,
    asleep in it, copying, or back with the serial and the bytes.  A read-only
    property in [ReadCallback]: at the load of the long flag, and in the callback
    that reads the value up to its terminator. *)
Inductive rpc :=
  | RSerial
  | RWait (serial : Z)
  | RSleep (serial : Z)
  | RCopy (serial : Z) (buf : list ascii)
  | RFlag (serial : Z)
  | RDirect (serial : Z) (buf : list ascii)
  | RDone (serial : Z) (buf : list ascii).

(** One step of a reader that is not asleep: [None] when it has returned, or
    reads outside the value. *)
Definition reader_next (r : prop_info) (o : op) (pc : rpc) : option rpc :=
  match pc with
  | RSerial =>
    Some (if SERIAL_DIRTY (pi_serial r) then RWait (pi_serial r)
          else if direct o (pi_name r) then RFlag (pi_serial r) else RCopy (pi_serial r) [])
  | RWait s => Some (if (pi_serial r =? s)%Z then RSleep s else RSerial)
  | RSleep _ => None
  | RCopy s buf =>
    if (length buf <? copied o s)%nat then b ← pi_value r !! length buf; Some (RCopy s (buf ++ [b]))
    else Some (if (s =? pi_serial r)%Z then RDone s (buf ++ terminator o) else RSerial)
  | RFlag s => if is_long r then None else Some (RDirect s [])
  | RDirect s buf =>
    b ← pi_value r !! length buf;
    Some (if Ascii.eqb b NUL then RDone s (buf ++ [NUL]) else RDirect s (buf ++ [b]))
  | RDone _ _ => None
  end.

(** Where the writer is: outside [Update], having copied [k] bytes of the value
    and its terminator, or about to wake the sleepers. *)
Inductive wpc := WIdle | WCopy (serial : Z) (v : cstr) (k : nat) | WWake.

Record conf := mkConf {
  c_rec : prop_info;
  c_writer : wpc;
  c_readers : list (op * rpc);
  c_hist : list cstr      (** the values published, the last one first *)
}.

Definition wake (r : op * rpc) : op * rpc :=
  match r with (o, RSleep _) => (o, RSerial) | _ => r end.

Definition value_ok (v : cstr) : Prop := no_nul v ∧ (Z.of_nat (length v) < PROP_VALUE_MAX)%Z.

Inductive step : conf → conf → Prop :=
  | s_begin r rs h v :
    value_ok v →
    let serial := Z.lor (pi_serial r) 1 in
    step (mkConf r WIdle rs h) (mkConf (set_pi_serial r serial) (WCopy serial v 0) rs h)
  | s_copy r s v k rs h b :
    (v ++ [NUL]) !! k = Some b →
    step (mkConf r (WCopy s v k) rs h)
         (mkConf (set_pi_value r (<[k := b]> (pi_value r))) (WCopy s v (S k)) rs h)
  | s_publish r s v rs h :
    step (mkConf r (WCopy s v (S (length v))) rs h)
         (mkConf (set_pi_serial r (final_serial s (Z.of_nat (length v)))) WWake rs (v :: h))
  | s_wake r rs h :
    step (mkConf r WWake rs h) (mkConf r WIdle (wake <$> rs) h)
  | s_read r w rs h i o pc pc' :
    rs !! i = Some (o, pc) → reader_next r o pc = Some pc' →
    step (mkConf r w rs h) (mkConf r w (<[i := (o, pc')]> rs) h)
  | s_interrupt r w rs h i o s :
    rs !! i = Some (o, RSleep s) →
    step (mkConf r w rs h) (mkConf r w (<[i := (o, RSerial)]> rs) h)
  | s_call r w rs h i o s buf o' :
    rs !! i = Some (o, RDone s buf) →
    step (mkConf r w rs h) (mkConf r w (<[i := (o', RSerial)]> rs) h).

(** A property that has just been added, and threads that start to read it. *)
Definition init (name v : cstr) (ops : list op) : conf :=
  mkConf (prop_info_short name (Z.of_nat (length name)) v (Z.of_nat (length v))) WIdle
    ((λ o, (o, RSerial)) <$> ops) [v].

Definition reachable (name v : cstr) (ops : list op) : conf → Prop := rtc step (init name v ops).

(** * Serials *)

(** The serial of a property whose published values are [h]. *)
Definition serial_of (h : list cstr) : Z :=
  match h with
  | [] => 0
  | v :: old => Z.of_nat (length v) * 2 ^ 24 + (2 * Z.of_nat (length old)) `mod` 2 ^ 24
  end%Z.

(** As many values as the counter tells apart. *)
Definition MAX_VALUES : Z := 2 ^ 23.

Lemma serial_of_clean h : SERIAL_DIRTY (serial_of h) = false.
Proof.
  rewrite dirty_mod. apply negb_false_iff, Z.eqb_eq. destruct h as [|v h]; [done|].
  unfold serial_of. rewrite (Z.mod_eq _ (2 ^ 24)) by lia.
  apply Z.mod_divide; [lia|]. exists (Z.of_nat (length v) * 2 ^ 23 + Z.of_nat (length h)
    - 2 ^ 23 * (2 * Z.of_nat (length h) / 2 ^ 24))%Z. lia.
Qed.

Lemma serial_of_len v h :
  SERIAL_VALUE_LEN (serial_of (v :: h)) = Z.of_nat (length v).
Proof.
  unfold SERIAL_VALUE_LEN, serial_of. rewrite Z.shiftr_div_pow2 by lia.
  pose proof (Z.mod_pos_bound (2 * Z.of_nat (length h)) (2 ^ 24)).
  rewrite Z.div_add_l, (Z.div_small (_ `mod` _)) by lia. lia.
Qed.

(** The serial after an update of the property. *)
Lemma final_serial_of h v :
  value_ok v → Forall value_ok h → h ≠ [] →
  final_serial (Z.lor (serial_of h) 1) (Z.of_nat (length v)) = serial_of (v :: h).
Proof.
  intros [_ Hv] Hh Hne. unfold PROP_VALUE_MAX in Hv.
  rewrite lor_1_clean by apply serial_of_clean. rewrite final_serial_eq by lia.
  destruct h as [|u h]; [done|]. unfold serial_of. cbn [length]. f_equal.
  rewrite <-!Z.add_assoc, Z.add_comm, Z_mod_plus_full.
  replace (2 * Z.of_nat (S (length h)))%Z with (2 * Z.of_nat (length h) + 2)%Z by lia.
  rewrite Zplus_mod_idemp_l. f_equal; lia.
Qed.

Lemma serial_of_inj h h' :
  h `suffix_of` h' → h ≠ [] → (Z.of_nat (length h') ≤ MAX_VALUES)%Z → serial_of h = serial_of h' → h = h'.
Proof.
  intros [k ->] Hne Hlen E. destruct k as [|u k]; [done|]. exfalso.
  destruct h as [|v h]; [done|]. cbn [app serial_of] in E. unfold MAX_VALUES in Hlen.
  rewrite length_app in *. cbn [length app] in *.
  rewrite !Z.mod_small in E by lia.
  assert (Z.of_nat (length u) = Z.of_nat (length v)) by nia. nia.
Qed.

#[local] Arguments serial_of : simpl never.
#[local] Arguments copied : simpl never.

(** * The invariant *)

Definition writer_ok (c : conf) : Prop :=
  match c_hist c with
  | [] => False
  | v :: _ =>
    match c_writer c with
    | WIdle | WWake =>
      pi_serial (c_rec c) = serial_of (c_hist c) ∧
      take (S (length v)) (pi_value (c_rec c)) = v ++ [NUL]
    | WCopy s v' k =>
      pi_serial (c_rec c) = s ∧ s = Z.lor (serial_of (c_hist c)) 1 ∧ value_ok v' ∧
      (k ≤ S (length v'))%nat ∧ take k (pi_value (c_rec c)) = take k (v' ++ [NUL])
    end
  end.

(** A property with its first value, no update of which is at work. *)
Definition untouched (c : conf) : Prop :=
  length (c_hist c) = 1%nat ∧ ∀ s v k, c_writer c ≠ WCopy s v k.

(** A reader that is asleep is going to be woken; what a reader has copied
    under the serial that is still there is the start of the last value, and
    what a callback has read of an untouched property the start of its value. *)
Definition reader_ok (c : conf) (r : op * rpc) : Prop :=
  match r.2 with
  | RSerial | RDone _ _ => True
  | RWait s => SERIAL_DIRTY s = true
  | RSleep s => c_writer c ≠ WIdle
  | RCopy s buf =>
    (length buf ≤ copied r.1 s)%nat ∧
    ∃ h v, (v :: h) `suffix_of` c_hist c ∧ s = serial_of (v :: h) ∧
      (pi_serial (c_rec c) = s → (v :: h) = c_hist c → buf = take (length buf) (v ++ [NUL]))
  | RFlag s => untouched c → s = serial_of (c_hist c)
  | RDirect s buf =>
    untouched c → s = serial_of (c_hist c) ∧
      ∃ v, c_hist c = [v] ∧ buf = take (length buf) v ∧ (length buf ≤ length v)%nat
  end.

Record inv (c : conf) : Prop := {
  inv_hist : Forall value_ok (c_hist c);
  inv_value : length (pi_value (c_rec c)) = 92%nat;
  inv_writer : writer_ok c;
  inv_readers : Forall (reader_ok c) (c_readers c)
}.

Lemma copied_of o v h :
  copied o (serial_of (v :: h)) = (length v + match o with OpRead => 1 | OpReadCallback => 0 end)%nat.
Proof. unfold copied. by rewrite serial_of_len, Nat2Z.id. Qed.

(** The serial tells whether the writer is at work. *)
Lemma writer_ok_dirty c :
  writer_ok c →
  SERIAL_DIRTY (pi_serial (c_rec c)) = match c_writer c with WCopy _ _ _ => true | _ => false end.
Proof.
  unfold writer_ok. destruct (c_hist c) as [|v h] eqn:E; [done|]. destruct (c_writer c) as [|s v' k|].
  - intros [-> _]. apply serial_of_clean.
  - intros (-> & -> & _). rewrite lor_1_clean by apply serial_of_clean.
    pose proof (serial_of_clean (v :: h)) as H. rewrite dirty_mod in *.
    apply negb_false_iff, Z.eqb_eq in H. by rewrite Z.add_mod, H.
  - intros [-> _]. apply serial_of_clean.
Qed.

(** The record of an untouched property. *)
Lemma untouched_value c v :
  writer_ok c → untouched c → c_hist c = [v] →
  pi_serial (c_rec c) = serial_of [v] ∧ take (S (length v)) (pi_value (c_rec c)) = v ++ [NUL].
Proof.
  intros Hw [_ Hn] E. unfold writer_ok in Hw. rewrite E in Hw.
  destruct (c_writer c) as [|s v' k|]; [done| |done]. by destruct (Hn s v' k).
Qed.

Lemma inv_init name v ops : value_ok v → inv (init name v ops).
Proof.
  intros [Hv Hl]. unfold PROP_VALUE_MAX in Hl. split; cbn [init c_hist c_rec c_readers].
  - by constructor.
  - apply length_short_value. unfold PROP_VALUE_MAX. lia.
  - unfold writer_ok. cbn [c_hist c_writer init c_rec]. split.
    + cbn [prop_info_short pi_serial]. rewrite Z.shiftl_mul_pow2, u32_small by lia.
      unfold serial_of. cbn [length]. rewrite Z.mul_0_r, Z.mod_0_l by lia. lia.
    + cbn [prop_info_short pi_value]. rewrite Nat2Z.id, firstn_all. unfold buf_write. cbn [take app].
      replace (S (length v)) with (length (v ++ [NUL])) by (rewrite length_app; simpl; lia).
      rewrite take_0, app_nil_l. apply take_app_length.
  - apply Forall_fmap, Forall_true. done.
Qed.

(** Steps of the writer keep the readers' part when the values published stay
    and a record that keeps its serial keeps its value. *)
Lemma readers_ok_keep c c' rs :
  c_hist c' = c_hist c → (c_writer c ≠ WIdle → c_writer c' ≠ WIdle) → (untouched c' → untouched c) →
  pi_serial (c_rec c') ≠ serial_of (c_hist c) →
  Forall (reader_ok c) rs → Forall (reader_ok c') rs.
Proof.
  intros Hh Hw Hu Hs Hr. eapply Forall_impl; [exact Hr|]. intros [o pc]. unfold reader_ok. cbn [fst snd].
  destruct pc as [|s|s|s buf|s|s buf|s buf]; rewrite ?Hh; try (by eauto).
  intros (Hl & h & v & Hsuf & -> & Hb). split; [done|]. exists h, v.
  split; [done|]. split; [done|]. intros E Hc. congruence.
Qed.

Lemma inv_reader c i o pc pc' :
  inv c →
  c_readers c !! i = Some (o, pc) → reader_next (c_rec c) o pc = Some pc' → reader_ok c (o, pc').
Proof.
  intros [Hh Hv Hw Hr] Hi Hn. pose proof (Forall_lookup_1 _ _ _ _ Hr Hi) as Hpc.
  pose proof (writer_ok_dirty c Hw) as Hd.
  unfold reader_ok in *. cbn [fst snd] in *.
  destruct pc as [|s|s|s buf|s|s buf|s buf]; cbn [reader_next] in Hn; try done.
  - injection Hn as <-. destruct (SERIAL_DIRTY _) eqn:E; [done|].
    assert (Es : pi_serial (c_rec c) = serial_of (c_hist c)).
    { unfold writer_ok in Hw. destruct (c_hist c); [done|].
      destruct (c_writer c); [by destruct Hw|congruence|by destruct Hw]. }
    destruct (direct _ _); [by intros _|]. split; [cbn; lia|].
    unfold writer_ok in Hw. destruct (c_hist c) as [|v h] eqn:Eh; [done|]. by exists h, v.
  - injection Hn as <-. destruct (Z.eqb_spec (pi_serial (c_rec c)) s) as [Es|]; [|done].
    intros E. rewrite E, Es, Hpc in Hd. done.
  - destruct Hpc as (Hl & h & v & Hsuf & -> & Hb).
    destruct (Nat.ltb_spec (length buf) (copied o (serial_of (v :: h)))) as [Hlt|Hge].
    + destruct (pi_value (c_rec c) !! length buf) as [b|] eqn:Eb; [|done]. injection Hn as <-.
      rewrite length_app. cbn [length]. split; [lia|]. exists h, v. split; [done|]. split; [done|].
      intros Es Eh. unfold writer_ok in Hw. rewrite <-Eh in Hw.
      rewrite Es, (serial_of_clean (v :: h)) in Hd.
      assert (Ht : take (S (length v)) (pi_value (c_rec c)) = v ++ [NUL])
        by (destruct (c_writer c); [by destruct Hw|congruence|by destruct Hw]).
      rewrite (Hb Es Eh) at 1. rewrite Nat.add_1_r.
      symmetry. apply take_S_r. rewrite <-Ht, lookup_take_lt; [done|].
      rewrite copied_of in Hlt. destruct o; lia.
    + injection Hn as <-. by destruct (_ =? _)%Z.
  - destruct (is_long _); [done|]. injection Hn as <-. intros Hu. split; [by apply Hpc|].
    destruct Hu as [Hl _]. destruct (c_hist c) as [|v [|]] eqn:Eh; try done. exists v. cbn. split; [done|]. split; [done|lia].
  - destruct (pi_value (c_rec c) !! length buf) as [b|] eqn:Eb; [|done]. injection Hn as <-.
    destruct (Ascii.eqb_spec b NUL) as [|Eb']; [done|]. intros Hu. destruct (Hpc Hu) as (-> & v & Ev & Ebuf & Hl). split; [done|].
    exists v. split; [done|]. destruct (untouched_value c v Hw Hu Ev) as [_ Ht].
    rewrite <-(lookup_take_lt _ (S (length v))), Ht in Eb by lia.
    apply lookup_app_Some in Eb as [Eb|[Hge Eb]].
    + rewrite length_app, Nat.add_1_r. pose proof (lookup_lt_Some _ _ _ Eb). split; [|lia].
      rewrite Ebuf at 1. symmetry. by apply take_S_r.
    + apply list_lookup_singleton_Some in Eb as [_ <-]. done.
Qed.

Lemma take_insert_next {A} (l w : list A) k b :
  take k l = take k w → w !! k = Some b → (k < length l)%nat →
  take (S k) (<[k := b]> l) = take (S k) w.
Proof.
  intros Ht Hb Hk. rewrite (take_S_r _ _ b) by by rewrite list_lookup_insert_eq.
  by rewrite take_insert_ge, (take_S_r w k b), Ht.
Qed.

Lemma inv_step c c' : step c c' → inv c → inv c'.
Proof.
  intros Hstep Hinv. pose proof Hinv as [Hh Hv Hw Hr].
  destruct Hstep as [r rs h v Hok serial|r s v k rs h b Hb|r s v rs h|r rs h
    |r w rs h i o pc pc' Hi Hn|r w rs h i o s Hi|r w rs h i o s buf o' Hi];
    cbn [c_hist c_rec c_readers] in *; unfold writer_ok in Hw; cbn [c_hist c_rec c_writer] in Hw.
  - destruct h as [|v0 h]; [done|]. destruct Hw as [Hs Ht].
    split; cbn [c_hist c_rec c_readers]; [done|done| |].
    + unfold writer_ok. cbn [c_hist c_rec c_writer set_pi_serial pi_serial]. subst serial.
      rewrite Hs. do 2 (split; [done|]). split; [exact Hok|]. split; [lia|done].
    + eapply readers_ok_keep; [| | | |exact Hr]; [done|done|by intros [_ Hu]; edestruct Hu|].
      cbn [c_rec set_pi_serial pi_serial c_hist]. subst serial.
      rewrite Hs, lor_1_clean by apply serial_of_clean. lia.
  - destruct h as [|v0 h]; [done|]. destruct Hw as (Hs & -> & Hok & Hk & Ht).
    pose proof (lookup_lt_Some _ _ _ Hb) as Hlt. rewrite length_app in Hlt. cbn in Hlt.
    destruct Hok as [Hn Hl]. unfold PROP_VALUE_MAX in Hl.
    split; cbn [c_hist c_rec c_readers set_pi_value pi_value]; [done| | |].
    + by rewrite length_insert.
    + unfold writer_ok. cbn [c_hist c_rec c_writer set_pi_value pi_serial pi_value].
      do 2 (split; [done|]). split; [exact (conj Hn Hl)|]. split; [lia|]. apply take_insert_next; [done|done|lia].
    + eapply readers_ok_keep; [| | | |exact Hr]; [done|done|by intros [_ Hu]; edestruct Hu|].
      cbn [c_rec set_pi_value pi_serial c_hist].
      rewrite Hs, lor_1_clean by apply serial_of_clean. lia.
  - destruct h as [|v0 h]; [done|]. destruct Hw as (Hs & -> & Hok & _ & Ht).
    assert (Hf := final_serial_of (v0 :: h) v Hok Hh ltac:(done)).
    split; cbn [c_hist c_rec c_readers set_pi_serial pi_value]; [by constructor|done| |].
    + unfold writer_ok. cbn [c_hist c_rec c_writer set_pi_serial pi_serial pi_value].
      split; [exact Hf|]. rewrite Ht. apply take_ge. rewrite length_app. simpl. lia.
    + eapply Forall_impl; [exact Hr|]. intros [o pc]. unfold reader_ok. cbn [fst snd c_hist c_rec c_writer].
      destruct pc as [|s|s|s buf|s|s buf|s buf]; try done; try (by intros _ [Hu _]).
      intros (Hlb & h' & v' & Hsuf & Hs' & _). split; [done|]. exists h', v'.
      split; [by apply suffix_cons_r|]. split; [done|]. intros _ E.
      apply suffix_length in Hsuf. rewrite E in Hsuf. cbn in Hsuf. lia.
  - split; cbn [c_hist c_rec c_readers]; [done|done|exact Hw|].
    apply Forall_fmap. eapply Forall_impl; [exact Hr|]. intros [o pc].
    unfold reader_ok, untouched. destruct pc as [|s|s|s buf|s|s buf|s buf]; cbn; try done; intros H [Hl Hu]; by apply H.
  - split; cbn [c_hist c_rec c_readers]; [done|done|exact Hw|].
    apply Forall_insert; [exact Hr|]. eapply (inv_reader (mkConf r w rs h)); eauto.
  - split; cbn [c_hist c_rec c_readers]; [done|done|exact Hw|]. by apply Forall_insert.
  - split; cbn [c_hist c_rec c_readers]; [done|done|exact Hw|]. by apply Forall_insert.
Qed.

Lemma reachable_inv name v ops c : value_ok v → reachable name v ops c → inv c.
Proof.
  intros Hv. apply (rtc_ind_r inv); [by apply inv_init|]. intros c1 c2 _ Hs Hc.
  by eapply inv_step.
Qed.

(** * What a reader returns *)

(** A copy under the serial that is there when it is complete. *)
Lemma published_copy c o buf v h :
  writer_ok c → (Z.of_nat (length (c_hist c)) ≤ MAX_VALUES)%Z → (v :: h) `suffix_of` c_hist c →
  serial_of (v :: h) = pi_serial (c_rec c) →
  (pi_serial (c_rec c) = serial_of (v :: h) → v :: h = c_hist c → buf = take (length buf) (v ++ [NUL])) →
  length buf = copied o (serial_of (v :: h)) →
  v :: h = c_hist c ∧ buf ++ terminator o = v ++ [NUL].
Proof.
  intros Hw Hmax Hsuf Es Hb Hlen.
  assert (Ec : pi_serial (c_rec c) = serial_of (c_hist c)).
  { pose proof (writer_ok_dirty c Hw) as Hd. rewrite <-Es, serial_of_clean in Hd.
    unfold writer_ok in Hw. destruct (c_hist c); [done|]. by destruct (c_writer c); destruct Hw. }
  assert (Eh : v :: h = c_hist c) by (apply serial_of_inj; [done|done|done|congruence]).
  split; [done|]. specialize (Hb (eq_sym Es) Eh). rewrite copied_of in Hlen. rewrite Hb.
  destruct o; cbn [terminator].
  - rewrite app_nil_r. apply take_ge. rewrite length_app. simpl. lia.
  - f_equal. replace (length buf) with (length v) by lia. apply take_app_length.
Qed.

(** The name of the record does not change. *)
Lemma reachable_name name v0 ops c : reachable name v0 ops c → pi_name (c_rec c) = name.
Proof.
  intros H. pattern c. revert c H. apply rtc_ind_r.
  - cbn. by rewrite Nat2Z.id, firstn_all.
  - intros c1 c2 _ Hs <-. by destruct Hs.
Qed.

Definition direct_ok (name : cstr) (r : op * rpc) : Prop :=
  match r.2 with RFlag _ | RDirect _ _ => direct r.1 name = true | _ => True end.

Lemma reachable_directs name v0 ops c : reachable name v0 ops c → Forall (direct_ok name) (c_readers c).
Proof.
  intros H. pattern c. revert c H. apply rtc_ind_r.
  - apply Forall_fmap, Forall_true. done.
  - intros c1 c2 H1 Hs Hd. pose proof (reachable_name _ _ _ _ H1) as Hnm. destruct Hs; cbn in *; try done.
    + apply Forall_fmap. eapply Forall_impl; [exact Hd|]. intros [o []]; done.
    + apply Forall_insert; [done|]. pose proof (Forall_lookup_1 _ _ _ _ Hd H) as Hpc.
      unfold direct_ok in *. cbn [fst snd] in *. destruct pc; cbn [reader_next] in H0; try done.
      * injection H0 as <-. rewrite Hnm. destruct (SERIAL_DIRTY _); [done|]. by destruct (direct o name) eqn:E.
      * injection H0 as <-. by destruct (_ =? _)%Z.
      * destruct (_ <? _)%nat; [destruct (pi_value r !! _); [|done]|]; injection H0 as <-; [done|by destruct (_ =? _)%Z].
      * destruct (is_long r); [done|]. by injection H0 as <-.
      * destruct (pi_value r !! _); [|done]. injection H0 as <-. by destruct (Ascii.eqb _ _).
    + by apply Forall_insert.
    + by apply Forall_insert.
Qed.

(** Only such a read hands the record out. *)
Lemma direct_only name v0 ops c i o s buf :
  reachable name v0 ops c → c_readers c !! i = Some (o, RDirect s buf) → direct o name = true.
Proof.
  intros Hreach. pose proof (reachable_directs _ _ _ _ Hreach) as Hd.
  intros Hi. exact (Forall_lookup_1 _ _ _ _ Hd Hi).
Qed.

(** C14. Whatever the interleaving of one writer and any number of readers: when
    [Read] or [ReadCallback] returns, it has, byte for byte and with its
    terminator, the value published last at that moment, and its serial gives
    that value's length.  The counter of 24 bits tells 2^23 values apart.  A
    read-only property, whose value [ReadCallback] does not copy, has not been
    updated. *)
Theorem Read_returns_published name v0 ops c i o pc s buf' :
  value_ok v0 → reachable name v0 ops c → (Z.of_nat (length (c_hist c)) ≤ MAX_VALUES)%Z →
  (direct o name = true → untouched c) →
  c_readers c !! i = Some (o, pc) → reader_next (c_rec c) o pc = Some (RDone s buf') →
  ∃ v, head (c_hist c) = Some v ∧ buf' = v ++ [NUL] ∧ SERIAL_VALUE_LEN s = Z.of_nat (length v).
Proof.
  intros Hv Hreach Hmax Hro Hi Hn. destruct (reachable_inv _ _ _ _ Hv Hreach) as [_ _ Hw Hr].
  pose proof (Forall_lookup_1 _ _ _ _ Hr Hi) as Hpc. unfold reader_ok in Hpc. cbn [fst snd] in Hpc.
  destruct pc as [|s0|s0|s0 buf|s0|s0 buf|s0 buf]; cbn [reader_next] in Hn; try done.
  - destruct (SERIAL_DIRTY _); [done|]. by destruct (direct o (pi_name (c_rec c))).
  - by destruct (_ =? _)%Z.
  - destruct Hpc as (Hl & h & v & Hsuf & -> & Hb).
    destruct (Nat.ltb_spec (length buf) (copied o (serial_of (v :: h)))) as [Hlt|Hge];
      [by destruct (_ !! _)|].
    destruct (Z.eqb_spec (serial_of (v :: h)) (pi_serial (c_rec c))) as [Es|]; [|done].
    injection Hn as <- <-. destruct (published_copy c o buf v h Hw Hmax Hsuf Es Hb) as [Eh Ebuf]; [lia|].
    exists v. rewrite <-Eh. split; [done|]. split; [exact Ebuf|apply serial_of_len].
  - by destruct (is_long _).
  - destruct (pi_value (c_rec c) !! length buf) as [b|] eqn:Eb; [|done].
    cbn [mbind option_bind] in Hn. destruct (Ascii.eqb_spec b NUL) as [Enul|]; [|done]. injection Hn as <- <-.
    destruct (direct o name) eqn:Ed; [|by rewrite (direct_only _ _ _ _ _ _ _ _ Hreach Hi) in Ed].
    specialize (Hro eq_refl). destruct (Hpc Hro) as (-> & v & Ev & Ebuf & Hl). exists v. rewrite Ev.
    split; [done|]. split; [|apply serial_of_len]. subst b. f_equal.
    destruct (untouched_value c v Hw Hro Ev) as [_ Ht].
    rewrite <-(lookup_take_lt _ (S (length v))), Ht in Eb by lia.
    apply lookup_app_Some in Eb as [Eb|[Hge _]].
    + apply list_elem_of_lookup_2 in Eb. pose proof (inv_hist _ (reachable_inv _ _ _ _ Hv Hreach)) as Hh.
      rewrite Ev in Hh. apply Forall_inv in Hh as [Hnn _]. by destruct Hnn.
    + rewrite Ebuf. apply take_ge. lia.
Qed.

(** [n] steps of one reader while the others rest. *)
Fixpoint run_reader (n : nat) (r : prop_info) (o : op) (pc : rpc) : option rpc :=
  match n with
  | O => Some pc
  | S n => match pc with RDone _ _ => Some pc | _ => pc ← reader_next r o pc; run_reader n r o pc end
  end.

Lemma run_reader_add n m r o pc :
  run_reader (n + m) r o pc = pc' ← run_reader n r o pc; run_reader m r o pc'.
Proof.
  revert pc. induction n as [|n IH]; intros pc; [done|]. cbn [Nat.add run_reader].
  destruct pc; try (cbn [mbind option_bind]; destruct (reader_next _ _ _); cbn; [apply IH|done]).
  cbn. by destruct m.
Qed.

Lemma run_reader_done n m r o pc s buf :
  run_reader n r o pc = Some (RDone s buf) → (n ≤ m)%nat → run_reader m r o pc = Some (RDone s buf).
Proof.
  intros H Hle. replace m with (n + (m - n))%nat by lia. rewrite run_reader_add, H. cbn.
  by destruct (m - n)%nat.
Qed.

(** Copying goes on to the comparison of the serials. *)
Lemma run_reader_copy r o s buf :
  (length buf ≤ copied o s ≤ length (pi_value r))%nat →
  ∃ buf', length buf' = copied o s ∧ take (length buf) buf' = buf ∧
    (∀ w, take (length w) (pi_value r) = w → buf = take (length buf) w → (copied o s ≤ length w)%nat →
          buf' = take (copied o s) w) ∧
    run_reader (copied o s - length buf) r o (RCopy s buf) = Some (RCopy s buf').
Proof.
  intros Hb. remember (copied o s - length buf)%nat as n eqn:En. revert buf Hb En.
  induction n as [|n IH]; intros buf Hb En.
  - exists buf. split; [lia|]. split; [by rewrite take_ge by lia|]. split; [|done].
    intros w _ Hw Hl. rewrite Hw at 1. f_equal. lia.
  - destruct (lookup_lt_is_Some_2 (pi_value r) (length buf)) as [b Eb]; [lia|].
    destruct (IH (buf ++ [b])) as (buf' & Hl & Ht & Hw & Hrun); [rewrite length_app; cbn [length]; lia..|].
    exists buf'. split; [done|]. rewrite length_app in Ht. cbn [length] in Ht. split.
    { trans (take (length buf) (take (length buf + 1) buf')).
      - rewrite take_take. f_equal. lia.
      - rewrite Ht. apply take_app_length. }
    split.
    + intros w H1 H2 H3. apply Hw; [done| |done]. rewrite length_app. cbn [length].
      rewrite Nat.add_1_r, (take_S_r _ _ b), <-H2; [done|].
      rewrite <-H1, lookup_take_lt; [done|]. lia.
    + cbn [run_reader reader_next]. rewrite (proj2 (Nat.ltb_lt _ _)) by lia. by rewrite Eb.
Qed.

(** The long flag is in the counter, which is 0 until the first update. *)
Lemma first_not_long r v : pi_serial r = serial_of [v] → is_long r = false.
Proof.
  intros E. unfold is_long, serial_of in *. cbn [length] in E.
  replace (pi_serial r) with (Z.shiftl (Z.of_nat (length v)) 24).
  - by rewrite land_kLongFlag_shiftl24.
  - rewrite E, Z.shiftl_mul_pow2, Z.mod_0_l by lia. lia.
Qed.

(** The callback reads to the terminator. *)
Lemma run_reader_direct r o s v buf :
  take (S (length v)) (pi_value r) = v ++ [NUL] → no_nul v →
  buf = take (length buf) v → (length buf ≤ length v)%nat →
  run_reader (S (length v - length buf)) r o (RDirect s buf) = Some (RDone s (v ++ [NUL])).
Proof.
  intros Ht Hv. remember (length v - length buf)%nat as n eqn:En.
  revert buf En. induction n as [|n IH]; intros buf En Hbuf Hl.
  - assert (buf = v) as -> by (rewrite Hbuf; apply take_ge; lia). cbn [run_reader reader_next].
    rewrite <-(lookup_take_lt _ (S (length v))), Ht by lia. by rewrite list_lookup_middle by done.
  - destruct (lookup_lt_is_Some_2 v (length buf)) as [b Eb]; [lia|].
    remember (S n) as m. cbn [run_reader reader_next]. subst m.
    rewrite <-(lookup_take_lt _ (S (length v))), Ht, lookup_app_l, Eb by lia. cbn [mbind option_bind].
    destruct (Ascii.eqb_spec b NUL) as [->|_]; [by apply list_elem_of_lookup_2 in Eb|].
    apply IH; rewrite length_app; cbn [length]; [lia| |lia].
    rewrite Nat.add_1_r. rewrite Hbuf at 1. symmetry. by apply take_S_r.
Qed.

(** From the load of the serial on, with the writer at rest. *)
Lemma run_reader_serial r o v h :
  pi_serial r = serial_of (v :: h) → length (pi_value r) = 92%nat → (length v < 92)%nat →
  take (S (length v)) (pi_value r) = v ++ [NUL] → (direct o (pi_name r) = true → h = [] ∧ no_nul v) →
  ∃ n, (n ≤ 94)%nat ∧ run_reader n r o RSerial = Some (RDone (serial_of (v :: h)) (v ++ [NUL])).
Proof.
  intros Hs Hl Hv Ht Hro. set (s := serial_of (v :: h)). destruct (direct o (pi_name r)) eqn:Ed.
  { destruct (Hro eq_refl) as [-> Hnn]. exists (2 + S (length v))%nat. split; [lia|].
    assert (Hnl := first_not_long r v Hs). cbn [Nat.add run_reader reader_next].
    rewrite Hs, serial_of_clean, Ed. fold s. cbn [mbind option_bind run_reader reader_next]. rewrite Hnl. cbn [mbind option_bind].
    pose proof (run_reader_direct r o s v [] Ht Hnn) as H. cbn [length] in H. rewrite Nat.sub_0_r in H.
    apply H; [done|lia]. }
  assert (Hc : (copied o s ≤ S (length v))%nat) by (subst s; rewrite copied_of; destruct o; lia).
  destruct (run_reader_copy r o s []) as (buf' & Hlb & _ & Hw & Hrun); [cbn; lia|].
  cbn [length] in Hrun. rewrite Nat.sub_0_r in Hrun.
  exists (S (copied o s + 1))%nat. split; [lia|]. cbn [run_reader reader_next].
  rewrite Hs, serial_of_clean, Ed. fold s. cbn [mbind option_bind].
  rewrite run_reader_add, Hrun. cbn [mbind option_bind run_reader reader_next].
  rewrite (proj2 (Nat.ltb_ge _ _)) by lia. rewrite Hs. fold s. rewrite Z.eqb_refl.
  rewrite (Hw (v ++ [NUL])); [|rewrite length_app, Nat.add_1_r; exact Ht|done|rewrite length_app; cbn; lia].
  subst s. rewrite copied_of. destruct o; cbn [terminator].
  - rewrite app_nil_r, take_ge by (rewrite length_app; cbn; lia). done.
  - by rewrite Nat.add_0_r, take_app_length.
Qed.

(** C28. With the writer at rest a reader returns: wherever it is, unless it is
    asleep, it has the published value after at most 200 of its own steps, all
    its reads inside the record.  As in [Read_returns_published] there are at
    most 2^23 values, and a read-only property that [ReadCallback] reads is
    still the first. *)
Theorem Read_terminates name v0 ops c i o pc :
  value_ok v0 → reachable name v0 ops c → (Z.of_nat (length (c_hist c)) ≤ MAX_VALUES)%Z →
  (direct o name = true → untouched c) →
  c_writer c = WIdle → c_readers c !! i = Some (o, pc) → (∀ s buf, pc ≠ RDone s buf) →
  ∃ v s, head (c_hist c) = Some v ∧ run_reader 200 (c_rec c) o pc = Some (RDone s (v ++ [NUL])).
Proof.
  intros Hv Hreach Hmax Hro Hidle Hi Hnd. pose proof (reachable_inv _ _ _ _ Hv Hreach) as [Hh Hlen Hw Hr].
  pose proof (Forall_lookup_1 _ _ _ _ Hr Hi) as Hpc. pose proof Hw as Hw'. unfold writer_ok in Hw. rewrite Hidle in Hw.
  pose proof (Forall_lookup_1 _ _ _ _ (reachable_directs _ _ _ _ Hreach) Hi) as Hd.
  rewrite <-(reachable_name _ _ _ _ Hreach) in Hro, Hd.
  destruct (c_hist c) as [|v h] eqn:Eh; [done|]. destruct Hw as [Hs Ht].
  pose proof (Forall_inv Hh) as [Hnn Hl]. unfold PROP_VALUE_MAX in Hl.
  assert (Hro' : untouched c → h = []).
  { intros [Hl1 _]. rewrite Eh in Hl1. by destruct h. }
  destruct (run_reader_serial (c_rec c) o v h Hs Hlen ltac:(lia) Ht) as (n & Hn & Hrun); [by eauto|].
  exists v. unfold reader_ok in Hpc. unfold direct_ok in Hd. cbn [fst snd] in Hpc, Hd.
  destruct pc as [|s|s|s buf|s|s buf|s buf]; try done.
  - exists (serial_of (v :: h)). split; [done|]. eapply run_reader_done; [exact Hrun|lia].
  - exists (serial_of (v :: h)). split; [done|].
    apply (run_reader_done (S n)); [|lia]. cbn [run_reader reader_next].
    destruct (Z.eqb_spec (pi_serial (c_rec c)) s) as [<-|]; [|exact Hrun].
    by rewrite Hs, serial_of_clean in Hpc.
  - exists (serial_of (v :: h)). split; [done|].
    destruct Hpc as (Hlb & h' & v' & Hsuf & -> & Hb). rewrite Eh in Hsuf, Hb.
    assert (Hv' : (length v' < 92)%nat).
    { destruct Hsuf as [k E]. rewrite E, Forall_app in Hh. destruct Hh as [_ Hh].
      pose proof (Forall_inv Hh) as [_ Hl']. unfold PROP_VALUE_MAX in Hl'. lia. }
    assert (Hc := copied_of o v' h'). set (s' := serial_of (v' :: h')) in *.
    assert (Hc92 : (copied o s' ≤ 92)%nat) by (rewrite Hc; destruct o; lia).
    destruct (run_reader_copy (c_rec c) o s' buf) as (buf' & Hlb' & _ & Hcopy & Hrun'); [lia|].
    apply (run_reader_done ((copied o s' - length buf) + (1 + n))); [|lia].
    rewrite run_reader_add, Hrun'. cbn [mbind option_bind Nat.add run_reader reader_next].
    rewrite (proj2 (Nat.ltb_ge _ _)) by lia.
    destruct (Z.eqb_spec s' (pi_serial (c_rec c))) as [E|E]; [|exact Hrun]. cbn [mbind option_bind].
    destruct (published_copy c o buf' v' h' Hw') as [E2 Ebuf]; [by rewrite Eh|by rewrite Eh|done| |done|].
    { intros E1 E2. rewrite Eh in E2. injection E2 as <- <-. rewrite Hlb'. apply Hcopy; [|by apply Hb|].
      - by rewrite length_app, Nat.add_1_r.
      - rewrite length_app. cbn [length]. rewrite Hc. destruct o; lia. }
    rewrite Ebuf. rewrite Eh in E2. injection E2 as <- <-. by destruct n.
  - exists s. split; [done|]. pose proof (Hro' (Hro Hd)) as ->. rewrite Eh in Hpc. rewrite Hpc in * by auto.
    apply (run_reader_done (S (S (length v)))); [|lia]. remember (S (length v)) as m. cbn [run_reader reader_next]. subst m.
    rewrite (first_not_long _ _ Hs). cbn [mbind option_bind].
    pose proof (run_reader_direct (c_rec c) o (serial_of [v]) v [] Ht Hnn) as H. cbn [length] in H.
    rewrite Nat.sub_0_r in H. apply H; [done|lia].
  - exists s. split; [done|]. destruct (Hpc (Hro Hd)) as (_ & v' & Ev & Hbuf & Hlb). rewrite Eh in Ev.
    injection Ev as <- ->. eapply run_reader_done; [by apply run_reader_direct|lia].
  - by destruct (Hnd s buf).
Qed.

(** * The writer alone *)

Lemma copy_steps r s v k rs h :
  (k ≤ S (length v))%nat → (length v < length (pi_value r))%nat →
  take k (pi_value r) = take k (v ++ [NUL]) →
  rtc step (mkConf r (WCopy s v k) rs h)
    (mkConf (set_pi_value r (v ++ [NUL] ++ drop (S (length v)) (pi_value r))) (WCopy s v (S (length v))) rs h).
Proof.
  intros Hk Hl Ht. remember (S (length v) - k)%nat as n eqn:En.
  revert r k Hk Hl Ht En. induction n as [|n IH]; intros r k Hk Hl Ht En.
  - replace k with (S (length v)) in * by lia. destruct r as [ser val nm].
    unfold set_pi_value. cbn [pi_value pi_serial pi_name] in *.
    rewrite (take_ge (v ++ [NUL])) in Ht by (rewrite length_app; cbn; lia).
    rewrite app_assoc, <-Ht, take_drop. apply rtc_refl.
  - destruct (lookup_lt_is_Some_2 (v ++ [NUL]) k) as [b Hb]; [rewrite length_app; cbn; lia|].
    eapply rtc_l; [by apply s_copy|].
    set (r' := set_pi_value r (<[k:=b]> (pi_value r))).
    assert (Hr : set_pi_value r (v ++ [NUL] ++ drop (S (length v)) (pi_value r)) =
                 set_pi_value r' (v ++ [NUL] ++ drop (S (length v)) (pi_value r'))).
    { subst r'. destruct r as [ser val nm]. cbn. by rewrite drop_insert_lt by lia. }
    rewrite Hr. apply IH; [lia| | |lia].
    + subst r'. cbn. by rewrite length_insert.
    + apply take_insert_next; [done|done|lia].
Qed.

(** The steps of one [Update] with nothing in between leave the record that
    the sequential [SystemProperties.Update] leaves. *)
Theorem Update_steps_sequential r v rs h :
  value_ok v → length (pi_value r) = 92%nat →
  rtc step (mkConf r WIdle rs h) (mkConf (updated r v) WWake rs (v :: h)).
Proof.
  intros Hok Hl. pose proof Hok as [_ Hv]. unfold PROP_VALUE_MAX in Hv.
  eapply rtc_l; [by apply s_begin|]. cbv zeta.
  etrans; [apply copy_steps; [lia|cbn; lia|done]|].
  eapply rtc_l; [apply s_publish|].
  replace (updated r v) with (set_pi_serial (set_pi_value (set_pi_serial r (Z.lor (pi_serial r) 1))
    (v ++ [NUL] ++ drop (S (length v)) (pi_value r))) (final_serial (Z.lor (pi_serial r) 1) (Z.of_nat (length v))));
    [apply rtc_refl|].
  unfold updated, write_value, buf_write. rewrite Nat2Z.id, firstn_all, take_0, app_nil_l.
  rewrite length_app. cbn [length]. rewrite Nat.add_0_l, Nat.add_1_r, <-app_assoc. done.
Qed.

(** * Schedules *)

(** A choice of the scheduler: the writer starts an update, the writer goes on,
    a reader goes on. *)
Inductive act := ABegin (v : cstr) | AWriter | AReader (i : nat).

Definition exec1 (c : conf) (a : act) : option conf :=
  let '(mkConf r w rs h) := c in
  match a, w with
  | ABegin v, WIdle =>
    guard (NUL ∉ v ∧ (Z.of_nat (length v) < PROP_VALUE_MAX)%Z);;
    let s := Z.lor (pi_serial r) 1 in Some (mkConf (set_pi_serial r s) (WCopy s v 0) rs h)
  | AWriter, WCopy s v k =>
    match (v ++ [NUL]) !! k with
    | Some b => Some (mkConf (set_pi_value r (<[k := b]> (pi_value r))) (WCopy s v (S k)) rs h)
    | None => guard (k = S (length v));;
              Some (mkConf (set_pi_serial r (final_serial s (Z.of_nat (length v)))) WWake rs (v :: h))
    end
  | AWriter, WWake => Some (mkConf r WIdle (wake <$> rs) h)
  | AReader i, _ =>
    '(o, pc) ← rs !! i; pc' ← reader_next r o pc; Some (mkConf r w (<[i := (o, pc')]> rs) h)
  | _, _ => None
  end.

Fixpoint exec (c : conf) (l : list act) : option conf :=
  match l with
  | [] => Some c
  | a :: l => c ← exec1 c a; exec c l
  end.

Lemma exec1_step c a c' : exec1 c a = Some c' → step c c'.
Proof.
  destruct c as [r w rs h], a as [v| |i]; destruct w as [|s v' k|]; cbn; try done.
  - case_guard as H; [|done]. intros [= <-]. by apply s_begin.
  - destruct ((v' ++ [NUL]) !! k) as [b|] eqn:Hb; [intros [= <-]; by apply s_copy|].
    case_guard as Hk; [|done]. intros [= <-]. subst k. apply s_publish.
  - intros [= <-]. apply s_wake.
  - intros ([o pc] & Hi & (pc' & Hn & [= <-])%bind_Some)%bind_Some. by eapply s_read.
  - intros ([o pc] & Hi & (pc' & Hn & [= <-])%bind_Some)%bind_Some. by eapply s_read.
  - intros ([o pc] & Hi & (pc' & Hn & [= <-])%bind_Some)%bind_Some. by eapply s_read.
Qed.

Lemma exec_reachable c l c' : exec c l = Some c' → rtc step c c'.
Proof.
  revert c. induction l as [|a l IH]; intros c; cbn; [intros [= <-]; apply rtc_refl|].
  intros (c1 & H1 & H2)%bind_Some. eapply rtc_l; [by eapply exec1_step|auto].
Qed.

(** The writer's own steps end in the wake-up of the sleepers. *)
Lemma writer_wakes r s v k rs h :
  (k ≤ S (length v))%nat →
  ∃ r', exec (mkConf r (WCopy s v k) rs h) (replicate (S (length v) - k + 2) AWriter) =
    Some (mkConf r' WIdle (wake <$> rs) (v :: h)).
Proof.
  remember (S (length v) - k)%nat as n eqn:En. revert r k En. induction n as [|n IH]; intros r k En Hk.
  - replace k with (S (length v)) by lia. cbn [Nat.add replicate exec exec1].
    rewrite (lookup_ge_None_2 (v ++ [NUL])) by (rewrite length_app; cbn; lia).
    rewrite option_guard_True by done. cbn. eauto.
  - destruct (lookup_lt_is_Some_2 (v ++ [NUL]) k) as [b Hb]; [rewrite length_app; cbn; lia|].
    cbn [Nat.add replicate exec exec1]. rewrite Hb. cbn [mbind option_bind]. apply IH; lia.
Qed.

(** C32. No wake-up is lost: whenever a reader sleeps in futex_wait, the writer is
    inside [Update], at most 94 steps of its own away from waking it, and it does
    not leave [Update] while the reader sleeps. *)
Theorem sleeper_is_woken name v0 ops c i o s :
  value_ok v0 → reachable name v0 ops c → c_readers c !! i = Some (o, RSleep s) →
  (∀ c', step c c' → c_writer c' = WIdle → c_readers c' !! i = Some (o, RSerial)) ∧
  ∃ n c', (1 ≤ n ≤ 94)%nat ∧ exec c (replicate n AWriter) = Some c' ∧
    c_writer c' = WIdle ∧ c_readers c' !! i = Some (o, RSerial).
Proof.
  intros Hv Hreach Hi. destruct (reachable_inv _ _ _ _ Hv Hreach) as [_ _ Hw Hr].
  pose proof (Forall_lookup_1 _ _ _ _ Hr Hi) as Hs. unfold reader_ok in Hs. cbn [snd] in Hs.
  destruct c as [r w rs h]. unfold writer_ok in Hw. cbn [c_writer c_rec c_readers c_hist] in *. split.
  - intros c' Hstep Hidle. inversion Hstep; subst; cbn [c_writer c_readers] in *; try done.
    by rewrite list_lookup_fmap, Hi.
  - assert (Hwake : (wake <$> rs) !! i = Some (o, RSerial)) by (by rewrite list_lookup_fmap, Hi).
    destruct w as [|s' v k|]; [done| |].
    + destruct h as [|v1 h]; [done|]. destruct Hw as (_ & _ & [_ Hl] & Hk & _). unfold PROP_VALUE_MAX in Hl.
      destruct (writer_wakes r s' v k rs (v1 :: h) Hk) as [r' E].
      eexists _, _. split; [|by split; [exact E|]]. lia.
    + exists 1%nat, (mkConf r WIdle (wake <$> rs) h). split; [lia|]. done.
Qed.

(** "1" becomes "22" while a reader copies: it has copied "1" when the writer
    starts, finds the serial changed, sleeps on the odd serial, is woken and
    copies "22". *)
Definition sample_name : cstr := cs "a.b".
Definition torn : list act :=
  replicate 2 (AReader 0) ++ [ABegin (cs "22")] ++ replicate 3 AWriter ++ [AReader 0].
Definition asleep : list act :=
  replicate 2 (AReader 0) ++ [ABegin (cs "22"); AWriter] ++ replicate 4 (AReader 0).
Definition after_wake : list act :=
  asleep ++ replicate 4 AWriter ++ replicate 4 (AReader 0).

Definition sample_conf (l : list act) : conf :=
  default (init sample_name (cs "1") [OpRead]) (exec (init sample_name (cs "1") [OpRead]) l).

(** Without the comparison of the serials the torn value would be returned. *)
Example torn_copy :
  c_readers (sample_conf torn) !! 0%nat = Some (OpRead, RCopy (2 ^ 24) ["1"%char; "2"%char]).
Proof. vm_compute. reflexivity. Qed.

(** [ReadCallback] gives out the record of a read-only property "since it can
    never change", but no function refuses to update it: here the callback reads
    "12" of a property that was "1" and becomes "22". *)
Definition ro_torn : list act :=
  replicate 3 (AReader 0) ++ [ABegin (cs "22")] ++ replicate 3 AWriter ++ replicate 2 (AReader 0).

Example read_only_callback_tears :
  (λ c, (c_readers c !! 0%nat, c_hist c)) <$> exec (init (cs "ro.a") (cs "1") [OpReadCallback]) ro_torn =
    Some (Some (OpReadCallback, RDone (2 ^ 24) (cs "12" ++ [NUL])), [cs "1"]).
Proof. vm_compute. reflexivity. Qed.

(** Left alone it is read as it is. *)
Example read_only_callback_reads :
  run_reader 6 (c_rec (init (cs "ro.a") (cs "1") [])) OpReadCallback RSerial =
    Some (RDone (2 ^ 24) (cs "1" ++ [NUL])).
Proof. vm_compute. reflexivity. Qed.

Lemma sample_value_ok : value_ok (cs "1").
Proof. apply (bool_decide_unpack _). vm_compute. exact I. Qed.

Lemma sample_reachable l c :
  exec (init sample_name (cs "1") [OpRead]) l = Some c → reachable sample_name (cs "1") [OpRead] c.
Proof. apply exec_reachable. Qed.

(** The three theorems about readers on these runs. *)
Lemma Read_returns_published_witness :
  ∃ v, head (c_hist (sample_conf after_wake)) = Some v ∧ cs "22" ++ [NUL] = v ++ [NUL] ∧
       SERIAL_VALUE_LEN 33554434 = Z.of_nat (length v).
Proof.
  apply (Read_returns_published sample_name (cs "1") [OpRead] (sample_conf after_wake) 0 OpRead
    (RCopy 33554434 (cs "22" ++ [NUL])) 33554434 (cs "22" ++ [NUL]) sample_value_ok).
  - apply (sample_reachable after_wake). vm_compute. reflexivity.
  - vm_compute. discriminate.
  - vm_compute. discriminate.
  - vm_compute. reflexivity.
  - vm_compute. reflexivity.
Defined.

Lemma sleeper_is_woken_witness :
  let c := sample_conf asleep in
  (∀ c', step c c' → c_writer c' = WIdle → c_readers c' !! 0%nat = Some (OpRead, RSerial)) ∧
  ∃ n c', (1 ≤ n ≤ 94)%nat ∧ exec c (replicate n AWriter) = Some c' ∧
    c_writer c' = WIdle ∧ c_readers c' !! 0%nat = Some (OpRead, RSerial).
Proof.
  apply (sleeper_is_woken sample_name (cs "1") [OpRead] (sample_conf asleep) 0 OpRead 16777217
    sample_value_ok).
  - apply (sample_reachable asleep). vm_compute. reflexivity.
  - vm_compute. reflexivity.
Defined.

Lemma Read_terminates_witness :
  ∃ v s, head (c_hist (sample_conf after_wake)) = Some v ∧
    run_reader 200 (c_rec (sample_conf after_wake)) OpRead (RCopy 33554434 (cs "22" ++ [NUL])) =
      Some (RDone s (v ++ [NUL])).
Proof.
  apply (Read_terminates sample_name (cs "1") [OpRead] (sample_conf after_wake) 0 OpRead
    (RCopy 33554434 (cs "22" ++ [NUL])) sample_value_ok).
  - apply (sample_reachable after_wake). vm_compute. reflexivity.
  - vm_compute. discriminate.
  - vm_compute. discriminate.
  - vm_compute. reflexivity.
  - vm_compute. reflexivity.
  - intros s buf. discriminate.
Defined.
