(* ===== verification/WaitSerial.v ===== *)
(** Waiting for a change (system_properties.cpp: [Wait], [WaitAny], and the ends
    of [Add], [Update] and [Delete]): threads sleep on a serial, that of one
    property or the global one, until it differs from the one they know; the
    writer changes it and wakes them.  Atomic steps of the threads are
    interleaved on a sequentially consistent memory. *)

From Stdlib Require Import ZArith Lia Ascii.
From stdpp Require Import base numbers strings gmap list relations.
From S2P Require Import Prelude CString PropInfo PropArea SystemProperties.
From S2P Require Import SystemPropertiesSpec.

(** * The threads *)

(** The serial that is waited for: [pi == nullptr] means the global one. *)
Inductive word := WGlobal | WRecord.

(** What the writer stores, one after the other, before it wakes the sleepers:
    the global serial plus one, or the odd serial of an update in progress and
    the serial of the new value. *)
Inductive stores_of : word → Z → list Z → Prop :=
  | so_global serial : stores_of WGlobal serial [u32 (serial + 1)]
  | so_record serial len :
    (0 ≤ len < PROP_VALUE_MAX)%Z →
    stores_of WRecord serial [Z.lor serial 1; final_serial (Z.lor serial 1) len].

Inductive wstate := WAtRest | WStores (vs : list Z) | WWakes.

(** Where a call of [Wait] is: at futex_wait, asleep in it, at the load of the
    serial, or back: with true and the new serial, or with false. *)
Inductive wpc := PFutexWait | PAsleep | PLoad | PTrue (new_serial : Z) | PFalse.

(** A call of [Wait]; [wt_env] records what the futex answered and the serials
    that were read after it. *)
Record waiter := Waiter {
  wt_old : Z; wt_timeout : bool; wt_pc : wpc; wt_env : list (futex_answer * Z)
}.

(** [s_changes]: how many changes the writer has published. *)
Record sconf := SConf {
  s_word : word; s_serial : Z; s_writer : wstate; s_changes : nat; s_waiters : list waiter
}.

Definition set_wpc (t : waiter) (p : wpc) : waiter := Waiter (wt_old t) (wt_timeout t) p (wt_env t).
Definition answered (t : waiter) (a : futex_answer) (serial : Z) (p : wpc) : waiter :=
  Waiter (wt_old t) (wt_timeout t) p (wt_env t ++ [(a, serial)]).

(** The next step of a thread that is not asleep and has not returned. *)
Definition wait_next (serial : Z) (t : waiter) : option waiter :=
  match wt_pc t with
  | PFutexWait => Some (set_wpc t (if (serial =? wt_old t)%Z then PAsleep else PLoad))
  | PLoad =>
    Some (answered t Woken serial (if (serial =? wt_old t)%Z then PFutexWait else PTrue serial))
  | _ => None
  end.

(** [__futex_wake(serial, INT32_MAX)] *)
Definition wake_waiter (t : waiter) : waiter :=
  match wt_pc t with PAsleep => set_wpc t PLoad | _ => t end.

Inductive sstep : sconf → sconf → Prop :=
  | ss_begin k s n ts vs :
    stores_of k s vs → sstep (SConf k s WAtRest n ts) (SConf k s (WStores vs) n ts)
  | ss_store k s v v2 vs n ts :
    sstep (SConf k s (WStores (v :: v2 :: vs)) n ts) (SConf k v (WStores (v2 :: vs)) n ts)
  | ss_publish k s v n ts : sstep (SConf k s (WStores [v]) n ts) (SConf k v WWakes (S n) ts)
  | ss_wake k s n ts : sstep (SConf k s WWakes n ts) (SConf k s WAtRest n (wake_waiter <$> ts))
  | ss_call k s w n ts old timed :
    sstep (SConf k s w n ts) (SConf k s w n (ts ++ [Waiter old timed PFutexWait []]))
  | ss_run k s w n ts i t t' :
    ts !! i = Some t → wait_next s t = Some t' →
    sstep (SConf k s w n ts) (SConf k s w n (<[i := t']> ts))
  | ss_interrupt k s w n ts i t :
    ts !! i = Some t → wt_pc t = PAsleep →
    sstep (SConf k s w n ts) (SConf k s w n (<[i := set_wpc t PLoad]> ts))
  | ss_timeout k s w n ts i t :
    ts !! i = Some t → wt_pc t = PAsleep → wt_timeout t = true →
    sstep (SConf k s w n ts) (SConf k s w n (<[i := answered t TimedOut s PFalse]> ts)).

Definition sinit (k : word) (s : Z) : sconf := SConf k s WAtRest 0 [].

Definition sreachable (k : word) (s : Z) : sconf → Prop := rtc sstep (sinit k s).

(** A thread that runs alone, [fuel] steps at most. *)
Fixpoint alone (fuel : nat) (serial : Z) (t : waiter) : waiter :=
  match fuel with
  | 0 => t
  | S fuel => match wait_next serial t with Some t' => alone fuel serial t' | None => t end
  end.

(** * The serial counts the changes *)

(** How far the counter in the serial goes. *)
Definition wraps (k : word) : Z := match k with WGlobal => 2 ^ 32 | WRecord => 2 ^ 23 end.

(** The counter in a serial that was published: a record keeps it in the low 24
    bits, above the bit that says that an update is in progress. *)
Definition change_no (k : word) (serial : Z) : Z :=
  match k with WGlobal => serial | WRecord => (serial / 2) `mod` 2 ^ 23 end.

Definition word_ok (k : word) (serial : Z) : Prop :=
  match k with WGlobal => (0 ≤ serial < 2 ^ 32)%Z | WRecord => SERIAL_DIRTY serial = false end.

(** [serial] is the serial after [n] changes, [s0] having been the first. *)
Definition numbered (k : word) (s0 serial : Z) (n : nat) : Prop :=
  word_ok k serial ∧ change_no k serial = ((change_no k s0 + Z.of_nat n) `mod` wraps k)%Z.

Lemma numbered_0 k s0 : word_ok k s0 → numbered k s0 s0 0.
Proof.
  intros Hs. split; [done|]. rewrite Z.add_0_r. destruct k; cbn [change_no wraps].
  - by rewrite Z.mod_small.
  - by rewrite Z.mod_mod.
Qed.

Lemma counter_next k x n :
  (((x + Z.of_nat n) `mod` wraps k + 1) `mod` wraps k = (x + Z.of_nat (S n)) `mod` wraps k)%Z.
Proof. rewrite Zplus_mod_idemp_l. f_equal. lia. Qed.

Lemma record_counter serial len :
  SERIAL_DIRTY serial = false → (0 ≤ len < PROP_VALUE_MAX)%Z →
  let s' := final_serial (Z.lor serial 1) len in
  SERIAL_DIRTY s' = false ∧ change_no WRecord s' = ((change_no WRecord serial + 1) `mod` 2 ^ 23)%Z.
Proof.
  intros Hd Hlen. unfold PROP_VALUE_MAX in Hlen. cbv zeta. rewrite lor_1_clean, final_serial_eq by (done || lia).
  rewrite dirty_mod, negb_false_iff, Z.eqb_eq in *. unfold change_no.
  apply Z.mod_divide in Hd as [j ->]; [|lia]. replace (j * 2 + 1 + 1)%Z with ((j + 1) * 2)%Z by lia.
  change (2 ^ 24)%Z with (2 ^ 23 * 2)%Z. rewrite Z.mul_mod_distr_r by lia.
  replace (len * (2 ^ 23 * 2) + ((j + 1) `mod` 2 ^ 23) * 2)%Z
    with ((len * 2 ^ 23 + (j + 1) `mod` 2 ^ 23) * 2)%Z by lia.
  split; [by rewrite Z.mod_mul|]. rewrite !Z.div_mul, Zplus_mod_idemp_l by lia.
  by rewrite Z.add_comm, Z.mod_add, Z.mod_mod by lia.
Qed.

(** The last of the stores of a change is the next serial. *)
Lemma stores_numbered k s0 serial n vs v :
  stores_of k serial vs → numbered k s0 serial n → last vs = Some v → numbered k s0 v (S n).
Proof.
  intros Hvs [Hw Hc] Hv. destruct Hvs as [serial|serial len Hlen]; injection Hv as <-; unfold numbered.
  - split; [apply u32_range|]. cbn [change_no] in *. rewrite Hc. apply (counter_next WGlobal).
  - destruct (record_counter serial len Hw Hlen) as [Hd Hn]. split; [done|].
    rewrite Hn, Hc. apply (counter_next WRecord).
Qed.

(** Serials with less than [wraps] changes between them differ. *)
Lemma numbered_neq k s0 s s' m n :
  numbered k s0 s m → numbered k s0 s' n → (Z.of_nat m < Z.of_nat n < Z.of_nat m + wraps k)%Z → s ≠ s'.
Proof.
  intros [_ Hm] [_ Hn] Hmn ->. rewrite Hm in Hn. clear Hm.
  assert (H0 : (0 < wraps k)%Z) by (by destruct k).
  assert (H : ((change_no k s0 + Z.of_nat n - (change_no k s0 + Z.of_nat m)) `mod` wraps k = 0)%Z).
  { rewrite Zminus_mod, Hn, Z.sub_diag. by apply Z.mod_0_l, Z.neq_sym, Z.lt_neq. }
  rewrite Z.mod_small in H by lia. lia.
Qed.

(** * The invariant *)

(** A thread that sleeps knows the serial that is there, or is going to be
    woken; what it returns is what [wait_loop] returns on the answers it got. *)
Definition waiter_ok (c : sconf) (t : waiter) : Prop :=
  (wt_pc t = PAsleep → s_serial c = wt_old t ∨ s_writer c ≠ WAtRest) ∧
  match wt_pc t with
  | PTrue new_serial => new_serial ≠ wt_old t ∧ wait_loop (wt_env t) (wt_old t) = Ret (true, Some new_serial)
  | PFalse => wt_timeout t = true ∧ wait_loop (wt_env t) (wt_old t) = Ret (false, None)
  | _ => Forall (λ e, e = (Woken, wt_old t)) (wt_env t)
  end.

(** The serial there is the last that was published, or the one that says that
    an update of it is in progress. *)
Definition counts (s0 : Z) (c : sconf) : Prop :=
  match s_writer c with
  | WStores vs => ∃ serial done, numbered (s_word c) s0 serial (s_changes c) ∧
      stores_of (s_word c) serial (done ++ vs) ∧ vs ≠ []
  | _ => numbered (s_word c) s0 (s_serial c) (s_changes c)
  end.

Definition sinv (s0 : Z) (c : sconf) : Prop := Forall (waiter_ok c) (s_waiters c) ∧ counts s0 c.

Lemma waiter_ok_other c c' ts :
  (s_writer c' ≠ WAtRest ∨ (s_serial c' = s_serial c ∧ (s_writer c ≠ WAtRest → s_writer c' ≠ WAtRest))) →
  Forall (waiter_ok c) ts → Forall (waiter_ok c') ts.
Proof.
  intros H Hts. eapply Forall_impl; [exact Hts|]. intros t [Hs Ht]. split; [|done].
  intros Hpc. specialize (Hs Hpc). destruct H as [H|[-> H]]; [by right|]. destruct Hs; auto.
Qed.

Lemma wait_loop_skip env old rest :
  Forall (λ e, e = (Woken, old)) env → wait_loop (env ++ rest) old = wait_loop rest old.
Proof. induction 1 as [|e env -> Henv IH]; [done|]. cbn [app wait_loop]. by rewrite Z.eqb_refl. Qed.

Lemma wait_next_ok c t t' : waiter_ok c t → wait_next (s_serial c) t = Some t' → waiter_ok c t'.
Proof.
  intros [_ Ht] Hp. unfold wait_next in Hp. unfold waiter_ok.
  destruct (wt_pc t) eqn:E; try done; injection Hp as <-; cbn;
    destruct (Z.eqb_spec (s_serial c) (wt_old t)) as [Hs|Hs]; cbn.
  - split; [by left|done].
  - split; [done|done].
  - split; [done|]. apply Forall_app. split; [done|]. rewrite Hs. by repeat constructor.
  - split; [done|]. split; [done|]. rewrite wait_loop_skip by done. cbn.
    by rewrite (proj2 (Z.eqb_neq _ _) Hs).
Qed.

Lemma sinv_step s0 c c' : sstep c c' → sinv s0 c → sinv s0 c'.
Proof.
  intros Hstep [Hts Hc]. destruct Hstep as [k s n ts vs Hvs|k s v v2 vs n ts|k s v n ts|k s n ts
    |k s w n ts old timed|k s w n ts i t t' Hi Hp|k s w n ts i t Hi Hp|k s w n ts i t Hi Hp Ht];
    (split; [cbn [s_waiters] in *|unfold counts in *; cbn [s_writer s_word s_serial s_changes] in *; try done]).
  - eapply (waiter_ok_other (SConf k s WAtRest n ts)); [by left|done].
  - exists s, []. split_and!; [exact Hc|exact Hvs|by inversion Hvs].
  - eapply (waiter_ok_other (SConf k s (WStores (v :: v2 :: vs)) n ts)); [by left|done].
  - destruct Hc as (serial & pre & Hn & Hso & _). exists serial, (pre ++ [v]). by rewrite <- app_assoc.
  - eapply (waiter_ok_other (SConf k s (WStores [v]) n ts)); [by left|done].
  - destruct Hc as (serial & pre & Hn & Hso & _).
    eapply stores_numbered; [exact Hso|exact Hn|apply last_snoc].
  - apply Forall_fmap. eapply Forall_impl; [exact Hts|]. intros t [_ Ht].
    unfold waiter_ok, wake_waiter. by destruct (wt_pc t) eqn:E; cbn; rewrite ?E.
  - apply Forall_app. split; [exact Hts|]. repeat constructor. done.
  - apply Forall_insert; [exact Hts|]. rewrite Forall_lookup in Hts.
    apply (wait_next_ok _ t); [by apply (Hts i)|done].
  - apply Forall_insert; [exact Hts|]. rewrite Forall_lookup in Hts. destruct (Hts _ _ Hi) as [_ Hok].
    rewrite Hp in Hok. split; [intros [=]|exact Hok].
  - apply Forall_insert; [exact Hts|]. rewrite Forall_lookup in Hts. destruct (Hts _ _ Hi) as [_ Hok].
    rewrite Hp in Hok. split; [done|]. cbn. by rewrite wait_loop_skip.
Qed.

Lemma sinv_reachable k s0 c : word_ok k s0 → sreachable k s0 c → sinv s0 c.
Proof.
  intros Hs. apply (rtc_ind_r (sinv s0) (sinit k s0)).
  - split; [constructor|]. by apply numbered_0.
  - intros c1 c2 _ Hstep. by apply sinv_step.
Qed.

Lemma sreachable_word k s0 c : sreachable k s0 c → s_word c = k.
Proof.
  apply (rtc_ind_r (λ c, s_word c = k) (sinit k s0)); [done|].
  intros c1 c2 _ Hstep. by destruct Hstep.
Qed.

(** What a thread that has not returned does once the serial is another. *)
Lemma alone_returns serial t :
  serial ≠ wt_old t → (wt_pc t = PFutexWait ∨ wt_pc t = PLoad) →
  wt_pc (alone 2 serial t) = PTrue serial.
Proof.
  intros Hne. apply Z.eqb_neq in Hne. destruct t as [old timed pc env]. cbn in *.
  by intros [->| ->]; unfold wait_next; cbn; rewrite Hne; cbn; rewrite ?Hne.
Qed.

(** * No change is missed *)

(** C20. However the threads and the writer are interleaved, when the writer has
    published and announced between one and [wraps] changes after the serial a
    thread waits to change, the thread does not sleep: it has returned or
    returns true, with the serial there, within two steps of its own; what it
    returned is what the loop of [Wait] computes from the answers of the
    futex, a serial other than the old one or, only with a timeout, false. *)
Theorem wait_sees_change k s0 c i t m :
  word_ok k s0 → sreachable k s0 c → s_writer c = WAtRest →
  s_waiters c !! i = Some t → numbered k s0 (wt_old t) m →
  (Z.of_nat m < Z.of_nat (s_changes c) < Z.of_nat m + wraps k)%Z →
  match wt_pc t with
  | PAsleep => False
  | PTrue new_serial => new_serial ≠ wt_old t ∧ wait_loop (wt_env t) (wt_old t) = Ret (true, Some new_serial)
  | PFalse => wt_timeout t = true ∧ wait_loop (wt_env t) (wt_old t) = Ret (false, None)
  | _ => wt_pc (alone 2 (s_serial c) t) = PTrue (s_serial c)
  end.
Proof.
  intros Hs Hr Hw Hi Hm Hmn. destruct (sinv_reachable _ _ _ Hs Hr) as [Hts Hc].
  unfold counts in Hc. rewrite Hw, (sreachable_word _ _ _ Hr) in Hc.
  pose proof (numbered_neq _ _ _ _ _ _ Hm Hc Hmn) as Hne. apply not_eq_sym in Hne.
  rewrite Forall_lookup in Hts. destruct (Hts _ _ Hi) as [Hsleep Ht]. rewrite Hw in Hsleep.
  destruct (wt_pc t) eqn:E; try done.
  - apply alone_returns; auto.
  - by destruct (Hsleep eq_refl).
  - apply alone_returns; auto.
Qed.

(** A thread waits for the property after its first value, goes to sleep, and
    is woken by an update to a value of three bytes. *)
Lemma wait_sees_change_witness :
  ∃ c t, sreachable WRecord (5 * 2 ^ 24) c ∧ s_waiters c !! 0 = Some t ∧ s_changes c = 1 ∧
    wt_pc t = PLoad ∧ wt_pc (alone 2 (s_serial c) t) = PTrue (3 * 2 ^ 24 + 2).
Proof.
  set (v := final_serial (Z.lor (5 * 2 ^ 24) 1) 3).
  set (asleep := Waiter (5 * 2 ^ 24) false PAsleep []).
  assert (Hr : sreachable WRecord (5 * 2 ^ 24) (SConf WRecord v WAtRest 1 [set_wpc asleep PLoad])).
  { eapply rtc_l; [apply (ss_call _ _ _ _ [] (5 * 2 ^ 24) false)|].
    eapply rtc_l; [eapply (ss_run _ _ _ _ _ 0); reflexivity|].
    eapply rtc_l; [apply ss_begin, (so_record _ 3); unfold PROP_VALUE_MAX; lia|].
    eapply rtc_l; [apply ss_store|]. eapply rtc_l; [apply ss_publish|].
    eapply rtc_l; [apply ss_wake|]. apply rtc_refl. }
  eexists _, _. split; [exact Hr|]. split; [reflexivity|]. split; [reflexivity|]. split; [reflexivity|].
  change (3 * 2 ^ 24 + 2)%Z with v.
  refine (wait_sees_change WRecord (5 * 2 ^ 24) (SConf WRecord v WAtRest 1 [set_wpc asleep PLoad])
    0 (set_wpc asleep PLoad) 0 _ Hr _ _ _ _); try done.
Defined.
