(* ===== verification/Lock.v ===== *)
(** private/bionic_lock.h, private/bionic_futex.h, private/ErrnoRestorer.h: the
    lock of a context node, a word and a futex.  Any number of threads; every
    atomic operation and system call is one step. *)

From Stdlib Require Import ZArith Lia Ascii.
From stdpp Require Import base numbers strings gmap list relations.
From S2P Require Import Prelude.

(** [__futex]: the result of the system call, errno kept.  [sys] is what the
    kernel gives back: a result and the errno it sets. *)
Definition futex (saved_errno : Z) (sys : Z * Z) : Z * Z :=
  let '(result, errno) := sys in
  if (result =? -1)%Z then (- errno, saved_errno)%Z else (result, errno).

(** [ErrnoRestorer]: the body runs between construction and destruction; it may
    leave another errno to restore ([override]). *)
Definition with_ErrnoRestorer {A} (body : Z → A * option Z) (errno : Z) : A * Z :=
  let saved_errno_ := errno in
  let '(a, new_errno) := body errno in (a, default saved_errno_ new_errno).

Inductive LockState := Unlocked | LockedWithoutWaiter | LockedWithWaiter.

#[export] Instance LockState_eq_dec : EqDecision LockState.
Proof. solve_decision. Defined.

(** Where a thread is: outside; in [trylock]; in [lock] before the
    compare-exchange, before the exchange, about to call futex_wait, asleep in
    it; inside the critical section; in [unlock] about to call futex_wake. *)
Inductive pc := PIdle | PTry | PCas | PXchg | PFutex | PSleep | PCrit | PWake.

#[export] Instance pc_eq_dec : EqDecision pc.
Proof. solve_decision. Defined.

(** One step of a thread alone: the new value of the word and its next place. *)
Definition thread_next (state : LockState) (p : pc) : option (LockState * pc) :=
  match p with
  | PTry => Some (if decide (state = Unlocked) then (LockedWithoutWaiter, PCrit) else (state, PIdle))
  | PCas => Some (if decide (state = Unlocked) then (LockedWithoutWaiter, PCrit) else (state, PXchg))
  | PXchg => Some (LockedWithWaiter, if decide (state = Unlocked) then PCrit else PFutex)
  | PFutex => Some (state, if decide (state = LockedWithWaiter) then PSleep else PXchg)
  | PCrit => Some (Unlocked, if decide (state = LockedWithWaiter) then PWake else PIdle)
  | PIdle | PSleep | PWake => None
  end.

Record conf := mkConf { state : LockState; threads : list pc }.

Inductive step : conf → conf → Prop :=
  | s_lock s ts i :
    ts !! i = Some PIdle → step (mkConf s ts) (mkConf s (<[i := PCas]> ts))
  | s_trylock s ts i :
    ts !! i = Some PIdle → step (mkConf s ts) (mkConf s (<[i := PTry]> ts))
  | s_thread s ts i p s' p' :
    ts !! i = Some p → thread_next s p = Some (s', p') → step (mkConf s ts) (mkConf s' (<[i := p']> ts))
  | s_wake_one s ts i j :     (** futex_wake wakes one sleeper, any one *)
    ts !! i = Some PWake → ts !! j = Some PSleep →
    step (mkConf s ts) (mkConf s (<[i := PIdle]> (<[j := PXchg]> ts)))
  | s_wake_none s ts i :
    ts !! i = Some PWake → PSleep ∉ ts → step (mkConf s ts) (mkConf s (<[i := PIdle]> ts))
  | s_interrupt s ts i :      (** futex_wait returns early *)
    ts !! i = Some PSleep → step (mkConf s ts) (mkConf s (<[i := PXchg]> ts)).

(** [Lock::init], and [n] threads. *)
Definition init (n : nat) : conf := mkConf Unlocked (replicate n PIdle).

Definition reachable (n : nat) : conf → Prop := rtc step (init n).

(** * The invariant *)

Record inv (c : conf) : Prop := {
  inv_one : ∀ i j, threads c !! i = Some PCrit → threads c !! j = Some PCrit → i = j;
  inv_held : state c = Unlocked ↔ PCrit ∉ threads c;
  inv_sleep : PSleep ∈ threads c → state c = LockedWithWaiter ∨ PWake ∈ threads c ∨ PXchg ∈ threads c
}.

(** A thread other than [i] is at [q]. *)
Definition others (ts : list pc) (i : nat) (q : pc) : Prop := ∃ j, j ≠ i ∧ ts !! j = Some q.

Lemma elem_others ts i r q : ts !! i = Some r → q ∈ ts ↔ q = r ∨ others ts i q.
Proof.
  intros Hi. rewrite list_elem_of_lookup. split.
  - intros [j Hj]. destruct (decide (j = i)) as [->|Hne]; [left; congruence|right; by exists j].
  - intros [->|(j & _ & Hj)]; eauto.
Qed.

Lemma elem_insert ts i r p q : ts !! i = Some r → q ∈ <[i := p]> ts ↔ q = p ∨ others ts i q.
Proof.
  intros Hi. assert (Hl : (i < length ts)%nat) by by eapply lookup_lt_Some.
  rewrite (elem_others _ i p) by by apply list_lookup_insert_eq.
  unfold others. apply or_iff_compat_l. split; intros (j & Hne & Hj); exists j; split; try done.
  - by rewrite list_lookup_insert_ne in Hj.
  - by rewrite list_lookup_insert_ne.
Qed.

(** The invariant as one thread sees it. *)
Lemma inv_thread s ts i r :
  inv (mkConf s ts) → ts !! i = Some r →
  (r = PCrit → ¬ others ts i PCrit) ∧ (s = Unlocked ↔ PCrit ≠ r ∧ ¬ others ts i PCrit) ∧
  (PSleep = r ∨ others ts i PSleep →
   s = LockedWithWaiter ∨ (PWake = r ∨ others ts i PWake) ∨ (PXchg = r ∨ others ts i PXchg)).
Proof.
  intros [H1 H2 H3] Hi. cbn [state threads] in *. split; [|split].
  - intros -> (j & Hne & Hj). by apply Hne, (H1 j i).
  - rewrite H2, (elem_others _ _ _ _ Hi). tauto.
  - by rewrite !(elem_others _ _ _ _ Hi) in H3.
Qed.

Lemma inv_update s s' ts i r p :
  inv (mkConf s ts) → ts !! i = Some r →
  (p = PCrit → ¬ others ts i PCrit) → (s' = Unlocked ↔ PCrit ≠ p ∧ ¬ others ts i PCrit) →
  (PSleep = p ∨ others ts i PSleep →
   s' = LockedWithWaiter ∨ (PWake = p ∨ others ts i PWake) ∨ (PXchg = p ∨ others ts i PXchg)) →
  inv (mkConf s' (<[i := p]> ts)).
Proof.
  intros [H1 _ _] Hi Hp Hs Hw. cbn [state threads] in *. split; cbn [state threads].
  - assert (Hl : (i < length ts)%nat) by by eapply lookup_lt_Some.
    intros j k. rewrite !list_lookup_insert_Some. unfold others in Hp.
    intros [(<- & Ej & _)|[Hj Ej]] [(<- & Ek & _)|[Hk Ek]]; [done|..|by apply H1];
      destruct (Hp ltac:(done)); eauto.
  - rewrite (elem_insert _ _ _ _ _ Hi), Hs. tauto.
  - by rewrite !(elem_insert _ _ _ _ _ Hi).
Qed.

Lemma lock_inv_init n : inv (init n).
Proof.
  assert (Hr : ∀ q, q ∈ replicate n PIdle → q = PIdle) by (intros q Hq; by apply elem_of_replicate in Hq as [-> _]).
  split; cbn [init state threads].
  - intros i j Hi. apply list_elem_of_lookup_2, Hr in Hi. done.
  - split; [|done]. intros _ H. by apply Hr in H.
  - intros H. by apply Hr in H.
Qed.

Lemma inv_thread_next s ts i p s' p' :
  inv (mkConf s ts) → ts !! i = Some p → thread_next s p = Some (s', p') →
  inv (mkConf s' (<[i := p']> ts)).
Proof.
  intros Hinv Hi Hn. destruct (inv_thread _ _ _ _ Hinv Hi) as (H1 & H2 & H3).
  apply (inv_update _ _ _ _ _ _ Hinv Hi); revert Hn; destruct p, s; cbn; intros; simplify_eq; naive_solver.
Qed.

Lemma lock_inv_step c c' : step c c' → inv c → inv c'.
Proof.
  intros Hstep Hinv. destruct Hstep as [s ts i Hi|s ts i Hi|s ts i p s' p' Hi Hn|s ts i j Hi Hj
    |s ts i Hi Hno|s ts i Hi].
  1,2,6: destruct (inv_thread _ _ _ _ Hinv Hi) as (H1 & H2 & H3);
    apply (inv_update _ _ _ _ _ _ Hinv Hi); naive_solver.
  - by eapply inv_thread_next.
  - assert (Hne : i ≠ j) by congruence.
    destruct (inv_thread _ _ _ _ Hinv Hj) as (H1 & H2 & H3).
    assert (Hinv' : inv (mkConf s (<[j := PXchg]> ts)))
      by (apply (inv_update _ _ _ _ _ _ Hinv Hj); naive_solver).
    assert (Hi' : <[j := PXchg]> ts !! i = Some PWake) by by rewrite list_lookup_insert_ne.
    destruct (inv_thread _ _ _ _ Hinv' Hi') as (H1' & H2' & H3').
    apply (inv_update _ _ _ _ _ _ Hinv' Hi'); [naive_solver|naive_solver|].
    intros _. right. right. right. exists j. split; [done|].
    apply list_lookup_insert_eq. by eapply lookup_lt_Some.
  - destruct (inv_thread _ _ _ _ Hinv Hi) as (H1 & H2 & H3).
    apply (inv_update _ _ _ _ _ _ Hinv Hi); [naive_solver|naive_solver|].
    intros [?|Ho]; [done|]. destruct Hno. apply (elem_others _ _ _ _ Hi). by right.
Qed.

Lemma lock_reachable_inv n c : reachable n c → inv c.
Proof.
  apply (rtc_ind_r inv); [apply lock_inv_init|]. intros c1 c2 _ Hs Hc. by eapply lock_inv_step.
Qed.

(** * What the lock promises *)

(** C15. Mutual exclusion: whatever the interleaving of [lock], [trylock] and
    [unlock], at most one thread is inside, and the word says Unlocked exactly
    when none is. *)
Theorem lock_mutual_exclusion n c :
  reachable n c →
  (∀ i j, threads c !! i = Some PCrit → threads c !! j = Some PCrit → i = j) ∧
  (state c = Unlocked ↔ ∀ i, threads c !! i ≠ Some PCrit).
Proof.
  intros Hr. destruct (lock_reachable_inv _ _ Hr) as [H1 H2 _]. split; [done|].
  rewrite H2, list_elem_of_lookup. naive_solver.
Qed.

(** C21. No wake-up is lost: while a thread sleeps in [lock], another one is inside
    and its [unlock] will wake a sleeper, or is about to wake one, or is about
    to take the lock or to mark it; so a sleeper never waits for threads that
    can do nothing. *)
Theorem lock_no_lost_wakeup n c i :
  reachable n c → threads c !! i = Some PSleep →
  ∃ j p, threads c !! j = Some p ∧
    (p = PWake ∨ p = PXchg ∨
     (p = PCrit ∧ thread_next (state c) p = Some (Unlocked, PWake))).
Proof.
  intros Hr Hi. destruct (lock_reachable_inv _ _ Hr) as [_ H2 H3].
  destruct H3 as [Hs|[Hw|Hx]].
  - by eapply list_elem_of_lookup_2.
  - assert (Hc : ¬ (PCrit ∉ threads c)) by (rewrite <-H2, Hs; done).
    apply dec_stable, list_elem_of_lookup in Hc as [j Hj]. exists j, PCrit. split; [done|].
    right. right. split; [done|]. cbn. by rewrite Hs.
  - apply list_elem_of_lookup in Hw as [j Hj]. eauto 10.
  - apply list_elem_of_lookup in Hx as [j Hj]. eauto 10.
Qed.

(** * A run: the second thread finds the lock taken and sleeps *)

Definition sample_conf : conf := mkConf LockedWithWaiter [PCrit; PSleep].

Lemma lock_sample_reachable : reachable 2 sample_conf.
Proof.
  unfold reachable, init, sample_conf. cbn [replicate].
  eapply rtc_l; [by apply (s_lock _ _ 0)|].
  eapply rtc_l; [by apply (s_thread _ _ 0 PCas LockedWithoutWaiter PCrit)|].
  eapply rtc_l; [by apply (s_lock _ _ 1)|].
  eapply rtc_l; [by apply (s_thread _ _ 1 PCas LockedWithoutWaiter PXchg)|].
  eapply rtc_l; [by apply (s_thread _ _ 1 PXchg LockedWithWaiter PFutex)|].
  eapply rtc_l; [by apply (s_thread _ _ 1 PFutex LockedWithWaiter PSleep)|].
  apply rtc_refl.
Qed.

Lemma lock_mutual_exclusion_witness :
  (∀ i j, threads sample_conf !! i = Some PCrit → threads sample_conf !! j = Some PCrit → i = j) ∧
  (state sample_conf = Unlocked ↔ ∀ i, threads sample_conf !! i ≠ Some PCrit).
Proof. exact (lock_mutual_exclusion 2 sample_conf lock_sample_reachable). Defined.

Lemma lock_no_lost_wakeup_witness :
  ∃ j p, threads sample_conf !! j = Some p ∧
    (p = PWake ∨ p = PXchg ∨
     (p = PCrit ∧ thread_next (state sample_conf) p = Some (Unlocked, PWake))).
Proof. exact (lock_no_lost_wakeup 2 sample_conf 1 lock_sample_reachable eq_refl). Defined.
