(* ===== verification/ContextNodeConcurrent.v ===== *)
(** Threads that open the area of one context node at the same time
    (context_node.cpp: [CheckAccessAndOpen], [CheckAccess], [Open]).  The lock is
    an interface, which [Lock] implements; every load and store of a member, every
    system call and every step inside the lock is one step. *)

From Stdlib Require Import ZArith Lia Ascii.
From stdpp Require Import base numbers strings gmap list relations.
From S2P Require Import Prelude Lock.

(** Nothing is among the elements of a list that does not have it. *)
Ltac absent :=
  exfalso; match goal with H : _ ∈ _ |- _ => revert H end; apply (bool_decide_unpack _); vm_compute; exact I.

(** * What a lock promises *)

Inductive phase := Outside | Waiting | Holding | Leaving.

#[export] Instance phase_eq_dec : EqDecision phase.
Proof. solve_decision. Defined.

(** [mx_acquire i] and [mx_release i]: thread [i] calls lock or unlock;
    [mx_internal]: a step of a thread inside one of them. *)
Class Mutex (L : Type) := {
  mx_init : nat → L;
  mx_at : L → nat → option phase;
  mx_acquire : nat → L → L → Prop;
  mx_release : nat → L → L → Prop;
  mx_internal : L → L → Prop
}.

Class MutexLaws (L : Type) `{Mutex L} := {
  mx_inv : L → Prop;
  mx_inv_init n : mx_inv (mx_init n);
  mx_at_init n i : i < n → mx_at (mx_init n) i = Some Outside;
  mx_exclusive l i j : mx_inv l → mx_at l i = Some Holding → mx_at l j = Some Holding → i = j;
  mx_acquire_ok i l l' : mx_inv l → mx_acquire i l l' →
    mx_inv l' ∧ mx_at l' i = Some Waiting ∧ ∀ j, j ≠ i → mx_at l' j = mx_at l j;
  mx_release_ok i l l' : mx_inv l → mx_release i l l' →
    mx_inv l' ∧ (mx_at l' i = Some Leaving ∨ mx_at l' i = Some Outside) ∧
    ∀ j, j ≠ i → mx_at l' j = mx_at l j;
  mx_internal_ok l l' : mx_inv l → mx_internal l l' →
    mx_inv l' ∧ ∀ i, mx_at l' i = mx_at l i ∨
      (mx_at l i = Some Waiting ∧ mx_at l' i = Some Holding) ∨
      (mx_at l i = Some Leaving ∧ mx_at l' i = Some Outside)
}.

(** ** The lock of bionic_lock.h *)

Definition phase_of (p : pc) : phase :=
  match p with
  | PIdle => Outside
  | PTry | PCas | PXchg | PFutex | PSleep => Waiting
  | PCrit => Holding
  | PWake => Leaving
  end.

Definition bionic_acquire (i : nat) (l l' : conf) : Prop :=
  threads l !! i = Some PIdle ∧ l' = mkConf (state l) (<[i := PCas]> (threads l)).

Definition bionic_release (i : nat) (l l' : conf) : Prop :=
  ∃ s p, threads l !! i = Some PCrit ∧ thread_next (state l) PCrit = Some (s, p) ∧
    l' = mkConf s (<[i := p]> (threads l)).

(** Nobody calls lock, trylock or unlock. *)
Definition bionic_internal (l l' : conf) : Prop :=
  step l l' ∧ ∀ i p, threads l !! i = Some p → p ∈ [PIdle; PTry; PCrit] → threads l' !! i = Some p.

#[export] Instance Bionic : Mutex conf := {
  mx_init := Lock.init;
  mx_at l i := phase_of <$> threads l !! i;
  mx_acquire := bionic_acquire;
  mx_release := bionic_release;
  mx_internal := bionic_internal
}.

(** One thread moves, as far as a step inside lock and unlock goes. *)
Definition moves_on (p q : pc) : Prop :=
  phase_of q = phase_of p ∨ (phase_of p = Waiting ∧ phase_of q = Holding) ∨
  (phase_of p = Leaving ∧ phase_of q = Outside).

Lemma insert_moves (ts : list pc) (i : nat) p q (j : nat) :
  ts !! i = Some p → moves_on p q →
  let l := phase_of <$> ts !! j in let l' := phase_of <$> <[i := q]> ts !! j in
  l' = l ∨ (l = Some Waiting ∧ l' = Some Holding) ∨ (l = Some Leaving ∧ l' = Some Outside).
Proof.
  intros Hi Hm. cbv zeta. destruct (decide (j = i)) as [->|Hne].
  - rewrite list_lookup_insert_eq by by eapply lookup_lt_Some. rewrite Hi. cbn.
    destruct Hm as [->|[[-> ->]|[-> ->]]]; auto.
  - rewrite list_lookup_insert_ne by done. by left.
Qed.

Lemma bionic_internal_moves l l' i : bionic_internal l l' →
  let a := phase_of <$> threads l !! i in let a' := phase_of <$> threads l' !! i in
  a' = a ∨ (a = Some Waiting ∧ a' = Some Holding) ∨ (a = Some Leaving ∧ a' = Some Outside).
Proof.
  intros [Hs Hstay]. cbv zeta. destruct Hs as [s ts j Hj|s ts j Hj|s ts j p s' p' Hj Hn|s ts j j' Hj Hj'|s ts j Hj Hno|s ts j Hj];
    cbn [threads] in *.
  1,2: specialize (Hstay j _ Hj ltac:(set_solver)); rewrite list_lookup_insert_eq in Hstay by (by eapply lookup_lt_Some); discriminate.
  - apply (insert_moves _ _ p); [done|]. assert (Hp : p ∉ [PIdle; PTry; PCrit] ∨ p' = p).
    { destruct (decide (p ∈ [PIdle; PTry; PCrit])) as [Hin|]; [right|by left].
      specialize (Hstay j p Hj Hin). rewrite list_lookup_insert_eq in Hstay by by eapply lookup_lt_Some. congruence. }
    destruct Hp as [Hp| ->]; [|by left].
    unfold moves_on. destruct p, s; cbn in Hn; repeat case_decide; simplify_eq; cbn; solve [auto | exfalso; apply Hp; set_solver].
  - destruct (decide (j = j')) as [->|Hne]; [congruence|].
    destruct (decide (i = j)) as [->|Hi].
    + rewrite list_lookup_insert_eq by (rewrite length_insert; by eapply lookup_lt_Some). rewrite Hj. auto.
    + rewrite list_lookup_insert_ne by done. by apply (insert_moves _ _ PSleep); [|left].
  - apply (insert_moves _ _ PWake); [done|]. by right; right.
  - apply (insert_moves _ _ PSleep); [done|]. by left.
Qed.

#[export] Instance Bionic_Laws : MutexLaws conf.
Proof.
  refine {| mx_inv := Lock.inv |}.
  - apply lock_inv_init.
  - intros n i Hi. cbn. by rewrite lookup_replicate_2.
  - intros l i j [H1 _ _] Hi Hj. cbn in *. apply fmap_Some in Hi as (p & Hi & Hp), Hj as (q & Hj & Hq).
    apply H1; [by destruct p|by destruct q].
  - intros i l l' Hl [Hi ->]. destruct l as [s ts]. cbn [state threads] in *. split.
    + eapply lock_inv_step; [|exact Hl]. by apply s_lock.
    + cbn. rewrite list_lookup_insert_eq by by eapply lookup_lt_Some. split; [done|].
      intros j Hne. by rewrite list_lookup_insert_ne.
  - intros i l l' Hl (s' & p & Hi & Hn & ->). destruct l as [s ts]. cbn [state threads] in *. split.
    + eapply lock_inv_step; [|exact Hl]. by eapply s_thread.
    + cbn [mx_at Bionic threads]. rewrite list_lookup_insert_eq by by eapply lookup_lt_Some. split.
      * cbn in Hn. case_decide; simplify_eq; auto.
      * intros j Hne. by rewrite list_lookup_insert_ne.
  - intros l l' Hl Hs. split; [eapply lock_inv_step; [apply Hs|exact Hl]|]. intros i. by apply bionic_internal_moves.
Defined.

(** * The threads of a node *)

(** Who called [Open]. *)
Inductive caller := FromCheck | Direct.

(** What [Open] returns once it has released the lock: true, false, or [pa_]. *)
Inductive open_ret := RTrue | RFalse | RPa.

(** Where a thread is, in the order of the code: at the test of [pa_] and of
    [no_access_], at access(); in [Open], at the call of lock, inside it, at the
    test of [pa_], at the mapping of the file, at the call of unlock, inside it,
    at the load of [pa_] that is returned; at the store of [no_access_], at the
    load of [pa_] that is returned; back. *)
Inductive npc :=
  | NIdle | NTest | NTestAccess | NAccess
  | NAcquire (k : caller) | NLocking (k : caller) | NHeld (k : caller) | NMap (k : caller)
  | NRelease (k : caller) (r : open_ret) | NUnlocking (k : caller) (r : open_ret) | NOpened (k : caller)
  | NDeny | NReturn | NDone (k : caller) (r : bool).

(** A node; mappings are numbered in the order in which they are made. *)
Record node (L : Type) := mkNode {
  n_lock : L; n_pa : option nat; n_no_access : bool; n_maps : nat; n_threads : list npc
}.
Arguments mkNode {L}.
Arguments n_lock {L}.
Arguments n_pa {L}.
Arguments n_no_access {L}.
Arguments n_maps {L}.
Arguments n_threads {L}.

Section node.
Context {L : Type} `{Mutex L}.

Abbreviation is_set pa := (bool_decide (is_Some pa)).

(** After [Open] has returned [b]. *)
Definition opened (k : caller) (b : bool) : npc :=
  match k with Direct => NDone Direct b | FromCheck => if b then NReturn else NDeny end.

(** A step that loads members and calls the kernel only. *)
Inductive loads (pa : option nat) (no_access : bool) : npc → npc → Prop :=
  | l_test : loads pa no_access NTest (if is_set pa then NReturn else NTestAccess)
  | l_no_access : loads pa no_access NTestAccess (if no_access then NReturn else NAccess)
  | l_access (ok : bool) : loads pa no_access NAccess (if ok then NAcquire FromCheck else NDeny)
  | l_held k : loads pa no_access (NHeld k) (if is_set pa then NRelease k RTrue else NMap k)
  | l_too_long k : loads pa no_access (NMap k) (NRelease k RFalse)
  | l_opened k : loads pa no_access (NOpened k) (opened k (is_set pa))
  | l_return : loads pa no_access NReturn (NDone FromCheck (is_set pa)).

Inductive nstep : node L → node L → Prop :=
  | n_call l pa na ms ts i p q :
    ts !! i = Some p → p = NIdle ∨ (∃ k r, p = NDone k r) → q ∈ [NTest; NAcquire Direct] →
    nstep (mkNode l pa na ms ts) (mkNode l pa na ms (<[i := q]> ts))
  | n_loads l pa na ms ts i p q :
    ts !! i = Some p → loads pa na p q →
    nstep (mkNode l pa na ms ts) (mkNode l pa na ms (<[i := q]> ts))
  | n_acquire l l' pa na ms ts i k :
    ts !! i = Some (NAcquire k) → mx_acquire i l l' →
    nstep (mkNode l pa na ms ts) (mkNode l' pa na ms (<[i := NLocking k]> ts))
  | n_internal l l' pa na ms ts :
    mx_internal l l' → nstep (mkNode l pa na ms ts) (mkNode l' pa na ms ts)
  | n_locked l pa na ms ts i k :
    ts !! i = Some (NLocking k) → mx_at l i = Some Holding →
    nstep (mkNode l pa na ms ts) (mkNode l pa na ms (<[i := NHeld k]> ts))
  | n_map_fails l pa na ms ts i k :
    ts !! i = Some (NMap k) →
    nstep (mkNode l pa na ms ts) (mkNode l None na ms (<[i := NRelease k RPa]> ts))
  | n_map l pa na ms ts i k :
    ts !! i = Some (NMap k) →
    nstep (mkNode l pa na ms ts) (mkNode l (Some ms) na (S ms) (<[i := NRelease k RPa]> ts))
  | n_release l l' pa na ms ts i k r :
    ts !! i = Some (NRelease k r) → mx_release i l l' →
    nstep (mkNode l pa na ms ts) (mkNode l' pa na ms (<[i := NUnlocking k r]> ts))
  | n_unlocked l pa na ms ts i k r :
    ts !! i = Some (NUnlocking k r) → mx_at l i = Some Outside →
    nstep (mkNode l pa na ms ts)
          (mkNode l pa na ms (<[i := match r with RTrue => opened k true | RFalse => opened k false | RPa => NOpened k end]> ts))
  | n_deny l pa na ms ts i :
    ts !! i = Some NDeny → nstep (mkNode l pa na ms ts) (mkNode l pa true ms (<[i := NReturn]> ts)).

Definition node_init (n : nat) : node L := mkNode (mx_init n) None false 0 (replicate n NIdle).

Definition node_reachable (n : nat) : node L → Prop := rtc nstep (node_init n).

(** * The invariant *)

(** Where the lock may have a thread. *)
Definition phases (p : npc) : list phase :=
  match p with
  | NLocking _ => [Waiting; Holding]
  | NHeld _ | NMap _ | NRelease _ _ => [Holding]
  | NUnlocking _ _ => [Leaving; Outside]
  | _ => [Outside]
  end.

(** What a thread knows of the members. *)
Definition knows (pa : option nat) (na : bool) (p : npc) : Prop :=
  match p with
  | NMap _ => pa = None
  | NRelease _ RTrue | NUnlocking _ RTrue | NDone _ true => is_Some pa
  | NDone FromCheck false => na = true
  | NReturn => is_Some pa ∨ na = true
  | _ => True
  end.

Lemma phases_on p :
  (Waiting ∈ phases p → Holding ∈ phases p) ∧ (Leaving ∈ phases p → Outside ∈ phases p).
Proof.
  split; destruct p; cbn; intros Hin; (by left) || (by right; left) || absent.
Qed.

Context `{!MutexLaws L}.

Record node_inv (c : node L) : Prop := {
  ni_lock : mx_inv (n_lock c);
  ni_phase i p : n_threads c !! i = Some p → ∃ ph, mx_at (n_lock c) i = Some ph ∧ ph ∈ phases p;
  ni_knows : Forall (knows (n_pa c) (n_no_access c)) (n_threads c);
  ni_maps : (n_pa c = None ∧ n_maps c = 0) ∨ (n_pa c = Some 0 ∧ n_maps c = 1)
}.

Lemma ni_set l l' pa pa' na na' ms ms' ts i p q :
  node_inv (mkNode l pa na ms ts) → ts !! i = Some p → mx_inv l' →
  (∀ j, j ≠ i → mx_at l' j = mx_at l j) → (∃ ph, mx_at l' i = Some ph ∧ ph ∈ phases q) →
  knows pa' na' q → (∀ j r, j ≠ i → ts !! j = Some r → knows pa na r → knows pa' na' r) →
  ((pa' = None ∧ ms' = 0) ∨ (pa' = Some 0 ∧ ms' = 1)) →
  node_inv (mkNode l' pa' na' ms' (<[i := q]> ts)).
Proof.
  intros [Hl Hph Hk Hm] Hi Hl' Hat Hq Hkq Hkr Hm'. cbn in *. split; cbn; try done.
  - intros j r Hj. apply list_lookup_insert_Some in Hj as [(<- & <- & _)|[Hne Hj]]; [done|].
    rewrite Hat by done. by apply Hph.
  - apply Forall_lookup. intros j r Hj. rewrite Forall_lookup in Hk.
    apply list_lookup_insert_Some in Hj as [(<- & <- & _)|[Hne Hj]]; [done|]. by eapply Hkr, Hk.
Qed.

(** A step that changes nothing but the place of one thread. *)
Lemma ni_move l pa na ms ts i p q :
  node_inv (mkNode l pa na ms ts) → ts !! i = Some p → (knows pa na p → knows pa na q) →
  (∀ ph, mx_at l i = Some ph → ph ∈ phases p → ph ∈ phases q) →
  node_inv (mkNode l pa na ms (<[i := q]> ts)).
Proof.
  intros Hinv Hi Hk Hph. pose proof Hinv as [Hl Hp Hkn Hm]. cbn in *.
  destruct (Hp i p Hi) as (ph & Hat & Hin). rewrite Forall_lookup in Hkn.
  apply (ni_set l l pa pa na na ms ms ts i p q); try done.
  - eauto.
  - apply Hk. by eapply Hkn.
Qed.

(** One thread is inside. *)
Lemma ni_alone c i j p q :
  node_inv c → n_threads c !! i = Some p → n_threads c !! j = Some q →
  phases p = [Holding] → phases q = [Holding] → i = j.
Proof.
  intros [Hl Hp _ _] Hi Hj Ep Eq. destruct (Hp i p Hi) as (ph & Hat & Hin), (Hp j q Hj) as (ph' & Hat' & Hin').
  rewrite Ep in Hin. rewrite Eq in Hin'. set_unfold in Hin. set_unfold in Hin'. destruct Hin, Hin'; subst; try done.
  by eapply mx_exclusive.
Qed.

Lemma loads_ok pa na p q : loads pa na p q →
  (knows pa na p → knows pa na q) ∧ phases q = phases p.
Proof.
  intros Hl. destruct Hl as [| |ok|k|k|k|]; try case_bool_decide as Hpa; cbn.
  - auto.
  - done.
  - destruct na; cbn; auto.
  - by destruct ok.
  - done.
  - split; [|done]. intros _. by apply eq_None_not_Some.
  - done.
  - destruct k; cbn; auto.
  - by destruct k.
  - done.
  - split; [|done]. by intros [?| ->].
Qed.

Lemma node_inv_step c c' : nstep c c' → node_inv c → node_inv c'.
Proof.
  intros Hstep Hinv. pose proof Hinv as [Hl Hp Hk Hm].
  destruct Hstep as [l pa na ms ts i p q Hi Hc Hq|l pa na ms ts i p q Hi Hlo|l l' pa na ms ts i k Hi Ha
    |l l' pa na ms ts Hint|l pa na ms ts i k Hi Hat|l pa na ms ts i k Hi|l pa na ms ts i k Hi
    |l l' pa na ms ts i k r Hi Hr|l pa na ms ts i k r Hi Hat|l pa na ms ts i Hi];
    cbn [n_lock n_pa n_no_access n_maps n_threads] in *.
  - apply (ni_move _ _ _ _ _ _ p); [done|done|..]; set_unfold in Hq; destruct Hq as [->|[->|[]]]; try done;
      by destruct Hc as [->|(k & r & ->)].
  - destruct (loads_ok _ _ _ _ Hlo) as [H1 H2]. apply (ni_move _ _ _ _ _ _ p); try done. by rewrite H2.
  - destruct (mx_acquire_ok _ _ _ Hl Ha) as (Hl' & Hat & Ho).
    eapply ni_set; try done. eexists. split; [exact Hat|]. by left.
  - destruct (mx_internal_ok _ _ Hl Hint) as [Hl' Hat]. split; cbn; try done.
    intros i p Hi. destruct (Hp i p Hi) as (ph & E & Hin).
    destruct (Hat i) as [Heq|[[E1 E2]|[E1 E2]]]; [rewrite Heq; eauto|..]; eexists; (split; [exact E2|]);
      rewrite E in E1; injection E1 as ->; by apply phases_on.
  - apply (ni_move _ _ _ _ _ _ (NLocking k)); try done. intros ph E _. cbn. assert (ph = Holding) as -> by congruence. by left.
  - assert (pa = None) as -> by (rewrite Forall_lookup in Hk; exact (Hk i _ Hi)).
    by apply (ni_move _ _ _ _ _ _ (NMap k)).
  - destruct Hm as [[-> ->]|[-> _]]; [|by rewrite Forall_lookup in Hk; specialize (Hk i _ Hi)].
    destruct (Hp _ _ Hi) as (ph & Hat & Hin). eapply ni_set; try done; [by eauto| |by right].
    intros j q Hne Hj Hq. destruct q as [| | | |k'|k'|k'|k'|k' r|k' r|k'| | |k' r]; cbn in *; try done.
    + destruct Hne. by apply (ni_alone _ j i (NMap k') (NMap k) Hinv).
    + by destruct r.
    + by destruct r.
    + by destruct Hq as [[? [=]]|Hq]; right.
    + destruct k', r; try done; by destruct Hq.
  - destruct (mx_release_ok _ _ _ Hl Hr) as (Hl' & Hat & Ho).
    rewrite Forall_lookup in Hk. specialize (Hk _ _ Hi). eapply ni_set; try done.
    destruct Hat as [Hat|Hat]; eexists; (split; [exact Hat|]); (by left) || (by right; left).
  - apply (ni_move _ _ _ _ _ _ (NUnlocking k r)); try done.
    + intros Hkn. destruct r, k; cbn in *; auto.
    + intros ph E _. assert (ph = Outside) as -> by congruence. destruct r, k; cbn; by left.
  - destruct (Hp _ _ Hi) as (ph & Hat & Hin). eapply ni_set; try done; [by eauto|by right|].
    intros j q Hne Hj Hq. destruct q as [| | | |k'|k'|k'|k'|k' r|k' r|k'| | |k' r]; cbn in *; try done.
    + by right.
    + by destruct k', r.
Qed.

Lemma node_reachable_inv n c : node_reachable n c → node_inv c.
Proof.
  apply (rtc_ind_r node_inv (node_init n)).
  - split; cbn; [apply mx_inv_init| | |by left].
    + intros i p [-> Hi]%lookup_replicate. exists Outside. split; [by apply mx_at_init|by left].
    + by apply Forall_replicate.
  - intros c1 c2 _ Hs. by apply node_inv_step.
Qed.

(** An area that is mapped stays. *)
Lemma node_pa_stays c c' a : node_inv c → rtc nstep c c' → n_pa c = Some a → n_pa c' = Some a.
Proof.
  intros Hinv Hr Ha. assert (Hc : node_inv c' ∧ n_pa c' = Some a); [|by destruct Hc].
  revert Hr. apply (rtc_ind_r (λ c', node_inv c' ∧ n_pa c' = Some a) c); [done|].
  intros c1 c2 _ Hs [H1 H2]. split; [by eapply node_inv_step|].
  destruct H1 as [_ _ Hk _]. destruct Hs as [| | | | |l pa na ms ts i k Hi|l pa na ms ts i k Hi| | |]; try done;
    cbn in *; rewrite Forall_lookup in Hk; specialize (Hk i _ Hi); cbn in Hk; congruence.
Qed.

(** C16. Whatever number of threads open one node, over any lock that keeps its
    promise: the file of the node is mapped once at most; a call that returns
    true has an area, the same for every thread, that stays the area of the node;
    a [CheckAccessAndOpen] that returns false has marked the node as one without
    access. *)
Theorem node_maps_once n c :
  node_reachable n c →
  n_maps c ≤ 1 ∧
  (∀ i k, n_threads c !! i = Some (NDone k true) →
     n_pa c = Some 0 ∧ ∀ c', rtc nstep c c' → n_pa c' = Some 0) ∧
  (∀ i, n_threads c !! i = Some (NDone FromCheck false) → n_no_access c = true).
Proof.
  intros Hr. pose proof (node_reachable_inv _ _ Hr) as Hinv. pose proof Hinv as [_ _ Hk Hm].
  rewrite Forall_lookup in Hk. split_and!.
  - destruct Hm as [[_ ->]|[_ ->]]; lia.
  - intros i k Hi. specialize (Hk i _ Hi). destruct Hm as [[Hn _]|[Hs _]].
    + rewrite Hn in Hk. destruct k; by destruct Hk.
    + split; [done|]. intros c' Hc. by eapply node_pa_stays.
  - intros i Hi. by apply (Hk i _ Hi).
Qed.
End node.

(** * A run: the second thread sleeps in the lock while the first maps the file *)

Ltac node_step tac := eapply rtc_l; [solve [tac]|cbn].
Ltac node_load i := node_step ltac:(eapply (n_loads _ _ _ _ _ i); [reflexivity|constructor]); cbn.
Ltac lock_step tac :=
  node_step ltac:(eapply n_internal; split; [tac|intros [|[|?]] ?; cbn; intros; simplify_eq; done || absent]).
Ltac lock_thread i := lock_step ltac:(eapply (s_thread _ _ i); reflexivity).

Definition two_opened : node conf :=
  mkNode (mkConf Unlocked [PIdle; PIdle]) (Some 0) false 1 [NDone FromCheck true; NDone Direct true].

Lemma two_opened_reachable : node_reachable 2 two_opened.
Proof.
  unfold node_reachable, node_init, two_opened. cbn.
  node_step ltac:(apply (n_call _ _ _ _ _ 0 NIdle NTest); [reflexivity|by left|by left]).
  node_step ltac:(apply (n_call _ _ _ _ _ 1 NIdle (NAcquire Direct)); [reflexivity|by left|by right; left]).
  node_load 0. node_load 0.
  node_step ltac:(eapply (n_loads _ _ _ _ _ 0); [reflexivity|apply (l_access _ _ true)]).
  node_step ltac:(eapply (n_acquire _ _ _ _ _ _ 0); [reflexivity|by split]).
  lock_thread 0.
  node_step ltac:(eapply (n_locked _ _ _ _ _ 0); reflexivity).
  node_step ltac:(eapply (n_acquire _ _ _ _ _ _ 1); [reflexivity|by split]).
  lock_thread 1. lock_thread 1. lock_thread 1.
  node_step ltac:(eapply (n_loads _ _ _ _ _ 0); [reflexivity|apply l_held]).
  node_step ltac:(eapply (n_map _ _ _ _ _ 0); reflexivity).
  node_step ltac:(eapply (n_release _ _ _ _ _ _ 0); [reflexivity|by eexists _, _]).
  lock_step ltac:(eapply (s_wake_one _ _ 0 1); reflexivity).
  lock_thread 1.
  node_step ltac:(eapply (n_locked _ _ _ _ _ 1); reflexivity).
  node_step ltac:(eapply (n_loads _ _ _ _ _ 1); [reflexivity|apply l_held]).
  node_step ltac:(eapply (n_unlocked _ _ _ _ _ 0); reflexivity).
  node_step ltac:(eapply (n_loads _ _ _ _ _ 0); [reflexivity|apply l_opened]).
  node_load 0.
  node_step ltac:(eapply (n_release _ _ _ _ _ _ 1); [reflexivity|by eexists _, _]).
  lock_step ltac:(eapply (s_wake_none _ _ 1); [reflexivity|apply (bool_decide_unpack _); vm_compute; exact I]).
  node_step ltac:(eapply (n_unlocked _ _ _ _ _ 1); reflexivity).
  apply rtc_refl.
Qed.

Lemma node_maps_once_witness :
  n_maps two_opened ≤ 1 ∧ ∀ c', rtc nstep two_opened c' → n_pa c' = Some 0.
Proof.
  destruct (node_maps_once 2 two_opened two_opened_reachable) as (H1 & H2 & _).
  split; [exact H1|]. exact (proj2 (H2 0 FromCheck eq_refl)).
Defined.
