(* ===== verification/Vector.v ===== *)
(** utils/vector.c and include/vector.h: the growable array of pointers of the
    resetprop tool, its iteration macros included. *)

From Stdlib Require Import ZArith Lia Ascii Sorted.
From stdpp Require Import base numbers sorting strings gmap list.
From S2P Require Import Prelude.

Section vector.
(** What the pointers point to. *)
Context {A : Type}.

(** A slot of the array: fresh from malloc, a null pointer or an element. *)
Inductive slot := Garbage | Null | Elem (a : A).

(** [struct vector]; [None] is the null [data]. *)
Record vector := mkVector { vec_size : Z; vec_cap : Z; vec_entry : option (list slot) }.

Definition vec_init : vector := mkVector 0 1 (Some [Garbage]).

(** [realloc(data, sizeof(void* ) * n)] *)
Definition realloc (d : option (list slot)) (n : nat) : list slot :=
  let old := default [] d in take n old ++ replicate (n - length old) Garbage.

(** [data[i]], as a load and as a store. *)
Definition vec_at (v : vector) (i : Z) : cres slot :=
  let! d := deref (vec_entry v) in
  if (i <? 0)%Z then Fault else deref (d !! Z.to_nat i).

Definition vec_set (v : vector) (i : Z) (p : slot) : cres vector :=
  let! d := deref (vec_entry v) in
  if (i <? 0)%Z || (i >=? Z.of_nat (length d))%Z then Fault
  else Ret (mkVector (vec_size v) (vec_cap v) (Some (<[Z.to_nat i := p]> d))).

Definition vec_push_back (v : vector) (p : slot) : cres vector :=
  let v := if (vec_size v =? vec_cap v)%Z then
             let cap := u32 (vec_cap v * 2) in
             mkVector (vec_size v) cap (Some (realloc (vec_entry v) (Z.to_nat cap)))
           else v in
  let! v := vec_set v (vec_size v) p in
  Ret (mkVector (u32 (vec_size v + 1)) (vec_cap v) (vec_entry v)).

(** [vec_push_back_all]: the variadic arguments up to the null one. *)
Fixpoint vec_push_back_all (v : vector) (p : slot) (args : list A) : cres vector :=
  let! v := vec_push_back v p in
  match args with
  | [] => Ret v
  | a :: args => vec_push_back_all v (Elem a) args
  end.

Definition vec_pop_back (v : vector) : cres (slot * vector) :=
  let! ret := vec_at v (u32 (vec_size v - 1)) in
  Ret (ret, mkVector (u32 (vec_size v - 1)) (vec_cap v) (vec_entry v)).

(** [vec_for_each(v, e) body]: the next element is loaded before the test
    that ends the loop.  [body] tells whether to [break]. *)
Fixpoint for_each_loop {C} (fuel : nat) (v : vector) (i : Z) (e : slot)
    (body : slot → C → bool * C) (c : C) : cres C :=
  match fuel with
  | O => OutOfFuel
  | S fuel =>
    if (i <? vec_size v)%Z then
      let '(brk, c) := body e c in
      if brk then Ret c
      else let! e := vec_at v (i + 1) in for_each_loop fuel v (i + 1) e body c
    else Ret c
  end.

Definition vec_for_each {C} (v : vector) (body : slot → C → bool * C) (c : C) : cres C :=
  let! e := vec_at v 0 in
  for_each_loop (S (Z.to_nat (vec_size v))) v 0 e body c.

(** [vec_for_each_r(v, e) body] *)
Fixpoint for_each_r_loop {C} (fuel : nat) (v : vector) (i : Z) (e : slot)
    (body : slot → C → bool * C) (c : C) : cres C :=
  match fuel with
  | O => OutOfFuel
  | S fuel =>
    if (i >=? 0)%Z then
      let '(brk, c) := body e c in
      if brk then Ret c
      else let! e := vec_at v (i - 1) in for_each_r_loop fuel v (i - 1) e body c
    else Ret c
  end.

Definition vec_for_each_r {C} (v : vector) (body : slot → C → bool * C) (c : C) : cres C :=
  let! e := if (vec_size v >? 0)%Z then vec_at v (vec_size v - 1) else Ret Null in
  for_each_r_loop (S (Z.to_nat (vec_size v))) v (vec_size v - 1) e body c.

(** [vec_comp] with the static [cmp]; null pointers come last. *)
Definition vec_comp (cmp : option (A → A → comparison)) (a b : slot) : comparison :=
  match a, b with
  | Elem x, Elem y => match cmp with Some f => f x y | None => Eq end
  | Elem _, _ => Lt
  | _, Elem _ => Gt
  | _, _ => Eq
  end.

Definition comp_le (cmp : option (A → A → comparison)) (a b : slot) : Prop :=
  vec_comp cmp a b ≠ Gt.

#[export] Instance comp_le_dec cmp a b : Decision (comp_le cmp a b).
Proof. unfold comp_le. destruct (vec_comp cmp a b); [left|left|right]; naive_solver. Defined.

(** [qsort] of the first [size] slots, then the null pointers at the end are
    dropped.  [qsort] orders equal elements as it likes; here they stay in
    the order of the merge sort. *)
Definition vec_sort (v : vector) (compar : option (A → A → comparison)) : cres vector :=
  let! d := deref (vec_entry v) in
  let n := Z.to_nat (vec_size v) in
  if (length d <? n)%nat then Fault
  else
    let d := merge_sort (comp_le compar) (take n d) ++ drop n d in
    let v := mkVector (vec_size v) (vec_cap v) (Some d) in
    let! size := vec_for_each_r v (λ e size,
      match e with Null => (false, u32 (size - 1)) | _ => (true, size) end) (vec_size v) in
    Ret (mkVector size (vec_cap v) (vec_entry v)).

Definition vec_destroy (v : vector) : vector := mkVector 0 0 None.

(** [vec_deep_destroy]: the pointers given to [free], in order. *)
Definition vec_deep_destroy (v : vector) : cres (list slot * vector) :=
  let! freed := vec_for_each v (λ e l, (false, l ++ [e])) [] in
  Ret (freed, vec_destroy v).

Definition vec_dup (v : vector) : cres vector :=
  let! d := deref (vec_entry v) in
  if (length d <? Z.to_nat (vec_cap v))%nat then Fault
  else Ret (mkVector (vec_size v) (vec_cap v) (Some (take (Z.to_nat (vec_cap v)) d))).

(** * The sequence a vector holds *)

Record vec_ok (v : vector) : Prop := {
  vo_data : ∃ d, vec_entry v = Some d ∧ Z.of_nat (length d) = vec_cap v;
  vo_size : (0 ≤ vec_size v ≤ vec_cap v)%Z;
  vo_cap : (1 ≤ vec_cap v < 2 ^ 31)%Z
}.

Definition contents (v : vector) : list slot :=
  take (Z.to_nat (vec_size v)) (default [] (vec_entry v)).

Lemma length_contents v : vec_ok v → Z.of_nat (length (contents v)) = vec_size v.
Proof.
  intros [(d & Hd & Hlen) Hs Hc]. unfold contents. rewrite Hd. simpl. rewrite length_take. lia.
Qed.

Lemma contents_lookup v i :
  vec_ok v → (0 ≤ i < vec_size v)%Z →
  ∃ x, vec_at v i = Ret x ∧ contents v !! Z.to_nat i = Some x.
Proof.
  intros [(d & Hd & Hlen) Hs Hc] Hi. unfold vec_at, contents. rewrite Hd. cbn [deref cbind default].
  rewrite (proj2 (Z.ltb_ge _ _)) by lia.
  destruct (lookup_lt_is_Some_2 d (Z.to_nat i) ltac:(lia)) as [x Hx]. rewrite Hx.
  exists x. split; [done|]. simpl. rewrite lookup_take_lt by lia. done.
Qed.

Lemma length_realloc d n : length (realloc d n) = n.
Proof. unfold realloc. rewrite length_app, length_take, length_replicate. lia. Qed.

Lemma vec_set_ok v p :
  vec_ok v → (vec_size v < vec_cap v)%Z →
  ∃ v', vec_set v (vec_size v) p = Ret v' ∧ vec_size v' = vec_size v ∧ vec_cap v' = vec_cap v ∧
    ∃ d, vec_entry v' = Some d ∧ Z.of_nat (length d) = vec_cap v ∧
      take (S (Z.to_nat (vec_size v))) d = contents v ++ [p].
Proof.
  intros [(d & Hd & Hlen) Hs Hc] Hlt. unfold vec_set, contents. rewrite Hd. cbn [deref cbind default].
  rewrite (proj2 (Z.ltb_ge _ _)), Z.geb_leb, (proj2 (Z.leb_gt _ _)) by lia. cbn [orb].
  eexists. split; [done|]. split; [done|]. split; [done|]. eexists. split; [done|].
  rewrite length_insert. split; [done|].
  rewrite (take_S_r _ _ p) by (apply list_lookup_insert_eq; lia).
  by rewrite take_insert_ge by lia.
Qed.

(** Pushing appends: from a well-formed vector with room in [unsigned] for
    twice its capacity, [vec_push_back] never writes outside the block, keeps
    the vector well-formed and adds exactly the new pointer at the end; the
    capacity changes only when the block was full, and then doubles. *)
Theorem vec_push_back_appends v p :
  vec_ok v → (vec_cap v < 2 ^ 30)%Z →
  ∃ v', vec_push_back v p = Ret v' ∧ vec_ok v' ∧ contents v' = contents v ++ [p] ∧
    vec_cap v' = (if decide (vec_size v = vec_cap v) then 2 * vec_cap v else vec_cap v)%Z.
Proof.
  intros Hv Hcap. unfold vec_push_back.
  set (v1 := if (_ =? _)%Z then _ else v).
  assert (H1 : vec_ok v1 ∧ contents v1 = contents v ∧ vec_size v1 = vec_size v ∧
    vec_cap v1 = (if decide (vec_size v = vec_cap v) then 2 * vec_cap v else vec_cap v)%Z ∧
    (vec_size v1 < vec_cap v1)%Z).
  { subst v1. destruct Hv as [(d & Hd & Hlen) Hs Hc]. destruct (Z.eqb_spec (vec_size v) (vec_cap v)) as [E|E].
    - rewrite decide_True by done. rewrite u32_small by lia. split; [|split].
      + split; simpl; [|lia|lia]. eexists. split; [done|]. rewrite length_realloc. lia.
      + unfold contents. simpl. rewrite Hd. simpl. unfold realloc. simpl.
        rewrite (take_ge d) by lia. by rewrite take_app_le by lia.
      + simpl. split; [done|]. lia.
    - rewrite decide_False by done. split; [split; eauto|]. split; [done|]. lia. }
  destruct H1 as (Hok1 & Hct & Hsz & Hcp & Hlt).
  destruct (vec_set_ok v1 p Hok1 Hlt) as (v2 & -> & Hs2 & Hc2 & d & Hd & Hlen & Htake).
  cbn [cbind]. destruct Hok1 as [_ Hs1 Hc1]. eexists. split; [done|]. rewrite Hs2.
  rewrite u32_small by lia. split; [split|split]; simpl.
  - exists d. by rewrite Hc2.
  - lia.
  - lia.
  - unfold contents at 1. simpl. rewrite Hd. simpl.
    replace (Z.to_nat (vec_size v1 + 1)) with (S (Z.to_nat (vec_size v1))) by lia.
    rewrite Htake. by rewrite Hct.
  - congruence.
Qed.

(** A loop over a list whose body may [break]: whether it did, and the result. *)
Fixpoint scan {C} (body : slot → C → bool * C) (l : list slot) (c : C) : bool * C :=
  match l with
  | [] => (false, c)
  | e :: l => let '(brk, c) := body e c in if brk then (true, c) else scan body l c
  end.

Lemma scan_fold {C} (f : slot → C → C) l (c : C) :
  scan (λ e c, (false, f e c)) l c = (false, fold_left (λ c e, f e c) l c).
Proof. revert c. induction l as [|e l IH]; intros c; [done|]. apply IH. Qed.

Lemma for_each_loop_scan {C} (body : slot → C → bool * C) v fuel i e (c : C) :
  vec_ok v → (0 ≤ i ≤ vec_size v)%Z → (i < vec_cap v)%Z → vec_at v i = Ret e →
  (vec_size v - i < Z.of_nat fuel)%Z →
  for_each_loop fuel v i e body c =
    let '(stopped, c) := scan body (drop (Z.to_nat i) (contents v)) c in
    if stopped || (vec_size v <? vec_cap v)%Z then Ret c else Fault.
Proof.
  intros Hv. revert i e c. induction fuel as [|fuel IH]; [lia|].
  intros i e c Hi Hcap He Hfuel. pose proof (length_contents v Hv) as Hlen. cbn [for_each_loop].
  destruct (Z.ltb_spec i (vec_size v)) as [Hl|Hl].
  2:{ rewrite drop_ge by lia. cbn [scan]. by rewrite (proj2 (Z.ltb_lt _ _)) by lia. }
  destruct (contents_lookup v i Hv ltac:(lia)) as (x & Hx & Hcx).
  rewrite He in Hx. injection Hx as <-. rewrite (drop_S _ _ _ Hcx). cbn [scan].
  destruct (body e c) as [[] c']; [done|].
  pose proof Hv as [(d & Hd & Hld) Hs Hc]. destruct (decide (i + 1 < vec_cap v)%Z) as [Hn|Hn].
  - destruct (lookup_lt_is_Some_2 d (Z.to_nat (i + 1)) ltac:(lia)) as [y Hy].
    assert (Hat : vec_at v (i + 1) = Ret y).
    { unfold vec_at. rewrite Hd. cbn [deref cbind]. by rewrite (proj2 (Z.ltb_ge _ _)), Hy by lia. }
    rewrite Hat. cbn [cbind]. rewrite IH by (done || lia).
    by replace (Z.to_nat (i + 1)) with (S (Z.to_nat i)) by lia.
  - rewrite drop_ge by lia. cbn [scan orb]. rewrite (proj2 (Z.ltb_ge _ _)) by lia.
    unfold vec_at. rewrite Hd. cbn [deref cbind]. rewrite (proj2 (Z.ltb_ge _ _)) by lia.
    by rewrite lookup_ge_None_2 by lia.
Qed.

(** [vec_for_each] runs its body on the elements in order until it breaks; when
    it does not, the load of [data[size]] that ends the loop needs a spare
    slot. *)
Lemma vec_for_each_scan {C} (body : slot → C → bool * C) v (c : C) :
  vec_ok v →
  vec_for_each v body c =
    let '(stopped, c) := scan body (contents v) c in
    if stopped || (vec_size v <? vec_cap v)%Z then Ret c else Fault.
Proof.
  intros Hv. pose proof Hv as [(d & Hd & Hlen) Hs Hc]. unfold vec_for_each.
  destruct (lookup_lt_is_Some_2 d 0 ltac:(lia)) as [y Hy].
  assert (Hat : vec_at v 0 = Ret y).
  { unfold vec_at. rewrite Hd. change (0 <? 0)%Z with false. change (Z.to_nat 0) with 0%nat.
    cbn [deref cbind]. by rewrite Hy. }
  rewrite Hat. cbn [cbind]. by rewrite for_each_loop_scan by (done || lia).
Qed.

(** On a vector that has a spare slot [vec_for_each] visits the elements
    in order, each once; on a full vector the load of [data[size]] that ends
    the loop is outside the block. *)
Theorem vec_for_each_visits {C} (f : slot → C → C) v (c : C) :
  vec_ok v →
  vec_for_each v (λ e c, (false, f e c)) c =
    if decide (vec_size v < vec_cap v)%Z then Ret (fold_left (λ c e, f e c) (contents v) c)
    else Fault.
Proof.
  intros Hv. rewrite vec_for_each_scan by done. rewrite scan_fold. cbn [orb].
  destruct (Z.ltb_spec (vec_size v) (vec_cap v)); case_decide; done || lia.
Qed.

(** ** Sorting *)

Definition is_elem (s : slot) : Prop := match s with Elem _ => True | _ => False end.
#[export] Instance is_elem_dec s : Decision (is_elem s).
Proof. destruct s; simpl; apply _. Defined.

Lemma sorted_split cmp l :
  StronglySorted (comp_le cmp) l → Forall (λ s, s ≠ Garbage) l →
  ∃ es n, l = es ++ replicate n Null ∧ Forall is_elem es.
Proof.
  intros Hs. induction Hs as [|x l Hl IH Hx]; intros Hg; [by exists [], 0%nat|].
  apply Forall_cons in Hg as [Hgx Hg]. destruct (IH Hg) as (es & n & -> & He).
  destruct x as [| |a]; [done| |].
  - assert (es = []) as ->.
    { destruct He as [|y es Hy He]; [done|]. apply Forall_cons in Hx as [Hx _].
      destruct y; [done..|]. by exfalso; apply Hx. }
    by exists [], (S n).
  - exists (Elem a :: es), n. split; [done|]. by constructor.
Qed.

Lemma filter_elems es n : Forall is_elem es → filter is_elem (es ++ replicate n Null) = es.
Proof.
  intros H. induction H as [|x es Hx H IH]; simpl.
  - induction n; [done|]. simpl. by rewrite filter_cons_False by auto.
  - rewrite filter_cons_True by done. by rewrite IH.
Qed.

Lemma for_each_r_drop v d es n m fuel e :
  vec_entry v = Some d → take (Z.to_nat (vec_size v)) d = es ++ replicate n Null →
  Forall is_elem es → es ≠ [] → (m ≤ n)%nat →
  (Z.of_nat (length es + m) ≤ vec_size v)%Z → (vec_size v < 2 ^ 31)%Z →
  vec_at v (Z.of_nat (length es + m) - 1) = Ret e → (length es + m < fuel)%nat →
  for_each_r_loop fuel v (Z.of_nat (length es + m) - 1) e
    (λ e size, match e with Null => (false, u32 (size - 1)) | _ => (true, size) end)
    (Z.of_nat (length es + m)) = Ret (Z.of_nat (length es)).
Proof.
  intros Hd Ht Hes Hne. revert m e. induction fuel as [|fuel IH]; [lia|].
  intros m e Hm Hle Hmax He Hf. destruct es as [|e0 es0] eqn:Ees; [done|]. rewrite <- Ees in *.
  assert (Hpos : (0 < length es)%nat) by (rewrite Ees; simpl; lia).
  assert (Hlook : ∀ i : nat, (i < length es + n)%nat → (Z.of_nat i < vec_size v)%Z →
    ∃ x, vec_at v (Z.of_nat i) = Ret x ∧ (es ++ replicate n Null) !! i = Some x).
  { intros i Hi Hiv. unfold vec_at. rewrite Hd. cbn [deref cbind].
    rewrite (proj2 (Z.ltb_ge _ _)) by lia. rewrite Nat2Z.id.
    destruct (lookup_lt_is_Some_2 (es ++ replicate n Null) i) as [x Hx];
      [rewrite length_app, length_replicate; lia|].
    exists x. split; [|done]. rewrite <- Ht, lookup_take_Some in Hx. destruct Hx as [-> _]. done. }
  cbn [for_each_r_loop]. rewrite Z.geb_leb, (proj2 (Z.leb_le _ _)) by lia.
  replace (Z.of_nat (length es + m) - 1)%Z with (Z.of_nat (length es + m - 1)) in He |- * by lia.
  destruct (Hlook (length es + m - 1)%nat ltac:(lia) ltac:(lia)) as (x & Hx & Hex).
  rewrite He in Hx. injection Hx as <-. destruct m as [|m].
  - rewrite lookup_app_l in Hex by lia.
    rewrite Forall_lookup in Hes. specialize (Hes _ _ Hex). destruct e; [done..|].
    do 2 f_equal. lia.
  - rewrite lookup_app_r in Hex by lia. rewrite lookup_replicate in Hex.
    destruct Hex as [-> _]. rewrite u32_small by lia.
    destruct (Hlook (length es + m - 1)%nat ltac:(lia) ltac:(lia)) as (y & Hy & _).
    rewrite Nat2Z.inj_sub, Nat2Z.inj_add, Nat2Z.inj_succ by lia.
    replace (Z.of_nat (length es) + Z.succ (Z.of_nat m) - Z.of_nat 1)%Z
      with (Z.of_nat (length es + m)) by lia.
    replace (Z.of_nat (length es + S m) - 1)%Z with (Z.of_nat (length es + m)) by lia.
    replace (Z.of_nat (length es + m) - 1)%Z with (Z.of_nat (length es + m - 1)) at 1 by lia.
    rewrite Hy. cbn [cbind]. apply IH; try lia.
    replace (Z.of_nat (length es + m) - 1)%Z with (Z.of_nat (length es + m - 1)) by lia. done.
Qed.

(** [vec_sort] with a comparison that orders the elements: a vector that
    holds at least one element ends up with exactly its non-null elements,
    sorted, and is well-formed; no slot outside the block is touched. *)
Theorem vec_sort_sorts v f :
  vec_ok v → Forall (λ s, s ≠ Garbage) (contents v) → Exists is_elem (contents v) →
  Total (comp_le (Some f)) → Transitive (comp_le (Some f)) →
  ∃ v', vec_sort v (Some f) = Ret v' ∧ vec_ok v' ∧
    contents v' ≡ₚ filter is_elem (contents v) ∧
    StronglySorted (comp_le (Some f)) (contents v') ∧ vec_cap v' = vec_cap v.
Proof.
  intros Hv Hg Hex Htot Htr. pose proof Hv as [(d & Hd & Hlen) Hs Hc]. unfold vec_sort.
  rewrite Hd. cbn [deref cbind]. rewrite (proj2 (Nat.ltb_ge _ _)) by lia.
  assert (Hct : contents v = take (Z.to_nat (vec_size v)) d) by (unfold contents; by rewrite Hd).
  rewrite <- Hct. set (l := merge_sort _ (contents v)).
  assert (Hperm : l ≡ₚ contents v) by apply merge_sort_Permutation.
  assert (Hsort : StronglySorted (comp_le (Some f)) l) by by apply StronglySorted_merge_sort.
  destruct (sorted_split _ l Hsort) as (es & n & Hl & Hes); [by rewrite Hperm|].
  assert (Hlen' : length l = Z.to_nat (vec_size v)).
  { rewrite Hperm. pose proof (length_contents v Hv). lia. }
  assert (Hne : es ≠ []).
  { intros ->. rewrite <- Hperm, Hl in Hex. apply Exists_exists in Hex as (x & Hx & He).
    apply elem_of_replicate in Hx as [-> _]. done. }
  set (d' := l ++ drop (Z.to_nat (vec_size v)) d).
  set (v1 := mkVector (vec_size v) (vec_cap v) (Some d')).
  assert (Ht : take (Z.to_nat (vec_size v)) d' = es ++ replicate n Null).
  { unfold d'. rewrite <- Hlen'. by rewrite take_app_length. }
  assert (Hn : Z.of_nat (length es + n) = vec_size v).
  { rewrite <- (length_contents v Hv), <- Hperm, Hl, length_app, length_replicate. lia. }
  unfold vec_for_each_r. cbn [v1 vec_size]. fold v1.
  assert (Hpos : (0 < length es)%nat) by (destruct es; [done|simpl; lia]).
  assert (∃ e, vec_at v1 (vec_size v - 1) = Ret e) as [e He].
  { unfold vec_at. cbn [v1 vec_entry deref cbind]. rewrite (proj2 (Z.ltb_ge _ _)) by lia.
    destruct (lookup_lt_is_Some_2 d' (Z.to_nat (vec_size v - 1))) as [x Hx].
    - unfold d'. rewrite length_app, Hlen'. lia.
    - rewrite Hx. by eexists. }
  rewrite Z.gtb_ltb, (proj2 (Z.ltb_lt _ _)) by lia. rewrite He. cbn [cbind].
  pose proof (for_each_r_drop v1 d' es n n (S (Z.to_nat (vec_size v))) e eq_refl Ht Hes Hne
    ltac:(lia)) as Hloop. cbn [v1 vec_size] in Hloop. fold v1 in Hloop. rewrite Hn in Hloop.
  rewrite Hloop by (done || lia). cbn [cbind].
  eexists. split; [done|]. cbn [contents vec_size vec_entry default vec_cap].
  assert (Hc' : contents (mkVector (Z.of_nat (length es)) (vec_cap v1) (vec_entry v1)) = es).
  { unfold contents. cbn [vec_size vec_entry v1 default]. rewrite Nat2Z.id. unfold d'. rewrite Hl, <- app_assoc.
    simpl. by rewrite take_app_length. }
  rewrite Hc'. split; [|split; [|split; [|done]]].
  - split; cbn [vec_size vec_cap vec_entry v1]; [|lia|done]. eexists. split; [done|].
    unfold d'. rewrite length_app, length_drop, Hlen'. lia.
  - rewrite <- Hperm, Hl, filter_elems by done. done.
  - rewrite Hl in Hsort. by apply StronglySorted_app_1_l in Hsort.
Qed.
End vector.
Arguments slot A : clear implicits.
Arguments vector A : clear implicits.

(** * Concrete instances *)

Lemma vec_init_ok {A} : vec_ok (A := A) vec_init.
Proof. split; simpl; [by eexists|lia|lia]. Qed.

Lemma vec_push_back_appends_witness : ∃ v' : vector nat,
  vec_push_back vec_init (Elem 7%nat) = Ret v' ∧ contents v' = [Elem 7%nat].
Proof.
  destruct (vec_push_back_appends (A := nat) vec_init (Elem 7%nat) vec_init_ok
    ltac:(vm_compute; reflexivity)) as (v' & H1 & _ & H2 & _).
  exact (ex_intro _ v' (conj H1 H2)).
Defined.

(** A vector of two elements with room for two is full: its iteration ends
    outside the block. *)
Definition sample_full : vector nat := mkVector 2 2 (Some [Elem 1%nat; Elem 2%nat]).

Definition sample_spare : vector nat :=
  mkVector 3 4 (Some [Elem 2%nat; Null; Elem 1%nat; Garbage]).

Lemma sample_full_ok : vec_ok sample_full.
Proof. split; [by eexists|vm_compute; split; discriminate|vm_compute; split; [discriminate|done]]. Qed.

Lemma sample_spare_ok : vec_ok sample_spare.
Proof. split; [by eexists|vm_compute; split; discriminate|vm_compute; split; [discriminate|done]]. Qed.

Lemma vec_for_each_visits_witness :
  vec_for_each sample_spare (λ e (c : nat), (false, S c)) 0%nat = Ret 3%nat ∧
  vec_for_each sample_full (λ e (c : nat), (false, S c)) 0%nat = Fault.
Proof.
  split.
  - refine (eq_trans (vec_for_each_visits (λ _ c, S c) sample_spare 0%nat sample_spare_ok) _).
    vm_compute. reflexivity.
  - refine (eq_trans (vec_for_each_visits (λ _ c, S c) sample_full 0%nat sample_full_ok) _).
    vm_compute. reflexivity.
Defined.

Lemma nat_compare_total : Total (comp_le (Some Nat.compare)).
Proof.
  intros [| |x] [| |y]; unfold comp_le; simpl; try (left; discriminate); try (right; discriminate).
  destruct (Nat.compare_spec x y); [left|left|right]; try discriminate.
  rewrite (proj2 (Nat.compare_lt_iff y x)) by lia. discriminate.
Qed.

Lemma nat_compare_trans : Transitive (comp_le (Some Nat.compare)).
Proof.
  intros [| |x] [| |y] [| |z]; unfold comp_le; simpl; try done.
  rewrite !Nat.compare_le_iff. lia.
Qed.

Lemma vec_sort_sorts_witness : ∃ v' : vector nat,
  vec_sort sample_spare (Some Nat.compare) = Ret v' ∧ contents v' ≡ₚ [Elem 2%nat; Elem 1%nat].
Proof.
  destruct (vec_sort_sorts sample_spare Nat.compare sample_spare_ok
    ltac:(repeat constructor; discriminate) ltac:(left; exact I)
    nat_compare_total nat_compare_trans) as (v' & H1 & _ & H2 & _).
  exact (ex_intro _ v' (conj H1 H2)).
Defined.

(** Sorting a vector that holds null pointers only reads [data[-1]]. *)
Lemma vec_sort_all_null :
  vec_sort (mkVector 1 2 (Some [Null; Garbage]) : vector nat) (Some Nat.compare) = Fault.
Proof. vm_compute. reflexivity. Qed.
