(* ===== verification/Sys.v ===== *)
(** Programs that call the C library and the kernel: a call is named after the
    function, its answer is left to the environment.  [run] executes a program
    against an environment and records the calls, so that theorems can speak of
    every environment and of the order of the calls. *)

From Stdlib Require Import ZArith Lia Ascii.
From stdpp Require Import base numbers strings gmap list.
From S2P Require Import Prelude.

(** Arguments: numbers (descriptors, flags, sizes, handles), strings, bytes. *)
Inductive arg := AZ (z : Z) | AS (s : cstr) | AB (b : list ascii).

(** What a call gives back: its result, errno, the bytes and the numbers it
    stores through its pointer arguments. *)
Record resp := mkResp { r_ret : Z; r_errno : Z; r_out : list ascii; r_aux : list Z }.

Inductive io (A : Type) : Type :=
  | IRet (a : A)
  | ICall (fn : string) (args : list arg) (k : resp → io A)
  | IExit (code : Z)     (** exit(code) *)
  | IFault               (** undefined behaviour *)
  | IFuel.               (** the steps given to a loop are used up *)
Arguments IRet {A} a.
Arguments ICall {A} fn args k.
Arguments IExit {A} code.
Arguments IFault {A}.
Arguments IFuel {A}.

Fixpoint ibind {A B} (m : io A) (f : A → io B) : io B :=
  match m with
  | IRet a => f a
  | ICall fn args k => ICall fn args (λ r, ibind (k r) f)
  | IExit c => IExit c
  | IFault => IFault
  | IFuel => IFuel
  end.

Declare Scope io_scope.
Delimit Scope io_scope with io.
Open Scope io_scope.

Notation "'do!' x := m 'in' k" := (ibind m (λ x, k))
  (at level 10, x pattern, m at level 200, k at level 200) : io_scope.
Notation "m1 ;! m2" := (ibind m1 (λ _, m2)) (at level 100, right associativity) : io_scope.

(** A call, its result only, and a call whose result is not used. *)
Definition call (fn : string) (args : list arg) : io resp := ICall fn args IRet.
Definition call_ret (fn : string) (args : list arg) : io Z :=
  do! r := call fn args in IRet (r_ret r).
Definition call_ (fn : string) (args : list arg) : io unit :=
  do! _ := call fn args in IRet tt.

Definition of_cres {A} (m : cres A) : io A :=
  match m with Ret a => IRet a | Fault => IFault | OutOfFuel => IFuel end.

(** * Running *)

Record event := mkEvent { ev_fn : string; ev_args : list arg; ev_resp : resp }.

Inductive outcome (A : Type) := Done (a : A) | Exited (code : Z) | Crashed | Starved.
Arguments Done {A} a.
Arguments Exited {A} code.
Arguments Crashed {A}.
Arguments Starved {A}.

Section run.
Context {S : Type} (env : S → string → list arg → resp * S).

Fixpoint run {A} (m : io A) (s : S) : outcome A * list event * S :=
  match m with
  | IRet a => (Done a, [], s)
  | ICall fn args k =>
    let '(r, s) := env s fn args in
    let '(o, t, s) := run (k r) s in (o, mkEvent fn args r :: t, s)
  | IExit c => (Exited c, [], s)
  | IFault => (Crashed, [], s)
  | IFuel => (Starved, [], s)
  end.

Lemma run_bind {A B} (m : io A) (f : A → io B) s :
  run (ibind m f) s =
    match run m s with
    | (Done a, t, s) => let '(o, t', s) := run (f a) s in (o, t ++ t', s)
    | (Exited c, t, s) => (Exited c, t, s)
    | (Crashed, t, s) => (Crashed, t, s)
    | (Starved, t, s) => (Starved, t, s)
    end.
Proof.
  revert s. induction m as [a|fn args k IH|c| |]; intros s; simpl; try done.
  - by destruct (run (f a) s) as [[o t] s'].
  - destruct (env s fn args) as [r s1]. rewrite IH.
    destruct (run (k r) s1) as [[[a|c| |] t] s2]; try done.
    by destruct (run (f a) s2) as [[o t'] s3].
Qed.
End run.

Lemma ibind_assoc {A B C} (m : io A) (f : A → io B) (g : B → io C) :
  ∀ S (env : S → string → list arg → resp * S) s,
    run env (ibind (ibind m f) g) s = run env (ibind m (λ a, ibind (f a) g)) s.
Proof.
  intros S env s. rewrite !run_bind. destruct (run env m s) as [[[a|c| |] t] s1]; try done.
  rewrite run_bind. destruct (run env (f a) s1) as [[[b|c| |] t'] s2]; try done.
  destruct (run env (g b) s2) as [[o t''] s3]. by rewrite app_assoc.
Qed.

(** Every answer to this call satisfies [P]. *)
Definition answers {S} (env : S → string → list arg → resp * S) (fn : string) (args : list arg)
    (P : resp → Prop) : Prop :=
  ∀ s, P (env s fn args).1.

(** Take the next answer of the environment. *)
Ltac step_env :=
  match goal with |- context [?env ?s ?f ?a] =>
    lazymatch type of env with _ → string → list arg → resp * _ =>
      let r := fresh "r" in let s' := fresh "s" in let E := fresh "E" in
      destruct (env s f a) as [r s'] eqn:E; cbn beta iota
    end
  end.

(** * Descriptors *)

(** Calls that give a descriptor when their result is not negative. *)
Definition opens (fn : string) : bool :=
  bool_decide (fn ∈ ["open"; "openat"; "creat"; "socket"; "accept"; "fopen"; "opendir"]%string).

Definition closes (fn : string) : bool :=
  bool_decide (fn ∈ ["close"; "fclose"; "closedir"]%string).

(** The descriptors open after a trace, the last one first. *)
Fixpoint open_after (t : list event) (fds : list Z) : list Z :=
  match t with
  | [] => fds
  | e :: t =>
    open_after t
      (if opens (ev_fn e) then if (0 <=? r_ret (ev_resp e))%Z then r_ret (ev_resp e) :: fds else fds
       else if closes (ev_fn e) then
         match ev_args e with AZ fd :: _ => filter (λ f, f ≠ fd) fds | _ => fds end
       else fds)
  end.

Lemma open_after_app t1 t2 fds : open_after (t1 ++ t2) fds = open_after t2 (open_after t1 fds).
Proof. revert fds. induction t1 as [|e t1 IH]; intros fds; simpl; auto. Qed.

(** How often a function is called. *)
Definition calls_of (fn : string) (t : list event) : nat := length (filter (λ e, ev_fn e = fn) t).

(** * Postconditions *)

(** Whatever the environment answers, [m] neither faults nor runs out of fuel,
    and what it returns satisfies [P]. *)
Fixpoint safe {A} (P : A → Prop) (m : io A) : Prop :=
  match m with
  | IRet a => P a
  | ICall _ _ k => ∀ r, safe P (k r)
  | IExit _ => True
  | IFault => False
  | IFuel => False
  end.

Lemma safe_bind {A B} (Q : A → Prop) (P : B → Prop) (m : io A) (f : A → io B) :
  safe Q m → (∀ a, Q a → safe P (f a)) → safe P (ibind m f).
Proof. intros Hm Hf. induction m; simpl in *; auto. Qed.

Lemma safe_mono {A} (Q P : A → Prop) (m : io A) : safe Q m → (∀ a, Q a → P a) → safe P m.
Proof. intros Hm HP. induction m; simpl in *; auto. Qed.

Lemma safe_run {A} (P : A → Prop) (m : io A) {S} (env : S → string → list arg → resp * S) s :
  safe P m →
  match (run env m s).1.1 with Done a => P a | Exited _ => True | Crashed | Starved => False end.
Proof.
  revert s. induction m as [a|fn args k IH|c| |]; intros s Hm; simpl in *; try done.
  destruct (env s fn args) as [r s1]. specialize (IH r s1 (Hm r)).
  by destruct (run env (k r) s1) as [[o t] s2].
Qed.


(** The same of a program that does not exit either. *)
Fixpoint returns {A} (P : A → Prop) (m : io A) : Prop :=
  match m with
  | IRet a => P a
  | ICall _ _ k => ∀ r, returns P (k r)
  | IExit _ | IFault | IFuel => False
  end.

Lemma returns_bind {A B} (Q : A → Prop) (P : B → Prop) (m : io A) (f : A → io B) :
  returns Q m → (∀ a, Q a → returns P (f a)) → returns P (ibind m f).
Proof. intros Hm Hf. induction m; simpl in *; auto. Qed.

Lemma returns_run {A} (P : A → Prop) (m : io A) {S} (env : S → string → list arg → resp * S) s :
  returns P m → match (run env m s).1.1 with Done a => P a | _ => False end.
Proof.
  revert s. induction m as [a|fn args k IH|c| |]; intros s Hm; simpl in *; try done.
  destruct (env s fn args) as [r s1]. specialize (IH r s1 (Hm r)).
  by destruct (run env (k r) s1) as [[o t] s2].
Qed.

(** The same with the calls made: [t] are those of the program so far. *)
Fixpoint ensures {A} (P : A → list event → Prop) (t : list event) (m : io A) : Prop :=
  match m with
  | IRet a => P a t
  | ICall fn args k => ∀ r, ensures P (t ++ [mkEvent fn args r]) (k r)
  | IExit _ | IFault | IFuel => False
  end.

Lemma ensures_bind {A B} (Q : A → list event → Prop) (P : B → list event → Prop) t (m : io A) (f : A → io B) :
  ensures Q t m → (∀ a t, Q a t → ensures P t (f a)) → ensures P t (ibind m f).
Proof. intros Hm Hf. revert t Hm. induction m; intros t Hm; simpl in *; auto. Qed.

Lemma ensures_run {A} (P : A → list event → Prop) t (m : io A) {S} (env : S → string → list arg → resp * S) s :
  ensures P t m → match (run env m s).1 with (Done a, t') => P a (t ++ t') | _ => False end.
Proof.
  revert t s. induction m as [a|fn args k IH|c| |]; intros t s Hm; simpl in *; try done.
  { by rewrite app_nil_r. }
  destruct (env s fn args) as [r s1]. specialize (IH r _ s1 (Hm r)).
  destruct (run env (k r) s1) as [[o t'] s2]. simpl in *. destruct o; try done. by rewrite <-app_assoc in IH.
Qed.
