(* ===== verification/XWrap.v ===== *)
(** utils/xwrap.c: the wrappers around library calls that log a failure and
    return what the call returned.  [PLOGE] is the log call; it is empty in the
    build of Android.mk. *)

From Stdlib Require Import ZArith Lia Ascii.
From stdpp Require Import base numbers strings gmap list.
From S2P Require Import Prelude Sys.

Definition EEXIST : Z := 17.
Definition SOCK_CLOEXEC : Z := 0x80000.
Definition SOCK_NONBLOCK : Z := 0x800.
Definition F_SETFD : Z := 2.
Definition FD_CLOEXEC : Z := 1.
Definition F_GETFL : Z := 3.
Definition F_SETFL : Z := 4.
Definition O_NONBLOCK : Z := 0x800.

Definition PLOGE (msg : cstr) : io unit := call_ "PLOGE" [AS msg].

(** The tests for failure. *)
Definition is_null (r : resp) : bool := (r_ret r =? 0)%Z.
Definition is_neg (r : resp) : bool := (r_ret r <? 0)%Z.
Definition is_m1 (r : resp) : bool := (r_ret r =? -1)%Z.
Definition is_m1_not_eexist (r : resp) : bool :=
  (r_ret r =? -1)%Z && negb (r_errno r =? EEXIST)%Z.

(** [T ret = f(...); if (failed) PLOGE(...); return ret;] *)
Definition wrapped (failed : resp → bool) (f : string) (args : list arg) (msg : cstr) : io resp :=
  do! r := call f args in
  (if failed r then PLOGE msg else IRet tt) ;! IRet r.

Definition xfopen (pathname : cstr) (mode : cstr) : io resp :=
  wrapped is_null "fopen" [AS pathname; AS mode] (cs "fopen: " ++ pathname).

Definition xfdopen (fd : Z) (mode : cstr) : io resp :=
  wrapped is_null "fdopen" [AZ fd; AS mode] (cs "fopen").

Definition xopen2 (pathname : cstr) (flags : Z) : io resp :=
  wrapped is_neg "open" [AS pathname; AZ flags] (cs "open: " ++ pathname).

Definition xopen3 (pathname : cstr) (flags : Z) (mode : Z) : io resp :=
  wrapped is_neg "open" [AS pathname; AZ flags; AZ mode] (cs "open: " ++ pathname).

Definition xopenat (dirfd : Z) (pathname : cstr) (flags : Z) : io resp :=
  wrapped is_neg "openat" [AZ dirfd; AS pathname; AZ flags] (cs "openat: " ++ pathname).

Definition xpipe2 (flags : Z) : io resp :=
  wrapped is_m1 "pipe2" [AZ flags] (cs "pipe2").

Definition xsetns (fd : Z) (nstype : Z) : io resp :=
  wrapped is_m1 "setns" [AZ fd; AZ nstype] (cs "setns").

Definition xunshare (flags : Z) : io resp :=
  wrapped is_m1 "unshare" [AZ flags] (cs "unshare").

Definition xopendir (name : cstr) : io resp :=
  wrapped is_null "opendir" [AS name] (cs "opendir: " ++ name).

Definition xfdopendir (fd : Z) : io resp :=
  wrapped is_null "fdopendir" [AZ fd] (cs "fdopendir").

Definition xsetsid : io resp :=
  wrapped is_m1 "setsid" [] (cs "setsid").

Definition xsocket (domain : Z) (type : Z) (protocol : Z) : io resp :=
  wrapped is_m1 "socket" [AZ domain; AZ type; AZ protocol] (cs "socket").

Definition xbind (sockfd : Z) (addr : list ascii) (addrlen : Z) : io resp :=
  wrapped is_m1 "bind" [AZ sockfd; AB addr; AZ addrlen] (cs "bind").

Definition xlisten (sockfd : Z) (backlog : Z) : io resp :=
  wrapped is_m1 "listen" [AZ sockfd; AZ backlog] (cs "listen").

Definition xmalloc (size : Z) : io resp :=
  wrapped is_null "malloc" [AZ size] (cs "malloc").

Definition xcalloc (nmemb : Z) (size : Z) : io resp :=
  wrapped is_null "calloc" [AZ nmemb; AZ size] (cs "calloc").

Definition xrealloc (ptr : Z) (size : Z) : io resp :=
  wrapped is_null "realloc" [AZ ptr; AZ size] (cs "realloc").

Definition xsendmsg (sockfd : Z) (msg : list ascii) (flags : Z) : io resp :=
  wrapped is_m1 "sendmsg" [AZ sockfd; AB msg; AZ flags] (cs "sendmsg").

Definition xrecvmsg (sockfd : Z) (flags : Z) : io resp :=
  wrapped is_m1 "recvmsg" [AZ sockfd; AZ flags] (cs "recvmsg").

Definition xstat (pathname : cstr) : io resp :=
  wrapped is_m1 "stat" [AS pathname] (cs "stat " ++ pathname).

Definition xlstat (pathname : cstr) : io resp :=
  wrapped is_m1 "lstat" [AS pathname] (cs "lstat " ++ pathname).

Definition xdup2 (oldfd : Z) (newfd : Z) : io resp :=
  wrapped is_m1 "dup2" [AZ oldfd; AZ newfd] (cs "dup2").

Definition xdup3 (oldfd : Z) (newfd : Z) (flags : Z) : io resp :=
  wrapped is_m1 "dup3" [AZ oldfd; AZ newfd; AZ flags] (cs "dup3").

Definition xsymlink (target : cstr) (linkpath : cstr) : io resp :=
  wrapped is_m1 "symlink" [AS target; AS linkpath] (cs "symlink " ++ target ++ cs "->" ++ linkpath).

Definition xsymlinkat (target : cstr) (newdirfd : Z) (linkpath : cstr) : io resp :=
  wrapped is_m1 "symlinkat" [AS target; AZ newdirfd; AS linkpath] (cs "symlinkat " ++ target ++ cs "->" ++ linkpath).

Definition xlinkat (olddirfd : Z) (oldpath : cstr) (newdirfd : Z) (newpath : cstr) (flags : Z) : io resp :=
  wrapped is_m1 "linkat" [AZ olddirfd; AS oldpath; AZ newdirfd; AS newpath; AZ flags] (cs "linkat " ++ oldpath ++ cs "->" ++ newpath).

Definition xmount (source : cstr) (target : cstr) (filesystemtype : cstr) (mountflags : Z) (data : cstr) : io resp :=
  wrapped is_m1 "mount" [AS source; AS target; AS filesystemtype; AZ mountflags; AS data] (cs "mount " ++ source ++ cs "->" ++ target).

Definition xumount (target : cstr) : io resp :=
  wrapped is_m1 "umount" [AS target] (cs "umount " ++ target).

Definition xumount2 (target : cstr) (flags : Z) : io resp :=
  wrapped is_m1 "umount2" [AS target; AZ flags] (cs "umount2 " ++ target).

Definition xrename (oldpath : cstr) (newpath : cstr) : io resp :=
  wrapped is_m1 "rename" [AS oldpath; AS newpath] (cs "rename " ++ oldpath ++ cs "->" ++ newpath).

Definition xmkdir (pathname : cstr) (mode : Z) : io resp :=
  wrapped is_m1_not_eexist "mkdir" [AS pathname; AZ mode] (cs "mkdir " ++ pathname).

Definition xmkdirat (dirfd : Z) (pathname : cstr) (mode : Z) : io resp :=
  wrapped is_m1_not_eexist "mkdirat" [AZ dirfd; AS pathname; AZ mode] (cs "mkdirat " ++ pathname).

Definition xmmap (addr : Z) (length : Z) (prot : Z) (flags : Z) (fd : Z) (offset : Z) : io resp :=
  wrapped is_m1 "mmap" [AZ addr; AZ length; AZ prot; AZ flags; AZ fd; AZ offset] (cs "mmap").

Definition xfork : io resp :=
  wrapped is_m1 "fork" [] (cs "fork").

(** [int ret = write(...); if (count != ret) PLOGE(...)]: the [ssize_t] becomes
    an [int], which is compared with a [size_t]. *)
Definition exact_count (count : Z) (r : resp) : bool := negb (u64 (i32 (r_ret r)) =? u64 count)%Z.

Definition int_result (r : resp) : resp := mkResp (i32 (r_ret r)) (r_errno r) (r_out r) (r_aux r).

Definition xwrite (fd : Z) (buf : list ascii) (count : Z) : io resp :=
  do! r := wrapped (exact_count count) "write" [AZ fd; AB (take (Z.to_nat count) buf); AZ count] (cs "write") in
  IRet (int_result r).

Definition xread (fd : Z) (count : Z) : io resp :=
  do! r := wrapped (λ r, (i32 (r_ret r) <? 0)%Z) "read" [AZ fd; AZ count] (cs "read") in
  IRet (int_result r).

Definition xxread (fd : Z) (count : Z) : io resp :=
  do! r := wrapped (exact_count count) "read" [AZ fd; AZ count] (cs "read") in
  IRet (int_result r).

Definition xreaddir (dirp : Z) : io resp :=
  wrapped (λ r, negb (r_errno r =? 0)%Z && is_null r) "readdir" [AZ dirp] (cs "readdir").

Definition xaccept4 (sockfd : Z) (flags : Z) : io resp :=
  do! r := call "accept" [AZ sockfd] in
  let fd := r_ret r in
  (if is_m1 r then PLOGE (cs "accept4") else IRet tt) ;!
  (if negb (Z.land flags SOCK_CLOEXEC =? 0)%Z
   then call_ "fcntl" [AZ fd; AZ F_SETFD; AZ FD_CLOEXEC] else IRet tt) ;!
  (if negb (Z.land flags SOCK_NONBLOCK =? 0)%Z then
     do! i := call_ret "fcntl" [AZ fd; AZ F_GETFL] in
     call_ "fcntl" [AZ fd; AZ F_SETFL; AZ (Z.lor i O_NONBLOCK)]
   else IRet tt) ;!
  IRet r.

(** [errno = pthread_create(...)] *)
Definition xpthread_create (arg : Z) : io Z :=
  do! err := call_ret "pthread_create" [AZ arg] in
  (if negb (err =? 0)%Z then PLOGE (cs "pthread_create") else IRet tt) ;! IRet err.

(** [xreadlink]: [buf[ret] = 0] is outside the buffer when the link fills it. *)
Definition readlink_result (r : resp) (bufsiz : Z) : io (Z * cstr) :=
  if is_m1 r then IRet (-1, [])%Z
  else if (r_ret r <? 0)%Z || (r_ret r >=? bufsiz)%Z then IFault
  else IRet (r_ret r, take (Z.to_nat (r_ret r)) (r_out r)).

Definition xreadlink (pathname : cstr) (bufsiz : Z) : io (Z * cstr) :=
  do! r := wrapped is_m1 "readlink" [AS pathname; AZ bufsiz] (cs "readlink " ++ pathname) in
  readlink_result r bufsiz.

Definition xreadlinkat (dirfd : Z) (pathname : cstr) (bufsiz : Z) : io (Z * cstr) :=
  do! r := wrapped is_m1 "readlinkat" [AZ dirfd; AS pathname; AZ bufsiz] (cs "readlinkat " ++ pathname) in
  readlink_result r bufsiz.

Definition xsendfile (out_fd in_fd count : Z) : io resp :=
  wrapped (λ r, negb (u64 (r_ret r) =? u64 count)%Z) "sendfile" [AZ out_fd; AZ in_fd; AZ count] (cs "sendfile").

Lemma wrapped_run {S} (env : S → string → list arg → resp * S) failed f args msg s :
  ∃ t s', run env (wrapped failed f args msg) s = (Done (env s f args).1, mkEvent f args (env s f args).1 :: t, s') ∧
    (if failed (env s f args).1 then map ev_fn t = ["PLOGE"%string] else t = [] ∧ s' = (env s f args).2).
Proof.
  unfold wrapped, call, PLOGE, call_. simpl. destruct (env s f args) as [r s1]. simpl.
  destruct (failed r); simpl.
  - destruct (env s1 "PLOGE"%string [AS msg]) as [r2 s2]. eexists _, _. split; [done|]. done.
  - eexists _, _. split; [done|]. done.
Qed.

(** The wrappers, each with the function it wraps, the arguments it passes on
    and the test for failure of that function's contract. *)
Definition wrappers (z1 z2 z3 z4 z5 z6 : Z) (s1 s2 s3 s4 : cstr) (b1 : list ascii)
    : list (io resp * string * list arg * (resp → bool)) :=
  [
    (xfopen s1 s2, "fopen", [AS s1; AS s2], is_null);
    (xfdopen z1 s1, "fdopen", [AZ z1; AS s1], is_null);
    (xopen2 s1 z1, "open", [AS s1; AZ z1], is_neg);
    (xopen3 s1 z1 z2, "open", [AS s1; AZ z1; AZ z2], is_neg);
    (xopenat z1 s1 z2, "openat", [AZ z1; AS s1; AZ z2], is_neg);
    (xpipe2 z1, "pipe2", [AZ z1], is_m1);
    (xsetns z1 z2, "setns", [AZ z1; AZ z2], is_m1);
    (xunshare z1, "unshare", [AZ z1], is_m1);
    (xopendir s1, "opendir", [AS s1], is_null);
    (xfdopendir z1, "fdopendir", [AZ z1], is_null);
    (xsetsid, "setsid", [], is_m1);
    (xsocket z1 z2 z3, "socket", [AZ z1; AZ z2; AZ z3], is_m1);
    (xbind z1 b1 z2, "bind", [AZ z1; AB b1; AZ z2], is_m1);
    (xlisten z1 z2, "listen", [AZ z1; AZ z2], is_m1);
    (xmalloc z1, "malloc", [AZ z1], is_null);
    (xcalloc z1 z2, "calloc", [AZ z1; AZ z2], is_null);
    (xrealloc z1 z2, "realloc", [AZ z1; AZ z2], is_null);
    (xsendmsg z1 b1 z2, "sendmsg", [AZ z1; AB b1; AZ z2], is_m1);
    (xrecvmsg z1 z2, "recvmsg", [AZ z1; AZ z2], is_m1);
    (xstat s1, "stat", [AS s1], is_m1);
    (xlstat s1, "lstat", [AS s1], is_m1);
    (xdup2 z1 z2, "dup2", [AZ z1; AZ z2], is_m1);
    (xdup3 z1 z2 z3, "dup3", [AZ z1; AZ z2; AZ z3], is_m1);
    (xsymlink s1 s2, "symlink", [AS s1; AS s2], is_m1);
    (xsymlinkat s1 z1 s2, "symlinkat", [AS s1; AZ z1; AS s2], is_m1);
    (xlinkat z1 s1 z2 s2 z3, "linkat", [AZ z1; AS s1; AZ z2; AS s2; AZ z3], is_m1);
    (xmount s1 s2 s3 z1 s4, "mount", [AS s1; AS s2; AS s3; AZ z1; AS s4], is_m1);
    (xumount s1, "umount", [AS s1], is_m1);
    (xumount2 s1 z1, "umount2", [AS s1; AZ z1], is_m1);
    (xrename s1 s2, "rename", [AS s1; AS s2], is_m1);
    (xmkdir s1 z1, "mkdir", [AS s1; AZ z1], is_m1_not_eexist);
    (xmkdirat z1 s1 z2, "mkdirat", [AZ z1; AS s1; AZ z2], is_m1_not_eexist);
    (xmmap z1 z2 z3 z4 z5 z6, "mmap", [AZ z1; AZ z2; AZ z3; AZ z4; AZ z5; AZ z6], is_m1);
    (xfork, "fork", [], is_m1);
    (xreaddir z1, "readdir", [AZ z1], (λ r : resp, negb (r_errno r =? 0)%Z && is_null r));
    (xsendfile z1 z2 z3, "sendfile", [AZ z1; AZ z2; AZ z3], (λ r : resp, negb (u64 (r_ret r) =? u64 z3)%Z))
  ]%string.

(** Every wrapper makes the call it wraps exactly once and first, with its own
    arguments, hands back the answer unchanged and logs exactly when the answer
    is the failure of that function. *)
Theorem wrappers_transparent {S} (env : S → string → list arg → resp * S) st
    z1 z2 z3 z4 z5 z6 s1 s2 s3 s4 b1 :
  Forall (λ '((w, f, args, failed) : io resp * string * list arg * (resp → bool)),
    ∃ t st', run env w st = (Done (env st f args).1, mkEvent f args (env st f args).1 :: t, st') ∧
      (if failed (env st f args).1 then map ev_fn t = ["PLOGE"%string]
       else t = [] ∧ st' = (env st f args).2))
    (wrappers z1 z2 z3 z4 z5 z6 s1 s2 s3 s4 b1).
Proof. unfold wrappers. repeat (apply Forall_cons; split; [first [apply wrapped_run | exact (wrapped_run env _ _ _ _ _)]|]). constructor. Qed.

(** A link as long as the buffer: the terminator is written behind it. *)
Lemma xreadlink_full_buffer : ∀ (r : resp), r_ret r = 128%Z → readlink_result r 128 = IFault.
Proof. intros r H. unfold readlink_result, is_m1. by rewrite H. Qed.
