(* ===== verification/Misc.v ===== *)
(** utils/misc.c: the utilities of the resetprop tool.  Loops that read until
    the environment says stop take fuel. *)

From Stdlib Require Import ZArith Lia Ascii.
From stdpp Require Import base numbers strings gmap list.
From S2P Require Import Prelude CString Sys XWrap Vector.

Definition R_OK : Z := 4.
Definition F_OK : Z := 0.
Definition O_RDONLY : Z := 0.
Definition O_CLOEXEC : Z := 0x80000.
Definition DT_DIR : Z := 4.
Definition DT_BLK : Z := 6.

(** * User ids *)

(** [getpwnam(name)]: null, or the uid of the entry. *)
Definition uid_of (name : cstr) (fallback : Z) : io Z :=
  do! r := call "getpwnam" [AS name] in
  if is_null r then IRet fallback else IRet (u32 (nth 0 (r_aux r) 0%Z)).

Definition get_shell_uid : io Z := uid_of (cs "shell") 2000.
Definition get_system_uid : io Z := uid_of (cs "system") 1000.
Definition get_radio_uid : io Z := uid_of (cs "radio") 1001.

(** * Files and vectors of lines *)

Definition access (path : cstr) (mode : Z) : io bool :=
  do! r := call_ret "access" [AS path; AZ mode] in IRet (r =? 0)%Z.

(** The line without its newline: [line[read - 1] = 0]. *)
Definition strip_newline (line : list ascii) : cstr :=
  c_str_of (match last line with
            | Some c => if bool_decide (c = chr 10) then removelast line else line
            | None => line
            end).

Fixpoint read_lines (fuel : nat) (fp : Z) (v : vector cstr) : io (vector cstr) :=
  match fuel with
  | O => IFuel
  | S fuel =>
    do! r := call "getline" [AZ fp] in
    if is_m1 r then IRet v
    else
      do! v := of_cres (vec_push_back v (Elem (strip_newline (r_out r)))) in
      read_lines fuel fp v
  end.

Definition file_to_vector (fuel : nat) (filename : cstr) (v : vector cstr) : io (Z * vector cstr) :=
  do! ok := access filename R_OK in
  if negb ok then IRet (1%Z, v)
  else
    do! fp := xfopen filename (cs "r") in
    if is_null fp then IRet (1%Z, v)
    else
      do! v := read_lines fuel (r_ret fp) v in
      call_ "fclose" [AZ (r_ret fp)] ;! IRet (0%Z, v).

(** The elements [vec_for_each] visits, with the load behind the last one. *)
Definition vec_walk {A} (v : vector A) : io (list (slot A)) :=
  of_cres (vec_for_each v (λ e l, (false, l ++ [e])) []).

Fixpoint write_lines (fp : Z) (l : list (slot cstr)) : io unit :=
  match l with
  | [] => IRet tt
  | Elem line :: l => call_ "fprintf" [AZ fp; AS (line ++ [chr 10])] ;! write_lines fp l
  | _ :: _ => IFault
  end.

Definition vector_to_file (filename : cstr) (v : vector cstr) : io Z :=
  do! fp := xfopen filename (cs "w") in
  if is_null fp then IRet 1%Z
  else
    do! l := vec_walk v in
    write_lines (r_ret fp) l ;!
    call_ "fclose" [AZ (r_ret fp)] ;! IRet 0%Z.

(** The loop of [check_data] over the mounts. *)
Definition data_mounted (v : vector cstr) : io bool :=
  of_cres (vec_for_each v (λ e mnt,
    match e with
    | Elem line =>
      if strstr line (cs " /data ") then (true, negb (strstr line (cs "tmpfs"))) else (false, mnt)
    | _ => (false, mnt)
    end) false).

(** [getprop] answers null or the value. *)
Definition getprop (name : cstr) : io (option cstr) :=
  do! r := call "getprop" [AS name] in
  if is_null r then IRet None else IRet (Some (c_str_of (r_out r))).

Definition check_data (fuel : nat) : io Z :=
  do! (_, v) := file_to_vector fuel (cs "/proc/mounts") vec_init in
  do! mnt := data_mounted v in
  do! _ := of_cres (vec_deep_destroy v) in
  if mnt then
    do! crypto := getprop (cs "ro.crypto.state") in
    match crypto with
    | Some c =>
      if streq c (cs "unencrypted") then IRet 1%Z
      else
        do! vold := getprop (cs "init.svc.vold") in
        match vold with Some _ => IRet 1%Z | None => IRet 0%Z end
    | None => IRet 1%Z
    end
  else IRet 0%Z.

(** * Strings *)

(** [is_num] *)
Fixpoint is_num (s : cstr) : bool :=
  match s with
  | [] => true
  | c :: s => if (ord c <? 48)%Z || (ord c >? 57)%Z then false else is_num s
  end.

(** [atoi] of a string of digits. *)
Definition atoi_digits (s : cstr) : Z := fold_left (λ n c, n * 10 + (ord c - 48))%Z s 0%Z.

(** [strend]: [strcmp(s1 + l1 - l2, s2)]. *)
Definition strend (s1 s2 : cstr) : cres comparison :=
  if (length s1 <? length s2)%nat then Fault
  else Ret (strcmp (drop (length s1 - length s2) s1) s2).

(** [buf[i] = c] *)
Definition set_byte (buf : list ascii) (i : Z) (c : ascii) : cres (list ascii) :=
  if (i <? 0)%Z || (i >=? Z.of_nat (length buf))%Z then Fault
  else Ret (<[Z.to_nat i := c]> buf).

(** The loop of [fdgets]: [buf] is the caller's buffer. *)
Fixpoint fdgets_loop (fuel : nat) (buf : list ascii) (size : Z) (len : Z) (fd : Z)
    : io (option Z * list ascii) :=
  match fuel with
  | O => IFuel
  | S fuel =>
    if (len <? u64 (size - 1))%Z then
      do! r := call "read" [AZ fd; AZ 1] in
      let ret := i32 (r_ret r) in
      if (ret <? 0)%Z then IRet (None, buf)
      else if (ret =? 0)%Z then IRet (Some len, buf)
      else
        let c := nth 0 (r_out r) NUL in
        do! buf := of_cres (set_byte buf len c) in
        if bool_decide (c = NUL) then IRet (Some len, buf)
        else if bool_decide (c = chr 10) then
          do! buf := of_cres (set_byte buf (len + 1) NUL) in IRet (Some (len + 1)%Z, buf)
        else fdgets_loop fuel buf size (len + 1) fd
    else IRet (Some len, buf)
  end.

Definition fdgets (fuel : nat) (buf : list ascii) (size : Z) (fd : Z) : io (Z * list ascii) :=
  do! buf := of_cres (set_byte buf 0 NUL) in
  do! (r, buf) := fdgets_loop fuel buf size 0 fd in
  match r with
  | None => IRet ((-1)%Z, buf)
  | Some len => do! buf := of_cres (set_byte buf (size - 1) NUL) in IRet (len, buf)
  end.

(** [gen_rand_str]: one byte of the alphabet for each random byte.  The byte is
    a [char]; its remainder is taken as a [size_t]. *)
Definition base : cstr := cs "abcdefghijklmnopqrstuvwxyzABCDEFGHIJKLMNOPQRSTUVWXYZ0123456789_.".

Definition signed_char (c : ascii) : Z := if (ord c <? 128)%Z then ord c else (ord c - 256)%Z.

Definition rand_char (c : ascii) : cres ascii :=
  deref (base !! Z.to_nat (u64 (signed_char c) `mod` 64)).

Fixpoint rand_chars (l : list ascii) : cres (list ascii) :=
  match l with
  | [] => Ret []
  | c :: l => let! x := rand_char c in let! r := rand_chars l in Ret (x :: r)
  end.

(** [buf] as the caller passes it; the bytes read overwrite its beginning. *)
Definition gen_rand_str (buf : list ascii) (len : Z) : io (list ascii) :=
  do! ok := access (cs "/dev/urandom") R_OK in
  do! urandom :=
    if ok then xopen2 (cs "/dev/urandom") (Z.lor O_RDONLY O_CLOEXEC)
    else
      call_ "mknod" [AS (cs "/urandom"); AZ 0x21b6; AZ 0x109] ;!
      do! r := xopen2 (cs "/urandom") (Z.lor O_RDONLY O_CLOEXEC) in
      call_ "unlink" [AS (cs "/urandom")] ;! IRet r in
  do! r := xxread (r_ret urandom) (len - 1) in
  call_ "close" [AZ (r_ret urandom)] ;!
  let n := Z.to_nat (len - 1) in
  let got := take n (r_out r) in
  let raw := take n (got ++ drop (length got) buf) in
  do! s := of_cres (rand_chars raw) in
  if (len <? 1)%Z then IFault else IRet (s ++ [NUL] ++ drop (S n) buf).

(** * getdelim *)

Definition MIN_CHUNK : Z := 64.

(** What [getc] gives until the end of the file; [None] is a read error. *)
Definition stream := list (option ascii).

(** The line buffer: [*lineptr] (None when null) of [*n] bytes. *)
Record linebuf := mkLinebuf { lb_ptr : option (list ascii); lb_n : Z }.

(** [*lineptr = realloc( *lineptr, *n )] *)
Definition grow (b : list ascii) (n : Z) : list ascii :=
  take (Z.to_nat n) b ++ replicate (Z.to_nat n - length b) NUL.

(** [*read_pos = 0; return read_pos - *lineptr;] *)
Definition finish_line (buf : list ascii) (n pos : Z) (s : stream)
    : cres (Z * list ascii * Z * stream) :=
  let! buf := set_byte buf pos NUL in Ret (pos, buf, n, s).

(** The growth step: the new [*n], [nchars_avail] and buffer. *)
Definition make_room (buf : list ascii) (n nchars_avail pos : Z) : Z * Z * list ascii :=
  if (nchars_avail <? 2)%Z then
    let n := if (n >? MIN_CHUNK)%Z then (n * 2)%Z else (n + MIN_CHUNK)%Z in
    (n, (n - pos)%Z, grow buf n)
  else (n, nchars_avail, buf).

(** The loop: [pos] is [read_pos - *lineptr]. *)
Fixpoint getdelim_loop (s : stream) (buf : list ascii) (n : Z) (nchars_avail pos : Z) (delim : ascii)
    : cres (Z * list ascii * Z * stream) :=
  let '(n, nchars_avail, buf) := make_room buf n nchars_avail pos in
  match s with
  | [] => if (pos =? 0)%Z then Ret ((-1)%Z, buf, n, []) else finish_line buf n pos []
  | None :: s => Ret ((-1)%Z, buf, n, s)
  | Some c :: s =>
    let! buf := set_byte buf pos c in
    if bool_decide (c = delim) then finish_line buf n (pos + 1) s
    else getdelim_loop s buf n (nchars_avail - 1) (pos + 1) delim
  end.

(** [__getdelim]: -1, or the length read; the buffer afterwards, the rest of the
    stream.  Allocation does not fail. *)
Definition getdelim (lb : linebuf) (delim : ascii) (s : stream) : cres (Z * linebuf * stream) :=
  let '(buf, n) := match lb_ptr lb with
                   | Some b => (b, lb_n lb)
                   | None => (replicate (Z.to_nat MIN_CHUNK) NUL, MIN_CHUNK)
                   end in
  let! (len, buf, n, s) := getdelim_loop s buf n n 0 delim in
  Ret (len, mkLinebuf (Some buf) n, s).

Definition getline (lb : linebuf) (s : stream) : cres (Z * linebuf * stream) :=
  getdelim lb (chr 10) s.

Definition fsetxattr (fd : Z) (name : cstr) (value : list ascii) (size flags : Z) : io Z :=
  do! r := call_ret "syscall.fsetxattr" [AZ fd; AS name; AB value; AZ size; AZ flags] in
  IRet (i32 r).

(** * Processes *)

(** [ps]: the entries of /proc, [readdir] answering 0 at the end; the type of
    the entry is the first number stored. *)
Fixpoint ps_loop (fuel : nat) (dir : Z) (func : Z → io unit) : io unit :=
  match fuel with
  | O => IFuel
  | S fuel =>
    do! entry := xreaddir dir in
    if is_null entry then IRet tt
    else
      let d_name := c_str_of (r_out entry) in
      (if (nth 0 (r_aux entry) 0 =? DT_DIR)%Z && is_num d_name then func (atoi_digits d_name)
       else IRet tt) ;!
      ps_loop fuel dir func
  end.

Definition ps (fuel : nat) (func : Z → io unit) : io unit :=
  do! dir := xopendir (cs "/proc") in
  if is_null dir then IRet tt
  else ps_loop fuel (r_ret dir) func ;! call_ "closedir" [AZ (r_ret dir)].

(** The component after the last slash of a path. *)
Fixpoint basename_from (s acc : cstr) : cstr :=
  match s with
  | [] => acc
  | c :: s => basename_from s (if bool_decide (c = "/"%char) then [] else acc ++ [c])
  end.

Definition basename (s : cstr) : cstr := basename_from s [].

(** [check_proc_name]: [proc] is "/proc/<pid>".  [fgets] keeps the newline.  The
    file of a match is not closed. *)
Definition check_proc_name (proc name : cstr) : io Z :=
  do! f := call "fopen" [AS (proc ++ cs "/comm"); AS (cs "r")] in
  if is_null f then IRet 0%Z
  else
    do! r := call "fgets" [AZ 128; AZ (r_ret f)] in
    if streq (c_str_of (r_out r)) name then IRet 1%Z
    else
      call_ "fclose" [AZ (r_ret f)] ;!
      do! f := call "fopen" [AS (proc ++ cs "/cmdline"); AS (cs "r")] in
      if is_null f then IFault
      else
        do! r := call "fgets" [AZ 128; AZ (r_ret f)] in
        if streq (basename (c_str_of (r_out r))) name then IRet 1%Z
        else
          call_ "fclose" [AZ (r_ret f)] ;!
          do! ok := access (proc ++ cs "/exe") F_OK in
          if negb ok then IRet 0%Z
          else
            do! (n, link) := xreadlink (proc ++ cs "/exe") 128 in
            let buf := if (n =? -1)%Z then proc ++ cs "/exe" else c_str_of link in
            IRet (if streq (basename buf) name then 1%Z else 0%Z).

Fixpoint unlock_loop (fuel : nat) (dev dir : Z) : io unit :=
  match fuel with
  | O => IFuel
  | S fuel =>
    do! entry := call "readdir" [AZ dir] in
    if is_null entry then IRet tt
    else
      let d_name := c_str_of (r_out entry) in
      (if (nth 0 (r_aux entry) 0 =? DT_BLK)%Z then
         do! fd := call "openat" [AZ dev; AS d_name; AZ O_RDONLY] in
         if is_neg fd then IRet tt
         else
           do! r := call "ioctl.BLKROSET" [AZ (r_ret fd); AZ 0] in
           (if is_m1 r then PLOGE (cs "unlock " ++ d_name) else IRet tt) ;!
           call_ "close" [AZ (r_ret fd)]
       else IRet tt) ;!
      unlock_loop fuel dev dir
  end.

Definition unlock_blocks (fuel : nat) : io unit :=
  do! dev := xopen2 (cs "/dev/block") (Z.lor O_RDONLY O_CLOEXEC) in
  if is_neg dev then IRet tt
  else
    do! dir := call "fdopendir" [AZ (r_ret dev)] in
    (if is_null dir then PLOGE (cs "fdopendir") ;! IFault else IRet tt) ;!
    unlock_loop fuel (r_ret dev) (r_ret dir) ;!
    call_ "close" [AZ (r_ret dev)].

(** SIGALRM, SIGABRT, SIGHUP, SIGPIPE, SIGQUIT, SIGTERM, SIGINT. *)
Definition quit_signals : list Z := [14; 6; 1; 13; 3; 15; 2]%Z.

Fixpoint setup_signals (l : list Z) (handler : Z) : io unit :=
  match l with
  | [] => IRet tt
  | s :: l => call_ "sigaction" [AZ s; AZ handler] ;! setup_signals l handler
  end.

Definition setup_sighandlers (handler : Z) : io unit := setup_signals quit_signals handler.

(** [exec_array(err, fd, setenv, argv)].  [fd]: none, or the value [*fd] holds;
    the result is the pid and the value of [*fd] afterwards.  [setenv], if any,
    fills the vector of environment variables. *)
Definition exec_array (err : bool) (fd : option Z) (setenv : option (vector cstr → io (vector cstr)))
    (argv : list cstr) : io (Z * option Z) :=
  do! pipe :=
    match fd with
    | Some f =>
      if (f <? 0)%Z then
        do! r := xpipe2 O_CLOEXEC in
        if is_m1 r then IRet None
        else IRet (Some (nth 0 (r_aux r) 0%Z, nth 1 (r_aux r) 0%Z))
      else IRet (Some (0%Z, f))
    | None => IRet (Some (0%Z, (-1)%Z))
    end in
  match pipe with
  | None => IRet ((-1)%Z, fd)
  | Some (readEnd, writeEnd) =>
    do! env := match setenv with Some f => f vec_init | None => IRet vec_init end in
    do! pid := xfork in
    if negb (r_ret pid =? 0)%Z then
      do! fd :=
        match fd with
        | Some f =>
          if (f <? 0)%Z then call_ "close" [AZ writeEnd] ;! IRet (Some readEnd) else IRet fd
        | None => IRet None
        end in
      do! _ := of_cres (vec_deep_destroy env) in
      IRet (r_ret pid, fd)
    else
      (match fd with
       | Some _ =>
         do! _ := xdup2 writeEnd 1 in
         if err then do! _ := xdup2 writeEnd 2 in IRet tt else IRet tt
       | None => IRet tt
       end) ;!
      call_ "execvp" (AS <$> argv) ;!
      PLOGE (cs "execvp") ;!
      IRet ((-1)%Z, fd)
  end.

Fixpoint push_args (v : vector cstr) (l : list cstr) : cres (vector cstr) :=
  match l with
  | [] => Ret v
  | a :: l => let! v := vec_push_back v (Elem a) in push_args v l
  end.

(** [v_exec_command]: the arguments are copied to a vector that a null pointer
    ends; the vector is destroyed with its elements. *)
Definition v_exec_command (err : bool) (fd : option Z)
    (setenv : option (vector cstr → io (vector cstr))) (argv0 : cstr) (argv : list cstr)
    : io (Z * option Z) :=
  do! args := of_cres (push_args vec_init (argv0 :: argv)) in
  do! args := of_cres (vec_push_back args Null) in
  do! r := exec_array err fd setenv (argv0 :: argv) in
  do! _ := of_cres (vec_deep_destroy args) in
  IRet r.

Definition WEXITSTATUS (status : Z) : Z := Z.land (Z.shiftr status 8) 0xff.

Definition exec_command_sync (argv0 : cstr) (argv : list cstr) : io Z :=
  do! (pid, _) := v_exec_command false None None argv0 argv in
  if (pid <? 0)%Z then IRet pid
  else
    do! r := call "waitpid" [AZ pid; AZ 0] in
    IRet (WEXITSTATUS (nth 0 (r_aux r) 0%Z)).

Definition exec_command (err : bool) (fd : option Z)
    (setenv : option (vector cstr → io (vector cstr))) (argv0 : cstr) (argv : list cstr)
    : io (Z * option Z) := v_exec_command err fd setenv argv0 argv.

Definition MS_BIND : Z := 4096.

Definition bind_mount (from to : cstr) : io Z :=
  do! r := xmount from to [] MS_BIND [] in IRet (r_ret r).

(** The credentials are whatever the call stored. *)
Definition get_client_cred (fd : Z) : io (list Z) :=
  do! r := call "getsockopt.SO_PEERCRED" [AZ fd] in
  (if negb (is_null r) then PLOGE (cs "getsockopt") else IRet tt) ;!
  IRet (r_aux r).

(** [switch_mnt_ns]: [mnt] is "/proc/<pid>/ns/mnt". *)
Definition switch_mnt_ns (mnt : cstr) : io Z :=
  do! r := call "access" [AS mnt; AZ R_OK] in
  if is_m1 r then IRet 1%Z
  else
    do! fd := xopen2 mnt O_RDONLY in
    if is_neg fd then IRet 1%Z
    else
      do! ret := xsetns (r_ret fd) 0 in
      call_ "close" [AZ (r_ret fd)] ;! IRet (i32 (r_ret ret)).

Definition fork_dont_care : io Z :=
  do! pid := xfork in
  if negb (r_ret pid =? 0)%Z then
    call_ "waitpid" [AZ (r_ret pid); AZ 0] ;! IRet (r_ret pid)
  else
    do! pid := xfork in
    if negb (r_ret pid =? 0)%Z then IExit 0 else IRet 0%Z.

(** [wait_till_exists]: [dirname] may cut [target] at its last slash, in place. *)
Fixpoint wait_loop (fuel : nat) (fd : Z) (target : cstr) : io unit :=
  match fuel with
  | O => IFuel
  | S fuel =>
    do! event := call "read" [AZ fd; AZ 16] in
    call_ "read" [AZ fd; AZ (nth 3 (r_aux event) 0%Z)] ;!
    do! ok := access target F_OK in
    if ok then IRet tt else wait_loop fuel fd target
  end.

Definition wait_till_exists (fuel : nat) (target dir : cstr) : io unit :=
  do! ok := access target F_OK in
  if ok then IRet tt
  else
    do! fd := call_ret "inotify_init" [] in
    call_ "inotify_add_watch" [AZ fd; AS dir; AZ 0x100] ;!
    wait_loop fuel fd target ;!
    call_ "close" [AZ fd].

(** * Theorems *)

Lemma length_grow b n : (Z.of_nat (length b) ≤ n)%Z → Z.of_nat (length (grow b n)) = n.
Proof. intros H. unfold grow. rewrite length_app, length_take, length_replicate. lia. Qed.

Lemma take_grow b n k : (Z.of_nat (length b) ≤ n)%Z → (k ≤ length b)%nat → take k (grow b n) = take k b.
Proof. intros H Hk. unfold grow. rewrite (take_ge b) by lia. by rewrite take_app_le by lia. Qed.

Lemma set_byte_ok b i c : (0 ≤ i < Z.of_nat (length b))%Z → set_byte b i c = Ret (<[Z.to_nat i := c]> b).
Proof.
  intros H. unfold set_byte. rewrite (proj2 (Z.ltb_ge _ _)), Z.geb_leb, (proj2 (Z.leb_gt _ _)) by lia. done.
Qed.

(** What a call that read [line] leaves: the bytes, a terminator, the room. *)
Definition holds_line (buf : list ascii) (n : Z) (line : list ascii) : Prop :=
  take (length line) buf = line ∧ buf !! length line = Some NUL ∧ Z.of_nat (length buf) = n.

Lemma make_room_spec buf n avail pos :
  Z.of_nat (length buf) = n → (0 ≤ pos)%Z → avail = (n - pos)%Z → (1 ≤ avail ∨ pos = 0)%Z → 
  ∃ n' buf', make_room buf n avail pos = (n', (n' - pos)%Z, buf') ∧
    Z.of_nat (length buf') = n' ∧ (pos + 2 ≤ n')%Z ∧ take (Z.to_nat pos) buf' = take (Z.to_nat pos) buf.
Proof.
  intros Hb Hpos -> Hav. unfold make_room, MIN_CHUNK. destruct (Z.ltb_spec (n - pos) 2).
  - eexists _, _. split; [done|].
    assert (Hn : (n ≤ if n >? 64 then n * 2 else n + 64)%Z) by (destruct (Z.gtb_spec n 64); lia).
    split; [apply length_grow; lia|]. split; [destruct (Z.gtb_spec n 64); lia|].
    apply take_grow; lia.
  - eexists _, _. split; [done|]. split; [done|]. split; [lia|done].
Qed.

(** The lines the stream holds: up to and including the delimiter, or all. *)
Lemma getdelim_loop_spec line rest delim s buf n avail pos done_ :
  (s = (Some <$> line) ++ rest) → 
  Z.of_nat (length buf) = n → pos = Z.of_nat (length done_) → avail = (n - pos)%Z →
  (1 ≤ avail ∨ pos = 0)%Z → take (length done_) buf = done_ →
  (delim ∉ removelast line) → (last line = Some delim ∨ delim ∉ line ∧ rest = []) →
  (done_ ++ line ≠ []) →
  ∃ buf' n', getdelim_loop s buf n avail pos delim =
    Ret (Z.of_nat (length (done_ ++ line)), buf', n', rest) ∧ holds_line buf' n' (done_ ++ line).
Proof.
  revert s buf n avail pos done_. induction line as [|c line IH];
    intros s buf n avail pos dn -> Hb -> Hav Hroom Ht Hr Hl Hne.
  - destruct Hl as [|[_ ->]]; [done|].
    assert (E : dn ++ [] = dn) by apply app_nil_r. rewrite E in Hne |- *. clear E.
    change ((Some <$> []) ++ []) with ([] : stream).
    destruct (make_room_spec buf n avail (Z.of_nat (length dn)) Hb ltac:(lia) Hav Hroom)
      as (n' & buf' & Hm & Hb' & Hn' & Ht').
    cbn [getdelim_loop]. rewrite Hm. rewrite (proj2 (Z.eqb_neq _ _)) by (destruct dn; [done|simpl; lia]).
    unfold finish_line. rewrite set_byte_ok by lia. cbn [cbind].
    eexists _, _. split; [reflexivity|]. rewrite Nat2Z.id in *. split; [|split].
    + by rewrite take_insert_ge, Ht', Ht by lia.
    + apply list_lookup_insert_eq. lia.
    + by rewrite length_insert.
  - destruct (make_room_spec buf n avail (Z.of_nat (length dn)) Hb ltac:(lia) Hav Hroom)
      as (n' & buf' & Hm & Hb' & Hn' & Ht').
    rewrite fmap_cons, <- app_comm_cons. cbn [getdelim_loop]. rewrite Hm.
    rewrite set_byte_ok by lia. cbn [cbind]. rewrite Nat2Z.id in *.
    set (buf2 := <[length dn := c]> buf').
    assert (Ht2 : take (length (dn ++ [c])) buf2 = dn ++ [c]).
    { unfold buf2. rewrite length_app. cbn [length]. replace (length dn + 1)%nat with (S (length dn)) by lia.
      rewrite (take_S_r _ _ c) by (apply list_lookup_insert_eq; lia).
      by rewrite take_insert_ge, Ht', Ht by lia. }
    assert (Hb2 : length buf2 = length buf') by (unfold buf2; by rewrite length_insert).
    destruct (decide (c = delim)) as [->|Hcd].
    + assert (line = []) as ->.
      { destruct line as [|c2 line]; [done|]. exfalso. apply Hr. simpl. left. }
      destruct Hl as [_|[Hl _]]; [|exfalso; apply Hl; left].
      rewrite bool_decide_true by done. unfold finish_line. rewrite set_byte_ok by lia. cbn [cbind].
      eexists _, _. split; [by rewrite length_app; simpl; rewrite Nat2Z.inj_add|].
      replace (Z.to_nat (Z.of_nat (length dn) + 1)) with (length (dn ++ [delim])) by (rewrite length_app; simpl; lia).
      split; [|split].
      * by rewrite take_insert_ge by lia.
      * apply list_lookup_insert_eq. rewrite length_app. simpl. lia.
      * rewrite length_insert. lia.
    + rewrite bool_decide_false by done.
      replace (dn ++ c :: line) with ((dn ++ [c]) ++ line) in Hne |- * by (by rewrite <- app_assoc).
      apply (IH _ buf2 n' _ _ (dn ++ [c])); try done; try lia.
      * rewrite length_app. simpl. lia.
      * destruct line; simpl in *; set_solver.
      * destruct Hl as [Hl|[Hl ->]]; [left|right; set_solver].
        destruct line as [|c2 line]; [simpl in Hl; congruence|]. done.
Qed.

(** [getline] returns the next line with its newline, NUL-terminated in a
    buffer it grew as needed and never wrote outside of, and leaves the rest of
    the stream. *)
Theorem getline_reads_line lb line rest :
  (∀ b, lb_ptr lb = Some b → Z.of_nat (length b) = lb_n lb) →
  chr 10 ∉ line →
  ∃ lb', getline lb ((Some <$> line ++ [chr 10]) ++ rest) =
           Ret (Z.of_nat (length line) + 1, lb', rest)%Z ∧
    ∃ b, lb_ptr lb' = Some b ∧ holds_line b (lb_n lb') (line ++ [chr 10]).
Proof.
  intros Hlb Hline. unfold getline, getdelim.
  set (bn := match lb_ptr lb with Some b => (b, lb_n lb) | None => _ end).
  assert (Hbn : Z.of_nat (length bn.1) = bn.2).
  { unfold bn. destruct (lb_ptr lb) as [b|]; simpl; [by apply Hlb|done]. }
  destruct bn as [b n]. simpl in Hbn.
  destruct (getdelim_loop_spec (line ++ [chr 10]) rest (chr 10) _ b n n 0 [] eq_refl Hbn eq_refl
    ltac:(lia) ltac:(lia) eq_refl) as (b' & n' & -> & Hh).
  - by rewrite removelast_last.
  - left. by rewrite last_snoc.
  - by destruct line.
  - cbn [cbind]. eexists. simpl in *. split; [do 3 f_equal; rewrite length_app; simpl; lia|].
    eexists. split; [done|]. exact Hh.
Qed.

Lemma getline_reads_line_witness : ∃ lb',
  getline (mkLinebuf None 0) ((Some <$> cs "ro.x=1" ++ [chr 10]) ++ [Some "r"%char]) =
    Ret (7%Z, lb', [Some "r"%char]).
Proof.
  destruct (getline_reads_line (mkLinebuf None 0) (cs "ro.x=1") [Some "r"%char]
    ltac:(discriminate) ltac:(apply (bool_decide_unpack _); vm_compute; exact I)) as (lb' & H & _).
  exact (ex_intro _ lb' H).
Defined.

(** Every byte of a random string is a letter of the alphabet, whatever the
    random source returns and whether or not [char] is signed. *)
Theorem rand_char_in_base c : ∃ x, rand_char c = Ret x ∧ x ∈ base.
Proof.
  unfold rand_char.
  assert (H : (0 ≤ u64 (signed_char c) `mod` 64 < 64)%Z) by (apply Z.mod_pos_bound; lia).
  destruct (lookup_lt_is_Some_2 base (Z.to_nat (u64 (signed_char c) `mod` 64))) as [x Hx].
  - change (length base) with 64%nat. lia.
  - rewrite Hx. exists x. split; [done|]. by eapply list_elem_of_lookup_2.
Qed.

Lemma is_num_spec s : is_num s = true ↔ Forall (λ c, isdigit c = true) s.
Proof.
  induction s as [|c s IH]; simpl; [done|]. rewrite Forall_cons, <- IH. unfold isdigit.
  destruct (Z.ltb_spec (ord c) 48), (Z.gtb_spec (ord c) 57); simpl;
    rewrite andb_true_iff, !Z.leb_le; naive_solver lia.
Qed.

Lemma strend_spec s1 s2 :
  (length s2 ≤ length s1)%nat → strend s1 s2 = Ret Eq ↔ s2 `suffix_of` s1.
Proof.
  intros Hl. unfold strend. rewrite (proj2 (Nat.ltb_ge _ _)) by done. split.
  - intros [= H]. apply strcmp_eq in H. exists (take (length s1 - length s2) s1).
    rewrite <- H at 2. by rewrite take_drop.
  - intros [k ->]. rewrite length_app. replace (length k + length s2 - length s2)%nat with (length k) by lia.
    by rewrite drop_app_length, strcmp_refl.
Qed.

(** [strend] of a string shorter than the suffix reads before its beginning. *)
Lemma strend_short : strend (cs "a") (cs "abc") = Fault.
Proof. reflexivity. Qed.

(** [fdgets] does not terminate what it read before the end of the file. *)
Lemma fdgets_unterminated :
  run (λ (l : list ascii) _ _, match l with
         | c :: l => (mkResp 1 0 [c] [], l) | [] => (mkResp 0 0 [] [], []) end)
    (fdgets 10 (replicate 8 "x"%char) 8 3) (cs "ab") =
  (Done (2%Z, cs "abxxxxx" ++ [NUL]), [mkEvent "read" [AZ 3; AZ 1] (mkResp 1 0 (cs "a") []);
     mkEvent "read" [AZ 3; AZ 1] (mkResp 1 0 (cs "b") []);
     mkEvent "read" [AZ 3; AZ 1] (mkResp 0 0 [] [])], []).
Proof. vm_compute. reflexivity. Qed.
