(* ===== verification/FileUtils.v ===== *)
(** utils/file.c: recursive operations on directories, file attributes and
    whole-file reads, in the build without SELinux.  Directory walks take fuel:
    the kernel decides when a directory ends. *)

From Stdlib Require Import ZArith Lia Ascii.
From stdpp Require Import base numbers strings gmap list.
From S2P Require Import Prelude CString Sys XWrap Misc.

Definition S_IFMT : Z := 0xf000.
Definition S_ISDIR (m : Z) : bool := (Z.land m S_IFMT =? 0x4000)%Z.
Definition S_ISREG (m : Z) : bool := (Z.land m S_IFMT =? 0x8000)%Z.
Definition S_ISLNK (m : Z) : bool := (Z.land m S_IFMT =? 0xa000)%Z.
Definition S_ISBLK (m : Z) : bool := (Z.land m S_IFMT =? 0x6000)%Z.
Definition DT_LNK : Z := 10.
Definition DT_REG : Z := 8.
Definition AT_REMOVEDIR : Z := 0x200.
Definition O_NOFOLLOW : Z := 0x20000.
Definition O_RDWR : Z := 2.
Definition O_WRONLY : Z := 1.
Definition O_CREAT : Z := 0x40.
Definition O_TRUNC : Z := 0x200.
Definition PATH_MAX : Z := 4096.

(** The part of [struct file_attr] the code uses. *)
Record file_attr := mkAttr { fa_mode : Z; fa_uid : Z; fa_gid : Z; fa_size : Z; fa_con : cstr }.

(** A [struct file_attr] nothing has written to. *)
Definition unset_attr : file_attr := mkAttr 0 0 0 0 [].

Definition attr_of (r : resp) : file_attr :=
  mkAttr (nth 0 (r_aux r) 0%Z) (nth 1 (r_aux r) 0%Z) (nth 2 (r_aux r) 0%Z) (nth 3 (r_aux r) 0%Z) [].

Definition is_dot (n : cstr) : bool := streq n (cs ".") || streq n (cs "..").

Definition dec_Z (z : Z) : cstr := cs (pretty.pretty z).

Section file.
(** The global [excl_list]: names the walks leave out. *)
Context (excl_list : list cstr).

Definition is_excl (name : cstr) : bool := existsb (streq name) excl_list.

(** ** Paths of descriptors *)

(** [fd_getpath]: [xreadlink(path, path, size)] reads and writes the same
    buffer, so that on failure the "/proc/self/fd" path is left in it. *)
Definition fd_getpath (fd : Z) (size : Z) : io (bool * cstr) :=
  let path := take (Z.to_nat (size - 1)) (cs "/proc/self/fd/" ++ dec_Z fd) in
  do! (n, link) := xreadlink path size in
  if (n =? -1)%Z then IRet (true, path) else IRet (false, c_str_of link).

Definition fd_getpathat (dirfd : Z) (name : cstr) (size : Z) : io (bool * cstr) :=
  do! (failed, path) := fd_getpath dirfd size in
  if failed then IRet (true, path)
  else IRet (false, take (Z.to_nat (size - 1)) (path ++ cs "/" ++ name)).

(** ** Making directories *)

(** [mkdir] that tolerates EEXIST; [errno] is the call's. *)
Definition mkdir_ok (path : cstr) (mode : Z) : io bool :=
  do! r := call "mkdir" [AS path; AZ mode] in
  IRet (negb (is_m1_not_eexist r)).

(** The prefixes that end before a '/' other than the first character. *)
Fixpoint dir_prefixes (done_ rest : cstr) : list cstr :=
  match rest with
  | [] => []
  | c :: rest =>
    if bool_decide (c = "/"%char) then done_ :: dir_prefixes (done_ ++ [c]) rest
    else dir_prefixes (done_ ++ [c]) rest
  end.

Fixpoint mkdir_all (paths : list cstr) (mode : Z) : io Z :=
  match paths with
  | [] => IRet 0%Z
  | p :: paths =>
    do! ok := mkdir_ok p mode in
    if ok then mkdir_all paths mode else IRet (-1)%Z
  end.

(** [mkdirs]; the empty path makes the loop start behind its terminator. *)
Definition mkdirs (pathname : cstr) (mode : Z) : io Z :=
  match pathname with
  | [] => IFault
  | c :: rest => mkdir_all (dir_prefixes [c] rest ++ [pathname]) mode
  end.

Definition xmkdirs (pathname : cstr) (mode : Z) : io Z :=
  do! ret := mkdirs pathname mode in
  (if (ret =? -1)%Z then PLOGE (cs "mkdirs " ++ pathname) else IRet tt) ;! IRet ret.

(** ** Attributes *)

Definition getattr (path : cstr) : io (Z * file_attr) :=
  do! r := xlstat path in
  if is_m1 r then IRet ((-1)%Z, unset_attr) else IRet (0%Z, attr_of r).

Definition getattrat (dirfd : Z) (pathname : cstr) : io (Z * file_attr) :=
  do! (_, path) := fd_getpathat dirfd pathname PATH_MAX in getattr path.

Definition fgetattr (fd : Z) : io (Z * file_attr) :=
  do! r := call "fstat" [AZ fd] in
  if is_m1 r then IRet ((-1)%Z, unset_attr) else IRet (0%Z, attr_of r).

Definition setattr (path : cstr) (a : file_attr) : io Z :=
  do! r := call "chmod" [AS path; AZ (Z.land (fa_mode a) 0x1ff)] in
  if is_neg r then IRet (-1)%Z
  else
    do! r := call "chown" [AS path; AZ (fa_uid a); AZ (fa_gid a)] in
    if is_neg r then IRet (-1)%Z else IRet 0%Z.

Definition setattrat (dirfd : Z) (pathname : cstr) (a : file_attr) : io Z :=
  do! (_, path) := fd_getpathat dirfd pathname PATH_MAX in setattr path a.

Definition fsetattr (fd : Z) (a : file_attr) : io Z :=
  do! r := call "fchmod" [AZ fd; AZ (Z.land (fa_mode a) 0x1ff)] in
  if is_neg r then IRet (-1)%Z
  else
    do! r := call "fchown" [AZ fd; AZ (fa_uid a); AZ (fa_gid a)] in
    if is_neg r then IRet (-1)%Z else IRet 0%Z.

Definition clone_attr (source target : cstr) : io unit :=
  do! (_, a) := getattr source in do! _ := setattr target a in IRet tt.

Definition fclone_attr (sourcefd targetfd : Z) : io unit :=
  do! (_, a) := fgetattr sourcefd in do! _ := fsetattr targetfd a in IRet tt.

(** ** Walks *)

Definition d_name (e : resp) : cstr := c_str_of (r_out e).
Definition d_type (e : resp) : Z := nth 0 (r_aux e) 0%Z.

(** The entries of a directory, one at a time; [f] handles those that are
    neither dots nor excluded. *)
Fixpoint for_entries (fuel : nat) (dir : Z) (f : resp → io unit) : io unit :=
  match fuel with
  | O => IFuel
  | S fuel =>
    do! entry := xreaddir dir in
    if is_null entry then IRet tt
    else
      (if is_dot (d_name entry) || is_excl (d_name entry) then IRet tt else f entry) ;!
      for_entries fuel dir f
  end.

Fixpoint in_order_walk (depth fuel : nat) (dirfd : Z) (callback : Z → resp → io unit) : io unit :=
  match depth with
  | O => IFuel
  | S depth =>
    do! dir := call "fdopendir" [AZ dirfd] in
    if is_null dir then IRet tt
    else
      for_entries fuel (r_ret dir) (λ entry,
        (if (d_type entry =? DT_DIR)%Z then
           do! newfd := xopenat dirfd (d_name entry) (Z.lor O_RDONLY O_CLOEXEC) in
           in_order_walk depth fuel (r_ret newfd) callback ;!
           call_ "close" [AZ (r_ret newfd)]
         else IRet tt) ;!
        callback dirfd entry)
  end.

Definition rm_cb (dirfd : Z) (entry : resp) : io unit :=
  if (d_type entry =? DT_DIR)%Z
  then call_ "unlinkat" [AZ dirfd; AS (d_name entry); AZ AT_REMOVEDIR]
  else call_ "unlinkat" [AZ dirfd; AS (d_name entry); AZ 0].

Definition frm_rf (depth fuel : nat) (dirfd : Z) : io unit := in_order_walk depth fuel dirfd rm_cb.

Definition rm_rf (depth fuel : nat) (path : cstr) : io unit :=
  do! fd := call "open" [AS path; AZ (Z.lor O_RDONLY (Z.lor O_NOFOLLOW O_CLOEXEC))] in
  (if (r_ret fd >=? 0)%Z then
     frm_rf depth fuel (r_ret fd) ;! call_ "close" [AZ (r_ret fd)]
   else IRet tt) ;!
  call_ "remove" [AS path].

(** [xfdopendir] gives null on failure, which [readdir] does not accept. *)
Definition open_dir (fd : Z) : io Z :=
  do! dir := xfdopendir fd in
  if is_null dir then IFault else IRet (r_ret dir).

Fixpoint mv_dir (depth fuel : nat) (src dest : Z) : io unit :=
  match depth with
  | O => IFuel
  | S depth =>
    do! dir := open_dir src in
    for_entries fuel dir (λ entry,
      let n := d_name entry in
      do! (_, a) := getattrat src n in
      if (d_type entry =? DT_DIR)%Z then
        do! _ := xmkdirat dest n (Z.land (fa_mode a) 0x1ff) in
        do! newsrc := xopenat src n (Z.lor O_RDONLY O_CLOEXEC) in
        do! newdest := xopenat dest n (Z.lor O_RDONLY O_CLOEXEC) in
        do! _ := fsetattr (r_ret newdest) a in
        mv_dir depth fuel (r_ret newsrc) (r_ret newdest) ;!
        call_ "close" [AZ (r_ret newsrc)] ;!
        call_ "close" [AZ (r_ret newdest)] ;!
        call_ "unlinkat" [AZ src; AS n; AZ AT_REMOVEDIR]
      else if (d_type entry =? DT_LNK)%Z || (d_type entry =? DT_REG)%Z then
        call_ "renameat" [AZ src; AS n; AZ dest; AS n] ;!
        do! _ := setattrat dest n a in IRet tt
      else IRet tt)
  end.

Definition mv_f (depth fuel : nat) (source destination : cstr) : io unit :=
  do! r := xlstat source in
  let st := attr_of r in
  (if S_ISDIR (fa_mode st) then
     do! _ := xmkdirs destination (Z.land (fa_mode st) 0x1ff) in
     do! src := xopen2 source (Z.lor O_RDONLY O_CLOEXEC) in
     do! dest := xopen2 destination (Z.lor O_RDONLY O_CLOEXEC) in
     fclone_attr (r_ret src) (r_ret dest) ;!
     mv_dir depth fuel (r_ret src) (r_ret dest) ;!
     call_ "close" [AZ (r_ret src)] ;!
     call_ "close" [AZ (r_ret dest)]
   else
     do! (_, a) := getattr source in
     do! _ := xrename source destination in
     do! _ := setattr destination a in IRet tt) ;!
  call_ "rmdir" [AS source].

Fixpoint clone_dir (depth fuel : nat) (src dest : Z) : io unit :=
  match depth with
  | O => IFuel
  | S depth =>
    do! dir := open_dir src in
    for_entries fuel dir (λ entry,
      let n := d_name entry in
      do! (_, a) := getattrat src n in
      if (d_type entry =? DT_DIR)%Z then
        do! _ := xmkdirat dest n (Z.land (fa_mode a) 0x1ff) in
        do! _ := setattrat dest n a in
        do! newsrc := xopenat src n (Z.lor O_RDONLY O_CLOEXEC) in
        do! newdest := xopenat dest n (Z.lor O_RDONLY O_CLOEXEC) in
        clone_dir depth fuel (r_ret newsrc) (r_ret newdest) ;!
        call_ "close" [AZ (r_ret newsrc)] ;!
        call_ "close" [AZ (r_ret newdest)]
      else if (d_type entry =? DT_REG)%Z then
        do! destfd := xopenat dest n (Z.lor O_WRONLY (Z.lor O_CREAT (Z.lor O_TRUNC O_CLOEXEC))) in
        do! srcfd := xopenat src n (Z.lor O_RDONLY O_CLOEXEC) in
        do! _ := xsendfile (r_ret destfd) (r_ret srcfd) (fa_size a) in
        do! _ := fsetattr (r_ret destfd) a in
        call_ "close" [AZ (r_ret destfd)] ;!
        call_ "close" [AZ (r_ret srcfd)]
      else if (d_type entry =? DT_LNK)%Z then
        do! (_, buf) := xreadlinkat src n PATH_MAX in
        do! _ := xsymlinkat (c_str_of buf) dest n in
        do! _ := setattrat dest n a in IRet tt
      else IRet tt)
  end.

Definition cp_afc (depth fuel : nat) (source destination : cstr) : io unit :=
  do! (_, a) := getattr source in
  (if S_ISDIR (fa_mode a) then
     do! _ := xmkdirs destination (Z.land (fa_mode a) 0x1ff) in
     do! src := xopen2 source (Z.lor O_RDONLY O_CLOEXEC) in
     do! dest := xopen2 destination (Z.lor O_RDONLY O_CLOEXEC) in
     clone_dir depth fuel (r_ret src) (r_ret dest) ;!
     call_ "close" [AZ (r_ret src)] ;!
     call_ "close" [AZ (r_ret dest)]
   else
     call_ "unlink" [AS destination] ;!
     if S_ISREG (fa_mode a) then
       do! src := xopen2 source O_RDONLY in
       do! dest := xopen2 destination (Z.lor O_WRONLY (Z.lor O_CREAT O_TRUNC)) in
       do! _ := xsendfile (r_ret dest) (r_ret src) (fa_size a) in
       call_ "close" [AZ (r_ret src)] ;!
       call_ "close" [AZ (r_ret dest)]
     else if S_ISLNK (fa_mode a) then
       do! (_, buf) := xreadlink source PATH_MAX in
       do! _ := xsymlink (c_str_of buf) destination in IRet tt
     else IRet tt) ;!
  do! _ := setattr destination a in IRet tt.

Fixpoint link_dir (depth fuel : nat) (src dest : Z) : io unit :=
  match depth with
  | O => IFuel
  | S depth =>
    do! dir := open_dir src in
    for_entries fuel dir (λ entry,
      let n := d_name entry in
      if (d_type entry =? DT_DIR)%Z then
        do! (_, a) := getattrat src n in
        do! _ := xmkdirat dest n (Z.land (fa_mode a) 0x1ff) in
        do! _ := setattrat dest n a in
        do! newsrc := xopenat src n (Z.lor O_RDONLY O_CLOEXEC) in
        do! newdest := xopenat dest n (Z.lor O_RDONLY O_CLOEXEC) in
        link_dir depth fuel (r_ret newsrc) (r_ret newdest) ;!
        call_ "close" [AZ (r_ret newsrc)] ;!
        call_ "close" [AZ (r_ret newdest)]
      else do! _ := xlinkat src n dest n 0 in IRet tt)
  end.

(** ** Whole files *)

(** [_mmap]: the mapping (0 for null) and its size. *)
Definition mmap_file (rw : bool) (filename : cstr) : io (Z * Z) :=
  do! fd := xopen2 filename (Z.lor (if rw then O_RDWR else O_RDONLY) O_CLOEXEC) in
  do! st := call "fstat" [AZ (r_ret fd)] in
  do! size :=
    if S_ISBLK (fa_mode (attr_of st)) then
      do! r := call "ioctl.BLKGETSIZE64" [AZ (r_ret fd)] in IRet (nth 0 (r_aux r) 0%Z)
    else IRet (fa_size (attr_of st)) in
  do! buf :=
    if (size >? 0)%Z then
      do! r := xmmap 0 size (Z.lor 1 (if rw then 2 else 0)) 1 (r_ret fd) 0 in IRet (r_ret r)
    else IRet 0%Z in
  call_ "close" [AZ (r_ret fd)] ;! IRet (buf, size).

Definition mmap_ro (filename : cstr) : io (Z * Z) := mmap_file false filename.
Definition mmap_rw (filename : cstr) : io (Z * Z) := mmap_file true filename.

(** [fd_full_read]: the bytes and the size. *)
Definition fd_full_read (fd : Z) : io (list ascii * Z) :=
  do! r := call "lseek" [AZ fd; AZ 0; AZ 2] in
  let size := u64 (r_ret r) in
  call_ "lseek" [AZ fd; AZ 0; AZ 0] ;!
  do! p := xmalloc (u64 (size + 1)) in
  if is_null p then IFault
  else
    do! d := xxread fd size in IRet (take (Z.to_nat size) (r_out d) ++ [NUL], size).

Definition full_read (filename : cstr) : io (option (list ascii) * Z) :=
  do! fd := xopen2 filename (Z.lor O_RDONLY O_CLOEXEC) in
  if is_neg fd then IRet (None, 0%Z)
  else
    do! (buf, size) := fd_full_read (r_ret fd) in
    call_ "close" [AZ (r_ret fd)] ;! IRet (Some buf, size).

Definition full_read_at (dirfd : Z) (filename : cstr) : io (option (list ascii) * Z) :=
  do! fd := xopenat dirfd filename (Z.lor O_RDONLY O_CLOEXEC) in
  if is_neg fd then IRet (None, 0%Z)
  else
    do! (buf, size) := fd_full_read (r_ret fd) in
    call_ "close" [AZ (r_ret fd)] ;! IRet (Some buf, size).

(** The loop of [stream_full_read]: [got] is what [*buf] holds so far. *)
Fixpoint stream_loop (fuel : nat) (fd : Z) (buf cap : Z) (got : list ascii)
    : io (list ascii * Z) :=
  match fuel with
  | O => IFuel
  | S fuel =>
    do! r := xread fd (2 ^ 20) in
    if (r_ret r <=? 0)%Z then IRet (got, Z.of_nat (length got))
    else
      let n := Z.to_nat (r_ret r) in
      do! (buf, cap) :=
        if (Z.of_nat (length got) + r_ret r >? cap)%Z then
          do! p := call_ret "realloc" [AZ buf; AZ (cap * 2)] in IRet (p, (cap * 2)%Z)
        else IRet (buf, cap) in
      if (buf =? 0)%Z || (Z.of_nat (length got) + r_ret r >? cap)%Z then IFault
      else stream_loop fuel fd buf cap (got ++ take n (r_out r))
  end.

Definition stream_full_read (fuel : nat) (fd : Z) : io (list ascii * Z) :=
  do! p := xmalloc (2 ^ 20) in
  if is_null p then IFault else stream_loop fuel fd (r_ret p) (2 ^ 20) [].

Definition write_zero (fd size : Z) : io unit :=
  do! r := call "lseek" [AZ fd; AZ 0; AZ 1] in
  let pos := u64 (r_ret r) in
  call_ "ftruncate" [AZ fd; AZ (u64 (pos + size))] ;!
  call_ "lseek" [AZ fd; AZ (u64 (pos + size)); AZ 0].

(** * Theorems *)

(** An environment in which [read] hands out the chunks of a stream one by one
    and every other call answers [alloc]. *)
Definition stream_env (alloc : string → list arg → Z) (chunks : list (list ascii))
    (fn : string) (args : list arg) : resp * list (list ascii) :=
  if decide (fn = "read"%string) then
    match chunks with
    | [] => (mkResp 0 0 [] [], [])
    | c :: chunks => (mkResp (Z.of_nat (length c)) 0 c [], chunks)
    end
  else (mkResp (alloc fn args) 0 [] [], chunks).

Lemma stream_loop_reads alloc fd chunks :
  (∀ fn args, alloc fn args ≠ 0%Z) →
  Forall (λ c, 0 < Z.of_nat (length c) ≤ 2 ^ 20)%Z chunks →
  ∀ fuel buf cap got, (length chunks < fuel)%nat → buf ≠ 0%Z → (2 ^ 20 ≤ cap)%Z →
  (Z.of_nat (length got) ≤ cap)%Z →
  (run (stream_env alloc) (stream_loop fuel fd buf cap got) chunks).1.1 =
    Done (got ++ concat chunks, Z.of_nat (length (got ++ concat chunks))).
Proof.
  intros Halloc Hc. induction Hc as [|c chunks Hc Hcs IH]; intros [|fuel] buf cap got Hf Hb Hcap Hgot;
    [simpl in Hf; lia| |simpl in Hf; lia|];
    cbn [stream_loop]; unfold xread, wrapped, call_, call_ret, call; cbn [ibind run stream_env];
    unfold stream_env at 1; rewrite decide_True by done.
  - cbn. by rewrite app_nil_r.
  - cbn [int_result r_ret r_out]. assert (Hi : i32 (Z.of_nat (length c)) = Z.of_nat (length c))
      by (apply i32_small; lia).
    rewrite Hi, (proj2 (Z.ltb_ge _ _)) by lia. cbn [ibind run int_result r_ret r_out].
    rewrite ?Hi, (proj2 (Z.leb_gt _ _)) by lia. rewrite Nat2Z.id, firstn_all. simpl concat.
    rewrite app_assoc. destruct (Z.gtb_spec (Z.of_nat (length got) + Z.of_nat (length c)) cap);
      cbn [ibind run].
    + unfold stream_env at 1. rewrite decide_False by done. cbn [r_ret ibind].
      rewrite (proj2 (Z.eqb_neq _ _)) by done. rewrite Z.gtb_ltb, (proj2 (Z.ltb_ge _ _)) by lia.
      cbn [orb]. specialize (IH fuel (alloc "realloc"%string [AZ buf; AZ (cap * 2)]) (cap * 2)%Z (got ++ c)).
      destruct (run _ _ _) as [[o t] s3]. apply IH; simpl in Hf; try (done || lia).
      rewrite length_app. lia.
    + rewrite (proj2 (Z.eqb_neq _ _)) by done.
      rewrite Z.gtb_ltb, (proj2 (Z.ltb_ge _ _)) by lia. cbn [orb].
      specialize (IH fuel buf cap (got ++ c)).
      destruct (run _ _ _) as [[o t] s3]. apply IH; simpl in Hf; try (done || lia).
      rewrite length_app. lia.
Qed.

(** [stream_full_read] reads a stream to its end whatever sizes the reads
    have: it returns every byte in order, one doubling of the buffer always
    makes room for the next chunk, and it stops. *)
Theorem stream_full_read_contents alloc fd chunks fuel :
  (∀ fn args, alloc fn args ≠ 0%Z) →
  Forall (λ c, 0 < Z.of_nat (length c) ≤ 2 ^ 20)%Z chunks → (length chunks < fuel)%nat →
  (run (stream_env alloc) (stream_full_read fuel fd) chunks).1.1 =
    Done (concat chunks, Z.of_nat (length (concat chunks))).
Proof.
  intros Halloc Hc Hf. unfold stream_full_read, xmalloc, wrapped, call_, call. cbn [ibind run].
  unfold stream_env at 1. rewrite decide_False by done. unfold is_null. cbn [r_ret].
  rewrite (proj2 (Z.eqb_neq _ _)) by done. cbn [ibind run r_ret].
  rewrite (proj2 (Z.eqb_neq _ _)) by done.
  pose proof (stream_loop_reads alloc fd chunks Halloc Hc fuel
    (alloc "malloc"%string [AZ (2 ^ 20)]) (2 ^ 20)%Z [] Hf (Halloc _ _) ltac:(lia) ltac:(simpl; lia)) as H.
  destruct (run _ _ _) as [[o t] s3]. exact H.
Qed.
End file.

Lemma stream_full_read_contents_witness :
  (run (stream_env (λ _ _, 1%Z)) (stream_full_read 3 7) [cs "ab"; cs "c"]).1.1 =
    Done (cs "abc", 3%Z).
Proof.
  apply (stream_full_read_contents (λ _ _, 1%Z) 7 [cs "ab"; cs "c"] 3).
  - intros fn args. discriminate.
  - repeat constructor; vm_compute; congruence.
  - apply (bool_decide_unpack _). vm_compute. exact I.
Defined.
