(* ===== verification/FileTree.v ===== *)
(** What the removal of utils/file.c does to a file system.  A file system is a
    map from paths to types of entries; [fs_env] answers the calls the walk
    makes as a kernel would, in any order of the entries of a directory.
    [rm_rf] removes the tree under its path but for what [excl_list] names,
    and closes every descriptor it opens. *)

From Stdlib Require Import ZArith Lia Ascii.
From stdpp Require Import base numbers strings gmap list fin_maps.
From S2P Require Import Prelude CString Sys XWrap Misc FileUtils.

(** * File systems *)

Notation path := (list cstr).

(** The entries with their [d_type], the open descriptors, the directory
    streams with what they have still to give, and the next handle. *)
Record fs := mkFs {
  nodes : gmap path Z;
  fds : gmap Z path;
  streams : gmap Z (list (cstr * Z));
  next : Z
}.

Definition child_of (p : path) (kv : path * Z) : option (cstr * Z) :=
  if decide (take (length p) kv.1 = p) then
    match drop (length p) kv.1 with [n] => Some (n, kv.2) | _ => None end
  else None.

(** The entries of a directory. *)
Definition dir (N : gmap path Z) (p : path) : gmap cstr Z := list_to_map (omap (child_of p) (map_to_list N)).

(** Every entry is in a directory; its name is one. *)
Definition wf (N : gmap path Z) : Prop :=
  ∀ q n k, N !! (q ++ [n]) = Some k → N !! q = Some DT_DIR ∧ no_nul n ∧ is_dot n = false.

(** Unlinking an entry, a directory when [rmdir] is true. *)
Definition unlink_node (rmdir : bool) (q : path) (N : gmap path Z) : option (gmap path Z) :=
  match N !! q with
  | Some k => if eqb (k =? DT_DIR)%Z rmdir && bool_decide (dir N q = ∅) then Some (delete q N) else None
  | None => None
  end.

Definition succeed (z : Z) : resp := mkResp z 0 [] [].
Definition fails (z : Z) : resp := mkResp z 1 [] [].

Definition set_nodes (s : fs) (N : gmap path Z) : fs := mkFs N (fds s) (streams s) (next s).
Definition set_fds (s : fs) (m : gmap Z path) : fs := mkFs (nodes s) m (streams s) (next s).
Definition set_stream (s : fs) (h : Z) (l : list (cstr * Z)) : fs :=
  mkFs (nodes s) (fds s) (<[h := l]> (streams s)) (next s).

(** A new descriptor, a new stream. *)
Definition open_fd (s : fs) (p : path) : fs := mkFs (nodes s) (<[next s := p]> (fds s)) (streams s) (next s + 1).
Definition open_stream (s : fs) (l : list (cstr * Z)) : fs :=
  mkFs (nodes s) (fds s) (<[next s := l]> (streams s)) (next s + 1).

Section env.
(** How the kernel resolves a path, and in which order it lists a directory. *)
Context (resolve : cstr → path) (list_dir : gmap path Z → path → list (cstr * Z)).

Definition unlink (s : fs) (rmdir : bool) (q : path) : resp * fs :=
  match unlink_node rmdir q (nodes s) with
  | Some N => (succeed 0, set_nodes s N)
  | None => (fails (-1), s)
  end.

Definition open_path (s : fs) (q : path) : resp * fs :=
  match nodes s !! q with
  | Some k => if (k =? DT_LNK)%Z then (fails (-1), s) else (succeed (next s), open_fd s q)
  | None => (fails (-1), s)
  end.

(** Symbolic links are not followed: the walk opens no other entries than
    directories, and its root with O_NOFOLLOW. *)
Definition fs_env (s : fs) (fn : string) (args : list arg) : resp * fs :=
  match args with
  | AS p :: _ =>
    if String.eqb fn "open" then open_path s (resolve p)
    else if String.eqb fn "remove" then
      unlink s (bool_decide (nodes s !! resolve p = Some DT_DIR)) (resolve p)
    else (succeed 0, s)
  | AZ fd :: args =>
    if String.eqb fn "close" then (succeed 0, set_fds s (delete fd (fds s)))
    else if String.eqb fn "readdir" then
      match streams s !! fd with
      | Some ((n, k) :: l) => (mkResp 1 0 (n ++ [NUL]) [k], set_stream s fd l)
      | Some [] => (succeed 0, s)
      | None => (fails 0, s)
      end
    else if String.eqb fn "fdopendir" then
      match fds s !! fd with
      | Some p => if bool_decide (nodes s !! p = Some DT_DIR) then (succeed (next s), open_stream s (list_dir (nodes s) p))
                  else (fails 0, s)
      | None => (fails 0, s)
      end
    else match fds s !! fd, args with
         | Some p, AS n :: AZ flags :: _ =>
           if String.eqb fn "openat" then open_path s (p ++ [n])
           else if String.eqb fn "unlinkat" then unlink s (flags =? AT_REMOVEDIR)%Z (p ++ [n])
           else (succeed 0, s)
         | _, _ => (fails (-1), s)
         end
  | _ => (succeed 0, s)
  end.
End env.

(** * What is removed *)

Section prune.
Context (excl_list : list cstr).

(** An entry is protected when it is, or leads to, one that is under an
    excluded name; [p] is the root of the walk. *)
Definition protected (p : path) (N : gmap path Z) (q : path) : Prop :=
  map_Exists (λ q' _, q `prefix_of` q' ∧ Exists (λ n, is_excl excl_list n = true) (drop (length p) q')) N.

#[export] Instance protected_dec p N q : Decision (protected p N q).
Proof. unfold protected. apply _. Defined.

(** Without the entries under the given names of the directory [p]. *)
Definition gone (p : path) (D : list cstr) (N : gmap path Z) (q : path) : Prop :=
  Exists (λ n, p ++ [n] `prefix_of` q) D ∧ ¬ protected p N q.

#[export] Instance gone_dec p D N q : Decision (gone p D N q).
Proof. unfold gone. apply _. Defined.

Definition prune (p : path) (D : list cstr) (N : gmap path Z) : gmap path Z := filter (λ kv, ¬ gone p D N kv.1) N.

(** Without all that is below [p], and without [p] as well. *)
Definition emptied (p : path) (N : gmap path Z) : gmap path Z :=
  filter (λ kv, ¬ (p `prefix_of` kv.1 ∧ kv.1 ≠ p ∧ ¬ protected p N kv.1)) N.
Definition removed (p : path) (N : gmap path Z) : gmap path Z :=
  filter (λ kv, ¬ (p `prefix_of` kv.1 ∧ ¬ protected p N kv.1)) N.
End prune.

(** ** Directories and paths *)

Lemma prefix_cons_split (p q : path) : p `prefix_of` q → q ≠ p → ∃ n r, q = p ++ n :: r.
Proof. intros [[|n r] ->] Hne; [by rewrite app_nil_r in Hne|]. by exists n, r. Qed.

Lemma child_prefix (p q : path) n : p ++ [n] `prefix_of` q ↔ ∃ r, q = p ++ n :: r.
Proof.
  split; intros [r ->]; exists r; by rewrite <- app_assoc.
Qed.

Lemma drop_child (p r : path) n : drop (length (p ++ [n])) (p ++ n :: r) = r.
Proof. change (n :: r) with ([n] ++ r). by rewrite app_assoc, drop_app_length. Qed.

Lemma child_prefix_inj (p q : path) n n' : p ++ [n] `prefix_of` q → p ++ [n'] `prefix_of` q → n = n'.
Proof. intros [r ->]%child_prefix [r' Hr]%child_prefix. simplify_list_eq. done. Qed.

Lemma child_of_Some p kv n k : child_of p kv = Some (n, k) ↔ kv = (p ++ [n], k).
Proof.
  unfold child_of. destruct kv as [q k']. cbn [fst snd]. split.
  - case_decide as Ht; [|done]. destruct (drop (length p) q) as [|x [|]] eqn:Hd; [done| |done]. intros [= <- <-].
    by rewrite <- Ht, <- Hd, Ht, Hd, <- (take_drop (length p) q), Ht, Hd.
  - intros [= -> ->]. rewrite take_app_length, decide_True, drop_app_length by done. done.
Qed.

Lemma dir_lookup N p n : dir N p !! n = N !! (p ++ [n]).
Proof.
  unfold dir. apply option_eq. intros k. split.
  - intros Hk%elem_of_list_to_map_2. apply list_elem_of_omap in Hk as (kv & Hin & ->%child_of_Some).
    by apply elem_of_map_to_list in Hin.
  - intros Hk. apply elem_of_list_to_map_1'.
    + intros k' (kv & Hin & ->%child_of_Some)%list_elem_of_omap. rewrite elem_of_map_to_list in Hin. congruence.
    + apply list_elem_of_omap. exists (p ++ [n], k). split; [by apply elem_of_map_to_list|by apply child_of_Some].
Qed.

Lemma dir_empty N p : dir N p = ∅ ↔ ∀ n, N !! (p ++ [n]) = None.
Proof.
  rewrite map_empty. by setoid_rewrite dir_lookup.
Qed.

Lemma list_to_map_size {A} (l : list (cstr * A)) : (size (list_to_map l : gmap cstr A) ≤ length l)%nat.
Proof.
  induction l as [|[n x] l IH]; cbn; [by rewrite map_size_empty|]. rewrite map_size_insert. case_match; unfold id; lia.
Qed.

Lemma omap_length {A B} (f : A → option B) (l : list A) : (length (omap f l) ≤ length l)%nat.
Proof. induction l as [|x l IH]; [done|]. cbn. destruct (f x); cbn; unfold omap in *; lia. Qed.

Lemma dir_size N p : (size (dir N p) ≤ size N)%nat.
Proof. etrans; [apply list_to_map_size|]. etrans; [apply omap_length|]. by rewrite length_map_to_list. Qed.

(** The directories above an entry. *)
Lemma wf_prefix N q r k n : wf N → N !! (q ++ n :: r) = Some k → N !! q = Some DT_DIR ∧ is_Some (N !! (q ++ [n])).
Proof.
  intros Hwf. revert k. induction r as [|m r IH] using rev_ind; intros k Hk.
  - split; [by apply (Hwf q n k)|by eexists].
  - apply (IH DT_DIR). rewrite app_comm_cons, app_assoc in Hk. by apply Hwf in Hk as (? & _).
Qed.

Lemma wf_leaf N q q' k k' :
  wf N → N !! q = Some k → k ≠ DT_DIR → N !! q' = Some k' → q `prefix_of` q' → q' = q.
Proof.
  intros Hwf Hq Hk Hq' Hp. destruct (decide (q' = q)) as [|Hne]; [done|].
  destruct (prefix_cons_split _ _ Hp Hne) as (n & r & ->). destruct (wf_prefix N q r k' n Hwf Hq') as [Hd _]. congruence.
Qed.

(** * Removing entry by entry *)

Section walk.
Context (excl_list : list cstr).

Notation protected := (protected excl_list).
Notation gone := (gone excl_list).
Notation prune := (prune excl_list).
Notation emptied := (emptied excl_list).
Notation removed := (removed excl_list).

Lemma prune_lookup p D N q : prune p D N !! q = if decide (gone p D N q) then None else N !! q.
Proof.
  unfold FileTree.prune. destruct (N !! q) as [k|] eqn:Hq.
  - case_decide as Hg.
    + apply map_lookup_filter_None. right. intros k' _ Hn. by apply Hn.
    + by apply map_lookup_filter_Some.
  - rewrite map_lookup_filter, Hq. by case_decide.
Qed.

Lemma emptied_lookup p N q :
  emptied p N !! q = if decide (p `prefix_of` q ∧ q ≠ p ∧ ¬ protected p N q) then None else N !! q.
Proof.
  unfold FileTree.emptied. destruct (N !! q) as [k|] eqn:Hq.
  - case_decide as Hg.
    + apply map_lookup_filter_None. right. intros k' _ Hn. by apply Hn.
    + by apply map_lookup_filter_Some.
  - rewrite map_lookup_filter, Hq. by case_decide.
Qed.

Lemma protected_up p N q q' : q `prefix_of` q' → protected p N q' → protected p N q.
Proof.
  intros Hp (q2 & k & Hk & Hq2 & He). exists q2, k. split; [done|]. split; [by etrans|done].
Qed.

(** What is below an excluded name is protected. *)
Lemma protected_below p N n q k :
  N !! q = Some k → p ++ [n] `prefix_of` q → is_excl excl_list n = true → protected p N q.
Proof.
  intros Hq [r ->]%child_prefix Hn. exists (p ++ n :: r), k. split; [done|]. split; [done|].
  rewrite drop_app_length. by constructor.
Qed.

(** Protection seen from a directory that is not excluded. *)
Lemma protected_child p D N n q :
  is_excl excl_list n = false → n ∉ D → p ++ [n] `prefix_of` q →
  protected (p ++ [n]) (prune p D N) q ↔ protected p N q.
Proof.
  intros Hn HD Hq. split; intros (q' & k & Hk & Hq' & He).
  - rewrite prune_lookup in Hk. case_decide; [done|]. exists q', k. split; [done|]. split; [done|].
    assert (p ++ [n] `prefix_of` q') as [r ->]%child_prefix by by etrans.
    rewrite drop_child in He. rewrite drop_app_length. by right.
  - assert (Hp : p ++ [n] `prefix_of` q') by by etrans. exists q', k. split; [|split; [done|]].
    + rewrite prune_lookup, decide_False; [done|]. intros [(n' & Hin & Hn')%Exists_exists _].
      by rewrite (child_prefix_inj _ _ _ _ Hp Hn') in HD.
    + apply child_prefix in Hp as [r ->]. rewrite drop_app_length in He.
      rewrite drop_child. apply Exists_cons in He as [He|He]; [congruence|done].
Qed.

Lemma prune_wf p D N : wf N → wf (prune p D N).
Proof.
  intros Hwf q m k. rewrite !prune_lookup. case_decide as Hg; [done|]. intros Hk.
  destruct (Hwf q m k Hk) as (Hd & Hm). rewrite decide_False; [done|]. intros [He Hp]. apply Hg. split.
  - eapply Exists_impl; [exact He|]. intros n Hn. etrans; [exact Hn|]. by apply prefix_app_r.
  - intros Hprot. apply Hp. eapply protected_up; [|exact Hprot]. by apply prefix_app_r.
Qed.

Lemma gone_app p D n N q :
  gone p (D ++ [n]) N q ↔ gone p D N q ∨ p ++ [n] `prefix_of` q ∧ ¬ protected p N q.
Proof. unfold FileTree.gone. rewrite Exists_app, Exists_cons, Exists_nil. tauto. Qed.

Lemma prune_same p D n N :
  (∀ q k, N !! q = Some k → p ++ [n] `prefix_of` q → protected p N q) → prune p (D ++ [n]) N = prune p D N.
Proof.
  intros H. apply map_eq. intros q. rewrite !prune_lookup. destruct (N !! q) as [k|] eqn:Hq; [|by repeat case_decide].
  specialize (H q k Hq). pose proof (gone_app p D n N q). repeat case_decide; tauto.
Qed.

(** The dots and the excluded names are left out. *)
Lemma prune_skip p D n N :
  wf N → is_dot n || is_excl excl_list n = true → prune p (D ++ [n]) N = prune p D N.
Proof.
  intros Hwf Hn. apply prune_same. intros q k Hq Hp. apply orb_true_iff in Hn as [Hd|He]; [|by eapply protected_below].
  apply child_prefix in Hp as [r ->]. destruct (wf_prefix N p r k n Hwf Hq) as (_ & k' & Hk').
  destruct (Hwf p n k' Hk') as (_ & _ & Hnd). congruence.
Qed.

Lemma prune_at p D N n k :
  N !! (p ++ [n]) = Some k → n ∉ D → prune p D N !! (p ++ [n]) = Some k.
Proof.
  intros Hk HD. rewrite prune_lookup, decide_False; [done|]. intros [(n' & Hin & Hn')%Exists_exists _].
  by rewrite (child_prefix_inj p (p ++ [n]) n n') in HD.
Qed.

(** An entry that is not a directory. *)
Lemma unlink_leaf p D N n k :
  wf N → N !! (p ++ [n]) = Some k → k ≠ DT_DIR → n ∉ D → is_excl excl_list n = false →
  unlink_node false (p ++ [n]) (prune p D N) = Some (prune p (D ++ [n]) N).
Proof.
  intros Hwf Hk Hd HD Hn. unfold unlink_node. rewrite (prune_at _ _ _ _ k) by done.
  rewrite (proj2 (Z.eqb_neq _ _)) by done. rewrite bool_decide_true; cbn [eqb andb].
  2:{ apply dir_empty. intros m. destruct (prune p D N !! _) as [k'|] eqn:Hk'; [|done].
      apply (prune_wf p D N Hwf) in Hk' as [Hd' _]. rewrite (prune_at _ _ _ _ k) in Hd' by done. congruence. }
  f_equal. apply map_eq. intros q. rewrite lookup_delete, !prune_lookup.
  assert (Hnp : ¬ protected p N (p ++ [n])).
  { intros (q' & k' & Hq' & Hpq & He). rewrite (wf_leaf N (p ++ [n]) q' k k' Hwf Hk Hd Hq' Hpq) in He.
    rewrite drop_app_length in He. apply Exists_cons in He as [He|He%Exists_nil]; congruence. }
  pose proof (gone_app p D n N q) as Hg. case_decide as Hq.
  - subst q. rewrite decide_True; [done|]. apply Hg. by right.
  - destruct (N !! q) as [k'|] eqn:Hq'; [|by repeat case_decide].
    assert (¬ p ++ [n] `prefix_of` q) by (intros Hpq; apply Hq; symmetry; by apply (wf_leaf N (p ++ [n]) q k k')).
    repeat case_decide; tauto.
Qed.

(** A directory, once what is below it has been removed: it goes unless
    something protected is left in it. *)
Lemma removed_lookup p N q :
  removed p N !! q = if decide (p `prefix_of` q ∧ ¬ protected p N q) then None else N !! q.
Proof.
  unfold FileTree.removed. destruct (N !! q) as [k|] eqn:Hq.
  - case_decide as Hg.
    + apply map_lookup_filter_None. right. intros k' _ Hn. by apply Hn.
    + by apply map_lookup_filter_Some.
  - rewrite map_lookup_filter, Hq. by case_decide.
Qed.

Lemma emptied_at p N : emptied p N !! p = N !! p.
Proof. rewrite emptied_lookup, decide_False; [done|]. by intros (_ & ? & _). Qed.

(** Nothing is left in the directory exactly when nothing in it is protected. *)
Lemma emptied_dir p N : wf N → dir (emptied p N) p = ∅ ↔ ¬ protected p N p.
Proof.
  intros Hwf. split.
  - intros He (q' & k & Hq' & [[|m r] ->] & Hex); rewrite drop_app_length in Hex; [by apply Exists_nil in Hex|].
    destruct (wf_prefix N p r k m Hwf Hq') as (_ & k' & Hc). pose proof (proj1 (dir_empty _ _) He m) as Hnone.
    rewrite emptied_lookup, decide_False in Hnone; [congruence|]. intros (_ & _ & Hnp). apply Hnp.
    exists (p ++ m :: r), k. split; [done|]. split; [by apply child_prefix; exists r|by rewrite drop_app_length].
  - intros Hnp. apply dir_empty. intros m. rewrite emptied_lookup. case_decide as Hx; [done|].
    destruct (N !! _) as [k|] eqn:Hm; [|done]. exfalso. apply Hx. split; [by apply prefix_app_r|].
    split; [intros E%(f_equal length); rewrite !length_app in E; cbn in E; lia|].
    intros Hpr. apply Hnp. eapply protected_up; [|exact Hpr]. by apply prefix_app_r.
Qed.

Lemma unlink_emptied p N :
  wf N → N !! p = Some DT_DIR → default (emptied p N) (unlink_node true p (emptied p N)) = removed p N.
Proof.
  intros Hwf Hp. unfold unlink_node. rewrite emptied_at, Hp. cbn [Z.eqb Pos.eqb DT_DIR eqb andb].
  pose proof (emptied_dir p N Hwf) as Hd. case_bool_decide as He; cbn [from_option]; unfold id; apply map_eq; intros q;
    rewrite ?lookup_delete, ?emptied_lookup, removed_lookup.
  - case_decide as Hq; [subst q; rewrite decide_True; [done|]; by split; [|apply Hd]|].
    repeat case_decide; naive_solver.
  - assert (protected p N p) by (apply dec_stable; tauto).
    destruct (decide (q = p)) as [->|Hne]; repeat case_decide; naive_solver.
Qed.

Lemma removed_child p D N n :
  is_excl excl_list n = false → n ∉ D → removed (p ++ [n]) (prune p D N) = prune p (D ++ [n]) N.
Proof.
  intros Hn HD. apply map_eq. intros q. rewrite removed_lookup, !prune_lookup. pose proof (gone_app p D n N q).
  destruct (decide (p ++ [n] `prefix_of` q)) as [Hp|Hp]; [pose proof (protected_child p D N n q Hn HD Hp)|];
    repeat case_decide; tauto.
Qed.

Lemma unlink_dir p D N n :
  wf N → N !! (p ++ [n]) = Some DT_DIR → n ∉ D → is_excl excl_list n = false →
  default (emptied (p ++ [n]) (prune p D N)) (unlink_node true (p ++ [n]) (emptied (p ++ [n]) (prune p D N))) =
    prune p (D ++ [n]) N.
Proof.
  intros Hwf Hk HD Hn. rewrite unlink_emptied; [by apply removed_child|by apply prune_wf|by apply prune_at].
Qed.

(** All entries of the directory have been gone through. *)
Lemma prune_all p D N :
  wf N → (∀ n k, dir N p !! n = Some k → n ∈ D) → prune p D N = emptied p N.
Proof.
  intros Hwf HD. apply map_eq. intros q. rewrite prune_lookup, emptied_lookup. destruct (N !! q) as [k|] eqn:Hq;
    [|by repeat case_decide].
  assert (H : Exists (λ n, p ++ [n] `prefix_of` q) D ↔ p `prefix_of` q ∧ q ≠ p).
  { rewrite Exists_exists. split.
    - intros (n & _ & [r ->]%child_prefix). split; [by apply prefix_app_r|]. intros ?%(f_equal length).
      rewrite length_app in *. cbn in *. lia.
    - intros [Hp Hne]. destruct (prefix_cons_split _ _ Hp Hne) as (n & r & ->). exists n. split; [|by apply child_prefix; exists r].
      destruct (wf_prefix N p r k n Hwf Hq) as (_ & k' & Hk'). apply (HD n k'). by rewrite dir_lookup. }
  unfold FileTree.gone. repeat case_decide; tauto.
Qed.

(** * The walk *)

Context (resolve : cstr → path) (list_dir : gmap path Z → path → list (cstr * Z)).

(** The kernel lists a directory in some order, with its dots. *)
Context (Hlist : ∀ N p, list_dir N p ≡ₚ (cs ".", DT_DIR) :: (cs "..", DT_DIR) :: map_to_list (dir N p)).

Notation env := (fs_env resolve list_dir).

(** A program returns, with this result in this state. *)
Definition yields {A} (m : io A) (s : fs) (a : A) (s' : fs) : Prop := ∃ t, run env m s = (Done a, t, s').

Lemma yields_ret {A} (a : A) s : yields (IRet a) s a s.
Proof. by exists []. Qed.

Lemma yields_bind {A B} (m : io A) (f : A → io B) s a s1 b s2 :
  yields m s a s1 → yields (f a) s1 b s2 → yields (ibind m f) s b s2.
Proof. intros [t Ht] [t' Ht']. exists (t ++ t'). by rewrite run_bind, Ht, Ht'. Qed.

Lemma yields_call fn args s r s' : env s fn args = (r, s') → yields (call fn args) s r s'.
Proof. intros H. eexists. cbn [call run]. by rewrite H. Qed.

Lemma yields_call_ fn args s r s' : env s fn args = (r, s') → yields (call_ fn args) s tt s'.
Proof. intros H. eapply yields_bind; [by apply yields_call|]. apply yields_ret. Qed.

(** A wrapper of xwrap.c around a call that does not fail. *)
Lemma yields_wrapped failed fn args msg s r s' :
  env s fn args = (r, s') → failed r = false → yields (wrapped failed fn args msg) s r s'.
Proof.
  intros H Hf. eapply yields_bind; [by apply yields_call|]. rewrite Hf. eapply yields_bind; apply yields_ret.
Qed.

(** Handles that are in use are below [next]. *)
Record fresh (s : fs) : Prop := {
  fr_next : (0 < next s)%Z;
  fr_fds : ∀ d, is_Some (fds s !! d) → (d < next s)%Z
}.

(** What the removal of a part does to the rest of the state: descriptors are
    as before, streams that were there are where they were. *)
Record frame (s s' : fs) : Prop := {
  fm_fds : fds s' = fds s;
  fm_next : (next s ≤ next s')%Z;
  fm_streams : ∀ h, (h < next s)%Z → streams s' !! h = streams s !! h
}.

#[local] Instance frame_refl : Reflexive frame.
Proof. by split. Qed.

#[local] Instance frame_trans : Transitive frame.
Proof.
  intros s1 s2 s3 [H1 H2 H3] [G1 G2 G3]. split; [congruence|lia|]. intros h Hh. rewrite G3 by lia. by apply H3.
Qed.

Lemma frame_fresh s s' : frame s s' → fresh s → fresh s'.
Proof. intros [H1 H2 _] [H3 H4]. split; [lia|]. intros d. rewrite H1. intros ?%H4. lia. Qed.

(** A descriptor that is opened and closed again. *)
Lemma open_fd_fresh s p : fresh s → fresh (open_fd s p).
Proof.
  intros [Hpos Hfds]. split; cbn [open_fd next fds]; [lia|]. intros d [x Hd].
  apply lookup_insert_Some in Hd as [[<- _]|[_ Hd]]; [lia|]. specialize (Hfds d ltac:(by eexists)). lia.
Qed.

Lemma close_opened s p s' :
  fresh s → frame (open_fd s p) s' → frame s (set_fds s' (delete (next s) (fds s'))).
Proof.
  intros [Hpos Hfds] [Hf Hn Hs]. cbn in Hf, Hn, Hs. split; cbn [set_fds fds next streams].
  - rewrite Hf. apply delete_insert_id. destruct (fds s !! next s) eqn:E; [|done].
    specialize (Hfds (next s) ltac:(by eexists)). lia.
  - lia.
  - intros h Hh. apply Hs. lia.
Qed.

(** Unlinking an entry, whether it is done or not. *)
Lemma yields_unlink s d p n flags :
  fds s !! d = Some p → yields (call_ "unlinkat" [AZ d; AS n; AZ flags]) s tt
    (set_nodes s (default (nodes s) (unlink_node (flags =? AT_REMOVEDIR)%Z (p ++ [n]) (nodes s)))).
Proof.
  intros Hd. destruct (unlink s (flags =? AT_REMOVEDIR)%Z (p ++ [n])) as [r s'] eqn:Hu.
  replace (set_nodes s _) with s'; [eapply yields_call_|].
  - cbn [fs_env String.eqb Ascii.eqb Bool.eqb]. cbn. by rewrite Hd.
  - unfold unlink in Hu. destruct (unlink_node _ _ _); injection Hu as <- <-; [done|]. cbn. by destruct s.
Qed.

Lemma yields_close s d : yields (call_ "close" [AZ d]) s tt (set_fds s (delete d (fds s))).
Proof. by eapply yields_call_. Qed.

Lemma yields_openat s d p n :
  fds s !! d = Some p → nodes s !! (p ++ [n]) = Some DT_DIR → (0 < next s)%Z →
  yields (xopenat d n (Z.lor O_RDONLY O_CLOEXEC)) s (succeed (next s)) (open_fd s (p ++ [n])).
Proof.
  intros Hd Hn Hx. apply yields_wrapped.
  - cbn. rewrite Hd. unfold open_path. by rewrite Hn.
  - unfold is_neg. cbn. by apply Z.ltb_ge, Z.lt_le_incl.
Qed.

Lemma yields_fdopendir s d p :
  fds s !! d = Some p → nodes s !! p = Some DT_DIR →
  yields (call "fdopendir" [AZ d]) s (succeed (next s)) (open_stream s (list_dir (nodes s) p)).
Proof. intros Hd Hp. apply yields_call. cbn. by rewrite Hd, Hp. Qed.

Lemma yields_readdir s h n k l :
  streams s !! h = Some ((n, k) :: l) → no_nul n →
  ∃ e, yields (xreaddir h) s e (set_stream s h l) ∧ is_null e = false ∧ d_name e = n ∧ d_type e = k.
Proof.
  intros Hs Hn. exists (mkResp 1 0 (n ++ [NUL]) [k]). split.
  - apply yields_wrapped; [|done]. cbn. by rewrite Hs.
  - split; [done|]. split; [by apply c_str_of_app|done].
Qed.

Lemma yields_readdir_end s h :
  streams s !! h = Some [] → yields (xreaddir h) s (succeed 0) s.
Proof. intros Hs. apply yields_wrapped; [|done]. cbn. by rewrite Hs. Qed.

(** The tree below [p] has fewer levels than [depth]. *)
Definition shallow (N : gmap path Z) (p : path) (depth : nat) : Prop :=
  ∀ q k, N !! q = Some k → p `prefix_of` q → (length q < length p + depth)%nat.

Definition walks (depth fuel : nat) : Prop := ∀ s d p,
  wf (nodes s) → fresh s → fds s !! d = Some p → nodes s !! p = Some DT_DIR → shallow (nodes s) p depth →
  (size (nodes s) + 2 < fuel)%nat →
  ∃ s', yields (in_order_walk excl_list depth fuel d rm_cb) s tt s' ∧ nodes s' = emptied p (nodes s) ∧ frame s s'.

Lemma prune_size p D N : (size (prune p D N) ≤ size N)%nat.
Proof. apply map_subseteq_size, map_filter_subseteq. Qed.

Lemma prune_shallow p D N n depth :
  shallow N p (S depth) → shallow (prune p D N) (p ++ [n]) depth.
Proof.
  intros H q k. rewrite prune_lookup. case_decide; [done|]. intros Hq Hp. rewrite length_app. cbn.
  assert (length q < length p + S depth)%nat; [|lia]. apply (H q k Hq). etrans; [|exact Hp]. by apply prefix_app_r.
Qed.

Lemma rm_cb_run s d p n k e :
  fds s !! d = Some p → d_name e = n → d_type e = k →
  yields (rm_cb d e) s tt (set_nodes s (default (nodes s) (unlink_node (k =? DT_DIR)%Z (p ++ [n]) (nodes s)))).
Proof.
  intros Hd <- <-. unfold rm_cb. destruct (d_type e =? DT_DIR)%Z; by eapply yields_unlink.
Qed.

(** One entry of the directory [p]. *)
Lemma entry_run depth fuel s d p D N n k e :
  walks depth fuel → wf N → fresh s → fds s !! d = Some p → nodes s = prune p D N → shallow N p (S depth) →
  (size N + 2 < fuel)%nat → N !! (p ++ [n]) = Some k → n ∉ D → is_excl excl_list n = false →
  d_name e = n → d_type e = k → ∃ s',
    yields ((if (d_type e =? DT_DIR)%Z then
               do! newfd := xopenat d (d_name e) (Z.lor O_RDONLY O_CLOEXEC) in
               in_order_walk excl_list depth fuel (r_ret newfd) rm_cb ;! call_ "close" [AZ (r_ret newfd)]
             else IRet tt) ;! rm_cb d e) s tt s' ∧
    nodes s' = prune p (D ++ [n]) N ∧ frame s s'.
Proof.
  intros Hwalk Hwf Hfr Hd Hs Hsh Hfuel Hn HD Hex He Hk. rewrite He, Hk.
  destruct (Z.eqb_spec k DT_DIR) as [->|Hne].
  - assert (Hnode : nodes s !! (p ++ [n]) = Some DT_DIR) by (rewrite Hs; by apply prune_at).
    set (s1 := open_fd s (p ++ [n])).
    destruct (Hwalk s1 (next s) (p ++ [n])) as (s2 & Hrun & Hn2 & Hf2); cbn [s1 open_fd nodes fds]; rewrite ?Hs.
    + by apply prune_wf.
    + by apply open_fd_fresh.
    + by rewrite lookup_insert_eq.
    + by rewrite <- Hs.
    + by apply prune_shallow.
    + pose proof (prune_size p D N). lia.
    + set (s3 := set_fds s2 (delete (next s) (fds s2))).
      assert (Hf3 : frame s s3) by by eapply close_opened.
      eexists. split; [|split].
      * eapply yields_bind; [eapply yields_bind; [by apply (yields_openat s d p n); [| |apply Hfr]|]|].
        { cbn [succeed r_ret]. eapply yields_bind; [exact Hrun|]. apply (yields_close s2 (next s)). }
        apply (rm_cb_run s3 d p n DT_DIR e); [by rewrite (fm_fds _ _ Hf3)|done..].
      * cbn [set_nodes nodes s3 set_fds]. rewrite Hn2. cbn [s1 open_fd nodes]. rewrite Hs. by apply unlink_dir.
      * destruct Hf3 as [F1 F2 F3]. by split.
  - eexists. split; [eapply yields_bind; [apply yields_ret|by apply (rm_cb_run s d p n k e)]|]. split; [|done].
    cbn [set_nodes nodes]. rewrite (proj2 (Z.eqb_neq _ _)), Hs by done. by rewrite (unlink_leaf p D N n k).
Qed.

(** What may come out of a directory's stream. *)
Definition listed (N : gmap path Z) (p : path) (nk : cstr * Z) : Prop :=
  no_nul nk.1 ∧ (is_dot nk.1 = true ∨ N !! (p ++ [nk.1]) = Some nk.2).

Lemma entries_run depth fuel d p N h s0 L fuel' s D :
  walks depth fuel → wf N → shallow N p (S depth) → (size N + 2 < fuel)%nat → (next s0 ≤ h < next s)%Z →
  frame s0 s → fresh s → fds s !! d = Some p → nodes s = prune p D N → streams s !! h = Some L →
  NoDup (D ++ L.*1) → Forall (listed N p) L → (length L < fuel')%nat → ∃ s',
    yields (for_entries excl_list fuel' h (λ entry,
      (if (d_type entry =? DT_DIR)%Z then
         do! newfd := xopenat d (d_name entry) (Z.lor O_RDONLY O_CLOEXEC) in
         in_order_walk excl_list depth fuel (r_ret newfd) rm_cb ;! call_ "close" [AZ (r_ret newfd)]
       else IRet tt) ;! rm_cb d entry)) s tt s' ∧
    nodes s' = prune p (D ++ L.*1) N ∧ frame s0 s'.
Proof.
  intros Hwalk Hwf Hsh Hfuel. revert fuel' s D.
  induction L as [|[n k] L IH]; intros [|fuel'] s D Hh Hf0 Hfr Hd Hs Hst Hnd HL Hlen; cbn in Hlen; try lia.
  - exists s. split; [|split; [by rewrite app_nil_r|done]]. cbn [for_entries].
    eapply yields_bind; [by apply yields_readdir_end|]. apply yields_ret.
  - apply Forall_cons in HL as [[Hnul Hn] HL]. cbn [fst snd fmap list_fmap] in *.
    destruct (yields_readdir s h n k L Hst Hnul) as (e & Hrd & Hnull & <- & <-).
    set (n := d_name e) in *.
    set (s1 := set_stream s h L). assert (Hfr1 : fresh s1) by (destruct Hfr; by split).
    assert (Hf1 : frame s0 s1).
    { destruct Hf0 as [F1 F2 F3]. split; [done|done|]. intros h' Hh'. cbn. rewrite lookup_insert_ne by lia. by apply F3. }
    assert (HnD : n ∉ D) by (apply NoDup_app in Hnd as (_ & Hdis & _); intros Hin; apply (Hdis n Hin); by left).
    rewrite (cons_middle n), app_assoc in Hnd |- *.
    assert (Hstep : ∃ s2, yields (if is_dot (d_name e) || is_excl excl_list (d_name e) then IRet tt else
        (if (d_type e =? DT_DIR)%Z then
         do! newfd := xopenat d (d_name e) (Z.lor O_RDONLY O_CLOEXEC) in
         in_order_walk excl_list depth fuel (r_ret newfd) rm_cb ;! call_ "close" [AZ (r_ret newfd)]
       else IRet tt) ;! rm_cb d e) s1 tt s2 ∧ nodes s2 = prune p (D ++ [n]) N ∧ frame s1 s2).
    { fold n. destruct (is_dot n || is_excl excl_list n) eqn:Hskip.
      - exists s1. split; [apply yields_ret|]. split; [|done]. by rewrite prune_skip.
      - apply orb_false_iff in Hskip as [Hdot Hex]. destruct Hn as [Hn|Hn]; [congruence|].
        by apply (entry_run depth fuel s1 d p D N n (d_type e) e). }
    destruct Hstep as (s2 & Hrun2 & Hn2 & Hf2).
    destruct (IH fuel' s2 (D ++ [n])) as (s3 & Hrun3 & Hn3 & Hf3); try done.
    + pose proof (fm_next _ _ Hf2) as Hnx. cbn in Hnx. lia.
    + by etrans.
    + by eapply (frame_fresh s1).
    + by rewrite (fm_fds _ _ Hf2).
    + rewrite (fm_streams _ _ Hf2) by (cbn; lia). cbn. apply lookup_insert_eq.
    + lia.
    + exists s3. split; [|done]. cbn [for_entries]. eapply yields_bind; [exact Hrd|]. rewrite Hnull.
      eapply yields_bind; [exact Hrun2|exact Hrun3].
Qed.

Lemma listing_ok N p :
  wf N → NoDup (list_dir N p).*1 ∧ Forall (listed N p) (list_dir N p) ∧
  length (list_dir N p) = (size (dir N p) + 2)%nat ∧ ∀ n k, dir N p !! n = Some k → n ∈ (list_dir N p).*1.
Proof.
  intros Hwf. assert (Hin : ∀ n k, (n, k) ∈ map_to_list (dir N p) → N !! (p ++ [n]) = Some k ∧ no_nul n ∧ is_dot n = false).
  { intros n k. rewrite elem_of_map_to_list, dir_lookup. intros Hk. split; [done|]. by apply (Hwf p n k). }
  split_and!.
  - rewrite (Hlist N p). cbn. assert (Hnot : ∀ n, is_dot n = true → n ∉ (map_to_list (dir N p)).*1).
    { intros n Hdot ((n' & k) & -> & Hk)%list_elem_of_fmap. apply Hin in Hk as (_ & _ & Hnd). cbn in Hdot. congruence. }
    apply NoDup_cons. split; [|apply NoDup_cons; split; [by apply Hnot|apply NoDup_fst_map_to_list]].
    intros [H|H]%elem_of_cons; [discriminate|]. by apply (Hnot (cs ".")).
  - rewrite (Hlist N p). repeat (apply Forall_cons; split; [split; [apply (bool_decide_unpack _); vm_compute; exact I|by left]|]). apply Forall_forall. intros [n k] Hk.
    apply Hin in Hk as (? & ? & ?). split; [done|by right].
  - rewrite (Hlist N p). cbn. rewrite length_map_to_list. lia.
  - intros n k Hk. rewrite (Hlist N p). cbn. right. right. apply list_elem_of_fmap. exists (n, k). split; [done|]. by apply elem_of_map_to_list.
Qed.

Lemma walk_all depth fuel : walks depth fuel.
Proof.
  induction depth as [|depth IH]; intros s d p Hwf Hfr Hd Hp Hsh Hfuel.
  { specialize (Hsh p _ Hp ltac:(done)). lia. }
  cbn [in_order_walk]. set (s1 := open_stream s (list_dir (nodes s) p)).
  destruct (listing_ok (nodes s) p Hwf) as (Hnd & HL & Hlen & Hall).
  assert (Hf1 : frame s s1).
  { split; [done|cbn; lia|]. intros h Hh. cbn. by rewrite lookup_insert_ne by lia. }
  pose proof (fr_next _ Hfr) as Hpos. pose proof (dir_size (nodes s) p).
  destruct (entries_run depth fuel d p (nodes s) (next s) s (list_dir (nodes s) p) fuel s1 []) as (s2 & Hrun & Hn2 & Hf2); try done.
  - cbn. lia.
  - by eapply (frame_fresh s).
  - cbn. apply map_eq. intros q. rewrite prune_lookup. rewrite decide_False; [done|].
    intros [He _]. by apply Exists_nil in He.
  - cbn. apply lookup_insert_eq.
  - lia.
  - exists s2. split; [|split; [|done]].
    + eapply yields_bind; [by apply (yields_fdopendir s d p)|]. unfold is_null. cbn [succeed r_ret].
      rewrite (proj2 (Z.eqb_neq _ _)) by lia. exact Hrun.
    + rewrite Hn2. by apply prune_all.
Qed.

Lemma yields_open s p :
  (0 < next s)%Z → ∃ r s1, yields (call "open" [AS p; AZ (Z.lor O_RDONLY (Z.lor O_NOFOLLOW O_CLOEXEC))]) s r s1 ∧
    match nodes s !! resolve p with
    | Some k => if (k =? DT_LNK)%Z then r_ret r = (-1)%Z ∧ s1 = s else r_ret r = next s ∧ s1 = open_fd s (resolve p)
    | None => r_ret r = (-1)%Z ∧ s1 = s
    end.
Proof.
  intros Hpos. destruct (open_path s (resolve p)) as [r s1] eqn:Ho. exists r, s1. split; [by apply yields_call|].
  unfold open_path in Ho. destruct (nodes s !! resolve p) as [k|]; [destruct (k =? DT_LNK)%Z|]; injection Ho as <- <-; done.
Qed.

Lemma yields_remove s p : yields (call_ "remove" [AS p]) s tt
  (set_nodes s (default (nodes s) (unlink_node (bool_decide (nodes s !! resolve p = Some DT_DIR)) (resolve p) (nodes s)))).
Proof.
  destruct (unlink s (bool_decide (nodes s !! resolve p = Some DT_DIR)) (resolve p)) as [r s'] eqn:Hu.
  replace (set_nodes s _) with s'; [by eapply yields_call_|].
  unfold unlink in Hu. destruct (unlink_node _ _ _); injection Hu as <- <-; [done|]. cbn. by destruct s.
Qed.

Lemma unlink_file p N k :
  wf N → N !! p = Some k → k ≠ DT_DIR → default N (unlink_node false p N) = removed p N.
Proof.
  intros Hwf Hp Hk. unfold unlink_node. assert (Hd : dir N p = ∅).
  { apply dir_empty. intros m. destruct (N !! (p ++ [m])) as [k'|] eqn:Hm; [|done]. apply Hwf in Hm as [Hd _]. congruence. }
  rewrite Hp, (proj2 (Z.eqb_neq _ _)), bool_decide_true by done.
  cbn [eqb andb from_option]. unfold id. apply map_eq. intros q. rewrite lookup_delete, removed_lookup.
  assert (Hnp : ¬ protected p N p).
  { intros (q' & k' & Hq' & Hpq & He). rewrite (wf_leaf N p q' k k' Hwf Hp Hk Hq' Hpq) in He.
    rewrite <- (app_nil_r p) in He at 2. rewrite drop_app_length in He. by apply Exists_nil in He. }
  case_decide as Hq; [subst q; by rewrite decide_True|]. case_decide as Hg; [|done].
  destruct (N !! q) as [k'|] eqn:Hq'; [|done]. destruct Hq. symmetry.
  exact (wf_leaf N p q k k' Hwf Hp Hk Hq' (proj1 Hg)).
Qed.

Lemma removed_none p N : wf N → N !! p = None → removed p N = N.
Proof.
  intros Hwf Hp. apply map_eq. intros q. rewrite removed_lookup. case_decide as Hg; [|done].
  destruct (N !! q) as [k|] eqn:Hq; [|done]. exfalso. destruct Hg as [Hpq _].
  destruct (decide (q = p)) as [->|Hne]; [congruence|]. destruct (prefix_cons_split _ _ Hpq Hne) as (n & r & ->).
  destruct (wf_prefix N p r k n Hwf Hq) as [Hd _]. congruence.
Qed.

(** The walk leaves a root that is not a directory alone. *)
Lemma walk_not_dir depth fuel s d p :
  fds s !! d = Some p → nodes s !! p ≠ Some DT_DIR → (0 < depth)%nat →
  yields (in_order_walk excl_list depth fuel d rm_cb) s tt s.
Proof.
  intros Hd Hp Hdepth. destruct depth as [|depth]; [lia|]. cbn [in_order_walk].
  eapply yields_bind; [apply yields_call; cbn; by rewrite Hd, bool_decide_false|apply yields_ret].
Qed.

Lemma opened_walk depth fuel s p k :
  wf (nodes s) → fresh s → (0 < depth)%nat → shallow (nodes s) p depth → (size (nodes s) + 2 < fuel)%nat →
  nodes s !! p = Some k → ∃ s',
    yields (frm_rf excl_list depth fuel (next s) ;! call_ "close" [AZ (next s)]) (open_fd s p) tt s' ∧
    frame s s' ∧ nodes s' = if decide (k = DT_DIR) then emptied p (nodes s) else nodes s.
Proof.
  intros Hwf Hfr Hdepth Hsh Hfuel Hp. unfold frm_rf.
  assert (Hget : fds (open_fd s p) !! next s = Some p) by apply lookup_insert_eq.
  case_decide as Hk.
  - subst k. destruct (walk_all depth fuel (open_fd s p) (next s) p) as (s2 & Hrun & Hn2 & Hf2); try done.
    { by apply open_fd_fresh. }
    eexists. split; [eapply yields_bind; [exact Hrun|apply yields_close]|]. split; [by eapply close_opened|done].
  - eexists. split; [eapply yields_bind; [eapply walk_not_dir; [exact Hget|cbn; congruence|done]|apply yields_close]|].
    split; [|done]. by apply (close_opened s p).
Qed.

(** What [rm_rf] does before it removes the path itself. *)
Lemma rm_rf_below depth fuel s name :
  let p := resolve name in
  wf (nodes s) → fresh s → (0 < depth)%nat → shallow (nodes s) p depth → (size (nodes s) + 2 < fuel)%nat → ∃ s',
    yields (do! fd := call "open" [AS name; AZ (Z.lor O_RDONLY (Z.lor O_NOFOLLOW O_CLOEXEC))] in
      if (r_ret fd >=? 0)%Z then frm_rf excl_list depth fuel (r_ret fd) ;! call_ "close" [AZ (r_ret fd)]
      else IRet tt) s tt s' ∧
    frame s s' ∧ nodes s' = if decide (nodes s !! p = Some DT_DIR) then emptied p (nodes s) else nodes s.
Proof.
  intros p Hwf Hfr Hdepth Hsh Hfuel. destruct (yields_open s name (fr_next _ Hfr)) as (r & s1 & Ho & Hr). fold p in Hr.
  assert (Hclosed : r_ret r = (-1)%Z ∧ s1 = s → yields (if (r_ret r >=? 0)%Z then
      frm_rf excl_list depth fuel (r_ret r) ;! call_ "close" [AZ (r_ret r)] else IRet tt) s1 tt s).
  { intros [-> ->]. apply yields_ret. }
  destruct (nodes s !! p) as [k|] eqn:Hp; [destruct (Z.eqb_spec k DT_LNK) as [->|Hk]|].
  - exists s. split; [by eapply yields_bind; [|apply Hclosed]|done].
  - destruct Hr as [Hr ->]. destruct (opened_walk depth fuel s p k) as (s' & Hrun & Hf & Hn); try done.
    exists s'. split; [eapply yields_bind; [exact Ho|]|].
    + pose proof (fr_next _ Hfr). by rewrite Hr, (proj2 (Z.geb_le _ _)) by lia.
    + split; [done|]. rewrite Hn. by repeat case_decide; simplify_eq.
  - exists s. split; [by eapply yields_bind; [|apply Hclosed]|done].
Qed.

(** C19. Removing a path removes its tree: from any file system in which every
    entry is in a directory, [rm_rf] returns, whatever the order in which the
    kernel lists the entries; the path and all that is below it are gone, but
    for the entries under a name of [excl_list] and the directories that lead
    to them; nothing else has changed and no descriptor is left open.  A path
    that is a file or a link, or that is not there, is handled as well. *)
Theorem rm_rf_removes depth fuel s name :
  wf (nodes s) → fresh s → (0 < depth)%nat → shallow (nodes s) (resolve name) depth → (size (nodes s) + 2 < fuel)%nat →
  ∃ s', yields (rm_rf excl_list depth fuel name) s tt s' ∧
    nodes s' = removed (resolve name) (nodes s) ∧ fds s' = fds s.
Proof.
  intros Hwf Hfr Hdepth Hsh Hfuel. destruct (rm_rf_below depth fuel s name Hwf Hfr Hdepth Hsh Hfuel) as (s1 & Hrun & Hf & Hn).
  eexists. split; [|split].
  - destruct (yields_bind _ (λ _, call_ "remove" [AS name]) _ _ _ _ _ Hrun (yields_remove s1 name)) as [t Ht].
    exists t. rewrite <- Ht. symmetry. apply ibind_assoc.
  - cbn [set_nodes nodes]. rewrite Hn. set (p := resolve name) in *. case_decide as Hd.
    + rewrite emptied_at, bool_decide_true by done. by apply unlink_emptied.
    + rewrite bool_decide_false by done. destruct (nodes s !! p) as [k|] eqn:Hp.
      * apply (unlink_file p _ k); [done..|congruence].
      * unfold unlink_node. rewrite Hp. symmetry. by apply removed_none.
  - apply (fm_fds _ _ Hf).
Qed.
End walk.

(** * A concrete file system *)

(** Deciding that every entry is in a directory. *)
Definition wf_entry (N : gmap path Z) (q : path) : Prop :=
  match rev q with [] => True | n :: r => N !! rev r = Some DT_DIR ∧ no_nul n ∧ is_dot n = false end.

#[export] Instance wf_entry_dec N q : Decision (wf_entry N q).
Proof. unfold wf_entry. case_match; apply _. Defined.

Lemma wf_check N : map_Forall (λ q _, wf_entry N q) N → wf N.
Proof.
  intros H q n k Hk. specialize (H _ _ Hk). unfold wf_entry in H. rewrite rev_app_distr in H. cbn in H.
  by rewrite rev_involutive in H.
Qed.

(** The components of a path. *)
Fixpoint components (name : cstr) : path :=
  match name with
  | [] => []
  | c :: name =>
    if bool_decide (c = "/"%char) then [] :: components name
    else match components name with [] => [[c]] | n :: p => (c :: n) :: p end
  end.

Definition resolve_path (name : cstr) : path := filter (λ n, n ≠ []) (components name).

Definition plain_listing (N : gmap path Z) (p : path) : list (cstr * Z) :=
  (cs ".", DT_DIR) :: (cs "..", DT_DIR) :: map_to_list (dir N p).

Definition sample_paths : list (string * Z) :=
  [("data", 4); ("data/y", 8); ("data/x", 4); ("data/x/a", 8); ("data/x/l", 10); ("data/x/sub", 4);
   ("data/x/sub/b", 8); ("data/x/sub/keep", 8); ("data/x/empty", 4)]%Z.

Definition tree_of (l : list (string * Z)) : gmap path Z :=
  <[[] := DT_DIR]> (list_to_map ((λ pk, (resolve_path (cs pk.1), pk.2)) <$> l)).

Definition sample_fs : fs := mkFs (tree_of sample_paths) ∅ ∅ 3.

Lemma rm_rf_removes_witness :
  ∃ s', yields resolve_path plain_listing (rm_rf [cs "keep"] 4 13 (cs "/data/x")) sample_fs tt s' ∧
    nodes s' = tree_of [("data", 4); ("data/y", 8); ("data/x", 4); ("data/x/sub", 4); ("data/x/sub/keep", 8)]%Z ∧
    fds s' = ∅.
Proof.
  destruct (rm_rf_removes [cs "keep"] resolve_path plain_listing (λ N p, reflexivity _) 4 13 sample_fs (cs "/data/x"))
    as (s' & Hrun & Hn & Hf).
  - apply wf_check. apply (bool_decide_unpack _). vm_compute. exact I.
  - split; [reflexivity|]. intros d [x Hx]. discriminate Hx.
  - apply (bool_decide_unpack _). vm_compute. exact I.
  - apply (bool_decide_unpack (map_Forall (λ q _, resolve_path (cs "/data/x") `prefix_of` q →
      (length q < length (resolve_path (cs "/data/x")) + 4)%nat) (nodes sample_fs))). vm_compute. exact I.
  - apply (bool_decide_unpack _). vm_compute. exact I.
  - exists s'. split; [exact Hrun|]. split; [|exact Hf]. rewrite Hn. apply (bool_decide_unpack _). vm_compute. exact I.
Defined.
