(* ===== verification/Scanf.v ===== *)
(** The directives of fscanf and the other reads of <stdio.h> that the program
    uses, on the text that is left of a stream and its end-of-file flag. *)

From Stdlib Require Import ZArith Lia Ascii.
From stdpp Require Import base numbers strings gmap list.
From S2P Require Import Prelude CString.

Record stream := mkStream { s_rest : list ascii; s_eof : bool }.

Definition fopen_text (f : list ascii) : stream := mkStream f false.

(** Having read up to [r]: end of file is seen when a read finds nothing. *)
Definition at_rest (st : stream) (r : list ascii) : stream :=
  mkStream r (s_eof st || bool_decide (r = [])).

Definition fgetc (st : stream) : option ascii * stream :=
  match s_rest st with
  | [] => (None, mkStream [] true)
  | c :: r => (Some c, mkStream r (s_eof st))
  end.

Fixpoint span (p : ascii → bool) (l : list ascii) : list ascii * list ascii :=
  match l with
  | c :: l' => if p c then let '(a, b) := span p l' in (c :: a, b) else ([], l)
  | [] => ([], [])
  end.

(** White space in a format. *)
Definition skip_ws (st : stream) : stream := at_rest st (span isspace (s_rest st)).2.

(** An ordinary character in a format. *)
Definition lit (c : ascii) (st : stream) : bool * stream :=
  match s_rest st with
  | [] => (false, mkStream [] true)
  | x :: r => if bool_decide (x = c) then (true, mkStream r (s_eof st)) else (false, st)
  end.

Definition digits_val (ds : list ascii) : Z := fold_left (λ a c, 10 * a + (ord c - 48))%Z ds 0%Z.

(** "%d" and "%llu": the number, before it is stored at the width of the
    variable. *)
Definition scan_int (st : stream) : option Z * stream :=
  let st := skip_ws st in
  let '(neg, r) := match s_rest st with
                   | c :: r => if bool_decide (c = "-"%char) then (true, r)
                               else if bool_decide (c = "+"%char) then (false, r)
                               else (false, c :: r)
                   | [] => (false, [])
                   end in
  let '(ds, r) := span isdigit r in
  (match ds with
   | [] => None
   | _ => Some (if neg then - digits_val ds else digits_val ds)%Z
   end, at_rest st r).

Definition not_newline (c : ascii) : bool := bool_decide (c ≠ chr 10).

(** "%*[^\n]\n": a line that is empty does not match and is left alone. *)
Definition skip_line (st : stream) : stream :=
  let '(a, r) := span not_newline (s_rest st) in
  match a with
  | [] => at_rest st (s_rest st)
  | _ => skip_ws (at_rest st r)
  end.

(** "%<n>s": at most [n] characters that are not spaces. *)
Definition scan_word (n : nat) (st : stream) : option cstr * stream :=
  let st := skip_ws st in
  let '(w, _) := span (λ c, negb (isspace c)) (take n (s_rest st)) in
  match w with
  | [] => (None, st)
  | _ =>
    let r := drop (length w) (s_rest st) in
    (Some w, if (length w <? n)%nat then at_rest st r else mkStream r (s_eof st))
  end.

(** * Facts *)

Lemma span_app p a b :
  Forall (λ c, p c = true) a → (∀ c b', b = c :: b' → p c = false) → span p (a ++ b) = (a, b).
Proof.
  intros Ha Hb. induction Ha as [|c a Hc Ha IH]; simpl.
  - destruct b as [|c b]; [done|]. simpl. by rewrite (Hb c b eq_refl).
  - by rewrite Hc, IH.
Qed.

Lemma isspace_newline : isspace (chr 10) = true.
Proof. reflexivity. Qed.

Lemma isdigit_not_space c : isdigit c = true → isspace c = false.
Proof.
  unfold isdigit, isspace. rewrite andb_true_iff, !Z.leb_le. intros [H1 H2].
  destruct (Z.leb_spec 9 (ord c)), (Z.leb_spec (ord c) 13), (Z.eqb_spec (ord c) 32); simpl; lia || done.
Qed.

(** Digits at the front of a stream. *)
Lemma scan_int_digits ws ds r e :
  Forall (λ c, isspace c = true) ws → ds ≠ [] → Forall (λ c, isdigit c = true) ds →
  (∀ c r', r = c :: r' → isdigit c = false) →
  scan_int (mkStream (ws ++ ds ++ r) e) = (Some (digits_val ds), mkStream r (e || bool_decide (r = []))).
Proof.
  intros Hws Hne Hds Hr. destruct Hds as [|d ds Hd Hds]; [done|].
  assert (Hsp : isspace d = false) by by apply isdigit_not_space.
  unfold scan_int, skip_ws. cbn [s_rest]. rewrite span_app; [|done|by intros c b' [= -> _]].
  cbn [snd s_rest at_rest s_eof app].
  rewrite bool_decide_false by (intros ->; vm_compute in Hd; discriminate).
  rewrite bool_decide_false by (intros ->; vm_compute in Hd; discriminate).
  replace (d :: ds ++ r) with ((d :: ds) ++ r) by done.
  rewrite span_app; [|by constructor|done]. unfold at_rest. cbn [s_eof s_rest].
  rewrite (bool_decide_false ((d :: ds) ++ r = [])) by done. by rewrite orb_false_r.
Qed.

Lemma span_head p l : match (span p l).2 with c :: _ => p c = false | [] => True end.
Proof.
  induction l as [|c l IH]; simpl; [done|]. destruct (p c) eqn:E; [|done].
  by destruct (span p l).
Qed.

Lemma span_none p l : match l with c :: _ => p c = false | [] => True end → span p l = ([], l).
Proof. destruct l; simpl; [done|]. by intros ->. Qed.

Lemma skip_ws_idem st : skip_ws (skip_ws st) = skip_ws st.
Proof.
  unfold skip_ws, at_rest. cbn [s_rest s_eof].
  set (r := (span isspace (s_rest st)).2).
  assert (Hr : span isspace r = ([], r)) by (apply span_none, span_head).
  rewrite Hr. cbn [snd]. f_equal. rewrite <- orb_assoc. by rewrite orb_diag.
Qed.

Lemma scan_int_skip_ws st : scan_int (skip_ws st) = scan_int st.
Proof. unfold scan_int. by rewrite skip_ws_idem. Qed.

(** A line with something on it. *)
Lemma skip_line_ws l r e :
  l ≠ [] → chr 10 ∉ l → skip_line (mkStream (l ++ chr 10 :: r) e) = skip_ws (mkStream r e).
Proof.
  intros Hne Hnl. unfold skip_line. cbn [s_rest].
  rewrite span_app; [|apply Forall_forall; intros c Hc; unfold not_newline;
    apply bool_decide_true; congruence|by intros c b' [= <- _]].
  destruct l as [|c l]; [done|]. unfold skip_ws, at_rest. cbn [s_rest s_eof].
  rewrite (bool_decide_false (chr 10 :: r = [])) by done. rewrite orb_false_r.
  cbn [span]. change (isspace (chr 10)) with true. by destruct (span isspace r).
Qed.
