(* ===== verification/Strtol.v ===== *)
(** Numbers as the C library reads and prints them: [strtol] in base 10 and in
    base 0, and "%d". *)

From Stdlib Require Import ZArith Lia Ascii.
From stdpp Require Import base numbers strings gmap list.
From S2P Require Import Prelude CString Scanf.

Definition LONG_MAX : Z := 2 ^ 63 - 1.
Definition LONG_MIN : Z := - 2 ^ 63.

(** The value of a character as a digit; letters count from ten. *)
Definition digit_of (c : ascii) : option Z :=
  let n := ord c in
  if (48 <=? n)%Z && (n <=? 57)%Z then Some (n - 48)%Z
  else if (97 <=? n)%Z && (n <=? 122)%Z then Some (n - 87)%Z
  else if (65 <=? n)%Z && (n <=? 90)%Z then Some (n - 55)%Z
  else None.

Definition is_digit (base : Z) (c : ascii) : bool :=
  match digit_of c with Some d => (d <? base)%Z | None => false end.

Definition value_of (base : Z) (ds : list ascii) : Z :=
  fold_left (λ a c, base * a + default 0 (digit_of c))%Z ds 0%Z.

Definition sign_of (s : cstr) : bool * cstr :=
  match s with
  | c :: r => if bool_decide (c = "-"%char) then (true, r)
              else if bool_decide (c = "+"%char) then (false, r) else (false, s)
  | [] => (false, [])
  end.

(** The base of a number written as in C. *)
Definition detect_base (s : cstr) : Z * cstr :=
  match s with
  | z :: x :: d :: _ =>
    if bool_decide (z = "0"%char) then
      if bool_decide (x ∈ ["x"%char; "X"%char]) && is_digit 16 d then (16, drop 2 s)%Z else (8, s)%Z
    else (10, s)%Z
  | z :: _ => if bool_decide (z = "0"%char) then (8, s)%Z else (10, s)%Z
  | [] => (10, s)%Z
  end.

(** [strtol(s, &end, base)]: the number and the text from [end] on. *)
Definition strtol (base : Z) (s : cstr) : Z * cstr :=
  let '(neg, s2) := sign_of (span isspace s).2 in
  let '(b, s3) := if (base =? 0)%Z then detect_base s2 else (base, s2) in
  let '(ds, r) := span (is_digit b) s3 in
  match ds with
  | [] => (0%Z, s)
  | _ => let v := (if neg then - value_of b ds else value_of b ds)%Z in
         (Z.max LONG_MIN (Z.min LONG_MAX v), r)
  end.

(** [atoi]: a number that is not an int is undefined. *)
Definition atoi (s : cstr) : cres Z :=
  match (scan_int (fopen_text s)).1 with
  | None => Ret 0%Z
  | Some v => if (- 2 ^ 31 <=? v)%Z && (v <? 2 ^ 31)%Z then Ret v else Fault
  end.

(** "%d" of a number with at most [fuel] digits. *)
Fixpoint dec_loop (fuel : nat) (n : Z) (acc : cstr) : cstr :=
  match fuel with
  | O => acc
  | S fuel =>
    let acc := chr (48 + n mod 10) :: acc in
    if (n <? 10)%Z then acc else dec_loop fuel (n / 10) acc
  end.

Definition print_d (z : Z) : cstr :=
  if (z <? 0)%Z then "-"%char :: dec_loop 20 (- z) [] else dec_loop 20 z [].

(** * Facts *)

Lemma ord_digit d : (0 ≤ d < 10)%Z → ord (chr (48 + d)) = (48 + d)%Z.
Proof. intros H. rewrite ord_chr. unfold u8. rewrite Z.mod_small; lia. Qed.

Lemma digit_of_digit d : (0 ≤ d < 10)%Z → digit_of (chr (48 + d)) = Some d.
Proof.
  intros H. unfold digit_of. rewrite ord_digit by done.
  cbv zeta. rewrite (proj2 (Z.leb_le 48 _)), (proj2 (Z.leb_le _ 57)) by lia. cbn [andb]. f_equal. lia.
Qed.

Lemma is_digit_digit d : (0 ≤ d < 10)%Z → is_digit 10 (chr (48 + d)) = true.
Proof. intros H. unfold is_digit. rewrite digit_of_digit by done. apply Z.ltb_lt; lia. Qed.

Lemma value_of_app base a b :
  value_of base (a ++ b) = fold_left (λ a c, base * a + default 0 (digit_of c))%Z b (value_of base a).
Proof. unfold value_of. by rewrite fold_left_app. Qed.

(** The digits of [n] followed by [acc]. *)
Lemma dec_loop_spec fuel n acc :
  (0 ≤ n < 10 ^ Z.of_nat fuel)%Z → (0 < fuel)%nat →
  ∃ ds, dec_loop fuel n acc = ds ++ acc ∧ ds ≠ [] ∧
    Forall (λ c, is_digit 10 c = true) ds ∧ value_of 10 ds = n.
Proof.
  revert n acc. induction fuel as [|fuel IH]; intros n acc Hn Hf; [lia|]. cbn [dec_loop].
  pose proof (Z.mod_pos_bound n 10) as Hm. pose proof (Z.div_mod n 10) as Hd.
  destruct (Z.ltb_spec n 10) as [Hlt|Hge].
  - exists [chr (48 + n mod 10)]. split; [done|]. split; [done|]. split.
    + constructor; [|done]. apply is_digit_digit. lia.
    + unfold value_of. cbn [fold_left]. rewrite digit_of_digit by lia. cbn [default].
      rewrite Z.mod_small by lia. cbn. lia.
  - rewrite Nat2Z.inj_succ, Z.pow_succ_r in Hn by lia.
    assert (Hp : (0 < fuel)%nat) by (destruct fuel; [cbn in Hn|]; lia).
    destruct (IH (n / 10)%Z (chr (48 + n mod 10) :: acc)) as (ds & E & Hne & Hall & Hv); [lia|done|].
    exists (ds ++ [chr (48 + n mod 10)]). rewrite E, <-app_assoc. split; [done|].
    split; [by destruct ds|]. split.
    + apply Forall_app. split; [done|]. constructor; [|done]. apply is_digit_digit. lia.
    + rewrite value_of_app, Hv. cbn [fold_left]. rewrite digit_of_digit by lia. cbn. lia.
Qed.

Lemma is_digit_10 c : is_digit 10 c = true → (48 ≤ ord c ≤ 57)%Z.
Proof.
  unfold is_digit, digit_of.
  destruct (Z.leb_spec 48 (ord c)), (Z.leb_spec (ord c) 57); cbn [andb]; try lia;
    destruct (Z.leb_spec 97 (ord c)), (Z.leb_spec (ord c) 122); cbn [andb]; try done;
    rewrite ?Z.ltb_lt; try lia;
    destruct (Z.leb_spec 65 (ord c)), (Z.leb_spec (ord c) 90); cbn [andb]; rewrite ?Z.ltb_lt; try done; lia.
Qed.

Lemma not_isspace c : (33 ≤ ord c)%Z → isspace c = false.
Proof.
  intros H. unfold isspace.
  destruct (Z.leb_spec 9 (ord c)), (Z.leb_spec (ord c) 13), (Z.eqb_spec (ord c) 32); cbn; lia || done.
Qed.

(** A printed int is read back, up to what cannot be part of it. *)
Lemma strtol_print z r :
  (- 2 ^ 31 ≤ z < 2 ^ 31)%Z → (∀ c r', r = c :: r' → is_digit 10 c = false) →
  strtol 10 (print_d z ++ r) = (z, r).
Proof.
  intros Hz Hr. unfold print_d.
  destruct (dec_loop_spec 20 (Z.abs z) []) as (ds & E & Hne & Hall & Hv); [cbn; lia|lia|].
  rewrite app_nil_r in E. destruct ds as [|d ds]; [done|].
  pose proof (Forall_inv Hall) as Hd. apply is_digit_10 in Hd.
  assert (Hspan := span_app (is_digit 10) (d :: ds) r Hall Hr).
  assert (Hw : ∀ c l, (33 ≤ ord c)%Z → (span isspace (c :: l)).2 = c :: l).
  { intros c l Hc. cbn [span]. by rewrite not_isspace. }
  unfold strtol. cbn [Z.eqb]. destruct (Z.ltb_spec z 0) as [Hlt|Hge].
  - replace (- z)%Z with (Z.abs z) by lia. rewrite E. cbn [app].
    rewrite Hw by (vm_compute; discriminate). cbn [sign_of]. rewrite bool_decide_true by done.
    rewrite app_comm_cons, Hspan, Hv. f_equal. unfold LONG_MIN, LONG_MAX. lia.
  - replace z with (Z.abs z) at 1 by lia. rewrite E. cbn [app]. rewrite Hw by lia. cbn [sign_of].
    rewrite !bool_decide_false by (intros ->; destruct Hd as [Hd _]; by apply Hd).
    rewrite app_comm_cons, Hspan, Hv. f_equal. unfold LONG_MIN, LONG_MAX. lia.
Qed.

(** What "%d" prints: a sign and digits. *)
Lemma print_d_chars z :
  (- 2 ^ 31 ≤ z < 2 ^ 31)%Z →
  Forall (λ c, c = "-"%char ∨ is_digit 10 c = true) (print_d z) ∧ print_d z ≠ [].
Proof.
  intros Hz. unfold print_d.
  destruct (dec_loop_spec 20 (Z.abs z) []) as (ds & E & Hne & Hall & _); [cbn; lia|lia|].
  rewrite app_nil_r in E.
  assert (Hds : Forall (λ c, c = "-"%char ∨ is_digit 10 c = true) ds)
    by (eapply Forall_impl; [exact Hall|]; auto).
  destruct (Z.ltb_spec z 0).
  - replace (- z)%Z with (Z.abs z) by lia. rewrite E. split; [|done]. constructor; [by left|done].
  - replace z with (Z.abs z) by lia. by rewrite E.
Qed.
