(* ===== verification/Float32.v ===== *)
(** Floating-point numbers as the C library reads and prints them: IEEE 754
    binary32, [strtof], and "%g" of a float. *)

From Stdlib Require Import ZArith Lia Ascii.
From stdpp Require Import base numbers strings gmap list.
From S2P Require Import Prelude CString Scanf Strtol.

Local Open Scope Z_scope.

(** A number [m * 2 ^ e] with [m < 2 ^ 24] and [-149 <= e <= 104], the sign of a
    zero apart; an infinity; not a number. *)
Inductive float32 := F_fin (neg : bool) (m e : Z) | F_inf (neg : bool) | F_nan.

(** * Positive fractions *)

Definition frac : Type := Z * Z.

(** [q * b ^ k] *)
Definition scaled (b k : Z) (q : frac) : frac := (q.1 * b ^ Z.max 0 k, q.2 * b ^ Z.max 0 (- k)).

(** The nearest integer, the even one of two. *)
Definition rdiv (q : frac) : Z :=
  let n := q.1 / q.2 in
  match 2 * (q.1 mod q.2) ?= q.2 with
  | Lt => n
  | Gt => n + 1
  | Eq => if Z.even n then n else n + 1
  end.

(** The [k] with [b ^ k <= n < b ^ (k + 1)]; [fuel] turns reach [b ^ fuel]. *)
Fixpoint ilog (fuel : nat) (b n : Z) : Z :=
  match fuel with
  | O => 0
  | S fuel => if n <? b then 0 else 1 + ilog fuel b (n / b)
  end.

Definition fuel_of (n : Z) : nat := Z.to_nat (Z.log2 n).

(** The [k] with [b ^ k <= q < b ^ (k + 1)]. *)
Definition exponent (b : Z) (q : frac) : Z :=
  if q.2 <=? q.1 then let n := q.1 / q.2 in ilog (fuel_of n) b n
  else let n := (q.2 - 1) / q.1 in - (ilog (fuel_of n) b n + 1).

(** The float nearest to a fraction. *)
Definition round32 (neg : bool) (q : frac) : float32 :=
  if q.1 =? 0 then F_fin neg 0 (-149)
  else
    let e := Z.max (-149) (exponent 2 q - 23) in
    let m := rdiv (scaled 2 (- e) q) in
    let '(m, e) := if m =? 2 ^ 24 then (2 ^ 23, e + 1) else (m, e) in
    if 104 <? e then F_inf neg else F_fin neg m e.

(** * Reading: strtof *)

Definition lower (c : ascii) : ascii :=
  let n := ord c in if (65 <=? n) && (n <=? 90) then chr (n + 32) else c.

Definition starts_ci (p s : cstr) : bool := bool_decide (lower <$> take (length p) s = p).

(** Digits with a point among them: the number without the point, how many digits
    follow the point, and the rest. *)
Definition scan_digits (base : Z) (s : cstr) : option (Z * Z * cstr) :=
  let '(ip, r) := span (is_digit base) s in
  let '(fp, r) := match r with
                  | c :: r' => if bool_decide (c = "."%char) then span (is_digit base) r' else ([], r)
                  | [] => ([], r)
                  end in
  if bool_decide (ip ++ fp = []) then None
  else Some (value_of base (ip ++ fp), Z.of_nat (length fp), r).

(** The exponent after the letter [c], zero when there is none. *)
Definition scan_exponent (c : ascii) (s : cstr) : Z :=
  match s with
  | x :: s =>
    if bool_decide (lower x = c) then
      let '(neg, s) := sign_of s in
      let v := value_of 10 (span (is_digit 10) s).1 in
      if neg then - v else v
    else 0
  | [] => 0
  end.

Definition strtof (s : cstr) : float32 :=
  let '(neg, s) := sign_of (span isspace s).2 in
  if starts_ci (cs "inf") s then F_inf neg
  else if starts_ci (cs "nan") s then F_nan
  else
    match (if starts_ci (cs "0x") s then scan_digits 16 (drop 2 s) else None) with
    | Some (v, n, r) => round32 neg (scaled 2 (scan_exponent "p" r - 4 * n) (v, 1))
    | None =>
      match scan_digits 10 s with
      | Some (v, n, r) => round32 neg (scaled 10 (scan_exponent "e" r - n) (v, 1))
      | None => F_fin false 0 (-149)
      end
    end.

(** * Printing: "%g" *)

(** Six digits [d] and the exponent [k] of the first: [d * 10 ^ (k - 5)]. *)
Definition digits6 (q : frac) : Z * Z :=
  let k := exponent 10 q in
  let d := rdiv (scaled 10 (5 - k) q) in
  if d =? 10 ^ 6 then (10 ^ 5, k + 1) else (d, k).

Definition is_zero (c : ascii) : bool := bool_decide (c = "0"%char).

Definition strip_zeros (ds : cstr) : cstr := reverse (span is_zero (reverse ds)).2.

Definition fraction (ds : cstr) : cstr :=
  match strip_zeros ds with [] => [] | ds => "."%char :: ds end.

(** The exponent with two digits at least. *)
Definition exponent_text (k : Z) : cstr :=
  "e"%char :: (if k <? 0 then "-"%char else "+"%char) ::
    (if Z.abs k <? 10 then cs "0" else []) ++ print_d (Z.abs k).

Definition g_text (d k : Z) : cstr :=
  let ds := print_d d in
  if (-4 <=? k) && (k <? 6) then
    if k <? 0 then cs "0" ++ fraction (replicate (Z.to_nat (- k - 1)) "0"%char ++ ds)
    else let n := Z.to_nat (k + 1) in take n ds ++ fraction (drop n ds)
  else take 1 ds ++ fraction (drop 1 ds) ++ exponent_text k.

Definition sign_text (neg : bool) : cstr := if neg then cs "-" else [].

Definition print_g (x : float32) : cstr :=
  match x with
  | F_nan => cs "nan"
  | F_inf neg => sign_text neg ++ cs "inf"
  | F_fin neg m e =>
    sign_text neg ++
      if m =? 0 then cs "0" else let '(d, k) := digits6 (scaled 2 e (m, 1)) in g_text d k
  end.

Example print_tenth : print_g (strtof (cs " 0.1")) = cs "0.1".
Proof. vm_compute. reflexivity. Qed.

Example print_fps : print_g (strtof (cs "+2.997e1x")) = cs "29.97".
Proof. vm_compute. reflexivity. Qed.

Example print_small : print_g (strtof (cs "-1e-45")) = cs "-1.4013e-45".
Proof. vm_compute. reflexivity. Qed.

Example print_max : print_g (strtof (cs "0x1.fffffep127")) = cs "3.40282e+38".
Proof. vm_compute. reflexivity. Qed.

Example read_over : strtof (cs "3.5e38") = F_inf false ∧ strtof (cs "1e-46") = F_fin false 0 (-149).
Proof. vm_compute. done. Qed.

Example read_pi : strtof (cs "3.14159274") = F_fin false 13176795 (-22).
Proof. vm_compute. reflexivity. Qed.

(** * Facts: fractions *)

Definition positive (q : frac) : Prop := 0 < q.1 ∧ 0 < q.2.

Definition equal (q r : frac) : Prop := q.1 * r.2 = r.1 * q.2.

Lemma pow_pos b k : 2 ≤ b → 0 < b ^ Z.max 0 k.
Proof. intros Hb. apply Z.pow_pos_nonneg; lia. Qed.

Lemma scaled_positive b k q : 2 ≤ b → positive q → positive (scaled b k q).
Proof. intros Hb [H1 H2]. split; apply Z.mul_pos_pos; try done; by apply pow_pos. Qed.

Lemma scaled_equal b k q r : equal q r → equal (scaled b k q) (scaled b k r).
Proof.
  unfold equal, scaled. cbn. generalize (b ^ Z.max 0 k), (b ^ Z.max 0 (- k)). intros x y H.
  apply (f_equal (Z.mul (x * y))) in H. lia.
Qed.

Lemma pow_split b j k : 2 ≤ b →
  b ^ Z.max 0 (j + k) * (b ^ Z.max 0 (- j) * b ^ Z.max 0 (- k)) =
  b ^ Z.max 0 j * b ^ Z.max 0 k * b ^ Z.max 0 (- (j + k)).
Proof. intros Hb. rewrite <- !Z.pow_add_r by lia. f_equal. lia. Qed.

Lemma scaled_scaled b j k q : 2 ≤ b → equal (scaled b j (scaled b k q)) (scaled b (j + k) q).
Proof.
  intros Hb. unfold equal, scaled. cbn. pose proof (pow_split b j k Hb) as H.
  apply (f_equal (Z.mul (q.1 * q.2))) in H. lia.
Qed.

Lemma equal_trans q r s : 0 < r.2 → equal q r → equal r s → equal q s.
Proof. unfold equal. intros Hr H1 H2. apply (Z.mul_cancel_r _ _ r.2); [lia|].
  apply (f_equal (Z.mul s.2)) in H1. apply (f_equal (Z.mul q.2)) in H2. lia. Qed.

Lemma equal_sym q r : equal q r → equal r q.
Proof. unfold equal. lia. Qed.

(** ** The nearest integer *)

Lemma rdiv_near q : 0 < q.2 → Z.abs (2 * (rdiv q * q.2 - q.1)) ≤ q.2.
Proof.
  intros Hq. unfold rdiv. pose proof (Z.div_mod q.1 q.2). pose proof (Z.mod_pos_bound q.1 q.2).
  destruct (Z.compare_spec (2 * (q.1 mod q.2)) q.2); [destruct (Z.even _)|..]; nia.
Qed.

Lemma rdiv_unique q n : 0 < q.2 → Z.abs (2 * (n * q.2 - q.1)) < q.2 → rdiv q = n.
Proof. intros Hq Hn. pose proof (rdiv_near q Hq). nia. Qed.

Lemma rdiv_scaled a b c : 0 < b → 0 < c → rdiv (a * c, b * c) = rdiv (a, b).
Proof.
  intros Hb Hc. unfold rdiv. cbn. rewrite Z.div_mul_cancel_r, Z.mul_mod_distr_r, Z.mul_assoc by lia.
  by rewrite <- Zmult_compare_compat_r by lia.
Qed.

Lemma rdiv_equal q r : 0 < q.2 → 0 < r.2 → equal q r → rdiv q = rdiv r.
Proof.
  destruct q as [a b], r as [c d]. unfold equal. cbn. intros Hb Hd H.
  rewrite <- (rdiv_scaled a b d), <- (rdiv_scaled c d b) by done. by rewrite H, (Z.mul_comm b d).
Qed.

(** ** The exponent *)

(** [b ^ k <= q] *)
Definition pow_le (b k : Z) (q : frac) : Prop := q.2 * b ^ Z.max 0 k ≤ q.1 * b ^ Z.max 0 (- k).

Lemma pow_le_step b k q : 2 ≤ b → positive q → pow_le b (k + 1) q → pow_le b k q.
Proof.
  unfold pow_le. intros Hb [H1 H2]. destruct (Z.le_gt_cases 0 k).
  - rewrite (Z.max_r 0 (k + 1)), (Z.max_r 0 k), (Z.max_l 0 (- (k + 1))), (Z.max_l 0 (- k)) by lia.
    rewrite Z.pow_add_r, Z.pow_1_r by lia.
    assert (Hp : 0 < b ^ k) by (apply Z.pow_pos_nonneg; lia).
    apply (Z.mul_pos_pos q.2) in Hp; [|done]. nia.
  - rewrite (Z.max_l 0 (k + 1)), (Z.max_l 0 k), (Z.max_r 0 (- (k + 1))), (Z.max_r 0 (- k)) by lia.
    replace (- k) with (- (k + 1) + 1) by lia. rewrite Z.pow_add_r, Z.pow_1_r by lia.
    assert (Hp : 0 < b ^ (- (k + 1))) by (apply Z.pow_pos_nonneg; lia).
    apply (Z.mul_pos_pos q.1) in Hp; [|done]. nia.
Qed.

Lemma pow_le_mono b k k' q : 2 ≤ b → positive q → k ≤ k' → pow_le b k' q → pow_le b k q.
Proof.
  intros Hb Hq Hk. replace k' with (k + Z.of_nat (Z.to_nat (k' - k))) by lia.
  generalize (Z.to_nat (k' - k)). intros n. induction n as [|n IH]; [by rewrite Z.add_0_r|].
  intros H. apply IH, pow_le_step; try done. by replace (k + Z.of_nat n + 1) with (k + Z.of_nat (S n)) by lia.
Qed.

Lemma pow_le_equal b k q r : 0 < q.2 → 0 < r.2 → equal q r → pow_le b k q → pow_le b k r.
Proof.
  unfold pow_le, equal. intros Hq Hr H Hp. apply (Zmult_le_reg_r _ _ q.2); [lia|].
  apply (Z.mul_le_mono_nonneg_l _ _ r.2) in Hp; [|lia].
  apply (f_equal (Z.mul (b ^ Z.max 0 (- k)))) in H. lia.
Qed.

Lemma ilog_spec fuel b n :
  2 ≤ b → 1 ≤ n < 2 ^ Z.of_nat (S fuel) →
  0 ≤ ilog fuel b n ∧ b ^ ilog fuel b n ≤ n < b ^ (ilog fuel b n + 1).
Proof.
  intros Hb. revert n. induction fuel as [|fuel IH]; intros n Hn; cbn [ilog].
  - cbn in Hn. lia.
  - destruct (Z.ltb_spec n b) as [Hlt|Hge]; [cbn; lia|].
    rewrite Nat2Z.inj_succ, Z.pow_succ_r in Hn by lia.
    pose proof (Z.div_mod n b) as Hd. pose proof (Z.mod_pos_bound n b) as Hm.
    assert (Hq : 1 ≤ n / b < 2 ^ Z.of_nat (S fuel)).
    { split; [apply Z.div_le_lower_bound; lia|]. apply Z.div_lt_upper_bound; nia. }
    destruct (IH (n / b) Hq) as (Hk & Hl & Hu). set (k := ilog fuel b (n / b)) in *.
    rewrite (Z.add_comm 1 k), !Z.pow_add_r, !Z.pow_1_r in * by lia. split; [lia|]. nia.
Qed.

Lemma ilog_log n b : 2 ≤ b → 1 ≤ n →
  let k := ilog (fuel_of n) b n in 0 ≤ k ∧ b ^ k ≤ n < b ^ (k + 1).
Proof.
  intros Hb Hn. apply ilog_spec; [done|]. unfold fuel_of. pose proof (Z.log2_nonneg n).
  rewrite Nat2Z.inj_succ, Z2Nat.id by done. pose proof (Z.log2_spec n). lia.
Qed.

Lemma exponent_spec b q : 2 ≤ b → positive q →
  pow_le b (exponent b q) q ∧ ¬ pow_le b (exponent b q + 1) q.
Proof.
  intros Hb [H1 H2]. unfold exponent, pow_le. destruct (Z.leb_spec q.2 q.1) as [Hq|Hq]; cbv zeta.
  - pose proof (Z.div_mod q.1 q.2) as Hd. pose proof (Z.mod_pos_bound q.1 q.2) as Hm.
    destruct (ilog_log (q.1 / q.2) b) as (Hk & Hl & Hu); [done|nia|].
    set (k := ilog _ _ _) in *.
    rewrite (Z.max_r 0 (k + 1)), (Z.max_r 0 k), (Z.max_l 0 (- (k + 1))), (Z.max_l 0 (- k)) by lia.
    rewrite Z.pow_0_r. nia.
  - pose proof (Z.div_mod (q.2 - 1) q.1) as Hd. pose proof (Z.mod_pos_bound (q.2 - 1) q.1) as Hm.
    destruct (ilog_log ((q.2 - 1) / q.1) b) as (Hk & Hl & Hu); [done|nia|].
    set (k := ilog _ _ _) in *. replace (- (- (k + 1) + 1)) with k by lia. rewrite Z.opp_involutive.
    rewrite (Z.max_l 0 (- (k + 1))), (Z.max_l 0 (- (k + 1) + 1)), (Z.max_r 0 (k + 1)), (Z.max_r 0 k) by lia.
    rewrite Z.pow_0_r. nia.
Qed.

Lemma exponent_unique b q k : 2 ≤ b → positive q → pow_le b k q → ¬ pow_le b (k + 1) q → exponent b q = k.
Proof.
  intros Hb Hq H1 H2. destruct (exponent_spec b q Hb Hq) as [H3 H4].
  destruct (Z.lt_total (exponent b q) k) as [Hlt|[He|Hlt]]; [exfalso|done|exfalso].
  - apply H4. apply (pow_le_mono b _ k); try done. lia.
  - apply H2. apply (pow_le_mono b _ (exponent b q)); try done. lia.
Qed.

Lemma exponent_equal b q r : 2 ≤ b → positive q → positive r → equal q r → exponent b q = exponent b r.
Proof.
  intros Hb Hq Hr H. destruct (exponent_spec b r Hb Hr) as [H1 H2]. apply exponent_unique; try done.
  - apply (pow_le_equal b _ r q); [apply Hr|apply Hq|by apply equal_sym|done].
  - intros H3. apply H2. by apply (pow_le_equal b _ q r); [apply Hq|apply Hr|..].
Qed.

(** Equal fractions have the same nearest float. *)
Lemma round32_equal neg q r : positive q → positive r → equal q r → round32 neg q = round32 neg r.
Proof.
  intros Hq Hr H. unfold round32. rewrite (exponent_equal 2 q r) by done.
  rewrite (proj2 (Z.eqb_neq q.1 0)), (proj2 (Z.eqb_neq r.1 0)) by (destruct Hq, Hr; lia). cbv zeta.
  erewrite rdiv_equal; [reflexivity|..].
  - by apply scaled_positive.
  - by apply scaled_positive.
  - by apply scaled_equal.
Qed.

(** ** Rounding *)

(** [v] differs from [q] by [q / 2 ^ 24] at most. *)
Definition near (q v : frac) : Prop := Z.abs (v.1 * q.2 - q.1 * v.2) * 2 ^ 24 ≤ q.1 * v.2.

Lemma near_equal q v w : 0 < q.2 → 0 < v.2 → 0 < w.2 → equal v w → near q v → near q w.
Proof.
  unfold near, equal. intros Hq Hv Hw H Hn.
  apply (Zmult_le_reg_r _ _ v.2); [lia|].
  assert (E : v.2 * (w.1 * q.2 - q.1 * w.2) = w.2 * (v.1 * q.2 - q.1 * v.2)).
  { apply (f_equal (Z.mul q.2)) in H. lia. }
  apply (f_equal Z.abs) in E. rewrite !Z.abs_mul, (Z.abs_eq v.2), (Z.abs_eq w.2) in E by lia.
  apply (Z.mul_le_mono_nonneg_l _ _ w.2) in Hn; [|lia]. lia.
Qed.

Lemma pow_le_scaled b j k q : 2 ≤ b → pow_le b j (scaled b (- k) q) ↔ pow_le b (j + k) q.
Proof.
  intros Hb. unfold pow_le, scaled. cbn [fst snd]. rewrite Z.opp_involutive.
  pose proof (pow_split b j k Hb) as H. pose proof (pow_pos b (- (j + k)) Hb) as Hp.
  pose proof (Z.mul_pos_pos _ _ (pow_pos b (- j) Hb) (pow_pos b (- k) Hb)) as Hm.
  apply (f_equal (Z.mul q.2)) in H. split; intros Hle.
  - apply (Z.mul_le_mono_pos_l _ _ _ Hm). apply (Z.mul_le_mono_nonneg_l _ _ _ (Z.lt_le_incl _ _ Hp)) in Hle. lia.
  - apply (Z.mul_le_mono_pos_l _ _ _ Hp). apply (Z.mul_le_mono_nonneg_l _ _ _ (Z.lt_le_incl _ _ Hm)) in Hle. lia.
Qed.

Lemma pow_le_nonneg b j q : 0 ≤ j → pow_le b j q ↔ b ^ j * q.2 ≤ q.1.
Proof. intros Hj. unfold pow_le. rewrite Z.max_r, Z.max_l, Z.pow_0_r by lia. lia. Qed.

(** The float nearest to a number of the normal range is near it. *)
Lemma round32_near neg q :
  positive q → pow_le 2 (-126) q → ¬ pow_le 2 127 q →
  ∃ m e, round32 neg q = F_fin neg m e ∧ 0 < m ∧ near q (scaled 2 e (m, 1)).
Proof.
  intros Hq Hl Hu. destruct (exponent_spec 2 q ltac:(lia) Hq) as [H1 H2].
  assert (He : -126 ≤ exponent 2 q ≤ 126).
  { split; apply Z.nlt_ge; intros Hlt.
    - apply H2. apply (pow_le_mono 2 _ (-126) q); try done; lia.
    - apply Hu. apply (pow_le_mono 2 _ (exponent 2 q) q); try done; lia. }
  unfold round32. rewrite (proj2 (Z.eqb_neq q.1 0)) by (destruct Hq; lia). cbv zeta.
  rewrite Z.max_r by lia. set (e := exponent 2 q - 23). set (s := scaled 2 (- e) q).
  assert (Hs : positive s) by (by apply scaled_positive).
  assert (Hs1 : 2 ^ 23 * s.2 ≤ s.1).
  { replace (exponent 2 q) with (23 + e) in H1 by (unfold e; lia).
    by apply pow_le_scaled, pow_le_nonneg in H1. }
  assert (Hs2 : s.1 < 2 ^ 24 * s.2).
  { replace (exponent 2 q + 1) with (24 + e) in H2 by (unfold e; lia).
    rewrite <- pow_le_scaled, pow_le_nonneg in H2 by done. fold s in H2. lia. }
  destruct Hs as [Hp1 Hp2]. pose proof (rdiv_near s Hp2) as Hm. set (m := rdiv s) in *.
  assert (Hn : near q (scaled 2 e (m, 1))).
  { unfold near, scaled in *. unfold s, scaled in *. cbn [fst snd] in *. rewrite Z.opp_involutive in *. lia. }
  destruct (Z.eqb_spec m (2 ^ 24)) as [E|E]; rewrite (proj2 (Z.ltb_ge _ _)) by (unfold e; lia).
  - exists (2 ^ 23), (e + 1). split; [done|]. split; [done|].
    assert (Hsp : ∀ e' m', 0 < m' → positive (scaled 2 e' (m', 1))) by (intros; by apply scaled_positive).
    apply (near_equal q (scaled 2 e (m, 1))); [apply Hq|apply Hsp; lia|by apply Hsp| |done].
    rewrite E. change (2 ^ 24, 1) with (scaled 2 1 (2 ^ 23, 1)). by apply scaled_scaled.
  - exists m, e. split; [done|]. split; [nia|done].
Qed.

(** ** The decimal digits *)

Lemma digits6_near d k v :
  10 ^ 5 ≤ d < 10 ^ 6 → positive v → near (scaled 10 (k - 5) (d, 1)) v → digits6 v = (d, k).
Proof.
  intros Hd Hv Hn. set (s := scaled 10 (5 - k) v).
  assert (Hs : positive s) by (by apply scaled_positive). destruct Hs as [Hp1 Hp2].
  assert (Hds : Z.abs (s.1 - d * s.2) * 2 ^ 24 ≤ d * s.2).
  { unfold near, s, scaled in *. cbn [fst snd] in *.
    replace (- (k - 5)) with (5 - k) in Hn by lia. replace (- (5 - k)) with (k - 5) by lia. lia. }
  assert (He : ∀ j, pow_le 10 j s ↔ pow_le 10 (j + (k - 5)) v).
  { intros j. unfold s. replace (5 - k) with (- (k - 5)) by lia. by apply pow_le_scaled. }
  assert (Hlo : ∀ n, n ≤ d → n * s.2 ≤ d * s.2) by (intros; apply Z.mul_le_mono_nonneg_r; lia).
  assert (Hhi : d * s.2 ≤ 999999 * s.2) by (apply Z.mul_le_mono_nonneg_r; lia).
  assert (Hu : ¬ pow_le 10 6 s) by (rewrite pow_le_nonneg by done; lia).
  unfold digits6. destruct (Z.le_gt_cases (10 ^ 5 * s.2) s.1) as [Hl|Hl].
  - rewrite (exponent_unique 10 v k); [|done|done|..].
    + fold s. rewrite (rdiv_unique s d) by (done || lia).
      by rewrite (proj2 (Z.eqb_neq d _)) by lia.
    + replace k with (5 + (k - 5)) by lia. apply He, pow_le_nonneg; [done|]. lia.
    + replace (k + 1) with (6 + (k - 5)) by lia. by rewrite <- He.
  - assert (d = 10 ^ 5) as ->.
    { destruct (Z.eq_dec d (10 ^ 5)) as [|Hne]; [done|]. specialize (Hlo (10 ^ 5 + 1)). lia. }
    rewrite (exponent_unique 10 v (k - 1)); [|done|done|..].
    + cbv zeta. rewrite (rdiv_equal _ (scaled 10 1 s)).
      * rewrite (rdiv_unique _ (10 ^ 6)); [by rewrite Z.eqb_refl, Z.sub_add|by apply scaled_positive|].
        unfold scaled. change (10 ^ Z.max 0 1) with 10. change (10 ^ Z.max 0 (Z.opp 1)) with 1. cbn [fst snd]. lia.
      * by apply scaled_positive.
      * by apply scaled_positive.
      * apply equal_sym. replace (5 - (k - 1)) with (1 + (5 - k)) by lia. by apply scaled_scaled.
    + replace (k - 1) with (4 + (k - 5)) by lia. apply He, pow_le_nonneg; [done|]. lia.
    + replace (k - 1 + 1) with (5 + (k - 5)) by lia. rewrite <- He, pow_le_nonneg by done. lia.
Qed.

(** ** Reading a printed number *)

Definition digits (ds : cstr) : Prop := Forall (λ c, is_digit 10 c = true) ds.

Lemma dec_loop_length fuel j n acc :
  (j < fuel)%nat → 10 ^ Z.of_nat j ≤ n < 10 ^ Z.of_nat (S j) →
  length (dec_loop fuel n acc) = (S j + length acc)%nat.
Proof.
  revert j n acc. induction fuel as [|fuel IH]; intros j n acc Hf Hn; [lia|]. cbn [dec_loop].
  destruct j as [|j].
  - change (10 ^ Z.of_nat 0) with 1 in Hn. change (10 ^ Z.of_nat 1) with 10 in Hn. by rewrite (proj2 (Z.ltb_lt n 10)) by lia.
  - pose proof (Z.div_mod n 10) as Hd. pose proof (Z.mod_pos_bound n 10) as Hm.
    rewrite !Nat2Z.inj_succ, !Z.pow_succ_r in Hn by lia.
    assert (0 < 10 ^ Z.of_nat j) by (apply Z.pow_pos_nonneg; lia).
    rewrite (proj2 (Z.ltb_ge n 10)) by lia. rewrite (IH j); [cbn; lia|lia|].
    rewrite Nat2Z.inj_succ, Z.pow_succ_r by lia. lia.
Qed.

Lemma print_d_six d : 10 ^ 5 ≤ d < 10 ^ 6 →
  digits (print_d d) ∧ value_of 10 (print_d d) = d ∧ length (print_d d) = 6%nat.
Proof.
  intros Hd. unfold print_d. rewrite (proj2 (Z.ltb_ge d 0)) by lia.
  split_and!; [| |by rewrite (dec_loop_length _ 5) by (cbn; lia)];
    by destruct (dec_loop_spec 20 d []) as (ds & -> & _ & Hall & Hv); [cbn; lia|lia|rewrite app_nil_r].
Qed.

Lemma value_of_zeros ds n :
  value_of 10 (ds ++ replicate n "0"%char) = value_of 10 ds * 10 ^ Z.of_nat n.
Proof.
  rewrite value_of_app. generalize (value_of 10 ds). induction n as [|n IH]; intros v; cbn [replicate fold_left].
  - by rewrite Z.mul_1_r.
  - rewrite IH, Nat2Z.inj_succ, Z.pow_succ_r by lia.
    change (default 0 (digit_of "0"%char)) with 0. lia.
Qed.

Lemma value_of_leading n ds : value_of 10 (replicate n "0"%char ++ ds) = value_of 10 ds.
Proof. rewrite value_of_app, <- (app_nil_l (replicate _ _)), value_of_zeros. done. Qed.

Lemma span_is_zero l : ∃ n, l = replicate n "0"%char ++ (span is_zero l).2.
Proof.
  induction l as [|c l [n IH]]; [by exists 0%nat|]. cbn [span]. unfold is_zero at 1.
  case_bool_decide as Hc; [|by exists 0%nat]. exists (S n). destruct (span is_zero l). cbn in *. by rewrite Hc, <- IH.
Qed.

Lemma strip_zeros_spec ds : ∃ n, ds = strip_zeros ds ++ replicate n "0"%char.
Proof.
  unfold strip_zeros. destruct (span_is_zero (reverse ds)) as [n H]. exists n.
  apply (f_equal reverse) in H. by rewrite reverse_involutive, reverse_app, reverse_replicate in H.
Qed.

(** The characters of a printed number. *)
Definition plain (c : ascii) : Prop := is_digit 10 c = true ∨ c ∈ cs ".e+-".

Lemma plain_lower c : plain c → lower c ≠ "i"%char ∧ lower c ≠ "n"%char ∧ lower c ≠ "x"%char.
Proof.
  intros [Hc|Hc].
  - apply is_digit_10 in Hc. unfold lower. rewrite (proj2 (Z.leb_gt 65 _)) by lia. cbn [andb].
    split_and!; intros ->; by destruct Hc as [_ Hc].
  - unfold cs in Hc. cbn in Hc. set_unfold in Hc. by destruct_or? Hc; subst.
Qed.

Lemma starts_ci_false p s c : c ∈ p → Forall (λ a, lower a ≠ c) s → starts_ci p s = false.
Proof.
  intros Hc Hs. apply bool_decide_false. intros E. rewrite <- E in Hc.
  apply list_elem_of_fmap in Hc as (a & -> & Ha). rewrite Forall_forall in Hs.
  apply (Hs a); [|done]. apply list_elem_of_lookup in Ha as [i Hi]. apply lookup_take_Some in Hi as [Hi _].
  by apply list_elem_of_lookup; exists i.
Qed.

Lemma plain_starts s : Forall plain s →
  starts_ci (cs "inf") s = false ∧ starts_ci (cs "nan") s = false ∧ starts_ci (cs "0x") s = false.
Proof.
  intros Hs. split_and!.
  - apply (starts_ci_false _ _ "i"); [by left|]. eapply Forall_impl; [exact Hs|]. apply plain_lower.
  - apply (starts_ci_false _ _ "n"); [by left|]. eapply Forall_impl; [exact Hs|]. apply plain_lower.
  - apply (starts_ci_false _ _ "x"); [by right; left|]. eapply Forall_impl; [exact Hs|]. apply plain_lower.
Qed.

Lemma digit_not_space c : is_digit 10 c = true → isspace c = false.
Proof. intros Hc. apply is_digit_10 in Hc. apply not_isspace. lia. Qed.

Lemma digits_plain ds : digits ds → Forall plain ds.
Proof. intros H. eapply Forall_impl; [exact H|]. by left. Qed.

Lemma digits_prefix a b : digits (a ++ b) → digits a ∧ digits b.
Proof. apply Forall_app. Qed.

(** The sign of a number that starts with a digit. *)
Lemma sign_text_read neg ip s : digits ip → ip ≠ [] →
  sign_of (span isspace (sign_text neg ++ ip ++ s)).2 = (neg, ip ++ s).
Proof.
  intros Hip Hne. destruct ip as [|c ip]; [done|]. apply Forall_inv in Hip.
  destruct neg; cbn; [done|]. rewrite digit_not_space by done. cbn [snd sign_of].
  rewrite !bool_decide_false; [done|intros ->..]; by vm_compute in Hip.
Qed.

Lemma scan_digits_text ip fs tail :
  digits ip → ip ≠ [] → digits fs → (tail = [] ∨ ∃ t, tail = "e"%char :: t) →
  scan_digits 10 (ip ++ fraction fs ++ tail) =
    Some (value_of 10 (ip ++ strip_zeros fs), Z.of_nat (length (strip_zeros fs)), tail).
Proof.
  intros Hip Hne Hfs Ht. destruct (strip_zeros_spec fs) as [n E].
  assert (Hs : digits (strip_zeros fs)) by (rewrite E in Hfs; by apply digits_prefix in Hfs as [? _]).
  assert (Htail : ∀ c b', tail = c :: b' → is_digit 10 c = false).
  { intros c b' ->. by destruct Ht as [|[t [= -> _]]]. }
  unfold scan_digits, fraction. destruct (strip_zeros fs) as [|c r].
  - cbn [app]. rewrite (span_app _ ip tail Hip Htail), app_nil_r.
    destruct Ht as [->|[t ->]]; [|rewrite (bool_decide_false ("e"%char = _)) by done];
      by rewrite !app_nil_r, (bool_decide_false (ip = [])).
  - rewrite span_app; [|done|by intros ? ? [= <- _]]. rewrite <- app_comm_cons, bool_decide_true by done.
    rewrite (span_app _ (c :: r) tail Hs Htail), bool_decide_false; [done|]. by destruct ip.
Qed.

Lemma fraction_plain fs : digits fs → Forall plain (fraction fs).
Proof.
  intros Hfs. destruct (strip_zeros_spec fs) as [n E]. rewrite E in Hfs. apply digits_prefix in Hfs as [Hs _].
  unfold fraction. destruct (strip_zeros fs); [done|]. constructor; [right; by left|]. by apply digits_plain.
Qed.

Lemma strtof_text neg ip fs tail :
  digits ip → ip ≠ [] → digits fs → 0 < value_of 10 (ip ++ fs) →
  Forall plain tail → (tail = [] ∨ ∃ t, tail = "e"%char :: t) →
  strtof (sign_text neg ++ ip ++ fraction fs ++ tail) =
    round32 neg (scaled 10 (scan_exponent "e" tail - Z.of_nat (length fs)) (value_of 10 (ip ++ fs), 1)).
Proof.
  intros Hip Hne Hfs Hv Hpl Ht. pose proof (scan_digits_text ip fs tail Hip Hne Hfs Ht) as Hscan.
  destruct (strip_zeros_spec fs) as [n E].
  assert (Hst : Forall plain (ip ++ fraction fs ++ tail)).
  { apply Forall_app. split; [by apply digits_plain|]. apply Forall_app. split; [|done].
    by apply fraction_plain. }
  apply plain_starts in Hst as (Hi & Hn & Hx).
  unfold strtof. rewrite (sign_text_read neg ip _ Hip Hne), Hi, Hn, Hx, Hscan.
  assert (Hval : value_of 10 (ip ++ fs) = value_of 10 (ip ++ strip_zeros fs) * 10 ^ Z.of_nat n).
  { rewrite <- value_of_zeros, <- app_assoc. by rewrite <- E. }
  rewrite Hval. assert (Hp : 0 < 10 ^ Z.of_nat n) by (apply Z.pow_pos_nonneg; lia).
  assert (Hl : length fs = (length (strip_zeros fs) + n)%nat) by (rewrite E at 1; by rewrite length_app, length_replicate).
  assert (Hpos : 0 < value_of 10 (ip ++ strip_zeros fs)) by nia.
  set (v := value_of 10 (ip ++ strip_zeros fs)) in *.
  assert (Hsc : (v * 10 ^ Z.of_nat n, 1) = scaled 10 (Z.of_nat n) (v, 1)).
  { unfold scaled. cbn [fst snd]. by rewrite Z.max_r, Z.max_l by lia. }
  rewrite Hsc. apply round32_equal; [by apply scaled_positive..| |].
  { apply scaled_positive; [done|]. by apply scaled_positive. }
  apply equal_sym. replace (scan_exponent "e" tail - Z.of_nat (length (strip_zeros fs)))
    with (scan_exponent "e" tail - Z.of_nat (length fs) + Z.of_nat n) by lia. by apply scaled_scaled.
Qed.

Lemma exponent_text_read k : -100 < k < 100 →
  Forall plain (exponent_text k) ∧ scan_exponent "e" (exponent_text k) = k.
Proof.
  intros Hk. assert (H : Forall (λ k, Forall (λ c, is_digit 10 c || bool_decide (c ∈ cs ".e+-") = true) (exponent_text k) ∧
    scan_exponent "e" (exponent_text k) = k) (seqZ (-99) 199)).
  { apply (bool_decide_unpack _). vm_compute. exact I. }
  rewrite Forall_forall in H. destruct (H k) as [Hp Hs]; [apply elem_of_seqZ; lia|]. split; [|done].
  eapply Forall_impl; [exact Hp|]. intros c [Hc|Hc]%orb_true_iff; [by left|right]. by apply bool_decide_eq_true in Hc.
Qed.

(** A number printed with six digits reads as the float nearest to it. *)
Lemma strtof_g_text neg d k : 10 ^ 5 ≤ d < 10 ^ 6 → -100 < k < 100 →
  strtof (sign_text neg ++ g_text d k) = round32 neg (scaled 10 (k - 5) (d, 1)).
Proof.
  intros Hd Hk. destruct (print_d_six d Hd) as (Hds & Hv & Hlen). set (ds := print_d d) in *.
  assert (Hcut : ∀ n, digits (take n ds) ∧ digits (drop n ds)) by (intros n; split; [by apply Forall_take|by apply Forall_drop]).
  assert (Hne : ∀ n, (0 < n)%nat → take n ds ≠ []) by (intros [|n]; [lia|]; by destruct ds).
  assert (Hpos : 0 < value_of 10 ds) by lia.
  unfold g_text. fold ds. destruct (Z.leb_spec (-4) k) as [Hk4|Hk4]; cbn [andb]; [destruct (Z.ltb_spec k 6) as [Hk6|Hk6]|]; cbn [andb];
    [destruct (Z.ltb_spec k 0) as [Hk0|Hk0]|..]; cbv zeta.
  - pose proof (strtof_text neg (cs "0") (replicate (Z.to_nat (- k - 1)) "0"%char ++ ds) []) as H.
    rewrite app_nil_r in H. rewrite H; clear H; try done; auto.
    + change (cs "0") with (replicate 1 "0"%char). rewrite value_of_leading, value_of_leading, Hv.
      f_equal. f_equal. rewrite length_app, length_replicate. cbn [scan_exponent]. lia.
    + by repeat constructor.
    + apply Forall_app. split; [|done]. by apply Forall_replicate.
    + change (cs "0") with (replicate 1 "0"%char). by rewrite value_of_leading, value_of_leading.
  - pose proof (strtof_text neg (take (Z.to_nat (k + 1)) ds) (drop (Z.to_nat (k + 1)) ds) []) as H.
    rewrite app_nil_r, take_drop, Hv in H. rewrite H; clear H; try (apply Hcut || apply Hne); auto; try lia; try done.
    f_equal. f_equal. rewrite length_drop. cbn [scan_exponent]. lia.
  - destruct (exponent_text_read k Hk) as [Hp Hs].
    rewrite strtof_text; try (apply Hcut || apply Hne); rewrite ?take_drop; auto; try lia; try (right; by eexists).
    rewrite Hs, Hv, length_drop, Hlen. done.
  - destruct (exponent_text_read k Hk) as [Hp Hs].
    rewrite strtof_text; try (apply Hcut || apply Hne); rewrite ?take_drop; auto; try lia; try (right; by eexists).
    rewrite Hs, Hv, length_drop, Hlen. done.
Qed.

(** Six digits with these exponents are in the normal range. *)
Lemma normal_range d k : 10 ^ 5 ≤ d < 10 ^ 6 → -37 ≤ k ≤ 37 →
  let q := scaled 10 (k - 5) (d, 1) in pow_le 2 (-126) q ∧ ¬ pow_le 2 127 q.
Proof.
  intros Hd Hk. unfold pow_le, scaled. cbn [fst snd].
  assert (H : Forall (λ k, 10 ^ Z.max 0 (- (k - 5)) ≤ 10 ^ 5 * 10 ^ Z.max 0 (k - 5) * 2 ^ 126 ∧
    10 ^ 6 * 10 ^ Z.max 0 (k - 5) ≤ 10 ^ Z.max 0 (- (k - 5)) * 2 ^ 127) (seqZ (-37) 75)).
  { apply (bool_decide_unpack _). vm_compute. exact I. }
  rewrite Forall_forall in H. destruct (H k) as [Hl Hu]; [apply elem_of_seqZ; lia|].
  assert (Hp : 0 < 10 ^ Z.max 0 (k - 5)) by by apply pow_pos.
  change (2 ^ Z.max 0 (-126)) with 1. change (2 ^ Z.max 0 (- -126)) with (2 ^ 126).
  change (2 ^ Z.max 0 127) with (2 ^ 127). change (2 ^ Z.max 0 (Z.opp 127)) with 1.
  assert (H1 : 10 ^ 5 * 10 ^ Z.max 0 (k - 5) ≤ d * 10 ^ Z.max 0 (k - 5)) by (apply Z.mul_le_mono_nonneg_r; lia).
  assert (H2 : d * 10 ^ Z.max 0 (k - 5) < 10 ^ 6 * 10 ^ Z.max 0 (k - 5)) by (apply Z.mul_lt_mono_pos_r; lia).
  split; [|apply Z.lt_nge]; lia.
Qed.

(** A float nearest to a number of at most six digits, in the normal range,
    survives being printed and read. *)
Lemma strtof_print_g neg d k :
  10 ^ 5 ≤ d < 10 ^ 6 → -37 ≤ k ≤ 37 →
  let x := round32 neg (scaled 10 (k - 5) (d, 1)) in strtof (print_g x) = x.
Proof.
  intros Hd Hk. destruct (normal_range d k Hd Hk) as [Hl Hu]. set (q := scaled 10 (k - 5) (d, 1)) in *.
  assert (Hq : positive q) by (apply scaled_positive; [done|split; cbn; lia]).
  destruct (round32_near neg q Hq Hl Hu) as (m & e & E & Hm & Hn). cbv zeta. rewrite E at 1.
  cbn [print_g]. rewrite (proj2 (Z.eqb_neq m 0)) by lia. rewrite (digits6_near d k).
  - apply strtof_g_text; [done|lia].
  - done.
  - apply scaled_positive; [done|]. split; cbn; lia.
  - done.
Qed.

(** ** The length of a printed number *)

Definition float_ok (x : float32) : Prop :=
  match x with F_fin _ m e => 0 ≤ m < 2 ^ 24 ∧ -149 ≤ e ≤ 104 | _ => True end.

Lemma digits6_range v : positive v → let '(d, k) := digits6 v in 10 ^ 5 ≤ d < 10 ^ 6.
Proof.
  intros Hv. unfold digits6. destruct (exponent_spec 10 v) as [Hl Hu]; [done|done|].
  set (k := exponent 10 v) in *. set (s := scaled 10 (5 - k) v).
  assert (Hs : positive s) by by apply scaled_positive. destruct Hs as [H1 H2].
  assert (He : ∀ j, pow_le 10 j s ↔ pow_le 10 (j + (k - 5)) v).
  { intros j. unfold s. replace (5 - k) with (- (k - 5)) by lia. by apply pow_le_scaled. }
  replace k with (5 + (k - 5)) in Hl by lia. rewrite <- He, pow_le_nonneg in Hl by done.
  replace (k + 1) with (6 + (k - 5)) in Hu by lia. rewrite <- He, pow_le_nonneg in Hu by done.
  pose proof (rdiv_near s H2) as Hn. cbv zeta. fold s. set (d := rdiv s) in *.
  destruct (Z.eqb_spec d (10 ^ 6)); [lia|]. nia.
Qed.

Lemma strip_zeros_length ds : (length (fraction ds) ≤ S (length ds))%nat.
Proof.
  destruct (strip_zeros_spec ds) as [n E]. rewrite E at 2. rewrite length_app. unfold fraction.
  destruct (strip_zeros ds); cbn; lia.
Qed.

Lemma g_text_length d k : 10 ^ 5 ≤ d < 10 ^ 6 → -100 < k < 100 → (length (g_text d k) ≤ 11)%nat.
Proof.
  intros Hd Hk. destruct (print_d_six d Hd) as (_ & _ & Hlen). set (ds := print_d d) in *.
  assert (He : length (exponent_text k) = 4%nat).
  { assert (H : Forall (λ k, length (exponent_text k) = 4%nat) (seqZ (-99) 199)).
    { apply (bool_decide_unpack _). vm_compute. exact I. }
    rewrite Forall_forall in H. apply H, elem_of_seqZ. lia. }
  unfold g_text. fold ds. destruct (Z.leb_spec (-4) k), (Z.ltb_spec k 6); cbn [andb]; [destruct (Z.ltb_spec k 0)|..];
    cbv zeta; rewrite !length_app; rewrite ?He, ?length_take, ?Hlen;
    match goal with |- context [fraction ?l] => pose proof (strip_zeros_length l) as Hf end;
    rewrite ?length_app, ?length_replicate, ?length_drop, ?Hlen in Hf; change (length (cs "0")) with 1%nat;
    rewrite ?Hlen in *; lia.
Qed.

(** The exponents of the floats. *)
Lemma float_exponent m e : 0 < m < 2 ^ 24 → -149 ≤ e ≤ 104 →
  let k := exponent 10 (scaled 2 e (m, 1)) in -46 ≤ k ≤ 38.
Proof.
  intros Hm He. set (v := scaled 2 e (m, 1)).
  assert (Hv : positive v) by (apply scaled_positive; [done|]; split; cbn; lia).
  assert (H : Forall (λ e, 2 ^ Z.max 0 (- e) ≤ 2 ^ Z.max 0 e * 10 ^ 46 ∧
    2 ^ 24 * 2 ^ Z.max 0 e ≤ 2 ^ Z.max 0 (- e) * 10 ^ 39) (seqZ (-149) 254)).
  { apply (bool_decide_unpack _). vm_compute. exact I. }
  rewrite Forall_forall in H. destruct (H e) as [Hl Hu]; [apply elem_of_seqZ; lia|].
  assert (Hp : 0 < 2 ^ Z.max 0 e) by by apply pow_pos.
  assert (H1 : 1 * 2 ^ Z.max 0 e ≤ m * 2 ^ Z.max 0 e) by (apply Z.mul_le_mono_nonneg_r; lia).
  assert (H2 : m * 2 ^ Z.max 0 e < 2 ^ 24 * 2 ^ Z.max 0 e) by (apply Z.mul_lt_mono_pos_r; lia).
  destruct (exponent_spec 10 v) as [H3 H4]; [done|done|]. split; apply Z.nlt_ge; intros Hlt.
  - apply H4, (pow_le_mono 10 _ (-46)); [done|done|lia|]. unfold pow_le, v, scaled. cbn [fst snd].
    change (10 ^ Z.max 0 (-46)) with 1. change (10 ^ Z.max 0 (- -46)) with (10 ^ 46). lia.
  - apply (pow_le_mono 10 39) in H3; [|done|done|lia]. rewrite pow_le_nonneg in H3 by done.
    unfold v, scaled in H3. cbn [fst snd] in H3. lia.
Qed.

(** Thirteen characters with the terminator hold every float. *)
Lemma print_g_length x : float_ok x → (length (print_g x) ≤ 12)%nat.
Proof.
  destruct x as [neg m e|neg|]; cbn [float_ok print_g]; [|by destruct neg; cbn; lia|by cbn; lia].
  intros [Hm He]. assert (Hs : (length (sign_text neg) ≤ 1)%nat) by (by destruct neg; cbn; lia).
  rewrite length_app. destruct (Z.eqb_spec m 0) as [->|Hne]; [cbn; lia|].
  assert (Hv : positive (scaled 2 e (m, 1))) by (apply scaled_positive; [done|]; split; cbn; lia).
  pose proof (digits6_range _ Hv) as Hd. pose proof (float_exponent m e ltac:(lia) He) as Hk. cbv zeta in Hk.
  destruct (digits6 (scaled 2 e (m, 1))) as [d k] eqn:E.
  assert (Hk' : -100 < k < 100) by (unfold digits6 in E; destruct (_ =? _); injection E as _ <-; lia).
  pose proof (g_text_length d k Hd Hk'). lia.
Qed.

(** What [strtof] returns is a float. *)
Lemma round32_ok neg q : 0 ≤ q.1 → 0 < q.2 → float_ok (round32 neg q).
Proof.
  intros H1 H2. unfold round32. destruct (Z.eqb_spec q.1 0) as [|Hne]; [cbn; lia|].
  assert (Hq : positive q) by (split; lia). destruct (exponent_spec 2 q) as [_ Hu]; [done|done|]. cbv zeta.
  set (e := Z.max (-149) (exponent 2 q - 23)). set (s := scaled 2 (- e) q).
  assert (Hs : positive s) by by apply scaled_positive. destruct Hs as [Hp1 Hp2].
  assert (Hs2 : s.1 < 2 ^ 24 * s.2).
  { apply Z.nle_gt. intros Hle. apply Hu. apply (pow_le_mono 2 _ (24 + e)); [done|done|lia|].
    apply pow_le_scaled, pow_le_nonneg; done. }
  pose proof (rdiv_near s Hp2) as Hn. set (m := rdiv s) in *.
  destruct (Z.eqb_spec m (2 ^ 24)) as [E|E].
  - destruct (Z.ltb_spec 104 (e + 1)); cbn; lia.
  - destruct (Z.ltb_spec 104 e); cbn; [done|]. nia.
Qed.

(** ** The characters of a printed number *)

Lemma g_text_plain d k : 10 ^ 5 ≤ d < 10 ^ 6 → -100 < k < 100 → Forall plain (g_text d k) ∧ g_text d k ≠ [].
Proof.
  intros Hd Hk. destruct (print_d_six d Hd) as (Hds & _ & Hlen). set (ds := print_d d) in *.
  destruct (exponent_text_read k Hk) as [Hp _].
  assert (Hcut : ∀ n, digits (take n ds) ∧ digits (drop n ds)) by (intros n; split; [by apply Forall_take|by apply Forall_drop]).
  assert (Hne : ∀ n, (0 < n)%nat → take n ds ≠ []) by (intros [|n]; [lia|]; by destruct ds).
  unfold g_text. fold ds. destruct (Z.leb_spec (-4) k) as [Hk4|Hk4]; cbn [andb]; [destruct (Z.ltb_spec k 6) as [Hk6|Hk6]|];
    cbn [andb]; [destruct (Z.ltb_spec k 0) as [Hk0|Hk0]|..]; cbv zeta;
    (split; [rewrite ?Forall_app|intros [E _]%app_nil; revert E; (done || apply Hne; lia)]);
    split_and?; try apply digits_plain, Hcut; try apply fraction_plain, Hcut; try done.
  - constructor; [by left|constructor].
  - apply fraction_plain, Forall_app. split; [by apply Forall_replicate|done].
Qed.

Lemma print_g_chars x : float_ok x →
  print_g x ≠ [] ∧ Forall (λ c, plain c ∨ c ∈ cs "infa") (print_g x).
Proof.
  assert (Hl : ∀ l, Forall plain l → Forall (λ c, plain c ∨ c ∈ cs "infa") l).
  { intros l H. eapply Forall_impl; [exact H|]. by left. }
  assert (Hsg : ∀ neg, Forall plain (sign_text neg)).
  { intros [|]; [|done]. constructor; [|done]. right. by do 3 right; left. }
  destruct x as [neg m e|neg|]; cbn [float_ok print_g].
  - intros [Hm He]. destruct (Z.eqb_spec m 0) as [->|Hne].
    { split; [by destruct neg|]. apply Hl, Forall_app. split; [done|]. constructor; [by left|done]. }
    assert (Hv : positive (scaled 2 e (m, 1))) by (apply scaled_positive; [done|]; split; cbn; lia).
    pose proof (digits6_range _ Hv) as Hd. pose proof (float_exponent m e ltac:(lia) He) as Hk. cbv zeta in Hk.
    destruct (digits6 (scaled 2 e (m, 1))) as [d k] eqn:E.
    assert (Hk' : -100 < k < 100) by (unfold digits6 in E; destruct (_ =? _); injection E as _ <-; lia).
    destruct (g_text_plain d k Hd Hk') as [Hp Hn]. split.
    + by intros [_ ?]%app_nil.
    + by apply Hl, Forall_app.
  - intros _. split; [by destruct neg|]. apply Forall_app. split; [by apply Hl|].
    repeat constructor; right; set_solver.
  - intros _. split; [done|]. repeat constructor; right; set_solver.
Qed.

(** Neither of the separators of a parameter is printed. *)
Lemma print_g_no x c : float_ok x → c ∈ cs "=;" → c ∉ print_g x.
Proof.
  intros Hx Hc Hin. destruct (print_g_chars x Hx) as [_ H]. rewrite Forall_forall in H.
  destruct (H c Hin) as [[Hd|Hp]|Hp]; revert Hd || revert Hp;
    cbn in Hc; set_unfold in Hc; destruct_or? Hc; subst; by vm_compute; set_solver.
Qed.

(** The infinities, the number that is none and the zeros are read back. *)
Lemma strtof_print_special x : (∀ neg m e, x = F_fin neg m e → m = 0 ∧ e = -149) → strtof (print_g x) = x.
Proof.
  destruct x as [neg m e|neg|]; intros H; [destruct (H _ _ _ eq_refl) as [-> ->]|..]; by try destruct neg.
Qed.

Lemma six_digits_ok neg d k : 0 < d → float_ok (round32 neg (scaled 10 (k - 5) (d, 1))).
Proof.
  intros Hd. destruct (scaled_positive 10 (k - 5) (d, 1)) as [H1 H2]; [done|by split|].
  by apply round32_ok; [apply Z.lt_le_incl|].
Qed.
