(* ===== verification/CameraParameters.v ===== *)
(** camera/CameraParameters.cpp: the parameters of a camera as a map of strings
    and their text form "key=value;key=value".  The map is libutils'
    [DefaultKeyedVector<String8, String8>], an interface here. *)

From Stdlib Require Import ZArith Lia Ascii.
From stdpp Require Import base numbers strings gmap list.
From S2P Require Import Prelude CString Scanf Strtol Float32 Sys.

(** What [DefaultKeyedVector] promises: [add] replaces the value of a key that is
    there, [items] are the pairs in the order of [keyAt] and [valueAt]. *)
Class KeyedVector (M : Type) := {
  kv_empty : M;
  kv_find : M → cstr → option cstr;
  kv_add : M → cstr → cstr → M;
  kv_remove : M → cstr → M;
  kv_items : M → list (cstr * cstr)
}.

Class KeyedVectorLaws (M : Type) `{KeyedVector M} := {
  kv_find_empty k : kv_find kv_empty k = None;
  kv_find_add m k v k' : kv_find (kv_add m k v) k' = if decide (k = k') then Some v else kv_find m k';
  kv_find_remove m k k' : kv_find (kv_remove m k) k' = if decide (k = k') then None else kv_find m k';
  kv_items_nodup m : NoDup (kv_items m).*1;
  kv_items_find m k v : (k, v) ∈ kv_items m ↔ kv_find m k = Some v
}.

Definition KEY_PREVIEW_SIZE : cstr := cs "preview-size".
Definition KEY_SUPPORTED_PREVIEW_SIZES : cstr := cs "preview-size-values".
Definition KEY_PREVIEW_FORMAT : cstr := cs "preview-format".
Definition KEY_SUPPORTED_PREVIEW_FORMATS : cstr := cs "preview-format-values".
Definition KEY_PREVIEW_FRAME_RATE : cstr := cs "preview-frame-rate".
Definition KEY_PREVIEW_FPS_RANGE : cstr := cs "preview-fps-range".
Definition KEY_PICTURE_SIZE : cstr := cs "picture-size".
Definition KEY_SUPPORTED_PICTURE_SIZES : cstr := cs "picture-size-values".
Definition KEY_PICTURE_FORMAT : cstr := cs "picture-format".
Definition KEY_VIDEO_SIZE : cstr := cs "video-size".
Definition KEY_SUPPORTED_VIDEO_SIZES : cstr := cs "video-size-values".
Definition KEY_PREFERRED_PREVIEW_SIZE_FOR_VIDEO : cstr := cs "preferred-preview-size-for-video".

Definition PIXEL_FORMAT_YUV422SP : cstr := cs "yuv422sp".
Definition PIXEL_FORMAT_YUV420SP : cstr := cs "yuv420sp".
Definition PIXEL_FORMAT_YUV422I : cstr := cs "yuv422i-yuyv".
Definition PIXEL_FORMAT_YUV420P : cstr := cs "yuv420p".
Definition PIXEL_FORMAT_RGB565 : cstr := cs "rgb565".
Definition PIXEL_FORMAT_RGBA8888 : cstr := cs "rgba8888".
Definition PIXEL_FORMAT_BAYER_RGGB : cstr := cs "bayer-rggb".

(** The formats of <system/graphics.h>, by name. *)
Inductive HAL_PIXEL_FORMAT :=
  | YCrCb_420_SP | YCbCr_422_SP | YCbCr_422_I | YV12 | RGB_565 | RGBA_8888 | RAW16.

(** [None]: -1. *)
Definition previewFormatToEnum (format : option cstr) : option HAL_PIXEL_FORMAT :=
  match format with
  | None => Some YCrCb_420_SP
  | Some f =>
    if streq f PIXEL_FORMAT_YUV422SP then Some YCbCr_422_SP
    else if streq f PIXEL_FORMAT_YUV420SP then Some YCrCb_420_SP
    else if streq f PIXEL_FORMAT_YUV422I then Some YCbCr_422_I
    else if streq f PIXEL_FORMAT_YUV420P then Some YV12
    else if streq f PIXEL_FORMAT_RGB565 then Some RGB_565
    else if streq f PIXEL_FORMAT_RGBA8888 then Some RGBA_8888
    else if streq f PIXEL_FORMAT_BAYER_RGGB then Some RAW16
    else None
  end.

(** [parse_pair]: the two numbers and the text from [*endptr] on. *)
Definition parse_pair (str : cstr) (delim : ascii) : option (Z * Z * cstr) :=
  let '(w, e) := strtol 10 str in
  match e with
  | c :: e =>
    if bool_decide (c = delim) then let '(h, e) := strtol 10 e in Some (i32 w, i32 h, e) else None
  | [] => None
  end.

(** [parseSizesList]: the sizes pushed. *)
Fixpoint parse_sizes_loop (fuel : nat) (s : cstr) (sizes : list (Z * Z)) : cres (list (Z * Z)) :=
  match fuel with
  | O => OutOfFuel
  | S fuel =>
    match parse_pair s "x" with
    | None => Ret sizes
    | Some (w, h, []) => Ret (sizes ++ [(w, h)])
    | Some (w, h, c :: s) =>
      if bool_decide (c = ","%char) then parse_sizes_loop fuel s (sizes ++ [(w, h)]) else Ret sizes
    end
  end.

Definition parseSizesList (sizesStr : option cstr) (sizes : list (Z * Z)) : cres (list (Z * Z)) :=
  match sizesStr with
  | None => Ret sizes
  | Some s => parse_sizes_loop (S (length s)) s sizes
  end.

(** [strtok_r] with the one delimiter ",". *)
Definition is_comma (c : ascii) : bool := bool_decide (c = ","%char).

Fixpoint formats_loop (fuel : nat) (s : cstr) (formats : list HAL_PIXEL_FORMAT) : cres (list HAL_PIXEL_FORMAT) :=
  match fuel with
  | O => OutOfFuel
  | S fuel =>
    match (span is_comma s).2 with
    | [] => Ret formats
    | r =>
      let '(fmt, r) := span (λ c, negb (is_comma c)) r in
      formats_loop fuel (tail r) (formats ++ match previewFormatToEnum (Some fmt) with
                                             | Some f => [f] | None => [] end)
    end
  end.

Section parameters.
Context {M : Type} `{KeyedVector M}.

(** [flatten]: the pairs from the [i]-th on, [size] of them in all. *)
Fixpoint flatten_loop (items : list (cstr * cstr)) (i size : nat) : cstr :=
  match items with
  | [] => []
  | (k, v) :: items =>
    k ++ cs "=" ++ v ++ (if (i =? size - 1)%nat then [] else cs ";") ++ flatten_loop items (S i) size
  end.

Definition flatten (mMap : M) : cstr := flatten_loop (kv_items mMap) 0 (length (kv_items mMap)).

Fixpoint unflatten_loop (fuel : nat) (a : cstr) (mMap : M) : cres M :=
  match fuel with
  | O => OutOfFuel
  | S fuel =>
    match strchr a "=" with
    | None => Ret mMap
    | Some b =>
      let k := take b a in
      let a := drop (S b) a in
      match strchr a ";" with
      | None => Ret (kv_add mMap k a)
      | Some b => unflatten_loop fuel (drop (S b) a) (kv_add mMap k (take b a))
      end
    end
  end.

(** Every turn but the last takes a character at least. *)
Definition unflatten (params : cstr) : cres M := unflatten_loop (S (length params)) params kv_empty.

Definition set (mMap : M) (key value : option cstr) : M :=
  match key, value with
  | Some key, Some value =>
    if bool_decide (is_Some (strchr key "=")) || bool_decide (is_Some (strchr key ";")) then mMap
    else if bool_decide (is_Some (strchr value "=")) || bool_decide (is_Some (strchr value ";")) then mMap
    else kv_add mMap key value
  | _, _ => mMap
  end.

Definition set_int (mMap : M) (key : cstr) (value : Z) : M := set mMap (Some key) (Some (print_d value)).

(** "%g" into a buffer of 16 characters. *)
Definition setFloat (mMap : M) (key : cstr) (value : float32) : M :=
  set mMap (Some key) (Some (take 15 (print_g value))).

(** [None]: the null pointer. *)
Definition get (mMap : M) (key : cstr) : option cstr :=
  let v := default [] (kv_find mMap key) in
  if (length v =? 0)%nat then None else Some v.

Definition getInt (mMap : M) (key : cstr) : Z :=
  match get mMap key with None => -1 | Some v => i32 (strtol 0 v).1 end%Z.

(** The [int] -1 becomes a float. *)
Definition getFloat (mMap : M) (key : cstr) : float32 :=
  match get mMap key with None => round32 true (1, 1)%Z | Some v => strtof v end.

Definition remove (mMap : M) (key : cstr) : M := kv_remove mMap key.

Definition print_pair (width height : Z) (delim : ascii) : cstr := print_d width ++ delim :: print_d height.

(** [*first] and [*second] keep the -1 stored before when the pair is not read. *)
Definition get_pair (mMap : M) (key : cstr) (delim : ascii) : Z * Z :=
  match get mMap key with
  | None => (-1, -1)%Z
  | Some p => match parse_pair p delim with Some (w, h, _) => (w, h) | None => (-1, -1)%Z end
  end.

Definition set_size (mMap : M) (key : cstr) (width height : Z) : M :=
  set mMap (Some key) (Some (print_pair width height "x")).

Definition setPreviewSize (mMap : M) (width height : Z) : M := set_size mMap KEY_PREVIEW_SIZE width height.
Definition getPreviewSize (mMap : M) : Z * Z := get_pair mMap KEY_PREVIEW_SIZE "x".
Definition getPreferredPreviewSizeForVideo (mMap : M) : Z * Z :=
  get_pair mMap KEY_PREFERRED_PREVIEW_SIZE_FOR_VIDEO "x".
Definition getSupportedPreviewSizes (mMap : M) (sizes : list (Z * Z)) : cres (list (Z * Z)) :=
  parseSizesList (get mMap KEY_SUPPORTED_PREVIEW_SIZES) sizes.
Definition setVideoSize (mMap : M) (width height : Z) : M := set_size mMap KEY_VIDEO_SIZE width height.
Definition getVideoSize (mMap : M) : Z * Z := get_pair mMap KEY_VIDEO_SIZE "x".
Definition getSupportedVideoSizes (mMap : M) (sizes : list (Z * Z)) : cres (list (Z * Z)) :=
  parseSizesList (get mMap KEY_SUPPORTED_VIDEO_SIZES) sizes.
Definition setPreviewFrameRate (mMap : M) (fps : Z) : M := set_int mMap KEY_PREVIEW_FRAME_RATE fps.
Definition getPreviewFrameRate (mMap : M) : Z := getInt mMap KEY_PREVIEW_FRAME_RATE.
Definition getPreviewFpsRange (mMap : M) : Z * Z := get_pair mMap KEY_PREVIEW_FPS_RANGE ",".
Definition setPreviewFormat (mMap : M) (format : option cstr) : M := set mMap (Some KEY_PREVIEW_FORMAT) format.
Definition getPreviewFormat (mMap : M) : option cstr := get mMap KEY_PREVIEW_FORMAT.
Definition setPictureSize (mMap : M) (width height : Z) : M := set_size mMap KEY_PICTURE_SIZE width height.
Definition getPictureSize (mMap : M) : Z * Z := get_pair mMap KEY_PICTURE_SIZE "x".
Definition getSupportedPictureSizes (mMap : M) (sizes : list (Z * Z)) : cres (list (Z * Z)) :=
  parseSizesList (get mMap KEY_SUPPORTED_PICTURE_SIZES) sizes.
Definition setPictureFormat (mMap : M) (format : option cstr) : M := set mMap (Some KEY_PICTURE_FORMAT) format.
Definition getPictureFormat (mMap : M) : option cstr := get mMap KEY_PICTURE_FORMAT.

(** [dump()]: a message for the size and one for every pair. *)
Fixpoint dump_loop (items : list (cstr * cstr)) : io unit :=
  match items with
  | [] => IRet tt
  | (k, v) :: items => call_ "ALOGD" [AS (k ++ cs ": " ++ v ++ [chr 10])] ;! dump_loop items
  end.

Definition dump (mMap : M) : io unit :=
  call_ "ALOGD" [AS (cs "dump: mMap.size = " ++ print_d (Z.of_nat (length (kv_items mMap))))] ;!
  dump_loop (kv_items mMap).

(** [dump(fd)]: what is written, every line cut to the buffer. *)
Definition dump_text (mMap : M) : cstr :=
  foldl (λ result kv, result ++ take 254 (chr 9 :: kv.1 ++ cs ": " ++ kv.2 ++ [chr 10]))
    (take 254 (cs "CameraParameters::dump: mMap.size = " ++ print_d (Z.of_nat (length (kv_items mMap))) ++ [chr 10]))
    (kv_items mMap).

(** [NO_ERROR], whatever the write gives. *)
Definition dump_fd (mMap : M) (fd : Z) : io Z :=
  call_ "write" [AZ fd; AS (dump_text mMap); AZ (Z.of_nat (length (dump_text mMap)))] ;! IRet 0%Z.

Definition getSupportedPreviewFormats (mMap : M) (formats : list HAL_PIXEL_FORMAT) : cres (list HAL_PIXEL_FORMAT) :=
  match get mMap KEY_SUPPORTED_PREVIEW_FORMATS with
  | None => Ret formats
  | Some s => formats_loop (S (length s)) s formats
  end.

Definition isEmpty (mMap : M) : bool := (length (kv_items mMap) =? 0)%nat.
End parameters.

(** * The text form *)

(** The keys and values that can be written down and found again. *)
Definition pair_ok (kv : cstr * cstr) : Prop := "="%char ∉ kv.1 ∧ ";"%char ∉ kv.2.

Fixpoint join_pairs (items : list (cstr * cstr)) : cstr :=
  match items with
  | [] => []
  | [(k, v)] => k ++ "="%char :: v
  | (k, v) :: items => k ++ "="%char :: v ++ ";"%char :: join_pairs items
  end.

Lemma flatten_loop_join items i size :
  (i + length items = size)%nat → flatten_loop items i size = join_pairs items.
Proof.
  revert i. induction items as [|[k v] items IH]; intros i Hi; [done|].
  cbn [flatten_loop length] in *. rewrite IH by lia.
  destruct items as [|kv items]; cbn [length] in *.
  - rewrite (proj2 (Nat.eqb_eq _ _)) by lia. cbn. by rewrite app_nil_r.
  - rewrite (proj2 (Nat.eqb_neq _ _)) by lia. done.
Qed.

Lemma drop_S_app {A} (l : list A) c r : drop (S (length l)) (l ++ c :: r) = r.
Proof. by induction l. Qed.

Section parameters_laws.
Context {M : Type} `{KeyedVectorLaws M}.

Definition add_pair (m : M) (kv : cstr * cstr) : M := kv_add m kv.1 kv.2.

Lemma unflatten_loop_join fuel items m :
  Forall pair_ok items → (length (join_pairs items) < fuel)%nat →
  unflatten_loop fuel (join_pairs items) m = Ret (foldl add_pair m items).
Proof.
  intros Hok. revert fuel m. induction Hok as [|[k v] items [Hk Hv] Hok IH]; intros fuel m Hf;
    (destruct fuel as [|fuel]; [lia|]); cbn [unflatten_loop]; [done|].
  cbn [fst snd] in *. destruct items as [|kv items].
  - cbn [join_pairs]. rewrite strchr_app by done.
    rewrite take_app_length, drop_S_app. by rewrite (proj2 (strchr_None _ _)).
  - cbn [join_pairs] in *. rewrite strchr_app by done.
    rewrite take_app_length, drop_S_app, strchr_app by done.
    rewrite take_app_length, drop_S_app. cbn [foldl]. apply IH.
    rewrite !length_app in Hf. cbn [length] in Hf. rewrite length_app in Hf. cbn [length] in Hf. lia.
Qed.

Lemma find_foldl_add items m k :
  NoDup items.*1 →
  (∀ v, (k, v) ∈ items → kv_find (foldl add_pair m items) k = Some v) ∧
  (k ∉ items.*1 → kv_find (foldl add_pair m items) k = kv_find m k).
Proof.
  revert m. induction items as [|[k' v'] items IH]; intros m Hnd; [by split; set_solver|].
  cbn in Hnd. apply NoDup_cons in Hnd as [Hk' Hnd]. destruct (IH (add_pair m (k', v')) Hnd) as [IH1 IH2].
  cbn [foldl]. split.
  - intros v [[= -> ->]|Hin]%elem_of_cons; [|by apply IH1].
    rewrite IH2 by done. unfold add_pair. cbn. rewrite kv_find_add. by rewrite decide_True.
  - intros Hk. cbn in Hk. rewrite IH2 by set_solver. unfold add_pair. cbn. rewrite kv_find_add.
    rewrite decide_False; [done|]. set_solver.
Qed.

(** A map all of whose pairs can be written down. *)
Definition params_ok (m : M) : Prop := ∀ k v, kv_find m k = Some v → pair_ok (k, v).

Lemma unflatten_flatten m :
  params_ok m → ∃ m', unflatten (flatten m) = Ret m' ∧ ∀ k, kv_find m' k = kv_find m k.
Proof.
  intros Hok. assert (Hitems : Forall pair_ok (kv_items m)).
  { apply Forall_forall. intros [k v] Hin. by apply Hok, kv_items_find. }
  unfold unflatten, flatten. rewrite flatten_loop_join by done.
  rewrite unflatten_loop_join by (done || lia). eexists. split; [done|]. intros k.
  destruct (find_foldl_add (kv_items m) kv_empty k (kv_items_nodup m)) as [H1 H2].
  destruct (kv_find m k) as [v|] eqn:E.
  - apply H1. by apply kv_items_find.
  - rewrite H2, kv_find_empty; [done|]. intros ([k' v] & -> & Hin)%list_elem_of_fmap.
    apply kv_items_find in Hin. cbn in E. congruence.
Qed.

Lemma params_ok_add m k v : params_ok m → pair_ok (k, v) → params_ok (kv_add m k v).
Proof.
  intros Hm Hkv k' v'. rewrite kv_find_add. case_decide as E; [|apply Hm]. subst. by intros [= <-].
Qed.

Lemma params_ok_set m key value : params_ok m → params_ok (set m key value).
Proof.
  intros Hm. unfold set. destruct key as [k|], value as [v|]; try done.
  destruct (bool_decide_reflect (is_Some (strchr k "="))) as [|Hk]; [done|].
  destruct (bool_decide _); [done|]. cbn [orb]. destruct (bool_decide _); [done|].
  destruct (bool_decide_reflect (is_Some (strchr v ";"))) as [|Hv]; [done|]. cbn [orb].
  apply params_ok_add; [done|].
  split; apply strchr_None; by apply eq_None_not_Some.
Qed.

(** [unflatten] ends whatever the text, and the map it builds can be written. *)
Lemma unflatten_loop_total fuel a m :
  (length a < fuel)%nat → params_ok m → ∃ m', unflatten_loop fuel a m = Ret m' ∧ params_ok m'.
Proof.
  revert a m. induction fuel as [|fuel IH]; intros a m Hf Hm; [lia|]. cbn [unflatten_loop].
  destruct (strchr a "=") as [b|] eqn:Eb; [|eauto].
  pose proof (proj1 (strchr_Some _ _ _) Eb) as [_ Hk]. pose proof (strchr_lt _ _ _ Eb) as Hb.
  set (a' := drop (S b) a). destruct (strchr a' ";") as [b'|] eqn:Eb'.
  - pose proof (proj1 (strchr_Some _ _ _) Eb') as [_ Hv]. apply IH; [|by apply params_ok_add].
    subst a'. rewrite !length_drop. lia.
  - eexists. split; [done|]. apply params_ok_add; [done|]. split; [done|]. by apply strchr_None.
Qed.

(** The maps the operations build. *)
Inductive built : M → Prop :=
  | built_new : built kv_empty
  | built_set m key value : built m → built (set m key value)
  | built_remove m key : built m → built (remove m key)
  | built_unflatten params m : unflatten params = Ret m → built m.

Lemma built_ok m : built m → params_ok m.
Proof.
  induction 1 as [|m key value _ IH|m key _ IH|params m Hp].
  - intros k v. by rewrite kv_find_empty.
  - by apply params_ok_set.
  - intros k v. unfold remove. rewrite kv_find_remove. case_decide; [done|apply IH].
  - destruct (unflatten_loop_total (S (length params)) params kv_empty) as (m' & E & Hm);
      [lia|intros k v; by rewrite kv_find_empty|].
    unfold unflatten in Hp. by assert (m = m') as -> by congruence.
Qed.

(** C22. The parameters survive their text form: whatever sequence of set, remove
    and unflatten built them, [unflatten] of their [flatten] ends and gives
    every key the same value; and [unflatten] ends on every text. *)
Theorem flatten_roundtrip m params :
  built m →
  (∃ m', unflatten (flatten m) = Ret m' ∧ ∀ k, kv_find m' k = kv_find m k) ∧
  (∃ m', unflatten params = Ret m' ∧ built m').
Proof.
  intros Hm. split; [by apply unflatten_flatten, built_ok|].
  destruct (unflatten_loop_total (S (length params)) params kv_empty) as (m' & E & _);
    [lia|intros k v; by rewrite kv_find_empty|]. exists m'. split; [done|]. by apply built_unflatten with params.
Qed.

(** * Floats *)

Lemma get_setFloat m key x :
  "="%char ∉ key → ";"%char ∉ key → float_ok x → get (setFloat m key x) key = Some (print_g x).
Proof.
  intros He Hs Hx. unfold get, setFloat, set.
  rewrite take_ge by (pose proof (print_g_length x Hx); lia).
  rewrite !(proj2 (strchr_None _ _)); try done; try (apply print_g_no; [done|cbn; set_solver]).
  rewrite !bool_decide_false by (by intros [? ?]). cbn [orb].
  rewrite kv_find_add, decide_True by done. cbn [default]. destruct (print_g_chars x Hx) as [Hne _].
  by destruct (print_g x).
Qed.

(** C23. The buffer of [setFloat] holds the text of every float, which [get] then
    gives back whole; [getFloat] returns the float that was set whenever it is
    the nearest one to a number with at most six digits between 1e-37 and 1e38,
    a zero, an infinity or not a number. *)
Theorem float_roundtrip m key :
  "="%char ∉ key → ";"%char ∉ key →
  (∀ x, float_ok x → get (setFloat m key x) key = Some (print_g x)) ∧
  (∀ neg d k, (10 ^ 5 ≤ d < 10 ^ 6)%Z → (-37 ≤ k ≤ 37)%Z →
    let x := round32 neg (scaled 10 (k - 5) (d, 1%Z)) in getFloat (setFloat m key x) key = x) ∧
  (∀ x, x ∈ [F_fin false 0 (-149); F_fin true 0 (-149); F_inf false; F_inf true; F_nan] →
    getFloat (setFloat m key x) key = x).
Proof.
  intros He Hs. split_and!.
  - intros x. by apply get_setFloat.
  - intros neg d k Hd Hk. cbv zeta. unfold getFloat. rewrite get_setFloat; [by apply strtof_print_g|done|done|].
    apply six_digits_ok. lia.
  - intros x Hx. unfold getFloat. rewrite get_setFloat; [|done|done|].
    + apply strtof_print_special. intros neg n e ->. set_unfold in Hx. by destruct_or? Hx; simplify_eq.
    + set_unfold in Hx. by destruct_or? Hx; subst.
Qed.

(** * Sizes *)

Definition is_int (z : Z) : Prop := (- 2 ^ 31 ≤ z < 2 ^ 31)%Z.

Lemma parse_pair_print w h delim r :
  is_int w → is_int h → is_digit 10 delim = false → (∀ c r', r = c :: r' → is_digit 10 c = false) →
  parse_pair (print_pair w h delim ++ r) delim = Some (w, h, r).
Proof.
  intros Hw Hh Hd Hr. unfold parse_pair, print_pair. rewrite <-app_assoc. cbn [app].
  rewrite strtol_print by (done || by intros c r' [= <- _]). rewrite bool_decide_true by done.
  rewrite strtol_print by done. by rewrite !i32_small.
Qed.

Lemma print_pair_chars w h delim c :
  is_int w → is_int h → c ∈ print_pair w h delim → c = delim ∨ c = "-"%char ∨ is_digit 10 c = true.
Proof.
  intros Hw Hh Hc. destruct (print_d_chars w Hw) as [H1 _], (print_d_chars h Hh) as [H2 _].
  unfold print_pair in Hc. apply elem_of_app in Hc as [Hc|[->|Hc]%elem_of_cons]; [right|by left|right];
    by eapply Forall_forall in Hc; [|eassumption].
Qed.

Lemma get_pair_set_size m key w h :
  is_int w → is_int h → "="%char ∉ key → ";"%char ∉ key →
  get_pair (set_size m key w h) key "x" = (w, h).
Proof.
  intros Hw Hh He Hs. unfold get_pair, get, set_size, set.
  assert (Hc : ∀ c, c ≠ "x"%char → c ≠ "-"%char → is_digit 10 c = false → strchr (print_pair w h "x") c = None).
  { intros c H1 H2 H3. apply strchr_None. intros Hc.
    apply print_pair_chars in Hc as [?|[?|?]]; try done. congruence. }
  rewrite !(proj2 (strchr_None _ _)) by done. rewrite !Hc by done.
  rewrite !bool_decide_false by apply is_Some_None. cbn [orb].
  rewrite kv_find_add, decide_True by done. cbn [default from_option id].
  destruct (Nat.eqb_spec (length (print_pair w h "x")) 0) as [E|_].
  { unfold print_pair in E. rewrite length_app in E. cbn in E. lia. }
  pose proof (parse_pair_print w h "x" [] Hw Hh eq_refl) as Hp. rewrite app_nil_r in Hp.
  by rewrite Hp.
Qed.

(** A list of sizes as text. *)
Fixpoint print_sizes (sizes : list (Z * Z)) : cstr :=
  match sizes with
  | [] => []
  | [(w, h)] => print_pair w h "x"
  | (w, h) :: sizes => print_pair w h "x" ++ ","%char :: print_sizes sizes
  end.

Lemma parse_sizes_print fuel sizes acc :
  sizes ≠ [] → Forall (λ s, is_int s.1 ∧ is_int s.2) sizes → (length (print_sizes sizes) < fuel)%nat →
  parse_sizes_loop fuel (print_sizes sizes) acc = Ret (acc ++ sizes).
Proof.
  intros Hne Hall. revert fuel acc. induction Hall as [|[w h] sizes [Hw Hh] Hall IH]; intros fuel acc Hf; [done|].
  destruct fuel as [|fuel]; [lia|]. cbn [parse_sizes_loop fst snd] in *. destruct sizes as [|s sizes].
  - cbn [print_sizes]. pose proof (parse_pair_print w h "x" [] Hw Hh eq_refl) as Hp.
    rewrite app_nil_r in Hp. by rewrite Hp.
  - cbn [print_sizes] in *. rewrite parse_pair_print by (done || by intros c r' [= <- _]).
    rewrite bool_decide_true by done. rewrite IH; [by rewrite <-app_assoc|done|].
    rewrite length_app in Hf. cbn [length] in Hf. lia.
Qed.

(** A size that is set is read back: the setters and getters of the preview,
    video and picture size agree on every pair of ints, and a list of supported
    sizes, as text, is read as that list. *)
Theorem sizes_roundtrip m w h sizes :
  is_int w → is_int h → sizes ≠ [] → Forall (λ s, is_int s.1 ∧ is_int s.2) sizes →
  getPreviewSize (setPreviewSize m w h) = (w, h) ∧
  getVideoSize (setVideoSize m w h) = (w, h) ∧
  getPictureSize (setPictureSize m w h) = (w, h) ∧
  parseSizesList (Some (print_sizes sizes)) [] = Ret sizes.
Proof.
  intros Hw Hh Hne Hs.
  assert (Hk : ∀ key, forallb (λ c, negb (bool_decide (c ∈ ["="%char; ";"%char]))) key = true →
    get_pair (set_size m key w h) key "x" = (w, h)).
  { intros key Hk. rewrite forallb_forall in Hk.
    apply get_pair_set_size; [done|done|..]; intros Hin%list_elem_of_In%Hk;
      apply negb_true_iff, bool_decide_eq_false in Hin; set_solver. }
  split; [by apply Hk|]. split; [by apply Hk|]. split; [by apply Hk|].
  cbn [parseSizesList]. apply (parse_sizes_print _ _ []); [done|done|lia].
Qed.
End parameters_laws.

(** * An implementation of the map *)

#[export] Instance gmap_keyed_vector : KeyedVector (gmap cstr cstr) := {
  kv_empty := ∅;
  kv_find m k := m !! k;
  kv_add m k v := <[k := v]> m;
  kv_remove m k := delete k m;
  kv_items := map_to_list
}.

#[export] Instance gmap_keyed_vector_laws : KeyedVectorLaws (gmap cstr cstr).
Proof.
  split; cbn.
  - intros k. apply lookup_empty.
  - intros m k v k'. case_decide as E; [subst; apply lookup_insert_eq|by apply lookup_insert_ne].
  - intros m k k'. case_decide as E; [subst; apply lookup_delete_eq|by apply lookup_delete_ne].
  - intros m. apply NoDup_fst_map_to_list.
  - intros m k v. apply elem_of_map_to_list.
Qed.

Definition sample_params : gmap cstr cstr :=
  setPictureSize (set kv_empty (Some (cs "flash-mode")) (Some (cs "torch"))) 5312 2988.

Lemma flatten_roundtrip_witness :
  (∃ m', unflatten (flatten sample_params) = Ret m' ∧ ∀ k, kv_find m' k = kv_find sample_params k) ∧
  (∃ m', unflatten (M := gmap cstr cstr) (cs "a=b=c;;d=") = Ret m' ∧ built m').
Proof.
  apply (flatten_roundtrip sample_params (cs "a=b=c;;d=")).
  unfold sample_params, setPictureSize, set_size. apply built_set, built_set, built_new.
Defined.

Lemma sizes_roundtrip_witness :
  getPreviewSize (setPreviewSize sample_params (-1) 1080) = (-1, 1080)%Z ∧
  getVideoSize (setVideoSize sample_params (-1) 1080) = (-1, 1080)%Z ∧
  getPictureSize (setPictureSize sample_params (-1) 1080) = (-1, 1080)%Z ∧
  parseSizesList (Some (print_sizes [(1920, 1080); (640, 480)]%Z)) [] = Ret [(1920, 1080); (640, 480)]%Z.
Proof.
  apply (sizes_roundtrip sample_params); [unfold is_int; lia|unfold is_int; lia|done|].
  repeat constructor; cbn; lia.
Defined.

Lemma float_roundtrip_witness :
  getFloat (setFloat sample_params (cs "focal-length") (strtof (cs "4.3"))) (cs "focal-length") = strtof (cs "4.3").
Proof.
  change (strtof (cs "4.3")) with (round32 false (scaled 10 (0 - 5) (430000, 1)))%Z.
  destruct (float_roundtrip sample_params (cs "focal-length")) as (_ & H & _);
    [apply (bool_decide_unpack _); vm_compute; exact I..|].
  apply (H false 430000%Z 0%Z); lia.
Defined.

(** A pair that does not fit the line of [dump] loses its end and its new line. *)
Example dump_cuts :
  dump_text (set (M := gmap cstr cstr) kv_empty (Some (cs "k")) (Some (replicate 300 "v"%char))) =
  cs "CameraParameters::dump: mMap.size = 1" ++ [chr 10] ++ chr 9 :: cs "k: " ++ replicate 250 "v"%char.
Proof. vm_compute. reflexivity. Qed.

(** A key after an empty item takes its ";" along, and an empty value is none. *)
Example unflatten_samples :
  match unflatten (M := gmap cstr cstr) (cs "a=b=c;;d=") with
  | Ret m => get m (cs "a") = Some (cs "b=c") ∧ kv_find m (cs ";d") = Some [] ∧ get m (cs ";d") = None
  | _ => False
  end.
Proof. repeat split; reflexivity. Qed.
