(* ===== verification/CameraKeys.v ===== *)
(** The names of the camera parameters and of their values: the constants at the top
    of camera/CameraParameters.cpp that [CameraParameters] does not define already, and
    those shims/libexynoscamera/CameraParameters.cpp adds for the vendor's library.  The
    names are distinct and free of the characters of the text form, so that [set]
    refuses none of them and none of them shadows another. *)

From Stdlib Require Import ZArith Lia Ascii.
From stdpp Require Import base numbers strings gmap list.
From S2P Require Import Prelude CString Scanf Strtol Float32 Sys CameraParameters.

(** * Keys *)

Definition KEY_SUPPORTED_PREVIEW_FRAME_RATES : cstr := cs "preview-frame-rate-values".
Definition KEY_SUPPORTED_PREVIEW_FPS_RANGE : cstr := cs "preview-fps-range-values".
Definition KEY_SUPPORTED_PICTURE_FORMATS : cstr := cs "picture-format-values".
Definition KEY_JPEG_THUMBNAIL_WIDTH : cstr := cs "jpeg-thumbnail-width".
Definition KEY_JPEG_THUMBNAIL_HEIGHT : cstr := cs "jpeg-thumbnail-height".
Definition KEY_SUPPORTED_JPEG_THUMBNAIL_SIZES : cstr := cs "jpeg-thumbnail-size-values".
Definition KEY_JPEG_THUMBNAIL_QUALITY : cstr := cs "jpeg-thumbnail-quality".
Definition KEY_JPEG_QUALITY : cstr := cs "jpeg-quality".
Definition KEY_ROTATION : cstr := cs "rotation".
Definition KEY_GPS_LATITUDE : cstr := cs "gps-latitude".
Definition KEY_GPS_LONGITUDE : cstr := cs "gps-longitude".
Definition KEY_GPS_ALTITUDE : cstr := cs "gps-altitude".
Definition KEY_GPS_TIMESTAMP : cstr := cs "gps-timestamp".
Definition KEY_GPS_PROCESSING_METHOD : cstr := cs "gps-processing-method".
Definition KEY_WHITE_BALANCE : cstr := cs "whitebalance".
Definition KEY_SUPPORTED_WHITE_BALANCE : cstr := cs "whitebalance-values".
Definition KEY_EFFECT : cstr := cs "effect".
Definition KEY_SUPPORTED_EFFECTS : cstr := cs "effect-values".
Definition KEY_ANTIBANDING : cstr := cs "antibanding".
Definition KEY_SUPPORTED_ANTIBANDING : cstr := cs "antibanding-values".
Definition KEY_SCENE_MODE : cstr := cs "scene-mode".
Definition KEY_SUPPORTED_SCENE_MODES : cstr := cs "scene-mode-values".
Definition KEY_FLASH_MODE : cstr := cs "flash-mode".
Definition KEY_SUPPORTED_FLASH_MODES : cstr := cs "flash-mode-values".
Definition KEY_FOCUS_MODE : cstr := cs "focus-mode".
Definition KEY_SUPPORTED_FOCUS_MODES : cstr := cs "focus-mode-values".
Definition KEY_MAX_NUM_FOCUS_AREAS : cstr := cs "max-num-focus-areas".
Definition KEY_FOCUS_AREAS : cstr := cs "focus-areas".
Definition KEY_FOCAL_LENGTH : cstr := cs "focal-length".
Definition KEY_HORIZONTAL_VIEW_ANGLE : cstr := cs "horizontal-view-angle".
Definition KEY_VERTICAL_VIEW_ANGLE : cstr := cs "vertical-view-angle".
Definition KEY_EXPOSURE_COMPENSATION : cstr := cs "exposure-compensation".
Definition KEY_MAX_EXPOSURE_COMPENSATION : cstr := cs "max-exposure-compensation".
Definition KEY_MIN_EXPOSURE_COMPENSATION : cstr := cs "min-exposure-compensation".
Definition KEY_EXPOSURE_COMPENSATION_STEP : cstr := cs "exposure-compensation-step".
Definition KEY_AUTO_EXPOSURE_LOCK : cstr := cs "auto-exposure-lock".
Definition KEY_AUTO_EXPOSURE_LOCK_SUPPORTED : cstr := cs "auto-exposure-lock-supported".
Definition KEY_AUTO_WHITEBALANCE_LOCK : cstr := cs "auto-whitebalance-lock".
Definition KEY_AUTO_WHITEBALANCE_LOCK_SUPPORTED : cstr := cs "auto-whitebalance-lock-supported".
Definition KEY_MAX_NUM_METERING_AREAS : cstr := cs "max-num-metering-areas".
Definition KEY_METERING_AREAS : cstr := cs "metering-areas".
Definition KEY_ZOOM : cstr := cs "zoom".
Definition KEY_MAX_ZOOM : cstr := cs "max-zoom".
Definition KEY_ZOOM_RATIOS : cstr := cs "zoom-ratios".
Definition KEY_ZOOM_SUPPORTED : cstr := cs "zoom-supported".
Definition KEY_SMOOTH_ZOOM_SUPPORTED : cstr := cs "smooth-zoom-supported".
Definition KEY_FOCUS_DISTANCES : cstr := cs "focus-distances".
Definition KEY_VIDEO_FRAME_FORMAT : cstr := cs "video-frame-format".
Definition KEY_MAX_NUM_DETECTED_FACES_HW : cstr := cs "max-num-detected-faces-hw".
Definition KEY_MAX_NUM_DETECTED_FACES_SW : cstr := cs "max-num-detected-faces-sw".
Definition KEY_RECORDING_HINT : cstr := cs "recording-hint".
Definition KEY_VIDEO_SNAPSHOT_SUPPORTED : cstr := cs "video-snapshot-supported".
Definition KEY_VIDEO_STABILIZATION : cstr := cs "video-stabilization".
Definition KEY_VIDEO_STABILIZATION_SUPPORTED : cstr := cs "video-stabilization-supported".
Definition KEY_LIGHTFX : cstr := cs "light-fx".

(** * Values *)

Definition TRUE : cstr := cs "true".
Definition FALSE : cstr := cs "false".
Definition FOCUS_DISTANCE_INFINITY : cstr := cs "Infinity".

Definition WHITE_BALANCE_AUTO : cstr := cs "auto".
Definition WHITE_BALANCE_INCANDESCENT : cstr := cs "incandescent".
Definition WHITE_BALANCE_FLUORESCENT : cstr := cs "fluorescent".
Definition WHITE_BALANCE_WARM_FLUORESCENT : cstr := cs "warm-fluorescent".
Definition WHITE_BALANCE_DAYLIGHT : cstr := cs "daylight".
Definition WHITE_BALANCE_CLOUDY_DAYLIGHT : cstr := cs "cloudy-daylight".
Definition WHITE_BALANCE_TWILIGHT : cstr := cs "twilight".
Definition WHITE_BALANCE_SHADE : cstr := cs "shade".

Definition EFFECT_NONE : cstr := cs "none".
Definition EFFECT_MONO : cstr := cs "mono".
Definition EFFECT_NEGATIVE : cstr := cs "negative".
Definition EFFECT_SOLARIZE : cstr := cs "solarize".
Definition EFFECT_SEPIA : cstr := cs "sepia".
Definition EFFECT_POSTERIZE : cstr := cs "posterize".
Definition EFFECT_WHITEBOARD : cstr := cs "whiteboard".
Definition EFFECT_BLACKBOARD : cstr := cs "blackboard".
Definition EFFECT_AQUA : cstr := cs "aqua".

Definition ANTIBANDING_AUTO : cstr := cs "auto".
Definition ANTIBANDING_50HZ : cstr := cs "50hz".
Definition ANTIBANDING_60HZ : cstr := cs "60hz".
Definition ANTIBANDING_OFF : cstr := cs "off".

Definition FLASH_MODE_OFF : cstr := cs "off".
Definition FLASH_MODE_AUTO : cstr := cs "auto".
Definition FLASH_MODE_ON : cstr := cs "on".
Definition FLASH_MODE_RED_EYE : cstr := cs "red-eye".
Definition FLASH_MODE_TORCH : cstr := cs "torch".

Definition SCENE_MODE_AUTO : cstr := cs "auto".
Definition SCENE_MODE_ACTION : cstr := cs "action".
Definition SCENE_MODE_PORTRAIT : cstr := cs "portrait".
Definition SCENE_MODE_LANDSCAPE : cstr := cs "landscape".
Definition SCENE_MODE_NIGHT : cstr := cs "night".
Definition SCENE_MODE_NIGHT_PORTRAIT : cstr := cs "night-portrait".
Definition SCENE_MODE_THEATRE : cstr := cs "theatre".
Definition SCENE_MODE_BEACH : cstr := cs "beach".
Definition SCENE_MODE_SNOW : cstr := cs "snow".
Definition SCENE_MODE_SUNSET : cstr := cs "sunset".
Definition SCENE_MODE_STEADYPHOTO : cstr := cs "steadyphoto".
Definition SCENE_MODE_FIREWORKS : cstr := cs "fireworks".
Definition SCENE_MODE_SPORTS : cstr := cs "sports".
Definition SCENE_MODE_PARTY : cstr := cs "party".
Definition SCENE_MODE_CANDLELIGHT : cstr := cs "candlelight".
Definition SCENE_MODE_BARCODE : cstr := cs "barcode".
Definition SCENE_MODE_HDR : cstr := cs "hdr".

Definition PIXEL_FORMAT_YUV420SP_NV21 : cstr := cs "nv21".
Definition PIXEL_FORMAT_JPEG : cstr := cs "jpeg".
Definition PIXEL_FORMAT_ANDROID_OPAQUE : cstr := cs "android-opaque".

Definition FOCUS_MODE_AUTO : cstr := cs "auto".
Definition FOCUS_MODE_INFINITY : cstr := cs "infinity".
Definition FOCUS_MODE_MACRO : cstr := cs "macro".
Definition FOCUS_MODE_FIXED : cstr := cs "fixed".
Definition FOCUS_MODE_EDOF : cstr := cs "edof".
Definition FOCUS_MODE_CONTINUOUS_VIDEO : cstr := cs "continuous-video".
Definition FOCUS_MODE_CONTINUOUS_PICTURE : cstr := cs "continuous-picture".

Definition LIGHTFX_LOWLIGHT : cstr := cs "low-light".
Definition LIGHTFX_HDR : cstr := cs "high-dynamic-range".

(** * What the vendor's library adds *)

Definition EFFECT_CARTOONIZE : cstr := cs "cartoonize".
Definition EFFECT_POINT_RED_YELLOW : cstr := cs "point-red-yellow".
Definition EFFECT_POINT_GREEN : cstr := cs "point-green".
Definition EFFECT_POINT_BLUE : cstr := cs "point-blue".
Definition EFFECT_VINTAGE_COLD : cstr := cs "vintage-cold".
Definition EFFECT_VINTAGE_WARM : cstr := cs "vintage-warm".
Definition EFFECT_WASHED : cstr := cs "washed".
Definition ISO_AUTO : cstr := cs "auto".
Definition ISO_NIGHT : cstr := cs "night".
Definition ISO_SPORTS : cstr := cs "sports".
Definition ISO_6400 : cstr := cs "6400".
Definition ISO_3200 : cstr := cs "3200".
Definition ISO_1600 : cstr := cs "1600".
Definition ISO_800 : cstr := cs "800".
Definition ISO_400 : cstr := cs "400".
Definition ISO_200 : cstr := cs "200".
Definition ISO_100 : cstr := cs "100".
Definition ISO_80 : cstr := cs "80".
Definition ISO_50 : cstr := cs "50".
Definition KEY_SUPPORTED_METERING_MODE : cstr := cs "metering-values".
Definition METERING_CENTER : cstr := cs "center".
Definition METERING_MATRIX : cstr := cs "matrix".
Definition METERING_SPOT : cstr := cs "spot".
Definition METERING_OFF : cstr := cs "off".
Definition KEY_DYNAMIC_RANGE_CONTROL : cstr := cs "dynamic-range-control".
Definition KEY_SUPPORTED_PHASE_AF : cstr := cs "phase-af-values".
Definition KEY_PHASE_AF : cstr := cs "phase-af".
Definition KEY_SUPPORTED_RT_HDR : cstr := cs "rt-hdr-values".
Definition KEY_RT_HDR : cstr := cs "rt-hdr".

(** * Tables *)

Definition keys : list cstr :=
  [KEY_PREVIEW_SIZE; KEY_SUPPORTED_PREVIEW_SIZES; KEY_PREVIEW_FORMAT; KEY_SUPPORTED_PREVIEW_FORMATS;
   KEY_PREVIEW_FRAME_RATE; KEY_SUPPORTED_PREVIEW_FRAME_RATES; KEY_PREVIEW_FPS_RANGE;
   KEY_SUPPORTED_PREVIEW_FPS_RANGE; KEY_PICTURE_SIZE; KEY_SUPPORTED_PICTURE_SIZES; KEY_PICTURE_FORMAT;
   KEY_SUPPORTED_PICTURE_FORMATS; KEY_JPEG_THUMBNAIL_WIDTH; KEY_JPEG_THUMBNAIL_HEIGHT;
   KEY_SUPPORTED_JPEG_THUMBNAIL_SIZES; KEY_JPEG_THUMBNAIL_QUALITY; KEY_JPEG_QUALITY; KEY_ROTATION;
   KEY_GPS_LATITUDE; KEY_GPS_LONGITUDE; KEY_GPS_ALTITUDE; KEY_GPS_TIMESTAMP; KEY_GPS_PROCESSING_METHOD;
   KEY_WHITE_BALANCE; KEY_SUPPORTED_WHITE_BALANCE; KEY_EFFECT; KEY_SUPPORTED_EFFECTS; KEY_ANTIBANDING;
   KEY_SUPPORTED_ANTIBANDING; KEY_SCENE_MODE; KEY_SUPPORTED_SCENE_MODES; KEY_FLASH_MODE;
   KEY_SUPPORTED_FLASH_MODES; KEY_FOCUS_MODE; KEY_SUPPORTED_FOCUS_MODES; KEY_MAX_NUM_FOCUS_AREAS;
   KEY_FOCUS_AREAS; KEY_FOCAL_LENGTH; KEY_HORIZONTAL_VIEW_ANGLE; KEY_VERTICAL_VIEW_ANGLE;
   KEY_EXPOSURE_COMPENSATION; KEY_MAX_EXPOSURE_COMPENSATION; KEY_MIN_EXPOSURE_COMPENSATION;
   KEY_EXPOSURE_COMPENSATION_STEP; KEY_AUTO_EXPOSURE_LOCK; KEY_AUTO_EXPOSURE_LOCK_SUPPORTED;
   KEY_AUTO_WHITEBALANCE_LOCK; KEY_AUTO_WHITEBALANCE_LOCK_SUPPORTED; KEY_MAX_NUM_METERING_AREAS;
   KEY_METERING_AREAS; KEY_ZOOM; KEY_MAX_ZOOM; KEY_ZOOM_RATIOS; KEY_ZOOM_SUPPORTED; KEY_SMOOTH_ZOOM_SUPPORTED;
   KEY_FOCUS_DISTANCES; KEY_VIDEO_FRAME_FORMAT; KEY_VIDEO_SIZE; KEY_SUPPORTED_VIDEO_SIZES;
   KEY_PREFERRED_PREVIEW_SIZE_FOR_VIDEO; KEY_MAX_NUM_DETECTED_FACES_HW; KEY_MAX_NUM_DETECTED_FACES_SW;
   KEY_RECORDING_HINT; KEY_VIDEO_SNAPSHOT_SUPPORTED; KEY_VIDEO_STABILIZATION;
   KEY_VIDEO_STABILIZATION_SUPPORTED; KEY_LIGHTFX].

Definition values : list cstr :=
  [TRUE; FALSE; FOCUS_DISTANCE_INFINITY; WHITE_BALANCE_AUTO; WHITE_BALANCE_INCANDESCENT;
   WHITE_BALANCE_FLUORESCENT; WHITE_BALANCE_WARM_FLUORESCENT; WHITE_BALANCE_DAYLIGHT;
   WHITE_BALANCE_CLOUDY_DAYLIGHT; WHITE_BALANCE_TWILIGHT; WHITE_BALANCE_SHADE; EFFECT_NONE; EFFECT_MONO;
   EFFECT_NEGATIVE; EFFECT_SOLARIZE; EFFECT_SEPIA; EFFECT_POSTERIZE; EFFECT_WHITEBOARD; EFFECT_BLACKBOARD;
   EFFECT_AQUA; ANTIBANDING_AUTO; ANTIBANDING_50HZ; ANTIBANDING_60HZ; ANTIBANDING_OFF; FLASH_MODE_OFF;
   FLASH_MODE_AUTO; FLASH_MODE_ON; FLASH_MODE_RED_EYE; FLASH_MODE_TORCH; SCENE_MODE_AUTO; SCENE_MODE_ACTION;
   SCENE_MODE_PORTRAIT; SCENE_MODE_LANDSCAPE; SCENE_MODE_NIGHT; SCENE_MODE_NIGHT_PORTRAIT; SCENE_MODE_THEATRE;
   SCENE_MODE_BEACH; SCENE_MODE_SNOW; SCENE_MODE_SUNSET; SCENE_MODE_STEADYPHOTO; SCENE_MODE_FIREWORKS;
   SCENE_MODE_SPORTS; SCENE_MODE_PARTY; SCENE_MODE_CANDLELIGHT; SCENE_MODE_BARCODE; SCENE_MODE_HDR;
   PIXEL_FORMAT_YUV422SP; PIXEL_FORMAT_YUV420SP; PIXEL_FORMAT_YUV420SP_NV21; PIXEL_FORMAT_YUV422I;
   PIXEL_FORMAT_YUV420P; PIXEL_FORMAT_RGB565; PIXEL_FORMAT_RGBA8888; PIXEL_FORMAT_JPEG;
   PIXEL_FORMAT_BAYER_RGGB; PIXEL_FORMAT_ANDROID_OPAQUE; FOCUS_MODE_AUTO; FOCUS_MODE_INFINITY;
   FOCUS_MODE_MACRO; FOCUS_MODE_FIXED; FOCUS_MODE_EDOF; FOCUS_MODE_CONTINUOUS_VIDEO;
   FOCUS_MODE_CONTINUOUS_PICTURE; LIGHTFX_LOWLIGHT; LIGHTFX_HDR].

Definition exynos_keys : list cstr :=
  [KEY_SUPPORTED_METERING_MODE; KEY_DYNAMIC_RANGE_CONTROL; KEY_SUPPORTED_PHASE_AF; KEY_PHASE_AF;
   KEY_SUPPORTED_RT_HDR; KEY_RT_HDR].

Definition exynos_values : list cstr :=
  [EFFECT_CARTOONIZE; EFFECT_POINT_RED_YELLOW; EFFECT_POINT_GREEN; EFFECT_POINT_BLUE; EFFECT_VINTAGE_COLD;
   EFFECT_VINTAGE_WARM; EFFECT_WASHED; ISO_AUTO; ISO_NIGHT; ISO_SPORTS; ISO_6400; ISO_3200; ISO_1600; ISO_800;
   ISO_400; ISO_200; ISO_100; ISO_80; ISO_50; METERING_CENTER; METERING_MATRIX; METERING_SPOT; METERING_OFF].

(** * Properties *)

(** Free of the characters of the text form. *)
Definition plain (s : cstr) : bool := bool_decide (strchr s "=" = None) && bool_decide (strchr s ";" = None).

Lemma keys_distinct : NoDup (keys ++ exynos_keys).
Proof. refine (bool_decide_unpack _ _). by vm_compute. Qed.

Lemma names_plain : Forall plain (keys ++ values ++ exynos_keys ++ exynos_values).
Proof. refine (bool_decide_unpack _ _). by vm_compute. Qed.

Lemma values_not_empty : Forall (λ v, v ≠ []) (values ++ exynos_values).
Proof. refine (bool_decide_unpack _ _). by vm_compute. Qed.

Section keyed.
Context {M : Type} `{KeyedVectorLaws M}.

Lemma set_plain (m : M) k v : plain k → plain v → set m (Some k) (Some v) = kv_add m k v.
Proof.
  intros [Hk1 Hk2]%andb_prop_elim [Hv1 Hv2]%andb_prop_elim.
  apply bool_decide_unpack in Hk1, Hk2, Hv1, Hv2. unfold set.
  rewrite Hk1, Hk2, Hv1, Hv2. by rewrite !bool_decide_eq_false_2 by (by intros []).
Qed.

(** A parameter of the tables that is set to a value of the tables is read back, and
    no other parameter changes. *)
Lemma set_known (m : M) k v k' :
  k ∈ keys ++ exynos_keys → v ∈ values ++ exynos_values →
  get (set m (Some k) (Some v)) k' = if decide (k = k') then Some v else get m k'.
Proof.
  intros Hk Hv.
  assert (Hp : ∀ s, s ∈ keys ++ exynos_keys ∨ s ∈ values ++ exynos_values → plain s).
  { intros s Hs. apply (proj1 (Forall_forall _ _) names_plain). rewrite !elem_of_app in *. tauto. }
  rewrite set_plain by auto. unfold get. rewrite kv_find_add. case_decide as E; [|done]. cbn.
  pose proof (proj1 (Forall_forall _ _) values_not_empty v Hv). by destruct v.
Qed.
End keyed.
