(* ===== verification/CallbackWorker.v ===== *)
(** camera/CallbackWorkerThread.{h,cpp}: the thread that runs the callbacks of the
    camera.  Messages and their data are allocated objects; the operations of the
    clients and the turns of the worker are atomic (the queue has a mutex).  A
    failed ALOG_ASSERT aborts; here it is [Fault], like a bad pointer. *)

From Stdlib Require Import ZArith Lia.
From stdpp Require Import base numbers gmap list.
From S2P Require Import Prelude.

Definition CB_TYPE_NONE : Z := 0.
Definition CB_TYPE_NOTIFY : Z := 1.
Definition CB_TYPE_DATA : Z := 2.

(** Pointers the worker only hands on are numbers. *)
Record WorkerMessage := mkWorkerMessage {
  CbType : Z; msg_type : Z; data : Z; index : Z; metadata : Z; user : Z; ext1 : Z; ext2 : Z
}.
(** [None]: the null function. *)
Record CallbackData := mkCallbackData { NewUserNotifyCb : option Z; NewUserDataCb : option Z }.

Definition MSG_EXIT_THREAD : Z := 1.
Definition MSG_EXECUTE_CALLBACK : Z := 2.
Definition MSG_UPDATE_CALLBACKS : Z := 3.

Notation ptr := positive.

Record ThreadMsg := mkThreadMsg { id : Z; msg : option ptr; CallerTS : Z }.

Inductive object := OMsg (m : ThreadMsg) | OWorker (w : WorkerMessage) | OData (d : CallbackData).
Notation heap := (gmap ptr object).

(** Where the thread is: not created, at the lock, in the wait, with a message,
    returned. *)
Inductive worker_pc := WNone | WLock | WWait | WGot (p : ptr) | WReturned.

Record worker := mkWorker {
  w_heap : heap;
  m_queue : list ptr;
  m_thread : bool;
  w_pc : worker_pc;
  UserNotifyCb : option Z;
  UserDataCb : option Z
}.

Definition initial_worker : worker := mkWorker ∅ [] false WNone None None.

Definition set_heap h (s : worker) := mkWorker h (m_queue s) (m_thread s) (w_pc s) (UserNotifyCb s) (UserDataCb s).
Definition set_queue q (s : worker) := mkWorker (w_heap s) q (m_thread s) (w_pc s) (UserNotifyCb s) (UserDataCb s).
Definition set_pc pc (s : worker) := mkWorker (w_heap s) (m_queue s) (m_thread s) pc (UserNotifyCb s) (UserDataCb s).

(** new and delete *)
Definition new (o : object) (s : worker) : ptr * worker :=
  let p := fresh (dom (w_heap s)) in (p, set_heap (<[p := o]> (w_heap s)) s).
Definition free (p : ptr) (s : worker) : cres worker :=
  let! _ := deref (w_heap s !! p) in Ret (set_heap (delete p (w_heap s)) s).

Definition notify_one (s : worker) : worker := match w_pc s with WWait => set_pc WLock s | _ => s end.

(** A new message at the end of the queue. *)
Definition push (i : Z) (m : option ptr) (ts : Z) (s : worker) : worker :=
  let '(p, s) := new (OMsg (mkThreadMsg i m ts)) s in
  notify_one (set_queue (m_queue s ++ [p]) s).

Definition CreateThread (s : worker) : worker :=
  if m_thread s then s else mkWorker (w_heap s) (m_queue s) true WLock None None.

(** [ExitThread] up to the join, and from the join on. *)
Definition ExitThread_post (ts : Z) (s : worker) : worker :=
  if m_thread s then push MSG_EXIT_THREAD None ts s else s.
Definition ExitThread_join (s : worker) : option worker :=
  match w_pc s with
  | WReturned => Some (mkWorker (w_heap s) (m_queue s) false WNone (UserNotifyCb s) (UserDataCb s))
  | _ => None
  end.

Definition ALOG_ASSERT (b : bool) : cres unit := if b then Ret tt else Fault.

Definition AddCallback (p : ptr) (ts : Z) (s : worker) : cres worker :=
  let! _ := ALOG_ASSERT (m_thread s) in Ret (push MSG_EXECUTE_CALLBACK (Some p) ts s).
Definition SetCallbacks (p : ptr) (ts : Z) (s : worker) : cres worker :=
  let! _ := ALOG_ASSERT (m_thread s) in Ret (push MSG_UPDATE_CALLBACKS (Some p) ts s).

(** Deletes the messages of the queue, not what they point to. *)
Fixpoint drop_messages (q : list ptr) (s : worker) : cres worker :=
  match q with
  | [] => Ret (set_queue [] s)
  | p :: q => let! s := free p s in drop_messages q s
  end.

Definition ClearCallbacks (s : worker) : cres worker :=
  let! _ := ALOG_ASSERT (m_thread s) in
  let! s := drop_messages (m_queue s) s in Ret (notify_one s).

Inductive user_call :=
  | CNotify (fn : Z) (msg_type ext1 ext2 user : Z)
  | CData (fn : Z) (msg_type data index metadata user : Z).

(** The callback a message asks for, if there is one and it is not stale. *)
Definition run_callback (notify_cb data_cb : option Z) (m : WorkerMessage) (age : Z) : list user_call :=
  if (age <? 5)%Z then
    if (CbType m =? CB_TYPE_NOTIFY)%Z then
      match notify_cb with
      | Some fn => [CNotify fn (msg_type m) (ext1 m) (ext2 m) (user m)]
      | None => []
      end
    else if (CbType m =? CB_TYPE_DATA)%Z then
      match data_cb with
      | Some fn => [CData fn (msg_type m) (data m) (index m) (metadata m) (user m)]
      | None => []
      end
    else []
  else [].

Definition worker_at (s : worker) (o : option ptr) : cres WorkerMessage :=
  let! p := deref o in let! x := deref (w_heap s !! p) in match x with OWorker m => Ret m | _ => Fault end.
Definition data_at (s : worker) (o : option ptr) : cres CallbackData :=
  let! p := deref o in let! x := deref (w_heap s !! p) in match x with OData d => Ret d | _ => Fault end.
Definition free_opt (o : option ptr) (s : worker) : cres worker := let! p := deref o in free p s.

(** The switch on the message. *)
Definition handle (p : ptr) (now : Z) (s : worker) : cres (worker * list user_call) :=
  let! o := deref (w_heap s !! p) in
  match o with
  | OMsg m =>
    if (id m =? MSG_EXECUTE_CALLBACK)%Z then
      let! userData := worker_at s (msg m) in
      let calls := run_callback (UserNotifyCb s) (UserDataCb s) userData (now - CallerTS m) in
      let! s := free_opt (msg m) s in let! s := free p s in
      Ret (set_pc WLock s, calls)
    else if (id m =? MSG_UPDATE_CALLBACKS)%Z then
      let! callbackData := data_at s (msg m) in
      let s := mkWorker (w_heap s) (m_queue s) (m_thread s) (w_pc s)
                 (NewUserNotifyCb callbackData) (NewUserDataCb callbackData) in
      let! s := free_opt (msg m) s in let! s := free p s in
      Ret (set_pc WLock s, [])
    else if (id m =? MSG_EXIT_THREAD)%Z then
      let! s := free p s in let! s := drop_messages (m_queue s) s in
      Ret (set_pc WReturned s, [])
    else let! _ := ALOG_ASSERT false in Ret (set_pc WLock s, [])
  | _ => Fault
  end.

(** A turn of [Process] at a time. *)
Definition Process (now : Z) (s : worker) : cres (worker * list user_call) :=
  match w_pc s with
  | WNone | WReturned => Ret (s, [])
  | WLock =>
    match m_queue s with
    | [] => Ret (set_pc WWait s, [])
    | p :: q => Ret (set_pc (WGot p) (set_queue q s), [])
    end
  | WWait => Ret (s, [])
  | WGot p => handle p now s
  end.

(** * Schedules *)

(** The clients allocate the data they post; [AWake] is a spurious wake-up. *)
Inductive action :=
  | ACreate | AExit (ts : Z) | AJoin | AAdd (m : WorkerMessage) (ts : Z) | ASet (d : CallbackData) (ts : Z)
  | AClear | AWorker (now : Z) | AWake.

Definition act (a : action) (s : worker) : cres (worker * list user_call) :=
  match a with
  | ACreate => Ret (CreateThread s, [])
  | AExit ts => Ret (ExitThread_post ts s, [])
  | AJoin => Ret (default s (ExitThread_join s), [])
  | AAdd m ts => let '(p, s) := new (OWorker m) s in let! s := AddCallback p ts s in Ret (s, [])
  | ASet d ts => let '(p, s) := new (OData d) s in let! s := SetCallbacks p ts s in Ret (s, [])
  | AClear => let! s := ClearCallbacks s in Ret (s, [])
  | AWorker now => Process now s
  | AWake => Ret (notify_one s, [])
  end.

Fixpoint acts (l : list action) (s : worker) : cres (worker * list user_call) :=
  match l with
  | [] => Ret (s, [])
  | a :: l => let! (s, c) := act a s in let! (s, c') := acts l s in Ret (s, c ++ c')
  end.

(** * The specification: a queue of values *)

Inductive item := ICall (m : WorkerMessage) (ts : Z) | ISet (d : CallbackData) (ts : Z) | IExit (ts : Z).
Inductive spec_pc := SNone | SLock | SWait | SGot (i : item) | SReturned.

(** [a_leaked]: objects nothing will delete. *)
Record spec := mkSpec {
  a_queue : list item; a_thread : bool; a_pc : spec_pc; a_notify : option Z; a_data : option Z; a_leaked : nat
}.

Definition initial_spec : spec := mkSpec [] false SNone None None 0.

(** What a dropped message leaves behind. *)
Definition orphans (i : item) : nat := match i with IExit _ => 0 | _ => 1 end.
Definition orphans_of (q : list item) : nat := sum_list_with orphans q.

Definition wake (pc : spec_pc) : spec_pc := match pc with SWait => SLock | _ => pc end.
Definition spec_push (i : item) (a : spec) : spec :=
  mkSpec (a_queue a ++ [i]) (a_thread a) (wake (a_pc a)) (a_notify a) (a_data a) (a_leaked a).

Definition spec_act (x : action) (a : spec) : option (spec * list user_call) :=
  match x with
  | ACreate => Some (if a_thread a then a else mkSpec (a_queue a) true SLock None None (a_leaked a), [])
  | AExit ts => Some (if a_thread a then spec_push (IExit ts) a else a, [])
  | AJoin => Some (match a_pc a with
                   | SReturned => mkSpec (a_queue a) false SNone (a_notify a) (a_data a) (a_leaked a)
                   | _ => a
                   end, [])
  | AAdd m ts => if a_thread a then Some (spec_push (ICall m ts) a, []) else None
  | ASet d ts => if a_thread a then Some (spec_push (ISet d ts) a, []) else None
  | AClear => if a_thread a
              then Some (mkSpec [] true (wake (a_pc a)) (a_notify a) (a_data a)
                           (a_leaked a + orphans_of (a_queue a)), []) else None
  | AWorker now =>
    Some (match a_pc a with
          | SNone | SReturned | SWait => (a, [])
          | SLock => (match a_queue a with
                      | [] => mkSpec [] (a_thread a) SWait (a_notify a) (a_data a) (a_leaked a)
                      | i :: q => mkSpec q (a_thread a) (SGot i) (a_notify a) (a_data a) (a_leaked a)
                      end, [])
          | SGot (ICall m ts) =>
            (mkSpec (a_queue a) (a_thread a) SLock (a_notify a) (a_data a) (a_leaked a),
             run_callback (a_notify a) (a_data a) m (now - ts))
          | SGot (ISet d _) =>
            (mkSpec (a_queue a) (a_thread a) SLock (NewUserNotifyCb d) (NewUserDataCb d) (a_leaked a), [])
          | SGot (IExit _) =>
            (mkSpec [] (a_thread a) SReturned (a_notify a) (a_data a)
               (a_leaked a + orphans_of (a_queue a)), [])
          end)
  | AWake => Some (mkSpec (a_queue a) (a_thread a) (wake (a_pc a)) (a_notify a) (a_data a) (a_leaked a), [])
  end.

Fixpoint spec_acts (l : list action) (a : spec) : option (spec * list user_call) :=
  match l with
  | [] => Some (a, [])
  | x :: l => '(a, c) ← spec_act x a; '(a, c') ← spec_acts l a; Some (a, c ++ c')
  end.

(** * Refinement *)

(** The objects of a message: itself and what it points to. *)
Definition cells (x : ptr * option ptr) : list ptr := x.1 :: option_list x.2.

Definition holds (h : heap) (x : ptr * option ptr) (i : item) : Prop :=
  match i, x.2 with
  | ICall m ts, Some d => h !! x.1 = Some (OMsg (mkThreadMsg MSG_EXECUTE_CALLBACK (Some d) ts)) ∧ h !! d = Some (OWorker m)
  | ISet c ts, Some d => h !! x.1 = Some (OMsg (mkThreadMsg MSG_UPDATE_CALLBACKS (Some d) ts)) ∧ h !! d = Some (OData c)
  | IExit ts, None => h !! x.1 = Some (OMsg (mkThreadMsg MSG_EXIT_THREAD None ts))
  | _, _ => False
  end.

(** Messages [xs] of the heap are [q]; [n] other objects are in it. *)
Definition rep (h : heap) (xs : list (ptr * option ptr)) (q : list item) (n : nat) : Prop :=
  Forall2 (holds h) xs q ∧ NoDup (xs ≫= cells) ∧ (size h = length (xs ≫= cells) + n)%nat.

Lemma holds_cells h x i : holds h x i → ∀ p, p ∈ cells x → is_Some (h !! p).
Proof.
  destruct x as [p [d|]], i; cbn; try done; intros H q Hq; unfold cells in Hq; cbn in Hq; set_unfold in Hq;
    naive_solver eauto.
Qed.

Lemma holds_same h h' x i : (∀ p, p ∈ cells x → h' !! p = h !! p) → holds h x i → holds h' x i.
Proof.
  intros E. destruct x as [p [d|]]; assert (Ep := E p); cbn in *; [assert (Ed := E d)|];
    destruct i; cbn; try (by intros []); rewrite Ep, ?Ed by set_solver; done.
Qed.

#[local] Arguments cells : simpl never.

Lemma holds_all h xs q p : Forall2 (holds h) xs q → p ∈ xs ≫= cells → is_Some (h !! p).
Proof.
  intros HF. induction HF as [|x i xs q Hx _ IH]; cbn; [by intros ?%elem_of_nil|].
  intros [Hp|Hp]%elem_of_app; [by eapply holds_cells|auto].
Qed.

Lemma holds_same_all h h' xs q :
  (∀ p, p ∈ xs ≫= cells → h' !! p = h !! p) → Forall2 (holds h) xs q → Forall2 (holds h') xs q.
Proof.
  intros E HF. induction HF as [|x i xs q Hx _ IH]; [constructor|]. cbn in E.
  constructor; [eapply holds_same; [|exact Hx]|apply IH]; intros p Hp; apply E, elem_of_app; auto.
Qed.

(** Allocating. *)
Lemma fresh_not_in (h : heap) : h !! fresh (dom h) = None.
Proof. apply not_elem_of_dom, is_fresh. Qed.

Lemma rep_new h xs q n o : rep h xs q n → rep (<[fresh (dom h) := o]> h) xs q (S n).
Proof.
  intros (HF & HN & Hs). pose proof (fresh_not_in h) as Hf. split_and!; [|done|].
  - eapply holds_same_all; [|exact HF]. intros p Hp. rewrite lookup_insert_ne; [done|].
    intros E. eapply holds_all in Hp; [|exact HF]. rewrite <-E, Hf in Hp. by destruct Hp.
  - rewrite map_size_insert_None by done. lia.
Qed.

Lemma rep_app h xs q n x i m :
  rep h xs q n → holds h x i → NoDup (cells x) → (∀ p, p ∈ cells x → p ∉ xs ≫= cells) →
  n = (length (cells x) + m)%nat → rep h (xs ++ [x]) (q ++ [i]) m.
Proof.
  intros (HF & HN & Hs) Hx Hnd Hout ->. split_and!.
  - apply Forall2_app; [done|by repeat constructor].
  - rewrite bind_app. cbn. rewrite app_nil_r. apply NoDup_app. split_and!; [done| |done].
    intros p Hp Hc. by apply (Hout p).
  - rewrite Hs, bind_app. cbn. rewrite app_nil_r, length_app. lia.
Qed.

(** Deleting objects that are not the messages'. *)
Lemma rep_delete h xs q n p :
  rep h xs q (S n) → is_Some (h !! p) → p ∉ xs ≫= cells → rep (delete p h) xs q n.
Proof.
  intros (HF & HN & Hs) Hp Hout. split_and!; [|done|].
  - eapply holds_same_all; [|exact HF]. intros p' Hp'. rewrite lookup_delete_ne; [done|]. intros ->. done.
  - rewrite map_size_delete. destruct Hp as [? ->]. lia.
Qed.

(** The first message as a message of its own. *)
Lemma rep_cons h x xs i q n :
  rep h (x :: xs) (i :: q) n ↔
  holds h x i ∧ NoDup (cells x) ∧ (∀ p, p ∈ cells x → p ∉ xs ≫= cells) ∧ rep h xs q (length (cells x) + n).
Proof.
  unfold rep. cbn [mbind list_bind]. rewrite Forall2_cons, NoDup_app, length_app. split.
  - intros ((Hx & HF) & (H1 & H2 & H3) & Hs). split_and!; auto; lia.
  - intros (Hx & H1 & H2 & HF & H3 & Hs). split_and!; auto; lia.
Qed.

Lemma orphans_cells h x i : holds h x i → length (cells x) = S (orphans i).
Proof. destruct x as [p [d|]], i; by intros []. Qed.

Lemma drop_messages_rep xs q ys q' n s :
  rep (w_heap s) (xs ++ ys) (q ++ q') n → length xs = length q →
  ∃ h, drop_messages xs.*1 s = Ret (set_queue [] (set_heap h s)) ∧ rep h ys q' (n + orphans_of q).
Proof.
  revert q n s. induction xs as [|x xs IH]; intros [|i q] n s Hr; cbn; try done; intros Hl.
  - exists (w_heap s). rewrite Nat.add_0_r. by destruct s.
  - cbn in Hr. apply rep_cons in Hr as (Hx & Hnd & Hout & Hr). pose proof (orphans_cells _ _ _ Hx) as Hc.
    rewrite Hc in Hr. assert (Hp : is_Some (w_heap s !! x.1)) by (eapply holds_cells; [exact Hx|by left]).
    unfold free. destruct Hp as [o Ho]. rewrite Ho. cbn [deref cbind].
    destruct (IH q (n + orphans i)%nat (set_heap (delete x.1 (w_heap s)) s)) as (h & E & Hh); [|lia|].
    + cbn. rewrite Nat.add_comm. apply rep_delete; [exact Hr|by eexists|]. apply Hout. by left.
    + exists h. rewrite E. split; [by destruct s|]. by rewrite <-Nat.add_assoc in Hh.
Qed.

(** The state of the thread. *)
Definition same_pc (pc : worker_pc) (pc' : spec_pc) (p : option ptr) : Prop :=
  match pc, pc' with
  | WNone, SNone | WLock, SLock | WWait, SWait | WReturned, SReturned => p = None
  | WGot q, SGot _ => p = Some q
  | _, _ => False
  end.
Definition in_hand (pc : spec_pc) : list item := match pc with SGot i => [i] | _ => [] end.

Record refines (s : worker) (a : spec) : Prop := {
  rf_thread : m_thread s = a_thread a;
  rf_notify : UserNotifyCb s = a_notify a;
  rf_data : UserDataCb s = a_data a;
  rf_heap : ∃ xs ys, m_queue s = xs.*1 ∧ same_pc (w_pc s) (a_pc a) (head ys.*1) ∧
    length xs = length (a_queue a) ∧
    rep (w_heap s) (xs ++ ys) (a_queue a ++ in_hand (a_pc a)) (a_leaked a)
}.

Lemma in_hand_wake pc : in_hand (wake pc) = in_hand pc.
Proof. by destruct pc. Qed.

Lemma same_pc_wake s pc p : same_pc (w_pc s) pc p → same_pc (w_pc (notify_one s)) (wake pc) p.
Proof. unfold notify_one. destruct s as [h q t [] n d], pc; done. Qed.

(** Changes that leave the messages alone. *)
Lemma notify_fields s :
  w_heap (notify_one s) = w_heap s ∧ m_queue (notify_one s) = m_queue s ∧ m_thread (notify_one s) = m_thread s ∧
  UserNotifyCb (notify_one s) = UserNotifyCb s ∧ UserDataCb (notify_one s) = UserDataCb s.
Proof. unfold notify_one. by destruct (w_pc s). Qed.

Lemma refines_notify s a :
  refines s a →
  refines (notify_one s) (mkSpec (a_queue a) (a_thread a) (wake (a_pc a)) (a_notify a) (a_data a) (a_leaked a)).
Proof.
  intros [H1 H2 H3 (xs & ys & Hq & Hpc & Hl & Hr)]. destruct (notify_fields s) as (E1 & E2 & E3 & E4 & E5).
  split; cbn; try congruence. exists xs, ys. rewrite E1, E2, in_hand_wake. split_and!; auto. by apply same_pc_wake.
Qed.

Lemma rep_swap h xs ys q q' n :
  length xs = length q → rep h (xs ++ ys) (q ++ q') n → rep h (ys ++ xs) (q' ++ q) n.
Proof.
  intros Hl (HF & HN & Hs). apply Forall2_app_inv in HF as [H1 H2]; [|done].
  rewrite bind_app in HN, Hs. split_and!.
  - by apply Forall2_app.
  - rewrite bind_app. by rewrite Permutation.Permutation_app_comm.
  - rewrite bind_app, length_app. rewrite length_app in Hs. lia.
Qed.

Lemma rep_post h xs ys q q' n x i :
  length xs = length q → rep h (xs ++ ys) (q ++ q') (length (cells x) + n) →
  holds h x i → NoDup (cells x) → (∀ p, p ∈ cells x → p ∉ (xs ++ ys) ≫= cells) →
  rep h ((xs ++ [x]) ++ ys) ((q ++ [i]) ++ q') n.
Proof.
  intros Hl Hr Hx Hnd Hout. apply rep_swap in Hr; [|done]. pose proof (Forall2_length _ _ _ (proj1 Hr)) as Hlen. rewrite !length_app in Hlen. apply rep_swap; [lia|].
  rewrite !app_assoc. apply (rep_app _ _ _ (length (cells x) + n)); auto. intros p Hp Hin. apply (Hout p Hp).
  rewrite bind_app in *. set_solver.
Qed.

Lemma fresh_out h xs q n : rep h xs q n → fresh (dom h) ∉ xs ≫= cells.
Proof. intros (HF & _) Hin. eapply holds_all in Hin; [|exact HF]. rewrite fresh_not_in in Hin. by destruct Hin. Qed.

Lemma fresh_ne (h : heap) p o : fresh (dom (<[p := o]> h)) ≠ p.
Proof.
  intros E. pose proof (fresh_not_in (<[p := o]> h)) as H. rewrite E, lookup_insert_eq in H. done.
Qed.

(** The end of every post: the message is in the heap and at the end of the queue. *)
Lemma refines_queued s a h x i :
  refines s a → holds h x i → NoDup (cells x) →
  (∀ xs ys, rep (w_heap s) (xs ++ ys) (a_queue a ++ in_hand (a_pc a)) (a_leaked a) →
     rep h (xs ++ ys) (a_queue a ++ in_hand (a_pc a)) (length (cells x) + a_leaked a) ∧
     ∀ p, p ∈ cells x → p ∉ (xs ++ ys) ≫= cells) →
  refines (notify_one (set_queue (m_queue s ++ [x.1]) (set_heap h s))) (spec_push i a).
Proof.
  intros [H1 H2 H3 (xs & ys & Hq & Hpc & Hl & Hr)] Hx Hnd Hall. destruct (Hall xs ys Hr) as [Hr' Hout].
  apply (refines_notify (set_queue _ (set_heap h s))
           (mkSpec (a_queue a ++ [i]) (a_thread a) (a_pc a) (a_notify a) (a_data a) (a_leaked a))).
  split; cbn; [done..|]. exists (xs ++ [x]), ys. split_and!; [by rewrite Hq, fmap_app|done|by rewrite !length_app, Hl|].
  by apply rep_post.
Qed.

Lemma refines_post_exit s a ts : refines s a → refines (push MSG_EXIT_THREAD None ts s) (spec_push (IExit ts) a).
Proof.
  intros Hs. unfold push, new. cbn [fst snd]. set (p := fresh _). set (h := <[p := _]> _).
  apply (refines_queued s a h (p, None)); [done|apply lookup_insert_eq|apply NoDup_singleton|].
  intros xs ys Hr. split; [by apply rep_new|]. intros p' ->%list_elem_of_singleton. by eapply fresh_out.
Qed.

Lemma refines_post s a i tid ob ts :
  (∀ h p d, h !! p = Some (OMsg (mkThreadMsg tid (Some d) ts)) → h !! d = Some ob → holds h (p, Some d) i) →
  refines s a →
  refines (push tid (Some (new ob s).1) ts (new ob s).2) (spec_push i a).
Proof.
  intros Hi Hs. unfold push, new. cbn [fst snd w_heap set_heap]. set (d := fresh (dom (w_heap s))).
  set (h1 := <[d := ob]> (w_heap s)). set (p := fresh (dom h1)). set (h := <[p := _]> h1).
  assert (Hne : p ≠ d) by apply fresh_ne.
  apply (refines_queued s a h (p, Some d)); [done| | |].
  - apply Hi; [apply lookup_insert_eq|]. subst h. rewrite lookup_insert_ne by done. apply lookup_insert_eq.
  - unfold cells. cbn. apply NoDup_cons. split; [|apply NoDup_singleton]. by rewrite list_elem_of_singleton.
  - intros xs ys Hr. assert (Hr1 : rep h1 (xs ++ ys) (a_queue a ++ in_hand (a_pc a)) (S (a_leaked a))) by by apply rep_new.
    split; [by apply rep_new|]. intros p' Hp'. unfold cells in Hp'. cbn in Hp'.
    apply elem_of_cons in Hp' as [->| ->%list_elem_of_singleton]; by eapply fresh_out.
Qed.

Lemma refines_clear s a :
  refines s a → a_thread a = true →
  ∃ s', ClearCallbacks s = Ret s' ∧
    refines s' (mkSpec [] true (wake (a_pc a)) (a_notify a) (a_data a) (a_leaked a + orphans_of (a_queue a))).
Proof.
  intros [H1 H2 H3 (xs & ys & Hq & Hpc & Hl & Hr)] Ht. unfold ClearCallbacks. rewrite H1, Ht. cbn [ALOG_ASSERT cbind].
  destruct (drop_messages_rep _ _ _ _ _ _ Hr Hl) as (h & E & Hh). rewrite Hq, E. cbn [cbind].
  eexists. split; [reflexivity|].
  apply (refines_notify _ (mkSpec [] true (a_pc a) (a_notify a) (a_data a) (a_leaked a + orphans_of (a_queue a)))).
  split; cbn; [congruence|done..|]. by exists [], ys.
Qed.

(** Deleting what a message points to and then the message. *)
Lemma rep_take h x i xs q n :
  rep h (x :: xs) (i :: q) n →
  ∃ o, h !! x.1 = Some o ∧
    match x.2 with
    | Some d => ∃ o', h !! d = Some o' ∧ delete d h !! x.1 = Some o ∧ rep (delete x.1 (delete d h)) xs q n
    | None => rep (delete x.1 h) xs q n
    end.
Proof.
  intros (Hx & Hnd & Hout & Hr)%rep_cons. destruct x as [p [d|]]; unfold cells in *; cbn in *.
  - assert (Hp : is_Some (h !! p)) by (eapply (holds_cells _ _ _ Hx); by left).
    assert (Hd : is_Some (h !! d)) by (eapply (holds_cells _ _ _ Hx); right; by left).
    apply NoDup_cons in Hnd as [Hne%not_elem_of_cons _]. destruct Hp as [o Ho], Hd as [o' Ho'].
    exists o. split; [done|]. exists o'. rewrite lookup_delete_ne by naive_solver. split_and!; [done..|].
    apply rep_delete; [apply rep_delete; [exact Hr|by eexists|]| |].
    + apply Hout. right. by left.
    + rewrite lookup_delete_ne by naive_solver. by eexists.
    + apply Hout. by left.
  - assert (Hp : is_Some (h !! p)) by (eapply (holds_cells _ _ _ Hx); by left).
    destruct Hp as [o Ho]. exists o. split; [done|]. apply rep_delete; [exact Hr|by eexists|]. apply Hout. by left.
Qed.

Lemma holds_kind h x i :
  holds h x i →
  match i with
  | ICall m ts => ∃ d, x.2 = Some d ∧ h !! x.1 = Some (OMsg (mkThreadMsg MSG_EXECUTE_CALLBACK (Some d) ts)) ∧
      h !! d = Some (OWorker m)
  | ISet c ts => ∃ d, x.2 = Some d ∧ h !! x.1 = Some (OMsg (mkThreadMsg MSG_UPDATE_CALLBACKS (Some d) ts)) ∧
      h !! d = Some (OData c)
  | IExit ts => x.2 = None ∧ h !! x.1 = Some (OMsg (mkThreadMsg MSG_EXIT_THREAD None ts))
  end.
Proof. destruct x as [p [d|]], i; cbn; try by intros []. all: naive_solver. Qed.

Lemma refines_handle s a i now :
  refines s a → a_pc a = SGot i →
  match spec_act (AWorker now) a with
  | Some (a', c) => ∃ s', Process now s = Ret (s', c) ∧ refines s' a'
  | None => False
  end.
Proof.
  intros [H1 H2 H3 (xs & ys & Hq & Hpc & Hl & Hr)] Ha. cbn [spec_act]. rewrite Ha in *. unfold Process.
  destruct (w_pc s) as [| | |p|] eqn:Ep; try done. cbn [same_pc in_hand] in *.
  apply rep_swap in Hr; [|done].
  assert (Hys : ∃ x, ys = [x] ∧ x.1 = p).
  { pose proof (Forall2_length _ _ _ (proj1 Hr)) as HL. rewrite length_app in HL. cbn in HL.
    destruct ys as [|x [|]]; cbn in *; [lia| |lia]. exists x. split; congruence. }
  destruct Hys as (x & -> & <-). cbn [app] in Hr.
  pose proof (holds_kind _ _ _ (proj1 (proj1 (rep_cons _ _ _ _ _ _) Hr))) as Hk.
  destruct (rep_take _ _ _ _ _ _ Hr) as (o & Ho & Hr'). unfold handle. rewrite Ho. cbn [deref cbind].
  destruct i as [m ts|c ts|ts].
  - destruct Hk as (d & Ex & Ho2 & Hod). rewrite Ex in Hr'. destruct Hr' as (o' & Hd & Hdel & Hr').
    rewrite Ho in Ho2. injection Ho2 as ->. cbn [Z.eqb id MSG_EXECUTE_CALLBACK Pos.eqb msg CallerTS].
    unfold worker_at. cbn [deref cbind]. rewrite Hod. cbn [deref cbind free_opt]. unfold free at 1. rewrite Hod.
    cbn [deref cbind]. unfold free. cbn [w_heap set_heap]. rewrite Hdel. cbn [deref cbind].
    eexists. rewrite H2, H3. split; [reflexivity|]. split; [done..|]. exists xs, []. cbn. by rewrite !app_nil_r.
  - destruct Hk as (d & Ex & Ho2 & Hod). rewrite Ex in Hr'. destruct Hr' as (o' & Hd & Hdel & Hr').
    rewrite Ho in Ho2. injection Ho2 as ->.
    cbn [Z.eqb id MSG_EXECUTE_CALLBACK MSG_UPDATE_CALLBACKS Pos.eqb msg CallerTS].
    unfold data_at. cbn [deref cbind]. rewrite Hod. cbn [deref cbind free_opt]. unfold free at 1. cbn [w_heap]. rewrite Hod.
    cbn [deref cbind]. unfold free. cbn [w_heap set_heap]. rewrite Hdel. cbn [deref cbind].
    eexists. split; [reflexivity|]. split; [done..|]. exists xs, []. cbn. by rewrite !app_nil_r.
  - destruct Hk as (Ex & Ho2). rewrite Ex in Hr'. rewrite Ho in Ho2. injection Ho2 as ->.
    cbn [Z.eqb id MSG_EXECUTE_CALLBACK MSG_UPDATE_CALLBACKS MSG_EXIT_THREAD Pos.eqb].
    unfold free. rewrite Ho. cbn [deref cbind m_queue set_heap].
    destruct (drop_messages_rep xs (a_queue a) [] [] (a_leaked a) (set_heap (delete x.1 (w_heap s)) s))
      as (h & E & Hh); [cbn; by rewrite !app_nil_r|done|].
    rewrite Hq, E. cbn [cbind]. eexists. split; [reflexivity|]. split; [done..|]. by exists [], [].
Qed.

(** A thread that does not exist is nowhere. *)
Definition spec_ok (a : spec) : Prop := a_thread a = false → a_pc a = SNone.

Lemma spec_ok_act x a a' c : spec_ok a → spec_act x a = Some (a', c) → spec_ok a'.
Proof.
  unfold spec_ok. intros Ha. destruct x; cbn; intros E; repeat case_match; simplify_eq; cbn; auto; try done.
  all: intros Ht; first [congruence | specialize (Ha Ht); congruence || by rewrite Ha].
Qed.

Lemma act_refines x s a :
  spec_ok a → refines s a →
  match spec_act x a with
  | Some (a', c) => ∃ s', act x s = Ret (s', c) ∧ refines s' a'
  | None => act x s = Fault
  end.
Proof.
  intros Hok Hs. pose proof Hs as [H1 H2 H3 Hh].
  destruct x as [|ts| |m ts|d ts| |now|]; cbn [act spec_act].
  - unfold CreateThread. rewrite H1. destruct (a_thread a) eqn:Et; [by exists s|].
    eexists. split; [reflexivity|]. destruct Hh as (xs & ys & Hq & Hpc & Hl & Hr). split; cbn; try done.
    exists xs, ys. rewrite (Hok Et) in *. destruct (w_pc s); try done.
  - unfold ExitThread_post. rewrite H1. destruct (a_thread a); [|by exists s].
    eexists. split; [reflexivity|]. by apply refines_post_exit.
  - destruct Hh as (xs & ys & Hq & Hpc & Hl & Hr). unfold ExitThread_join.
    destruct (w_pc s) eqn:Ep, (a_pc a) eqn:Ea; cbn [default from_option id]; try done;
      try (eexists; split; [reflexivity|]; done).
    eexists. split; [reflexivity|]. split; cbn; try done. by exists xs, ys.
  - unfold AddCallback, new. cbn [cbind m_thread set_heap ALOG_ASSERT]. rewrite H1.
    destruct (a_thread a); cbn [ALOG_ASSERT cbind]; [|done]. eexists. split; [reflexivity|].
    by apply (refines_post _ _ _ MSG_EXECUTE_CALLBACK (OWorker m)).
  - unfold SetCallbacks, new. cbn [cbind m_thread set_heap ALOG_ASSERT]. rewrite H1.
    destruct (a_thread a); cbn [ALOG_ASSERT cbind]; [|done]. eexists. split; [reflexivity|].
    by apply (refines_post _ _ _ MSG_UPDATE_CALLBACKS (OData d)).
  - destruct (a_thread a) eqn:Et.
    + destruct (refines_clear s a Hs Et) as (s' & -> & Hs'). cbn [cbind]. by exists s'.
    + unfold ClearCallbacks. by rewrite H1.
  - destruct (a_pc a) as [| | |i|] eqn:Ea; 
      try (pose proof (refines_handle s a i now Hs Ea) as H; cbn [spec_act] in H; rewrite Ea in H; exact H).
    all: destruct Hh as (xs & ys & Hq & Hpc & Hl & Hr); unfold Process; destruct (w_pc s) eqn:Ep; try done; cbn in Hpc.
    1, 3, 4: by exists s.
    destruct ys; [|done]. rewrite app_nil_r in Hr. cbn [in_hand] in Hr. rewrite app_nil_r in Hr.
    destruct xs as [|x xs], (a_queue a) as [|i q] eqn:Eq; try done; rewrite Hq; cbn [fmap list_fmap];
      (eexists; split; [reflexivity|]; split; cbn; [done..|]).
    + exists [], []. by rewrite Hq.
    + exists xs, [x]. split_and!; [done|done|by injection Hl|]. by apply (rep_swap _ [x] xs [i] q).
  - eexists. split; [reflexivity|]. by apply refines_notify.
Qed.

Lemma refines_initial : refines initial_worker initial_spec.
Proof. split; try done. exists [], []. split_and!; try done. split_and!; [constructor|constructor|done]. Qed.

Lemma acts_refines l s a :
  spec_ok a → refines s a →
  match spec_acts l a with
  | Some (a', c) => ∃ s', acts l s = Ret (s', c) ∧ refines s' a' ∧ spec_ok a'
  | None => acts l s = Fault
  end.
Proof.
  revert s a. induction l as [|x l IH]; intros s a Hok Hs; cbn [acts spec_acts]; [by exists s|].
  pose proof (act_refines x s a Hok Hs) as H. destruct (spec_act x a) as [[a1 c1]|] eqn:E; cbn; [|by rewrite H].
  destruct H as (s1 & -> & Hs1). cbn [cbind]. specialize (IH s1 a1 (spec_ok_act _ _ _ _ Hok E) Hs1).
  destruct (spec_acts l a1) as [[a2 c2]|]; cbn; [|by rewrite IH].
  destruct IH as (s2 & -> & Hs2). by exists s2.
Qed.

(** C26. The worker with its heap of messages behaves as the queue of values: for
    every schedule of the clients and of the thread it makes the same calls in
    the same order, no message and no data are used after they are deleted, and
    it fails only where a client posts without a thread. *)
Theorem worker_refines l :
  match spec_acts l initial_spec with
  | Some (a, c) => ∃ s, acts l initial_worker = Ret (s, c) ∧ refines s a
  | None => acts l initial_worker = Fault
  end.
Proof.
  pose proof (acts_refines l initial_worker initial_spec ltac:(done) refines_initial) as H.
  destruct (spec_acts l initial_spec) as [[a c]|]; [|done]. naive_solver.
Qed.

(** * Order *)

(** The message posted by an action; the messages not yet handled. *)
Definition posted (x : action) : list WorkerMessage := match x with AAdd m _ => [m] | _ => [] end.
Definition message (i : item) : list WorkerMessage := match i with ICall m _ => [m] | _ => [] end.
Definition unhandled (a : spec) : list WorkerMessage := (in_hand (a_pc a) ++ a_queue a) ≫= message.

(** The call that the message describes. *)
Definition asked_by (m : WorkerMessage) (c : user_call) : Prop :=
  match c with
  | CNotify _ t e1 e2 u => CbType m = CB_TYPE_NOTIFY ∧ t = msg_type m ∧ e1 = ext1 m ∧ e2 = ext2 m ∧ u = user m
  | CData _ t d i md u =>
    CbType m = CB_TYPE_DATA ∧ t = msg_type m ∧ d = data m ∧ i = index m ∧ md = metadata m ∧ u = user m
  end.

Lemma run_callback_asked n d m age :
  ∃ ms, ms `sublist_of` [m] ∧ Forall2 asked_by ms (run_callback n d m age).
Proof.
  unfold run_callback. assert (Hno : ∃ ms, ms `sublist_of` [m] ∧ Forall2 asked_by ms []).
  { exists []. split; [apply sublist_nil_l|constructor]. }
  destruct (age <? 5)%Z; [|exact Hno].
  destruct (Z.eqb_spec (CbType m) CB_TYPE_NOTIFY) as [E|]; [destruct n as [fn|]; [|exact Hno]|].
  { exists [m]. split; [done|]. by repeat constructor. }
  destruct (Z.eqb_spec (CbType m) CB_TYPE_DATA) as [E|]; [destruct d as [fn|]; [|exact Hno]|exact Hno].
  exists [m]. split; [done|]. by repeat constructor.
Qed.

Lemma spec_act_order x a a' c :
  spec_act x a = Some (a', c) →
  ∃ ms, Forall2 asked_by ms c ∧ (ms ++ unhandled a') `sublist_of` (unhandled a ++ posted x).
Proof.
  assert (Hpush : ∀ i, unhandled (spec_push i a) = unhandled a ++ message i).
  { intros i. unfold unhandled. cbn. rewrite in_hand_wake, app_assoc, bind_app. cbn. by rewrite app_nil_r. }
  assert (Hskip : ∀ b p, unhandled b `sublist_of` unhandled a ++ p →
            ∃ ms, Forall2 asked_by ms [] ∧ (ms ++ unhandled b) `sublist_of` unhandled a ++ p)
    by (intros b p H; exists []; split; [constructor|exact H]).
  destruct x as [|ts| |m ts|d ts| |now|]; cbn [spec_act posted]; intros E; repeat case_match; simplify_eq;
    try (apply Hskip; rewrite ?Hpush; cbn; by rewrite ?app_nil_r).
  - apply Hskip. rewrite app_nil_r. unfold unhandled. cbn. rewrite bind_app. by apply sublist_inserts_l.
  - apply Hskip. rewrite app_nil_r. unfold unhandled. cbn. rewrite bind_app. by apply sublist_inserts_l.
  - apply Hskip. rewrite app_nil_r. unfold unhandled. cbn. rewrite in_hand_wake, app_nil_r, bind_app.
    by apply sublist_inserts_r.
  - apply Hskip. apply sublist_nil_l.
  - apply Hskip. rewrite app_nil_r. unfold unhandled. cbn.
    repeat match goal with H : _ a = _ |- _ => rewrite H end. done.
  - destruct (run_callback_asked (a_notify a) (a_data a) m (now - ts)) as (ms & Hms & Hc). exists ms. split; [done|].
    rewrite app_nil_r. unfold unhandled. cbn.
    repeat match goal with H : _ a = _ |- _ => rewrite H end. cbn.
    by apply (sublist_app ms [m]).
  - apply Hskip. rewrite app_nil_r. unfold unhandled. cbn. rewrite bind_app. by apply sublist_inserts_l.
  - apply Hskip. apply sublist_nil_l.
  - apply Hskip. rewrite app_nil_r. unfold unhandled. cbn. by rewrite in_hand_wake.
Qed.

Lemma spec_acts_order l a a' c :
  spec_acts l a = Some (a', c) →
  ∃ ms, Forall2 asked_by ms c ∧ (ms ++ unhandled a') `sublist_of` (unhandled a ++ (l ≫= posted)).
Proof.
  revert a c. induction l as [|x l IH]; intros a c; cbn [spec_acts].
  - intros [= <- <-]. exists []. split; [constructor|]. cbn. by rewrite app_nil_r.
  - destruct (spec_act x a) as [[a1 c1]|] eqn:E; cbn; [|done].
    destruct (spec_acts l a1) as [[a2 c2]|] eqn:E2; cbn; [|done]. intros [= -> <-].
    apply spec_act_order in E as (ms1 & H1 & S1). apply IH in E2 as (ms2 & H2 & S2).
    exists (ms1 ++ ms2). split; [by apply Forall2_app|]. rewrite <-app_assoc.
    etrans; [by apply sublist_app; [reflexivity|exact S2]|]. rewrite app_assoc, (app_assoc (unhandled a)).
    by apply sublist_app.
Qed.

(** The callbacks come in the order in which they were posted, each at most
    once and with the values posted, whatever is cleared or stale. *)
Theorem callbacks_in_order l s c :
  acts l initial_worker = Ret (s, c) →
  ∃ ms, ms `sublist_of` (l ≫= posted) ∧ Forall2 asked_by ms c.
Proof.
  intros E. pose proof (acts_refines l initial_worker initial_spec ltac:(done) refines_initial) as H.
  destruct (spec_acts l initial_spec) as [[a c']|] eqn:Ea; [|congruence].
  destruct H as (s' & E' & _). rewrite E in E'. injection E' as <- <-.
  apply spec_acts_order in Ea as (ms & Hc & Hs). exists ms. split; [|done]. cbn in Hs.
  etrans; [|exact Hs]. by apply sublist_inserts_r.
Qed.

(** * The thread gets to its work *)

(** No wake-up is lost: a thread that waits has nothing to do; and a message to
    leave is in the queue until it is read. *)
Definition awake (a : spec) : Prop := a_pc a = SWait → a_queue a = [].

Lemma awake_act x a a' c : awake a → spec_act x a = Some (a', c) → awake a'.
Proof.
  unfold awake. intros Ha. destruct x; cbn; intros E; repeat case_match; simplify_eq; cbn; auto; try done;
    first [congruence | by destruct (a_pc a)].
Qed.

(** Turns the thread needs. *)
Definition turns (a : spec) : nat :=
  match a_pc a with
  | SLock => 2 * length (a_queue a) + 1
  | SGot _ => 2 * length (a_queue a) + 2
  | _ => 0
  end.

(** The thread has done all it can: it waits for nothing or has returned. *)
Definition idle (a : spec) : Prop := match a_pc a with SWait => a_queue a = [] | SReturned => True | _ => False end.

Definition leaves (a : spec) : Prop :=
  a_pc a = SReturned ∨ ∃ ts, IExit ts ∈ in_hand (a_pc a) ++ a_queue a.

Lemma turn a now :
  awake a → a_pc a ≠ SNone →
  ∃ a' c, spec_act (AWorker now) a = Some (a', c) ∧ awake a' ∧ a_pc a' ≠ SNone ∧
    (idle a → a' = a) ∧ (¬ idle a → turns a' < turns a)%nat ∧ (leaves a → leaves a').
Proof.
  intros Hw Hn. destruct (spec_act (AWorker now) a) as [[a' c]|] eqn:E; [|by destruct a as [q t []]].
  exists a', c. split; [done|]. split; [by eapply awake_act|].
  destruct a as [q t pc n d k]. unfold awake, idle, turns, leaves in *. cbn in *.
  destruct pc as [| | |[m ts|cb ts|ts]|]; try done; cbn in E.
  - destruct q as [|i q]; injection E as <- <-; cbn.
    + split_and!; [done|done|lia|]. intros [|(ts & H)]; [done|]. by apply elem_of_nil in H.
    + split_and!; [done|done|lia|]. intros [|(ts & H)]; [done|]. right. by exists ts.
  - injection E as <- <-. split_and!; cbn; [done|done|intros H; destruct H; auto|done].
  - injection E as <- <-. split_and!; cbn; [done|done|lia|].
    intros [|(ts' & H)]; [done|]. right. exists ts'. by apply elem_of_cons in H as [|].
  - injection E as <- <-. split_and!; cbn; [done|done|lia|].
    intros [|(ts' & H)]; [done|]. right. exists ts'. by apply elem_of_cons in H as [|].
  - injection E as <- <-. split_and!; cbn; [done|done|lia|]. by left.
  - injection E as <- <-. split_and!; cbn; [done|done|done|auto].
Qed.

Lemma idle_dec a : idle a ∨ ¬ idle a.
Proof. unfold idle. destruct (a_pc a); try tauto. destruct (a_queue a); [by left|by right]. Qed.

Lemma drain nows a :
  awake a → a_pc a ≠ SNone → (turns a ≤ length nows)%nat →
  ∃ a' c, spec_acts (AWorker <$> nows) a = Some (a', c) ∧ idle a' ∧ (leaves a → a_pc a' = SReturned).
Proof.
  revert a. induction nows as [|now nows IH]; intros a Hw Hn Ht; cbn [fmap list_fmap spec_acts length] in *.
  - exists a, []. split; [done|]. assert (Hi : idle a).
    { unfold turns, idle, awake in *. destruct (a_pc a); try lia; auto. }
    split; [done|]. intros [|(ts & H)]; [done|]. unfold idle in Hi.
    destruct (a_pc a); try done. rewrite Hi in H. by apply elem_of_nil in H.
  - destruct (turn a now Hw Hn) as (a1 & c1 & E & Hw1 & Hn1 & Hidle & Hless & Hl). rewrite E. cbn.
    assert (Ht1 : (turns a1 ≤ length nows)%nat).
    { destruct (idle_dec a) as [Hi|Hi]; [rewrite (Hidle Hi)|specialize (Hless Hi); lia]. clear -Hi.
      unfold idle, turns in *. destruct (a_pc a); try done; lia. }
    destruct (IH a1 Hw1 Hn1 Ht1) as (a2 & c2 & -> & Hi2 & Hl2). eexists _, _. cbn. eauto.
Qed.

Lemma spec_acts_awake l a a' c : awake a → spec_acts l a = Some (a', c) → awake a'.
Proof.
  revert a c. induction l as [|x l IH]; intros a c Ha; cbn; [by intros [= <- _]|].
  destruct (spec_act x a) as [[a1 c1]|] eqn:E; cbn; [|done].
  destruct (spec_acts l a1) as [[a2 c2]|] eqn:E2; cbn; [|done]. intros [= -> _].
  eapply IH; [|exact E2]. by eapply awake_act.
Qed.

(** A thread that exists is somewhere. *)
Definition running (a : spec) : Prop := a_thread a = true → a_pc a ≠ SNone.

Lemma spec_acts_running l a a' c : running a → spec_acts l a = Some (a', c) → running a'.
Proof.
  revert a c. induction l as [|x l IH]; intros a c Ha; cbn; [by intros [= <- _]|].
  destruct (spec_act x a) as [[a1 c1]|] eqn:E; cbn; [|done].
  destruct (spec_acts l a1) as [[a2 c2]|] eqn:E2; cbn; [|done]. intros [= -> _].
  eapply IH; [|exact E2]. unfold running in *.
  destruct x; cbn in E; repeat case_match; simplify_eq; cbn; auto; try done;
    intros Ht; first [congruence | by destruct Ha | intros Hpc; apply Ha; [congruence|]; by destruct (a_pc a)].
Qed.

(** The specification state behind a state that schedules reach. *)
Lemma reached l s c :
  acts l initial_worker = Ret (s, c) → m_thread s = true →
  ∃ a, refines s a ∧ spec_ok a ∧ awake a ∧ a_pc a ≠ SNone ∧ a_thread a = true ∧
    length (m_queue s) = length (a_queue a).
Proof.
  intros E Ht. pose proof (acts_refines l initial_worker initial_spec ltac:(done) refines_initial) as H.
  destruct (spec_acts l initial_spec) as [[a c0]|] eqn:Ea; [|congruence].
  destruct H as (s' & E' & Hs & Hok). rewrite E in E'. injection E' as <- <-. exists a.
  pose proof (spec_acts_running l initial_spec a _ ltac:(by intros [=]) Ea) as Hrun.
  assert (Hta : a_thread a = true) by (destruct Hs; congruence). split_and!; auto.
  - by apply (spec_acts_awake l initial_spec a _ ltac:(by intros ?) Ea).
  - destruct Hs as [_ _ _ (xs & ys & -> & _ & <- & _)]. apply length_fmap.
Qed.

Lemma refines_idle s a :
  refines s a → idle a →
  (w_pc s = WWait ∧ m_queue s = [] ∨ w_pc s = WReturned) ∧ (a_pc a = SReturned → is_Some (ExitThread_join s)).
Proof.
  intros [_ _ _ (xs & ys & Hq & Hpc & Hl & _)] Hi. unfold idle, ExitThread_join in *.
  destruct (a_pc a); try done; destruct (w_pc s); try done.
  - rewrite Hi in Hl. destruct xs; [|done]. split; [by left|done].
  - split; [by right|by eexists].
Qed.

(** Told to leave, the thread needs two turns more. *)
Lemma exit_posted ts a :
  awake a → a_pc a ≠ SNone → a_thread a = true →
  let a2 := spec_push (IExit ts) a in
  spec_act (AExit ts) a = Some (a2, []) ∧ awake a2 ∧ a_pc a2 ≠ SNone ∧ leaves a2 ∧
  (turns a2 ≤ 2 * length (a_queue a) + 4)%nat.
Proof.
  intros Hw Hn Ht a2. assert (Ee : spec_act (AExit ts) a = Some (a2, [])) by (cbn; by rewrite Ht).
  split_and!; [done|by eapply awake_act|by cbn; destruct (a_pc a)| |].
  - right. exists ts. cbn. rewrite !elem_of_app. right. right. by left.
  - unfold turns. cbn. rewrite length_app. cbn. destruct (a_pc a); cbn; lia.
Qed.

(** C27. In every state that schedules reach, a thread left to itself reads its
    whole queue in twice its length and two turns, however the wake-ups fell; and
    when it was told to leave it has returned, so that the join ends. *)
Theorem worker_drains l s c :
  acts l initial_worker = Ret (s, c) → m_thread s = true →
  (∀ nows, length nows = (2 * length (m_queue s) + 2)%nat →
    ∃ s' c', acts (AWorker <$> nows) s = Ret (s', c') ∧
      (w_pc s' = WWait ∧ m_queue s' = [] ∨ w_pc s' = WReturned)) ∧
  ∀ ts nows, length nows = (2 * length (m_queue s) + 4)%nat →
    ∃ s' c', acts (AExit ts :: (AWorker <$> nows)) s = Ret (s', c') ∧ is_Some (ExitThread_join s').
Proof.
  intros E Ht. destruct (reached l s c E Ht) as (a & Hs & Hok & Hw & Hn & Hta & ->). split.
  - intros nows Hl. destruct (drain nows a Hw Hn) as (a1 & c1 & E1 & Hi1 & _).
    { rewrite Hl. unfold turns. destruct (a_pc a); lia. }
    pose proof (acts_refines (AWorker <$> nows) s a Hok Hs) as H1. rewrite E1 in H1.
    destruct H1 as (s1 & -> & Hs1 & _). exists s1, c1. split; [done|]. by apply (refines_idle s1 a1).
  - intros ts nows Hl. destruct (exit_posted ts a Hw Hn Hta) as (Ee & Hw2 & Hn2 & Hl2 & Ht2).
    destruct (drain nows _ Hw2 Hn2) as (a3 & c3 & E3 & Hi3 & Hl3); [lia|].
    pose proof (acts_refines (AExit ts :: (AWorker <$> nows)) s a Hok Hs) as H3.
    cbn [spec_acts] in H3. rewrite Ee in H3. cbn [mbind option_bind] in H3. rewrite E3 in H3.
    cbn [mbind option_bind app] in H3. destruct H3 as (s3 & -> & Hs3 & _). eexists _, _. split; [reflexivity|].
    apply (refines_idle s3 a3); auto.
Qed.

Lemma callbacks_in_order_witness :
  ∃ s c, acts [ACreate; ASet (mkCallbackData (Some 7%Z) None) 0; AAdd (mkWorkerMessage 1 2 0 0 0 3 4 5) 0;
               AWorker 0; AWorker 1; AWorker 2; AWorker 3] initial_worker = Ret (s, c) ∧
    c = [CNotify 7 2 4 5 3] ∧ ∃ ms, ms `sublist_of` [mkWorkerMessage 1 2 0 0 0 3 4 5] ∧ Forall2 asked_by ms c.
Proof.
  eexists _, _. split; [vm_compute; reflexivity|]. split; [reflexivity|].
  eapply (callbacks_in_order [ACreate; ASet (mkCallbackData (Some 7%Z) None) 0;
    AAdd (mkWorkerMessage 1 2 0 0 0 3 4 5) 0; AWorker 0; AWorker 1; AWorker 2; AWorker 3]).
  vm_compute. reflexivity.
Defined.

Lemma worker_drains_witness :
  ∃ s c, acts [ACreate; AWorker 0; AAdd (mkWorkerMessage 1 2 0 0 0 3 4 5) 0] initial_worker = Ret (s, c) ∧
    m_thread s = true ∧
    ∃ s' c', acts (AExit 1 :: (AWorker <$> [1; 2; 3; 4; 5; 6]%Z)) s = Ret (s', c') ∧ is_Some (ExitThread_join s').
Proof.
  eexists _, _. split; [vm_compute; reflexivity|]. split; [reflexivity|].
  eapply (worker_drains [ACreate; AWorker 0; AAdd (mkWorkerMessage 1 2 0 0 0 3 4 5) 0]);
    [vm_compute; reflexivity|reflexivity|reflexivity].
Defined.

(** * What clearing the queue loses *)

(** The functions a client set are lost with the queue: nothing is called. *)
Example clear_drops_update :
  match acts [ACreate; ASet (mkCallbackData (Some 7%Z) None) 0; AClear; AAdd (mkWorkerMessage 1 2 0 0 0 3 4 5) 0;
              AWorker 0; AWorker 0; AWorker 0; AWorker 0] initial_worker with
  | Ret (s, c) => c = [] ∧ w_pc s = WWait
  | _ => False
  end.
Proof. vm_compute. split; reflexivity. Qed.

(** The message to leave is lost: the thread waits, and the join with it. *)
Example clear_drops_exit :
  match acts [ACreate; AExit 0; AClear; AWorker 0; AWorker 0] initial_worker with
  | Ret (s, c) => w_pc s = WWait ∧ ExitThread_join s = None
  | _ => False
  end.
Proof. vm_compute. split; reflexivity. Qed.

(** The data of a cleared message stays allocated. *)
Example clear_leaks :
  match acts [ACreate; AAdd (mkWorkerMessage 1 2 0 0 0 3 4 5) 0; AClear] initial_worker with
  | Ret (s, c) => m_queue s = [] ∧ size (w_heap s) = 1%nat
  | _ => False
  end.
Proof. vm_compute. split; reflexivity. Qed.
