(* ===== verification/Camera2Wrapper.v ===== *)
(** camera/Camera2Wrapper.cpp: the device of the camera service in front of the
    vendor's: it posts the callbacks to the worker, blocks them around calls that
    must not be disturbed, and corrects the parameters.  What the vendor's module
    and malloc do is left to the environment. *)

From Stdlib Require Import ZArith Lia Ascii.
From stdpp Require Import base numbers strings gmap list.
From S2P Require Import Prelude CString Sys Strtol CameraParameters CallbackWorker.

Definition EINVAL : Z := 22.
Definition ENOMEM : Z := 12.

(** [wrapper_camera2_device_t]: its address, the id, the vendor's device and the
    table of operations. *)
Record wrapper_camera2_device := mkDevice { dv_ptr : Z; dv_id : Z; dv_vendor : Z; dv_ops : Z }.

Record camera := mkCamera {
  cbThread : worker;
  BlockCbs : bool;
  CancelAFTimeGuard : Z;
  gVendorModule : bool
}.

Definition initial_camera : camera := mkCamera initial_worker false 0 false.

Definition set_worker w (s : camera) := mkCamera w (BlockCbs s) (CancelAFTimeGuard s) (gVendorModule s).
Definition set_block b (s : camera) := mkCamera (cbThread s) b (CancelAFTimeGuard s) (gVendorModule s).
Definition set_guard z (s : camera) := mkCamera (cbThread s) (BlockCbs s) z (gVendorModule s).
Definition set_module b (s : camera) := mkCamera (cbThread s) (BlockCbs s) (CancelAFTimeGuard s) b.

Definition current_timestamp : io Z := call_ret "gettimeofday" [].

(** The callbacks the worker makes. *)
Fixpoint emit (l : list user_call) : io unit :=
  match l with
  | [] => IRet tt
  | CNotify fn t e1 e2 u :: l => call_ "user.notify" [AZ fn; AZ t; AZ e1; AZ e2; AZ u] ;! emit l
  | CData fn t d i md u :: l => call_ "user.data" [AZ fn; AZ t; AZ d; AZ i; AZ md; AZ u] ;! emit l
  end.

(** A step of the worker's queue. *)
Definition worker_act (a : action) (s : camera) : io camera :=
  do! (w, calls) := of_cres (act a (cbThread s)) in
  emit calls ;! IRet (set_worker w s).

Definition check_vendor_module (s : camera) : io (Z * camera) :=
  if gVendorModule s then IRet (0%Z, s)
  else
    do! rv := call_ret "hw_get_module_by_class" [AS (cs "camera"); AS (cs "vendor")] in
    IRet (rv, set_module (rv =? 0)%Z s).

(** The first line of an operation logs a field of the device: a null device is
    read before it is compared with null. *)
Definition device_of (device : option wrapper_camera2_device) : io wrapper_camera2_device := of_cres (deref device).

Definition VENDOR_CALL (d : wrapper_camera2_device) (func : string) (args : list arg) : io Z :=
  call_ret ("vendor." +:+ func) (AZ (dv_vendor d) :: args).

(** The operations that only hand their arguments on. *)
Definition pass (func : string) (device : option wrapper_camera2_device) (args : list arg) : io Z :=
  do! d := device_of device in VENDOR_CALL d func args.

Definition camera2_set_preview_window device (window : Z) := pass "set_preview_window" device [AZ window].
Definition camera2_enable_msg_type device (t : Z) := pass "enable_msg_type" device [AZ t].
Definition camera2_disable_msg_type device (t : Z) := pass "disable_msg_type" device [AZ t].
Definition camera2_msg_type_enabled device (t : Z) := pass "msg_type_enabled" device [AZ t].
Definition camera2_start_preview device := pass "start_preview" device [].
Definition camera2_preview_enabled device := pass "preview_enabled" device [].
Definition camera2_store_meta_data_in_buffers device (enable : Z) := pass "store_meta_data_in_buffers" device [AZ enable].
Definition camera2_start_recording device := pass "start_recording" device [].
Definition camera2_stop_recording device := pass "stop_recording" device [].
Definition camera2_recording_enabled device := pass "recording_enabled" device [].
Definition camera2_release_recording_frame device (opaque : Z) := pass "release_recording_frame" device [AZ opaque].
Definition camera2_take_picture device := pass "take_picture" device [].
Definition camera2_cancel_picture device := pass "cancel_picture" device [].
Definition camera2_send_command device (cmd arg1 arg2 : Z) := pass "send_command" device [AZ cmd; AZ arg1; AZ arg2].
Definition camera2_release device := pass "release" device [].
Definition camera2_dump device (fd : Z) := pass "dump" device [AZ fd].

(** The vendor's callbacks. *)
Definition WrappedNotifyCb (t e1 e2 u : Z) (s : camera) : io camera :=
  if BlockCbs s then IRet s
  else
    do! now := current_timestamp in
    do! s := worker_act (AAdd (mkWorkerMessage CB_TYPE_NOTIFY t 0 0 0 u e1 e2) now) s in
    call_ "usleep" [AZ 5000] ;! IRet s.

Definition WrappedDataCb (t d i md u : Z) (s : camera) : io camera :=
  if BlockCbs s then IRet s
  else
    do! now := current_timestamp in
    do! s := worker_act (AAdd (mkWorkerMessage CB_TYPE_DATA t d i md u 0 0) now) s in
    call_ "usleep" [AZ 20000] ;! IRet s.

Definition camera2_set_callbacks device (notify_cb data_cb : option Z) (timestamp get_memory u : Z) (s : camera) : io camera :=
  do! d := device_of device in
  do! now := current_timestamp in
  do! s := worker_act (ASet (mkCallbackData notify_cb data_cb) now) s in
  do! _ := VENDOR_CALL d "set_callbacks" [AS (cs "WrappedNotifyCb"); AS (cs "WrappedDataCb"); AZ timestamp; AZ get_memory; AZ u] in
  IRet s.

Definition camera2_stop_preview device (s : camera) : io camera :=
  do! d := device_of device in
  let s := set_block true s in
  do! s := worker_act AClear s in
  do! _ := VENDOR_CALL d "stop_preview" [] in
  IRet (set_block false s).

Definition camera2_auto_focus device (s : camera) : io (Z * camera) :=
  do! d := device_of device in
  do! s := worker_act AClear s in
  do! ret := VENDOR_CALL d "auto_focus" [] in
  do! now := current_timestamp in
  IRet (ret, set_guard (now + 500) s).

Definition camera2_cancel_auto_focus device (s : camera) : io (Z * camera) :=
  do! d := device_of device in
  let s := set_block true s in
  do! s := worker_act AClear s in
  do! now := current_timestamp in
  if (CancelAFTimeGuard s - now >? 0)%Z then IRet (0%Z, s)
  else
    do! ret := VENDOR_CALL d "cancel_auto_focus" [] in
    IRet (ret, set_block false s).

(** * Parameters *)

Definition video_sizes : cstr :=
  cs "3840x2160,2560x1440,1920x1080,1440x1080,1088x1088,1280x720,960x720,800x450,720x480,640x480,480x320,352x288,320x240,256x144,176x144".

Section params.
Context {M : Type} `{KeyedVector M}.

(** The address of the copy and its text; null when there is no memory. *)
Definition strdup (text : cstr) : io (option (Z * cstr)) :=
  do! p := call_ret "strdup" [AS text] in IRet (if (p =? 0)%Z then None else Some (p, text)).

(** [String8] of a C string: a null pointer is read. *)
Definition String8 (s : option cstr) : io cstr := of_cres (deref s).

Definition camera2_fixup_getparams (settings : option cstr) : io (option (Z * cstr)) :=
  do! settings := String8 settings in
  do! params := of_cres (unflatten (M := M) settings) in
  strdup (flatten (set params (Some (cs "video-size-values")) (Some video_sizes))).

Definition camera2_fixup_setparams (settings : option cstr) : io (option (Z * cstr)) :=
  do! settings := String8 settings in
  do! params := of_cres (unflatten (M := M) settings) in strdup (flatten params).

Definition camera2_set_parameters device (params : option cstr) : io Z :=
  do! d := device_of device in
  do! tmp := camera2_fixup_setparams params in
  VENDOR_CALL d "set_parameters" (match tmp with Some (p, text) => [AZ p; AS text] | None => [AZ 0] end).

(** The string at the address a call returns. *)
Definition returned_string (r : resp) : option cstr :=
  if (r_ret r =? 0)%Z then None else Some (c_str_of (r_out r)).

Definition camera2_get_parameters device : io (option (Z * cstr)) :=
  do! d := device_of device in
  do! params := call "vendor.get_parameters" [AZ (dv_vendor d)] in
  do! tmp := camera2_fixup_getparams (returned_string params) in
  do! _ := VENDOR_CALL d "put_parameters" [AZ (r_ret params)] in
  IRet tmp.

Definition camera2_put_parameters (device : option wrapper_camera2_device) (params : Z) : io unit :=
  do! _ := device_of device in
  if (params =? 0)%Z then IRet tt else call_ "free" [AZ params].
End params.

(** * Opening and closing *)

(** [m_thread->join()]: the thread goes on until it returns. *)
Fixpoint join_thread (fuel : nat) (w : worker) : io worker :=
  match ExitThread_join w with
  | Some w => IRet w
  | None =>
    match fuel with
    | O => IFuel
    | S fuel =>
      do! now := current_timestamp in
      do! (w, calls) := of_cres (Process now w) in
      emit calls ;! join_thread fuel w
    end
  end.

Definition ExitThread (fuel : nat) (w : worker) : io worker :=
  if m_thread w then
    do! now := current_timestamp in join_thread fuel (ExitThread_post now w)
  else IRet w.

Definition camera2_device_close (fuel : nat) (device : option wrapper_camera2_device) (s : camera) : io (Z * camera) :=
  do! ret := match device with
             | None => IRet (- EINVAL)%Z
             | Some d =>
               call_ "vendor.close" [AZ (dv_vendor d)] ;!
               (if (dv_ops d =? 0)%Z then IRet tt else call_ "free" [AZ (dv_ops d)]) ;!
               call_ "free" [AZ (dv_ptr d)] ;!
               IRet 0%Z
             end in
  do! w := ExitThread fuel (cbThread s) in
  IRet (ret, set_worker w s).

(** What [*device] becomes. *)
Inductive device_out := Untouched | NullDevice | Device (d : wrapper_camera2_device).

(** The end of a failed opening: the two allocations, if they were made. *)
Definition fail_open (camera2_device : Z) (rv : Z) (s : camera) : io (Z * device_out * camera) :=
  (if (camera2_device =? 0)%Z then IRet tt else call_ "free" [AZ camera2_device]) ;!
  IRet (rv, NullDevice, s).

Definition camera2_device_open (name : option cstr) (s : camera) : io (Z * device_out * camera) :=
  let s := set_block false (set_worker (CreateThread (cbThread s)) s) in
  match name with
  | None => IRet (0%Z, Untouched, s)
  | Some name =>
    do! (rv, s) := check_vendor_module s in
    if negb (rv =? 0)%Z then IRet (- EINVAL, Untouched, s)%Z
    else
      let cameraid := i32 (strtol 10 name).1 in
      do! num_cameras := call_ret "vendor.get_number_of_cameras" [] in
      if (cameraid >? num_cameras)%Z then fail_open 0 (- EINVAL) s
      else
        do! camera2_device := call_ret "malloc" [AS (cs "wrapper_camera2_device_t")] in
        if (camera2_device =? 0)%Z then fail_open 0 (- ENOMEM) s
        else
          do! r := call "vendor.open_legacy" [AS name] in
          if negb (r_ret r =? 0)%Z then fail_open camera2_device (r_ret r) s
          else
            do! camera2_ops := call_ret "malloc" [AS (cs "camera_device_ops_t")] in
            if (camera2_ops =? 0)%Z then fail_open camera2_device (- ENOMEM) s
            else IRet (0%Z, Device (mkDevice camera2_device cameraid (nth 0 (r_aux r) 0%Z) camera2_ops), s)
  end.

(** * The parameters the service sees *)

Section params_laws.
Context {M : Type} `{KeyedVectorLaws M}.

Lemma find_set_sizes (m : M) k :
  kv_find (set m (Some (cs "video-size-values")) (Some video_sizes)) k =
  if decide (cs "video-size-values" = k) then Some video_sizes else kv_find m k.
Proof. unfold set. cbn [orb]. rewrite !bool_decide_false by (vm_compute; by intros []). apply kv_find_add. Qed.

(** C33. The service gets the vendor's parameters with its own list of video sizes:
    the text that is copied for it parses, with the vendor's value for every other
    key; the vendor gets its buffer back; and the service gets the copy, or null
    when there is no memory for it.  A vendor that returns null crashes the
    service. *)
Theorem get_parameters_fixes {W} (env : W → string → list arg → resp * W) d s :
  let '(out, t, _) := run env (camera2_get_parameters (M := M) (Some d)) s in
  ∃ r t', t = mkEvent "vendor.get_parameters" [AZ (dv_vendor d)] r :: t' ∧
    match returned_string r with
    | None => out = Crashed ∧ t' = []
    | Some given =>
      ∃ text copy back (m m' : M),
        t' = [mkEvent "strdup" [AS text] copy;
              mkEvent "vendor.put_parameters" [AZ (dv_vendor d); AZ (r_ret r)] back] ∧
        out = Done (if (r_ret copy =? 0)%Z then None else Some (r_ret copy, text)) ∧
        unflatten given = Ret m ∧ unflatten text = Ret m' ∧
        ∀ k, kv_find m' k = if decide (cs "video-size-values" = k) then Some video_sizes else kv_find m k
    end.
Proof.
  unfold camera2_get_parameters, camera2_fixup_getparams. cbn [device_of of_cres deref ibind call run].
  destruct (env s "vendor.get_parameters" [AZ (dv_vendor d)]) as [r s1].
  destruct (returned_string r) as [given|] eqn:Eg; cbn [String8 deref of_cres ibind run]; [|exists r, []; by rewrite Eg].
  destruct (unflatten_loop_total (S (length given)) given kv_empty) as (m & E & Hm);
    [lia|intros k v; by rewrite kv_find_empty|].
  change (unflatten (M := M) given = Ret m) in E. rewrite E. cbn [of_cres ibind].
  set (m2 := set m _ _). destruct (unflatten_flatten m2) as (m' & E' & Hm').
  { by apply params_ok_set. }
  unfold strdup, VENDOR_CALL, call_ret. cbn [ibind call run].
  destruct (env s1 "strdup" _) as [rp s2]. cbn [ibind run].
  destruct (env s2 _ _) as [rq s3] eqn:Eq. cbn [ibind run].
  exists r, [mkEvent "strdup" [AS (flatten m2)] rp;
    mkEvent "vendor.put_parameters" [AZ (dv_vendor d); AZ (r_ret r)] rq]. split; [done|]. rewrite Eg.
  exists (flatten m2), rp, rq, m, m'. split; [done|]. split; [done|]. split; [done|]. split; [exact E'|].
  intros k. rewrite Hm'. apply find_set_sizes.
Qed.
End params_laws.

(** * Opening and closing *)

(** The allocations that are live after a trace. *)
Fixpoint live_after (t : list event) (live : list Z) : list Z :=
  match t with
  | [] => live
  | e :: t =>
    live_after t
      (if bool_decide (ev_fn e = "malloc"%string)
       then if (r_ret (ev_resp e) =? 0)%Z then live else r_ret (ev_resp e) :: live
       else if bool_decide (ev_fn e = "free"%string) then
         match ev_args e with AZ p :: _ => filter (λ q, q ≠ p) live | _ => live end
       else live)
  end.

Definition open_ok (r : outcome (Z * device_out * camera) * list event) : Prop :=
  match r with
  | (Done (rv, Device d, s), t) =>
    rv = 0%Z ∧ dv_ptr d ≠ 0%Z ∧ dv_ops d ≠ 0%Z ∧ live_after t [] = [dv_ops d; dv_ptr d] ∧
    m_thread (cbThread s) = true ∧ BlockCbs s = false
  | (Done (rv, NullDevice, s), t) => rv ≠ 0%Z ∧ live_after t [] = []
  | (Done (rv, Untouched, s), t) => live_after t [] = []
  | _ => False
  end.

Lemma CreateThread_thread w : m_thread (CreateThread w) = true.
Proof. unfold CreateThread. by destruct (m_thread w) eqn:E. Qed.

Lemma live_after_app t1 t2 l : live_after (t1 ++ t2) l = live_after t2 (live_after t1 l).
Proof. revert l. induction t1 as [|x t IH]; intros l; [done|]. cbn. apply IH. Qed.

Lemma check_vendor_module_ensures s t :
  live_after t [] = [] →
  ensures (λ r t, live_after t [] = [] ∧ cbThread r.2 = cbThread s ∧ BlockCbs r.2 = BlockCbs s) t (check_vendor_module s).
Proof.
  intros Ht. unfold check_vendor_module. destruct (gVendorModule s); [done|]. cbn. intros r.
  by rewrite live_after_app, Ht.
Qed.

(** The end of a failed opening. *)
Lemma fail_open_ensures p rv s t :
  rv ≠ 0%Z → live_after t [] = (if (p =? 0)%Z then [] else [p]) →
  ensures (λ r t, open_ok (Done r, t)) t (fail_open p rv s).
Proof.
  intros Hrv Ht. unfold fail_open. destruct (p =? 0)%Z; cbn; [done|]. intros r. split; [done|].
  rewrite live_after_app, Ht. change (filter (λ q, q ≠ p) [p] = []). by rewrite filter_cons_False by auto.
Qed.

(** Opening the camera returns for every behaviour of the vendor's module and
    of malloc; on success both structures are allocated and the thread is there,
    on failure nothing stays allocated and the caller's device is null. *)
Theorem device_open_cleans_up {W} (env : W → string → list arg → resp * W) name s e :
  open_ok (run env (camera2_device_open name s) e).1.
Proof.
  assert (H : ensures (λ r t, open_ok (Done r, t)) [] (camera2_device_open name s)).
  2: { apply (ensures_run _ _ _ env e) in H. destruct (run env (camera2_device_open name s) e) as [[[] t] e']; done. }
  unfold camera2_device_open. destruct name as [name|]; [|done].
  set (s1 := set_block false _).
  assert (Hthread : m_thread (cbThread s1) = true) by apply CreateThread_thread.
  assert (Hblock : BlockCbs s1 = false) by done. clearbody s1.
  eapply ensures_bind; [by apply check_vendor_module_ensures|]. intros [rv s2] t (Ht & H1 & H2). cbn [snd] in *.
  destruct (negb (rv =? 0)%Z); [exact Ht|]. cbn zeta. set (id := i32 _). clearbody id.
  unfold call_ret, call. cbn [ibind ensures]. intros r1.
  destruct (id >? r_ret r1)%Z; [apply fail_open_ensures; [done|by rewrite live_after_app, Ht]|].
  cbn [ibind ensures]. intros r2. destruct (Z.eqb_spec (r_ret r2) 0) as [E2|E2].
  { apply fail_open_ensures; [done|]. rewrite !live_after_app, Ht. cbn. by rewrite E2. }
  assert (L2 : (r_ret r2 =? 0)%Z = false) by by apply Z.eqb_neq.
  cbn [ibind ensures]. intros r3. destruct (Z.eqb_spec (r_ret r3) 0) as [E3|E3]; cbn [negb].
  2: { apply fail_open_ensures; [done|]. rewrite !live_after_app, Ht. cbn. by rewrite L2. }
  cbn [ibind ensures]. intros r4. destruct (Z.eqb_spec (r_ret r4) 0) as [E4|E4].
  { apply fail_open_ensures; [done|]. rewrite !live_after_app, Ht. cbn. by rewrite L2, E4. }
  cbn [ensures open_ok dv_ptr dv_ops]. rewrite !live_after_app, Ht. cbn.
  rewrite L2, (proj2 (Z.eqb_neq _ _) E4), H1, H2. done.
Qed.

Lemma returns_emit l : returns (λ _, True) (emit l).
Proof. induction l as [|[] l IH]; cbn; auto. Qed.

(** The join ends: told to leave, the thread returns. *)
Lemma returns_join_thread fuel w a :
  spec_ok a → refines w a → awake a → a_pc a ≠ SNone → leaves a → (turns a ≤ fuel)%nat →
  returns (λ w', m_thread w' = false) (join_thread fuel w).
Proof.
  revert w a. induction fuel as [|fuel IH]; intros w a Hok Hw Ha Hn Hl Ht.
  - assert (Hi : idle a) by (unfold turns, idle, awake in *; destruct (a_pc a); try lia; auto).
    assert (Hr : a_pc a = SReturned).
    { destruct Hl as [|(ts & H)]; [done|]. unfold idle in Hi. destruct (a_pc a); try done.
      rewrite Hi in H. by apply elem_of_nil in H. }
    destruct (proj2 (refines_idle w a Hw Hi) Hr) as [w' E]. cbn. rewrite E.
    unfold ExitThread_join in E. destruct (w_pc w); try done. by injection E as <-.
  - cbn [join_thread]. destruct (ExitThread_join w) as [w'|] eqn:E.
    { unfold ExitThread_join in E. destruct (w_pc w); try done. by injection E as <-. }
    intros r. cbn [ibind]. set (now := r_ret r).
    destruct (turn a now Ha Hn) as (a' & c & Ea & Ha' & Hn' & Hidle & Hless & Hl').
    pose proof (act_refines (AWorker now) w a Hok Hw) as H. rewrite Ea in H. destruct H as (w1 & Ew & Hw1).
    cbn [act] in Ew. change (r_ret r) with now. rewrite Ew. cbn [of_cres ibind].
    eapply returns_bind; [apply returns_emit|]. intros _ _.
    apply (IH w1 a'); auto; [by eapply spec_ok_act|]. destruct (idle_dec a) as [Hi|Hi]; [|specialize (Hless Hi); lia].
    exfalso. assert (Hr : a_pc a = SReturned).
    { destruct Hl as [|(ts & H)]; [done|]. unfold idle in Hi. destruct (a_pc a); try done.
      rewrite Hi in H. by apply elem_of_nil in H. }
    destruct (proj2 (refines_idle w a Hw Hi) Hr) as [w' E']. congruence.
Qed.

(** C34. Closing the camera ends in every state that schedules of the worker reach,
    whatever the clock says: the thread has been told to leave and has returned. *)
Theorem close_joins {W} (env : W → string → list arg → resp * W) e fuel device s l c :
  acts l initial_worker = Ret (cbThread s, c) →
  (2 * length (m_queue (cbThread s)) + 4 ≤ fuel)%nat →
  match (run env (camera2_device_close fuel device s) e).1.1 with
  | Done (ret, s') => m_thread (cbThread s') = false ∧ ret = (match device with None => - EINVAL | Some _ => 0 end)%Z
  | _ => False
  end.
Proof.
  intros Hl Hf.
  assert (Hexit : returns (λ w, m_thread w = false) (ExitThread fuel (cbThread s))).
  { unfold ExitThread. destruct (m_thread (cbThread s)) eqn:Et; [|done].
    destruct (reached _ _ _ Hl Et) as (a & Ha & Hok & Haw & Hn & Hta & Hlen).
    intros r. cbn [ibind].
    destruct (exit_posted (r_ret r) a Haw Hn Hta) as (Ee & Haw2 & Hn2 & Hl2 & Ht2).
    pose proof (act_refines (AExit (r_ret r)) _ _ Hok Ha) as H. rewrite Ee in H.
    destruct H as (w & Ew & Hw). cbn [act] in Ew. injection Ew as <-.
    apply (returns_join_thread _ _ _ (spec_ok_act _ _ _ _ Hok Ee) Hw); [done..|lia]. }
  assert (Hret : returns (λ r, m_thread (cbThread r.2) = false ∧
             r.1 = (match device with None => - EINVAL | Some _ => 0 end)%Z) (camera2_device_close fuel device s)).
  { unfold camera2_device_close.
    apply (returns_bind (λ ret, ret = (match device with None => - EINVAL | Some _ => 0 end)%Z)).
    - destruct device as [d|]; [|done]. intros r. cbn. destruct (dv_ops d =? 0)%Z; cbn; auto.
    - intros ret ->. eapply returns_bind; [exact Hexit|]. intros w Hw. done. }
  pose proof (returns_run _ _ env e Hret) as H.
  by destruct (run env _ e) as [[[[ret s']|code| |] t] e'].
Qed.

Lemma close_joins_witness :
  ∃ w c, acts [ACreate; AAdd (mkWorkerMessage 1 2 0 0 0 3 4 5) 0; AWorker 1] initial_worker = Ret (w, c) ∧
    match (run (λ (n : nat) _ _, (mkResp (Z.of_nat n) 0 [] [], S n))
             (camera2_device_close 9 (Some (mkDevice 8 0 16 24)) (mkCamera w false 0 true)) 0%nat).1.1 with
    | Done (ret, s') => m_thread (cbThread s') = false ∧ ret = 0%Z
    | _ => False
    end.
Proof.
  eexists _, _. split; [vm_compute; reflexivity|].
  eapply (close_joins _ 0%nat 9 (Some (mkDevice 8 0 16 24)) (mkCamera _ false 0 true)
            [ACreate; AAdd (mkWorkerMessage 1 2 0 0 0 3 4 5) 0; AWorker 1]);
    [vm_compute; reflexivity|cbn; lia].
Defined.

(** A vendor that gives "a=b" at an address, and a malloc that gives one. *)
Definition params_env (address memory : Z) (s : unit) (fn : string) (args : list arg) : resp * unit :=
  (if bool_decide (fn = "vendor.get_parameters"%string) then mkResp address 0 (cs "a=b") []
   else mkResp memory 0 [] [], s).

Lemma get_parameters_fixes_witness :
  let '(out, t, _) := run (params_env 5 7) (camera2_get_parameters (M := gmap cstr cstr) (Some (mkDevice 8 0 16 24))) tt in
  ∃ r t', t = mkEvent "vendor.get_parameters" [AZ 16] r :: t' ∧
    match returned_string r with
    | None => out = Crashed ∧ t' = []
    | Some given =>
      ∃ text copy back (m m' : gmap cstr cstr),
        t' = [mkEvent "strdup" [AS text] copy; mkEvent "vendor.put_parameters" [AZ 16; AZ (r_ret r)] back] ∧
        out = Done (if (r_ret copy =? 0)%Z then None else Some (r_ret copy, text)) ∧
        unflatten given = Ret m ∧ unflatten text = Ret m' ∧
        ∀ k, kv_find m' k = if decide (cs "video-size-values" = k) then Some video_sizes else kv_find m k
    end.
Proof. exact (get_parameters_fixes (M := gmap cstr cstr) (params_env 5 7) (mkDevice 8 0 16 24) tt). Defined.

(** The three environments: a copy, a null vendor buffer, no memory. *)
Example get_parameters_cases :
  let get env := (run env (camera2_get_parameters (M := gmap cstr cstr) (Some (mkDevice 8 0 16 24))) tt).1.1 in
  get (params_env 5 7) = Done (Some (7%Z, cs "video-size-values=" ++ video_sizes ++ cs ";a=b")) ∧
  get (params_env 0 7) = Crashed ∧ get (params_env 5 0) = Done None.
Proof. vm_compute. repeat split; reflexivity. Qed.

(** * What goes wrong *)

(** Called within half a second of [auto_focus], [cancel_auto_focus] leaves the
    callbacks blocked: the next one is dropped. *)
Example cancel_auto_focus_blocks :
  match (run (λ (s : unit) _ _, (mkResp 100 0 [] [], s))
     (do! (rv, d, s) := camera2_device_open (Some (cs "0")) (mkCamera initial_worker false 0 true) in
      let d := Some (mkDevice 8 0 16 24) in
      do! (_, s) := camera2_auto_focus d s in
      do! (ret, s) := camera2_cancel_auto_focus d s in
      do! s := WrappedNotifyCb 1 2 3 4 s in IRet (ret, s)) tt).1.1 with
  | Done (ret, s) => ret = 0%Z ∧ BlockCbs s = true ∧ m_queue (cbThread s) = []
  | _ => False
  end.
Proof. vm_compute. repeat split; reflexivity. Qed.

(** The id after the last one is accepted, and a device the vendor opened is not
    closed when the table of operations cannot be allocated. *)
Definition no_ops_env (s : bool) (fn : string) (args : list arg) : resp * bool :=
  if bool_decide (fn = "malloc"%string) then (mkResp (if s then 0 else 8) 0 [] [], true)
  else (mkResp (if bool_decide (fn = "vendor.get_number_of_cameras"%string) then 2 else 0) 0 [] [7%Z], s).

Example open_leaks_vendor_device :
  let '(o, t, _) := run no_ops_env (camera2_device_open (Some (cs "2")) initial_camera) false in
  match o with
  | Done (rv, out, _) => rv = (- ENOMEM)%Z ∧ calls_of "vendor.open_legacy" t = 1%nat ∧ calls_of "vendor.close" t = 0%nat
  | _ => False
  end.
Proof. vm_compute. repeat split; reflexivity. Qed.

(** The copy of the parameters is never freed. *)
Example set_parameters_leaks :
  let '(o, t, _) := run (λ (s : unit) _ _, (mkResp 5 0 [] [], s))
    (camera2_set_parameters (M := gmap cstr cstr) (Some (mkDevice 8 0 16 24)) (Some (cs "a=b"))) tt in
  calls_of "strdup" t = 1%nat ∧ calls_of "free" t = 0%nat.
Proof. vm_compute. repeat split; reflexivity. Qed.
