(* ===== verification/Camera3Wrapper.v ===== *)
(** camera/{CameraWrapper,Camera3Wrapper}.cpp: the camera module the service loads
    and its devices of the third version, both in front of the vendor's module;
    devices of the older version are those of Camera2Wrapper. *)

From Stdlib Require Import ZArith Lia Ascii.
From stdpp Require Import base numbers strings gmap list.
From S2P Require Import Prelude CString Sys Strtol CameraParameters CallbackWorker.
From S2P Require Import Camera2Wrapper.

(** [wrapper_camera3_device_t]. *)
Record wrapper_camera3_device := mkDevice3 { d3_ptr : Z; d3_id : Z; d3_vendor : Z; d3_ops : Z }.

(** Each of the three files has a pointer of its own to the vendor's module. *)
Record modules := mkModules { wrapper_module : bool; camera3_module : bool; camera2_state : camera }.

Definition load_vendor_module (loaded : bool) : io (Z * bool) :=
  if loaded then IRet (0%Z, true)
  else do! rv := call_ret "hw_get_module_by_class" [AS (cs "camera"); AS (cs "vendor")] in IRet (rv, (rv =? 0)%Z).

Definition check_vendor_module3 (s : modules) : io (Z * modules) :=
  do! (rv, b) := load_vendor_module (camera3_module s) in IRet (rv, mkModules (wrapper_module s) b (camera2_state s)).
Definition check_wrapper_module (s : modules) : io (Z * modules) :=
  do! (rv, b) := load_vendor_module (wrapper_module s) in IRet (rv, mkModules b (camera3_module s) (camera2_state s)).

(** * Operations of a device *)

(** As in the older version the log line reads a field of the device first. *)
Definition pass3 (func : string) (device : option wrapper_camera3_device) (args : list arg) : io Z :=
  do! d := of_cres (deref device) in call_ret ("vendor." +:+ func) (AZ (d3_vendor d) :: args).

Definition camera3_initialize device (callback_ops : Z) := pass3 "initialize" device [AZ callback_ops].
Definition camera3_configure_streams device (stream_list : Z) := pass3 "configure_streams" device [AZ stream_list].
Definition camera3_register_stream_buffers device (buffer_set : Z) := pass3 "register_stream_buffers" device [AZ buffer_set].
Definition camera3_construct_default_request_settings device (type : Z) :=
  pass3 "construct_default_request_settings" device [AZ type].
Definition camera3_process_capture_request device (request : Z) := pass3 "process_capture_request" device [AZ request].
Definition camera3_get_metadata_vendor_tag_ops device (ops : Z) := pass3 "get_metadata_vendor_tag_ops" device [AZ ops].
Definition camera3_dump device (fd : Z) := pass3 "dump" device [AZ fd].
Definition camera3_flush device := pass3 "flush" device [].

Definition camera3_device_close (device : option wrapper_camera3_device) : io Z :=
  match device with
  | None => IRet (- EINVAL)%Z
  | Some d =>
    call_ "vendor.close" [AZ (d3_vendor d)] ;!
    (if (d3_ops d =? 0)%Z then IRet tt else call_ "free" [AZ (d3_ops d)]) ;!
    call_ "free" [AZ (d3_ptr d)] ;!
    IRet 0%Z
  end.

(** What [*device] becomes. *)
Inductive device3_out := Untouched3 | NullDevice3 | Device3 (d : wrapper_camera3_device).

Definition fail_open3 (camera3_device rv : Z) (s : modules) : io (Z * device3_out * modules) :=
  (if (camera3_device =? 0)%Z then IRet tt else call_ "free" [AZ camera3_device]) ;!
  IRet (rv, NullDevice3, s).

Definition camera3_device_open (name : option cstr) (s : modules) : io (Z * device3_out * modules) :=
  match name with
  | None => IRet (0%Z, Untouched3, s)
  | Some name =>
    do! (rv, s) := check_vendor_module3 s in
    if negb (rv =? 0)%Z then IRet (- EINVAL, Untouched3, s)%Z
    else
      let cameraid := i32 (strtol 10 name).1 in
      do! num_cameras := call_ret "vendor.get_number_of_cameras" [] in
      if (cameraid >? num_cameras)%Z then fail_open3 0 (- EINVAL) s
      else
        do! camera3_device := call_ret "malloc" [AS (cs "wrapper_camera3_device_t")] in
        if (camera3_device =? 0)%Z then fail_open3 0 (- ENOMEM) s
        else
          do! r := call "vendor.open" [AS name] in
          if negb (r_ret r =? 0)%Z then fail_open3 camera3_device (r_ret r) s
          else
            do! camera3_ops := call_ret "malloc" [AS (cs "camera3_device_ops_t")] in
            if (camera3_ops =? 0)%Z then fail_open3 camera3_device (- ENOMEM) s
            else IRet (0%Z, Device3 (mkDevice3 camera3_device cameraid (nth 0 (r_aux r) 0%Z) camera3_ops), s)
  end.

(** * The module *)

Definition camera_device_open (name : option cstr) (s : modules) : io (Z * device3_out * modules) :=
  match name with
  | None => IRet (- EINVAL, Untouched3, s)%Z
  | Some _ =>
    do! (rv, s) := check_wrapper_module s in
    if negb (rv =? 0)%Z then IRet (- EINVAL, Untouched3, s)%Z else camera3_device_open name s
  end.

Definition camera_open_legacy (id : option cstr) (s : modules) : io (Z * device_out * modules) :=
  do! (rv, s) := check_wrapper_module s in
  if negb (rv =? 0)%Z then IRet (0%Z, Untouched, s)
  else
    do! (ret, out, c) := camera2_device_open id (camera2_state s) in
    IRet (ret, out, mkModules (wrapper_module s) (camera3_module s) c).

(** The calls that are only handed on; 0 without the vendor's module. *)
Definition module_pass (func : string) (args : list arg) (s : modules) : io (Z * modules) :=
  do! (rv, s) := check_wrapper_module s in
  if negb (rv =? 0)%Z then IRet (0%Z, s) else do! r := call_ret ("vendor." +:+ func) args in IRet (r, s).

Definition camera_get_number_of_cameras := module_pass "get_number_of_cameras" [].
Definition camera_get_camera_info (camera_id info : Z) := module_pass "get_camera_info" [AZ camera_id; AZ info].
Definition camera_set_callbacks (callbacks : Z) := module_pass "set_callbacks" [AZ callbacks].
Definition camera_get_vendor_tag_ops (ops : Z) := module_pass "get_vendor_tag_ops" [AZ ops].
Definition camera_set_torch_mode (camera_id : cstr) (enabled : bool) :=
  module_pass "set_torch_mode" [AS camera_id; AZ (Z.b2z enabled)].
Definition camera_init := module_pass "init" [].

(** * Opening and closing *)

(** The vendor's devices that are open after a trace: their handle is the first
    number the opening stores. *)
Fixpoint vendor_after (t : list event) (devs : list Z) : list Z :=
  match t with
  | [] => devs
  | e :: t =>
    vendor_after t
      (if bool_decide (ev_fn e = "vendor.open"%string)
       then if (r_ret (ev_resp e) =? 0)%Z then nth 0 (r_aux (ev_resp e)) 0%Z :: devs else devs
       else if bool_decide (ev_fn e = "vendor.close"%string) then
         match ev_args e with AZ d :: _ => filter (λ q, q ≠ d) devs | _ => devs end
       else devs)
  end.

Lemma vendor_after_app t1 t2 l : vendor_after (t1 ++ t2) l = vendor_after t2 (vendor_after t1 l).
Proof. revert l. induction t1 as [|x t IH]; intros l; [done|]. cbn. apply IH. Qed.

(** A failed opening for another reason than memory leaves nothing; a device that
    was opened has its two allocations and the vendor's device, and nothing is
    left once it is closed. *)
Definition open_ok3 (r : Z * device3_out * modules) (t : list event) : Prop :=
  match r with
  | (rv, Device3 d, _) =>
    rv = 0%Z ∧ d3_ptr d ≠ 0%Z ∧ d3_ops d ≠ 0%Z ∧ live_after t [] = [d3_ops d; d3_ptr d] ∧ vendor_after t [] = [d3_vendor d]
  | (rv, _, _) => rv ≠ 0%Z ∧ live_after t [] = [] ∧ (rv ≠ (- ENOMEM)%Z → vendor_after t [] = [])
  end.

Lemma load_vendor_module_ensures b t :
  live_after t [] = [] → vendor_after t [] = [] →
  ensures (λ _ t, live_after t [] = [] ∧ vendor_after t [] = []) t (load_vendor_module b).
Proof.
  intros Hl Hv. unfold load_vendor_module. destruct b; [done|]. cbn. intros r.
  by rewrite live_after_app, vendor_after_app, Hl, Hv.
Qed.

Lemma check_module_ensures (f : bool → modules) b t :
  live_after t [] = [] → vendor_after t [] = [] →
  ensures (λ _ t, live_after t [] = [] ∧ vendor_after t [] = []) t
    (do! (rv, b) := load_vendor_module b in IRet (rv, f b)).
Proof.
  intros Hl Hv. eapply ensures_bind; [by apply load_vendor_module_ensures|]. by intros [rv b'] t' H.
Qed.

Lemma fail_open3_ensures p rv s t :
  rv ≠ 0%Z → live_after t [] = (if (p =? 0)%Z then [] else [p]) → (rv ≠ (- ENOMEM)%Z → vendor_after t [] = []) →
  ensures open_ok3 t (fail_open3 p rv s).
Proof.
  intros Hrv Ht Hv. unfold fail_open3. destruct (p =? 0)%Z; cbn; [done|]. intros r. split; [done|].
  rewrite live_after_app, vendor_after_app, Ht. cbn. split; [|exact Hv].
  change (filter (λ q, q ≠ p) [p] = []). by rewrite filter_cons_False by auto.
Qed.

Lemma camera3_device_open_ensures name s t :
  live_after t [] = [] → vendor_after t [] = [] → ensures open_ok3 t (camera3_device_open (Some name) s).
Proof.
  intros Hl Hv. unfold camera3_device_open, check_vendor_module3.
  eapply ensures_bind; [by apply (check_module_ensures (λ b, mkModules (wrapper_module s) b (camera2_state s)))|].
  intros [rv s2] t1 [Ht Hv1]. destruct (negb (rv =? 0)%Z); [done|].
  cbn zeta. set (id := i32 _). clearbody id. unfold call_ret, call. cbn [ibind ensures]. intros r1.
  destruct (id >? r_ret r1)%Z.
  { apply fail_open3_ensures; rewrite ?live_after_app, ?vendor_after_app, ?Ht, ?Hv1; done. }
  cbn [ibind ensures]. intros r2. destruct (Z.eqb_spec (r_ret r2) 0) as [E2|E2].
  { apply fail_open3_ensures; rewrite ?live_after_app, ?vendor_after_app, ?Ht, ?Hv1; cbn; by rewrite ?E2. }
  assert (L2 : (r_ret r2 =? 0)%Z = false) by by apply Z.eqb_neq.
  cbn [ibind ensures]. intros r3. destruct (Z.eqb_spec (r_ret r3) 0) as [E3|E3]; cbn [negb].
  2: { assert (L3 : (r_ret r3 =? 0)%Z = false) by by apply Z.eqb_neq.
       apply fail_open3_ensures; rewrite ?live_after_app, ?vendor_after_app, ?Ht, ?Hv1; cbn; by rewrite ?L2, ?L3. }
  cbn [ibind ensures]. intros r4. destruct (Z.eqb_spec (r_ret r4) 0) as [E4|E4].
  { apply fail_open3_ensures; rewrite ?live_after_app, ?vendor_after_app, ?Ht, ?Hv1; cbn; by rewrite ?L2, ?E4. }
  cbn [ensures open_ok3 d3_ptr d3_ops d3_vendor]. rewrite !live_after_app, !vendor_after_app, Ht, Hv1. cbn.
  by rewrite L2, E3, (proj2 (Z.eqb_neq _ _) E4).
Qed.

(** C40. For every behaviour of the vendor's module and of malloc the camera module
    opens a device or fails with an error: a failure leaves nothing allocated and,
    unless memory ran out, no device of the vendor open; closing what was opened
    frees both structures and closes the vendor's device. *)
Theorem camera_open_close_balanced {W} (env : W → string → list arg → resp * W) name s w :
  ∃ rv out s' t w', run env (camera_device_open name s) w = (Done (rv, out, s'), t, w') ∧ open_ok3 (rv, out, s') t ∧
    ∀ d, out = Device3 d → ∃ t2 w2, run env (camera3_device_close (Some d)) w' = (Done 0%Z, t2, w2) ∧
      live_after (t ++ t2) [] = [] ∧ vendor_after (t ++ t2) [] = [].
Proof.
  assert (H : ensures open_ok3 [] (camera_device_open name s)).
  { unfold camera_device_open, check_wrapper_module. destruct name as [name|]; [|done].
    eapply ensures_bind; [by apply (check_module_ensures (λ b, mkModules b (camera3_module s) (camera2_state s)))|].
    intros [rv s2] t [Ht Hv]. destruct (negb (rv =? 0)%Z); [done|]. by apply camera3_device_open_ensures. }
  apply (ensures_run _ _ _ env w) in H. destruct (run env (camera_device_open name s) w) as [[[[[rv out] s']| | |] t] w']; try done.
  cbn [app] in H. exists rv, out, s', t, w'. split; [done|]. split; [exact H|]. intros d ->.
  destruct H as (_ & Hp & Ho & Hl & Hv). unfold camera3_device_close, call_, call. rewrite (proj2 (Z.eqb_neq _ _) Ho).
  cbn [ibind run]. do 3 step_env. cbn [ibind run]. eexists _, _. split; [reflexivity|].
  rewrite live_after_app, vendor_after_app, Hl, Hv. cbn. clear.
  destruct d as [p i v o]. cbn. split.
  - change (filter (λ q, q ≠ p) (filter (λ q, q ≠ o) [o; p]) = []).
    rewrite filter_cons_False by auto. rewrite list_filter_filter.
    by rewrite filter_cons_False by naive_solver.
  - change (filter (λ q, q ≠ v) [v] = []). by rewrite filter_cons_False by auto.
Qed.

(** When the second allocation fails the vendor's device stays open. *)
Definition no_ops_env (s : unit) (fn : string) (args : list arg) : resp * unit :=
  (mkResp (if bool_decide (fn = "malloc"%string) then
             match args with [AS n] => if bool_decide (n = cs "camera3_device_ops_t") then 0 else 5 | _ => 0 end
           else 0)%Z 0 [] [9%Z], s).

Example vendor_device_leaks :
  let '(o, t, _) := run no_ops_env (camera_device_open (Some (cs "0")) (mkModules false false initial_camera)) tt in
  match o with Done (rv, _, _) => rv = (- ENOMEM)%Z | _ => False end ∧ vendor_after t [] = [9%Z].
Proof. vm_compute. split; reflexivity. Qed.

(** Without the vendor's module the older interface reports success and leaves the
    caller's device as it was. *)
Example open_legacy_without_module :
  match (run (λ (s : unit) fn args, (mkResp (-1) 0 [] [], s)) (camera_open_legacy (Some (cs "0")) (mkModules false false initial_camera)) tt).1.1 with
  | Done (rv, out, _) => rv = 0%Z ∧ out = Untouched
  | _ => False
  end.
Proof. vm_compute. split; reflexivity. Qed.
