(* ===== verification/BluetoothAddress.v ===== *)
(** hardware/bluetooth/bluetooth_address.{h,cc}: the address of the controller as
    bytes and as text, and the places it is looked for. *)

From Stdlib Require Import ZArith Lia Ascii.
From stdpp Require Import base numbers strings gmap list.
From S2P Require Import Prelude CString Sys Scanf Strtol.

Definition PROPERTY_BT_BDADDR_PATH : cstr := cs "ro.bt.bdaddr_path".
Definition PERSIST_BDADDR_PROPERTY : cstr := cs "persist.service.bdroid.bdaddr".
Definition FACTORY_BDADDR_PROPERTY : cstr := cs "ro.boot.btmacaddr".

Definition kStringLength : nat := 17.
Definition kBytes : nat := (kStringLength + 1) / 3.

(** "%02x" of a byte. *)
Definition hex_digit (d : Z) : ascii := if (d <? 10)%Z then chr (48 + d) else chr (87 + d).
Definition print_02x (b : Z) : cstr := [hex_digit (b / 16); hex_digit (b mod 16)].

(** The six bytes printed with colons in between. *)
Fixpoint print_bytes (addr : list Z) : cstr :=
  match addr with
  | [] => []
  | [b] => print_02x b
  | b :: addr => print_02x b ++ ":"%char :: print_bytes addr
  end.

(** [addr] has six bytes at least. *)
Definition bytes_to_string (addr : list Z) : cres cstr :=
  if (length addr <? 6)%nat then Fault else Ret (print_bytes (take 6 addr)).

(** The directive "%02hhx": white space, and at most two characters of a number;
    "0x" needs a third. *)
Definition scan_02hhx (s : cstr) : option (Z * cstr) :=
  let s := (span isspace s).2 in
  let '(neg, s1) := sign_of s in
  let width := (2 - (length s - length s1))%nat in
  let '(ds, _) := span (is_digit 16) (take width s1) in
  match ds with
  | [] => None
  | _ => let v := value_of 16 ds in Some (u8 (if neg then - v else v), drop (length ds) s1)
  end.

(** The directives for [n] bytes: those stored and, when all are, what is left. *)
Fixpoint scan_bytes (n : nat) (s : cstr) : list Z * option cstr :=
  match n with
  | O => ([], Some s)
  | S n =>
    match scan_02hhx s with
    | None => ([], None)
    | Some (b, s) =>
      match n, s with
      | O, _ => ([b], Some s)
      | S _, c :: s =>
        if bool_decide (c = ":"%char) then let '(bs, r) := scan_bytes n s in (b :: bs, r) else ([b], None)
      | S _, [] => ([b], None)
      end
    end
  end.

(** The result and [addr] as it is left: the bytes of the directives that matched
    are stored whatever follows. *)
Definition string_to_bytes (addr_str : option cstr) (addr : list Z) : bool * list Z :=
  match addr_str with
  | None => (false, addr)
  | Some s =>
    if negb (length (take kStringLength s) =? kStringLength)%nat then (false, addr)
    else
      let '(bs, r) := scan_bytes 6 s in
      (* a character read by the "%1c" at the end makes the count seven *)
      (match r with Some [] => true | _ => false end, bs ++ drop (length bs) addr)
  end.

(** [property_get(key, property, NULL)]: its result and the value. *)
Definition property_get (key : cstr) : io (Z * cstr) :=
  do! r := call "property_get" [AS key] in IRet (r_ret r, c_str_of (r_out r)).

Definition O_RDONLY : Z := 0.

(** The address in the file the property names, when there is one. *)
Definition file_address (path : cstr) (local_addr : list Z) : io (bool * list Z) :=
  do! addr_fd := call_ret "open" [AS path; AZ O_RDONLY] in
  if (addr_fd =? -1)%Z then IRet (false, local_addr)
  else
    do! r := call "read" [AZ addr_fd; AZ (Z.of_nat kStringLength)] in
    call_ "close" [AZ addr_fd] ;!
    (* the buffer was zero before *)
    let address := c_str_of (take kStringLength (r_out r)) in
    let '(ok, local_addr) := string_to_bytes (Some address) local_addr in
    IRet (ok && negb (bool_decide (take kBytes local_addr = replicate kBytes 0%Z)), local_addr).

Definition property_address (key : cstr) (local_addr : list Z) : io (bool * list Z) :=
  do! (n, property) := property_get key in
  if (n =? 0)%Z then IRet (false, local_addr)
  else IRet (string_to_bytes (Some property) local_addr).

Definition get_local_address (local_addr : list Z) : io (bool * list Z) :=
  do! (n, property) := property_get PROPERTY_BT_BDADDR_PATH in
  do! (ok, local_addr) :=
    if (n =? 0)%Z then IRet (false, local_addr) else file_address property local_addr in
  if ok : bool then IRet (true, local_addr)
  else
    do! (ok, local_addr) := property_address FACTORY_BDADDR_PROPERTY local_addr in
    if ok : bool then IRet (true, local_addr)
    else property_address PERSIST_BDADDR_PROPERTY local_addr.

(** * The text form *)

Definition is_byte (b : Z) : Prop := (0 ≤ b < 256)%Z.

Lemma hex_digit_facts d :
  (0 ≤ d < 16)%Z → digit_of (hex_digit d) = Some d ∧ isspace (hex_digit d) = false ∧
  hex_digit d ≠ "-"%char ∧ hex_digit d ≠ "+"%char ∧ hex_digit d ≠ ":"%char.
Proof.
  intros Hd.
  assert (Hc : d ∈ (λ n : nat, Z.of_nat n) <$> seq 0 16).
  { apply list_elem_of_fmap. exists (Z.to_nat d). split; [lia|]. apply elem_of_seq. lia. }
  revert Hc. clear Hd. revert d. apply Forall_forall. apply (bool_decide_unpack _). vm_compute. exact I.
Qed.

Lemma scan_print_byte b r : is_byte b → scan_02hhx (print_02x b ++ r) = Some (b, r).
Proof.
  intros Hb. unfold is_byte in Hb.
  pose proof (Z.div_mod b 16) as Hdm. pose proof (Z.mod_pos_bound b 16) as Hm.
  assert (H1 : (0 ≤ b / 16 < 16)%Z) by lia. assert (H2 : (0 ≤ b mod 16 < 16)%Z) by lia.
  destruct (hex_digit_facts _ H1) as (D1 & S1 & M1 & P1 & _).
  destruct (hex_digit_facts _ H2) as (D2 & _).
  unfold scan_02hhx, print_02x. cbn [app span]. rewrite S1. cbn [snd sign_of].
  rewrite !bool_decide_false by done. rewrite Nat.sub_diag. cbn [Nat.sub take span].
  unfold is_digit. rewrite D1, D2. rewrite !(proj2 (Z.ltb_lt _ _)) by lia. rewrite take_0. cbv beta iota zeta. cbn [span drop length].
  unfold value_of. cbn [fold_left]. rewrite D1, D2. cbn [default from_option id]. f_equal. f_equal.
  unfold u8. rewrite Z.mod_small; lia.
Qed.

Lemma scan_bytes_next n b s :
  is_byte b →
  scan_bytes (S (S n)) (print_02x b ++ ":"%char :: s) =
    let '(bs, r) := scan_bytes (S n) s in (b :: bs, r).
Proof.
  intros Hb. unfold scan_bytes at 1. rewrite scan_print_byte by done.
  rewrite bool_decide_true by done. reflexivity.
Qed.

Lemma scan_print_bytes addr :
  Forall is_byte addr → addr ≠ [] → scan_bytes (length addr) (print_bytes addr) = (addr, Some []).
Proof.
  intros Hall. induction Hall as [|b addr Hb Hall IH]; intros Hne; [done|].
  destruct addr as [|b2 addr].
  - cbn [length print_bytes scan_bytes]. by rewrite <-(app_nil_r (print_02x b)), scan_print_byte.
  - specialize (IH ltac:(done)).
    change (print_bytes (b :: b2 :: addr)) with (print_02x b ++ ":"%char :: print_bytes (b2 :: addr)).
    change (length (b :: b2 :: addr)) with (S (S (length addr))).
    change (length (b2 :: addr)) with (S (length addr)) in IH.
    by rewrite scan_bytes_next, IH.
Qed.

Lemma length_print_bytes addr : addr ≠ [] → S (length (print_bytes addr)) = (3 * length addr)%nat.
Proof.
  induction addr as [|b addr IH]; intros Hne; [done|]. destruct addr as [|b2 addr]; [done|].
  specialize (IH ltac:(done)).
  change (print_bytes (b :: b2 :: addr)) with (print_02x b ++ ":"%char :: print_bytes (b2 :: addr)).
  rewrite length_app, (length_cons ":"%char). change (length (print_02x b)) with 2%nat.
  rewrite (length_cons b). lia.
Qed.

(** The text form of an address is read back: whatever the six bytes and
    whatever [addr] held, [string_to_bytes] of what [bytes_to_string] prints
    succeeds and stores those bytes. *)
Theorem address_roundtrip b addr :
  Forall is_byte b → length b = 6%nat → length addr = 6%nat →
  ∃ s, bytes_to_string b = Ret s ∧ length s = kStringLength ∧ string_to_bytes (Some s) addr = (true, b).
Proof.
  intros Hb Hl Ha. unfold bytes_to_string. rewrite Hl, take_ge by lia. cbn [Nat.ltb Nat.leb]. exists (print_bytes b).
  assert (Hne : b ≠ []) by by destruct b.
  pose proof (length_print_bytes b Hne) as Hlen.
  assert (Hlen' : length (print_bytes b) = kStringLength) by (unfold kStringLength; lia).
  split; [done|]. split; [done|].
  unfold string_to_bytes. rewrite take_ge by lia. rewrite Hlen'. cbn [Nat.eqb kStringLength negb].
  pose proof (scan_print_bytes b Hb Hne) as Hs. rewrite Hl in Hs. rewrite Hs.
  rewrite drop_ge by lia. by rewrite app_nil_r.
Qed.

Lemma address_roundtrip_witness :
  ∃ s, bytes_to_string [0; 22; 108; 171; 255; 9]%Z = Ret s ∧ length s = kStringLength ∧
       string_to_bytes (Some s) [1; 1; 1; 1; 1; 1]%Z = (true, [0; 22; 108; 171; 255; 9]%Z).
Proof.
  apply address_roundtrip; [|reflexivity|reflexivity].
  apply (bool_decide_unpack _). vm_compute. exact I.
Defined.

(** A longer string is refused, though its bytes are stored; spaces and signs
    are accepted within a field, and "0x" is not. *)
Example string_to_bytes_samples :
  string_to_bytes (Some (cs "00:16:6c:ab:ff:090")) [1; 1; 1; 1; 1; 1]%Z = (false, [0; 22; 108; 171; 255; 9]%Z) ∧
  string_to_bytes (Some (cs " 0:-1:+f: a:00: 01")) [1; 1; 1; 1; 1; 1]%Z = (true, [0; 255; 15; 10; 0; 1]%Z) ∧
  string_to_bytes (Some (cs "0x:16:6c:ab:ff:09")) [1; 1; 1; 1; 1; 1]%Z = (false, [0; 1; 1; 1; 1; 1]%Z).
Proof. repeat split. Qed.

(** * Where the address comes from *)

(** The bytes a text stands for. *)
Definition parse_address (s : cstr) : option (list Z) :=
  if (kStringLength <=? length s)%nat then
    match scan_bytes 6 s with (bs, Some []) => Some bs | _ => None end
  else None.

Lemma scan_bytes_length n s bs r : scan_bytes n s = (bs, r) → (length bs ≤ n)%nat ∧ (r ≠ None → length bs = n).
Proof.
  revert s bs r. induction n as [|n IH]; intros s bs r; cbn [scan_bytes]; [by intros [= <- <-]|].
  destruct (scan_02hhx s) as [[b s1]|]; [|intros [= <- <-]; cbn; split; [lia|done]].
  destruct n as [|n]; [intros [= <- <-]; done|].
  destruct s1 as [|c s1]; [intros [= <- <-]; cbn; split; [lia|done]|].
  destruct (bool_decide (c = ":"%char)); [|intros [= <- <-]; cbn; split; [lia|done]].
  destruct (scan_bytes (S n) s1) as [bs1 r1] eqn:E. intros [= <- <-].
  apply IH in E as [H1 H2]. cbn. split; [lia|]. intros Hr. by rewrite H2.
Qed.

Lemma string_to_bytes_parse s addr :
  length addr = 6%nat →
  length (string_to_bytes (Some s) addr).2 = 6%nat ∧
  match parse_address s with
  | Some bs => string_to_bytes (Some s) addr = (true, bs)
  | None => (string_to_bytes (Some s) addr).1 = false
  end.
Proof.
  intros Ha. unfold string_to_bytes, parse_address. rewrite length_take.
  destruct (Nat.leb_spec kStringLength (length s)) as [Hl|Hl].
  - rewrite Nat.min_l by done. rewrite Nat.eqb_refl. cbn [negb].
    destruct (scan_bytes 6 s) as [bs r] eqn:E. apply scan_bytes_length in E as [H1 H2]. cbn [snd fst].
    split; [rewrite length_app, length_drop; lia|].
    destruct r as [[|c r]|]; try done. rewrite drop_ge by (rewrite H2; [lia|done]). by rewrite app_nil_r.
  - rewrite Nat.min_r by lia. by rewrite (proj2 (Nat.eqb_neq _ _)) by lia.
Qed.

Definition file_candidate (n : Z) (fd : Z) (contents : list ascii) : option (list Z) :=
  if (n =? 0)%Z || (fd =? -1)%Z then None
  else a ← parse_address (c_str_of (take kStringLength contents));
       if bool_decide (a = replicate kBytes 0%Z) then None else Some a.

Definition property_candidate (n : Z) (value : list ascii) : option (list Z) :=
  if (n =? 0)%Z then None else parse_address (c_str_of value).

Definition found (c : option (list Z)) (r : bool * list Z) : Prop :=
  match c with Some a => r = (true, a) | None => r.1 = false end.

#[local] Arguments string_to_bytes : simpl never.
#[local] Arguments parse_address : simpl never.
#[local] Arguments cs : simpl never.

Section local_address.
Context {S : Type} (env : S → string → list arg → resp * S).

Lemma run_property_address key n v addr s :
  length addr = 6%nat →
  answers env "property_get" [AS key] (λ r, r_ret r = n ∧ r_out r = v) →
  ∃ r t s', run env (property_address key addr) s = (Done r, t, s') ∧
    length r.2 = 6%nat ∧ found (property_candidate n v) r.
Proof.
  intros Ha Hp. specialize (Hp s). unfold property_address, property_get, property_candidate.
  cbn. destruct (env s _ _) as [r s1]. cbn in Hp. destruct Hp as [-> ->].
  destruct (n =? 0)%Z; [by eexists _, _, _|].
  destruct (string_to_bytes_parse (c_str_of v) addr Ha) as [Hl Hb].
  eexists _, _, _. split; [reflexivity|]. split; [exact Hl|]. by destruct (parse_address _).
Qed.

Lemma run_file_address path fd contents addr s :
  length addr = 6%nat →
  answers env "open" [AS path; AZ O_RDONLY] (λ r, r_ret r = fd) →
  answers env "read" [AZ fd; AZ 17] (λ r, r_out r = contents) →
  ∃ r t s', run env (file_address path addr) s = (Done r, t, s') ∧
    length r.2 = 6%nat ∧ found (file_candidate 1 fd contents) r.
Proof.
  intros Ha Ho Hr. specialize (Ho s). unfold file_address, file_candidate. cbn -[take replicate].
  destruct (env s _ _) as [r s1]. cbn in Ho. subst fd.
  destruct (Z.eqb_spec (r_ret r) (-1)); [by eexists _, _, _|]. cbn -[take replicate].
  specialize (Hr s1). destruct (env s1 _ _) as [r1 s2]. cbn in Hr. subst contents. step_env.
  destruct (string_to_bytes_parse (c_str_of (take 17 (r_out r1))) addr Ha) as [Hl Hb].
  unfold kStringLength. destruct (string_to_bytes _ addr) as [ok a] eqn:Es. cbn -[take replicate] in *.
  eexists _, _, _. split; [reflexivity|]. split; [exact Hl|]. cbn [fst snd].
  destruct (parse_address _) as [bs|]; cbn [mbind option_bind].
  - injection Hb as -> ->. cbn [andb]. unfold kBytes, kStringLength. rewrite take_ge by (cbn; lia).
    by destruct (bool_decide _).
  - by rewrite Hb.
Qed.

(** The address of the controller is the first usable one: that of the file
    named by ro.bt.bdaddr_path when it can be opened and is not all zeros, then
    the factory property, then the stored one; without any of them the result
    is false. *)
Theorem get_local_address_order path pn fd contents fn fv sn sv addr s :
  length addr = 6%nat →
  answers env "property_get" [AS PROPERTY_BT_BDADDR_PATH] (λ r, r_ret r = pn ∧ c_str_of (r_out r) = path) →
  answers env "open" [AS path; AZ O_RDONLY] (λ r, r_ret r = fd) →
  answers env "read" [AZ fd; AZ 17] (λ r, r_out r = contents) →
  answers env "property_get" [AS FACTORY_BDADDR_PROPERTY] (λ r, r_ret r = fn ∧ r_out r = fv) →
  answers env "property_get" [AS PERSIST_BDADDR_PROPERTY] (λ r, r_ret r = sn ∧ r_out r = sv) →
  ∃ r t s', run env (get_local_address addr) s = (Done r, t, s') ∧
    found (head (omap id [file_candidate pn fd contents; property_candidate fn fv; property_candidate sn sv])) r.
Proof.
  intros Ha Hpath Hopen Hread Hf Hs. unfold get_local_address. rewrite run_bind.
  specialize (Hpath s). unfold property_get. cbn -[property_address file_address].
  destruct (env s _ _) as [r0 s0]. cbn in Hpath. destruct Hpath as [-> ->].
  assert (Hfile : ∃ r t s', run env (if (pn =? 0)%Z then IRet (false, addr) else file_address path addr) s0 =
    (Done r, t, s') ∧ length r.2 = 6%nat ∧ found (file_candidate pn fd contents) r).
  { unfold file_candidate. destruct (pn =? 0)%Z; [by eexists _, _, _|].
    by apply run_file_address. }
  destruct Hfile as ([ok1 a1] & t1 & s1 & E1 & Hl1 & Hfound1). rewrite run_bind, E1. cbn [fst snd] in *.
  destruct (file_candidate pn fd contents) as [a|]; cbn [found omap list_omap id head] in *.
  { injection Hfound1 as -> ->. by eexists _, _, _. }
  cbn [fst] in Hfound1. subst ok1. rewrite run_bind.
  destruct (run_property_address FACTORY_BDADDR_PROPERTY fn fv a1 s1 Hl1 Hf) as ([ok2 a2] & t2 & s2 & E2 & Hl2 & Hfound2).
  rewrite E2. destruct (property_candidate fn fv) as [a|]; cbn [found omap list_omap id head] in *.
  { injection Hfound2 as -> ->. by eexists _, _, _. }
  cbn [fst] in Hfound2. subst ok2.
  destruct (run_property_address PERSIST_BDADDR_PROPERTY sn sv a2 s2 Hl2 Hs) as (r3 & t3 & s3 & E3 & Hl3 & Hfound3).
  rewrite E3. eexists _, _, _. split; [reflexivity|]. by destruct (property_candidate sn sv).
Qed.
End local_address.

(** The file holds zeros, the factory property an address. *)
Definition sample_env (s : unit) (fn : string) (args : list arg) : resp * unit :=
  (match fn, args with
   | "property_get", [AS n] =>
     if streq n PROPERTY_BT_BDADDR_PATH then mkResp 9 0 (cs "/efs/bdad") []
     else if streq n FACTORY_BDADDR_PROPERTY then mkResp 17 0 (cs "02:00:00:44:55:66") []
     else mkResp 0 0 [] []
   | "open", _ => mkResp 3 0 [] []
   | "read", _ => mkResp 17 0 (cs "00:00:00:00:00:00") []
   | _, _ => mkResp 0 0 [] []
   end%string, s).

Lemma get_local_address_order_witness :
  ∃ r t s', run sample_env (get_local_address [0; 0; 0; 0; 0; 0]%Z) tt = (Done r, t, s') ∧
    found (Some [2; 0; 0; 68; 85; 102]%Z) r.
Proof.
  exact (get_local_address_order sample_env (cs "/efs/bdad") 9 3 (cs "00:00:00:00:00:00")
    17 (cs "02:00:00:44:55:66") 0 [] [0; 0; 0; 0; 0; 0]%Z tt eq_refl
    (λ _, conj eq_refl eq_refl) (λ _, eq_refl) (λ _, eq_refl) (λ _, conj eq_refl eq_refl)
    (λ _, conj eq_refl eq_refl)).
Defined.
