(* ===== verification/VendorInterface.v ===== *)
(** hardware/bluetooth/vendor_interface.{h,cc} and bluetooth_hci.{h,cc}: the one
    instance that owns the vendor library and its sockets, the low-power
    protocol of the controller, and the HIDL service in front of it. *)

From Stdlib Require Import ZArith Lia Ascii.
From stdpp Require Import base numbers strings gmap list.
From S2P Require Import Prelude CString Sys BluetoothAddress.

(** Constants of the HAL's and the vendor library's headers. *)
Class HciConstants := {
  HCI_COMMAND_COMPLETE_EVENT : Z;
  HCI_EVENT_PREAMBLE_SIZE : nat;
  HCI_PACKET_TYPE_COMMAND : Z;
  HCI_PACKET_TYPE_EVENT : Z;
  CH_MAX : nat;
  CH_EVT : nat;
  CH_ACL_IN : nat;
  BT_VND_PWR_OFF : Z;
  BT_VND_PWR_ON : Z;
  BT_VND_LPM_DISABLE : Z;
  BT_VND_LPM_ENABLE : Z;
  BT_VND_LPM_WAKE_ASSERT : Z;
  BT_VND_LPM_WAKE_DEASSERT : Z
}.

Definition INVALID_FD : Z := -1.
Definition HCI_DATA_TYPE_COMMAND : Z := 1.
Definition HCI_DATA_TYPE_ACL : Z := 2.
Definition HCI_DATA_TYPE_SCO : Z := 3.

Inductive protocol := H4Protocol | MctProtocol.

(** The members of [VendorInterface]; a null pointer or an empty function is 0. *)
Record VendorInterface := mkVI {
  lib_handle_ : Z;
  lib_interface_ : Z;
  initialize_complete_cb_ : Z;
  event_cb_ : Z;
  hci_ : option protocol;
  firmware_startup_timer_ : bool
}.

(** [new VendorInterface()] zeroes the members. *)
Definition new_VendorInterface : VendorInterface := mkVI 0 0 0 0 None false.

Definition set_lib (v : VendorInterface) (h i : Z) :=
  mkVI h i (initialize_complete_cb_ v) (event_cb_ v) (hci_ v) (firmware_startup_timer_ v).
Definition set_init_cb (v : VendorInterface) (cb : Z) :=
  mkVI (lib_handle_ v) (lib_interface_ v) cb (event_cb_ v) (hci_ v) (firmware_startup_timer_ v).
Definition set_hci (v : VendorInterface) (cb : Z) (p : option protocol) (timer : bool) :=
  mkVI (lib_handle_ v) (lib_interface_ v) (initialize_complete_cb_ v) cb p timer.
Definition set_timer (v : VendorInterface) (timer : bool) := set_hci v (event_cb_ v) (hci_ v) timer.

(** The file's variables. *)
Record globals := mkGlobals {
  g_vendor_interface : option VendorInterface;
  internal_command_cb : Z;
  internal_command_opcode : Z;
  lpm_wake_deasserted : bool;
  lpm_timeout_ms : Z;
  recent_activity_flag : bool
}.

Definition initial_globals : globals := mkGlobals None 0 0 false 0 false.

Definition set_vi (g : globals) (v : option VendorInterface) :=
  mkGlobals v (internal_command_cb g) (internal_command_opcode g) (lpm_wake_deasserted g)
    (lpm_timeout_ms g) (recent_activity_flag g).
Definition set_command (g : globals) (cb opcode : Z) :=
  mkGlobals (g_vendor_interface g) cb opcode (lpm_wake_deasserted g) (lpm_timeout_ms g) (recent_activity_flag g).
Definition set_lpm (g : globals) (deasserted : bool) (timeout : Z) (recent : bool) :=
  mkGlobals (g_vendor_interface g) (internal_command_cb g) (internal_command_opcode g) deasserted timeout recent.

(** [LOG_ALWAYS_FATAL], and an exception nobody catches: abort. *)
Definition fatal {A} : io A := IExit 134.

(** [lib_interface_->op]: undefined through a null pointer. *)
Definition op (v : VendorInterface) (opcode : string) (param : Z) : io resp :=
  if (lib_interface_ v =? 0)%Z then IFault else call "op" [AS (cs opcode); AZ param].
Definition op_ (v : VendorInterface) (opcode : string) (param : Z) : io unit :=
  do! _ := op v opcode param in IRet tt.

Record HC_BT_HDR := mkHdr { h_event : Z; h_len : Z; h_offset : Z; h_layer_specific : Z; h_data : list ascii }.

Definition WrapPacketAndCopy (event : Z) (data : list ascii) : HC_BT_HDR :=
  mkHdr (u16 event) (u16 (Z.of_nat (length data))) 0 0 data.

Section vendor.
Context `{HciConstants}.

(** The opcode a packet answers: read at fixed places, undefined past its end. *)
Definition internal_command_event_match (g : globals) (packet : list ascii) : cres bool :=
  let! event_code := deref (packet !! 0%nat) in
  if negb (ord event_code =? HCI_COMMAND_COMPLETE_EVENT)%Z then Ret false
  else
    let opcode_offset := (HCI_EVENT_PREAMBLE_SIZE + 1)%nat in
    let! lo := deref (packet !! opcode_offset) in
    let! hi := deref (packet !! (opcode_offset + 1)%nat) in
    Ret (Z.lor (ord lo) (Z.shiftl (ord hi) 8) =? internal_command_opcode g)%Z.

(** The descriptors [op] stored, zero where it stored none. *)
Definition fd_list_of (stored : list Z) : list Z := take CH_MAX (stored ++ replicate CH_MAX 0%Z).

Definition watch (fd : Z) : io unit := call_ "WatchFdForNonBlockingReads" [AZ fd].
Definition ConfigureTimeout (ms : Z) : io unit := call_ "ConfigureTimeout" [AZ ms].

(** [Open] from the sockets on. *)
Definition Open_sockets (g : globals) (v : VendorInterface) (event_cb : Z) : io (bool * globals) :=
  do! r := op v "BT_VND_OP_USERIAL_OPEN" 0 in
  let fd_count := r_ret r in
  let fd_list := fd_list_of (r_aux r) in
  if (fd_count <? 1)%Z || (fd_count >? Z.of_nat CH_MAX - 1)%Z then IRet (false, set_vi g (Some v))
  else if existsb (λ fd, fd =? INVALID_FD)%Z (take (Z.to_nat fd_count) fd_list) then
    IRet (false, set_vi g (Some v))
  else
    do! p := (if (fd_count =? 1)%Z then
                watch (nth 0 fd_list 0%Z) ;! IRet H4Protocol
              else
                watch (nth CH_EVT fd_list 0%Z) ;! watch (nth CH_ACL_IN fd_list 0%Z) ;! IRet MctProtocol) in
    let v := set_hci v event_cb (Some p) true in
    op_ v "BT_VND_OP_FW_CFG" 0 ;!
    IRet (true, set_lpm (set_vi g (Some v)) true (lpm_timeout_ms g) (recent_activity_flag g)).

Definition Open (g : globals) (v : VendorInterface) (initialize_complete_cb event_cb : Z) : io (bool * globals) :=
  let v := set_init_cb v initialize_complete_cb in
  do! handle := call_ret "dlopen" [AS (cs "libbt-vendor.so")] in
  let v := set_lib v handle (lib_interface_ v) in
  if (handle =? 0)%Z then call_ "dlerror" [] ;! IRet (false, set_vi g (Some v))
  else
    do! interface := call_ret "dlsym" [AZ handle; AS (cs "BLUETOOTH_VENDOR_LIB_INTERFACE")] in
    let v := set_lib v handle interface in
    if (interface =? 0)%Z then call_ "dlerror" [] ;! IRet (false, set_vi g (Some v))
    else
      do! (ok, local_bda) := get_local_address (replicate kBytes 0%Z) in
      if negb ok then fatal
      else
        do! status := call_ret "init" [AB (chr <$> local_bda)] in
        if negb (status =? 0)%Z then IRet (false, set_vi g (Some v))
        else
          op_ v "BT_VND_OP_POWER_CTRL" BT_VND_PWR_ON ;!
          Open_sockets g v event_cb.

Definition Initialize (g : globals) (initialize_complete_cb event_cb : Z) : io (bool * globals) :=
  match g_vendor_interface g with
  | Some _ => IRet (false, g)
  | None => Open g new_VendorInterface initialize_complete_cb event_cb
  end.

Definition when (b : bool) (m : io unit) : io unit := if b then m else IRet tt.

Definition Close (v : VendorInterface) : io unit :=
  when (negb (lib_interface_ v =? 0)%Z) (op_ v "BT_VND_OP_LPM_SET_MODE" BT_VND_LPM_DISABLE) ;!
  call_ "StopWatchingFileDescriptors" [] ;!
  when (negb (lib_interface_ v =? 0)%Z)
    (op_ v "BT_VND_OP_USERIAL_CLOSE" 0 ;!
     op_ v "BT_VND_OP_POWER_CTRL" BT_VND_PWR_OFF ;!
     call_ "cleanup" []) ;!
  when (negb (lib_handle_ v =? 0)%Z) (call_ "dlclose" [AZ (lib_handle_ v)]).

Definition Shutdown (g : globals) : io globals :=
  match g_vendor_interface g with
  | None => fatal
  | Some v => Close v ;! IRet (set_vi g None)
  end.

Definition Send (g : globals) (type : Z) (data : list ascii) : io (Z * globals) :=
  do! v := of_cres (deref (g_vendor_interface g)) in
  do! g := (if lpm_wake_deasserted g then
              ConfigureTimeout (lpm_timeout_ms g) ;!
              op_ v "BT_VND_OP_LPM_WAKE_SET_STATE" BT_VND_LPM_WAKE_ASSERT ;!
              IRet (set_lpm g false (lpm_timeout_ms g) true)
            else IRet (set_lpm g false (lpm_timeout_ms g) true)) in
  match hci_ v with
  | None => IFault
  | Some _ => do! n := call_ret "hci_Send" [AZ type; AB data] in IRet (n, g)
  end.

Definition OnFirmwareConfigured (g : globals) (result : Z) : io globals :=
  do! v := of_cres (deref (g_vendor_interface g)) in
  let cb := initialize_complete_cb_ v in
  when (negb (cb =? 0)%Z) (call_ "initialize_complete_cb" [AZ cb; AZ (if (result =? 0)%Z then 1 else 0)]) ;!
  let v := set_init_cb (set_timer v false) 0 in
  op_ v "BT_VND_OP_SCO_CFG" 0 ;!
  do! r := op v "BT_VND_OP_GET_LPM_IDLE_TIMEOUT" (lpm_timeout_ms g) in
  let timeout := u32 (nth 0 (r_aux r) (lpm_timeout_ms g)) in
  op_ v "BT_VND_OP_LPM_SET_MODE" BT_VND_LPM_ENABLE ;!
  ConfigureTimeout timeout ;!
  IRet (set_lpm (set_vi g (Some v)) (lpm_wake_deasserted g) timeout (recent_activity_flag g)).

Definition OnTimeout (g : globals) : io globals :=
  if recent_activity_flag g then IRet (set_lpm g (lpm_wake_deasserted g) (lpm_timeout_ms g) false)
  else
    do! v := of_cres (deref (g_vendor_interface g)) in
    op_ v "BT_VND_OP_LPM_WAKE_SET_STATE" BT_VND_LPM_WAKE_DEASSERT ;!
    ConfigureTimeout 0 ;!
    IRet (set_lpm g true (lpm_timeout_ms g) false).

(** The callback of an internal command may itself send: what it does to the
    variables comes after [internal_command.cb] is cleared. *)
Definition HandleIncomingEvent (g : globals) (hci_packet : list ascii) : io globals :=
  do! internal := (if (internal_command_cb g =? 0)%Z then IRet false
                   else of_cres (internal_command_event_match g hci_packet)) in
  if internal : bool then
    let bt_hdr := WrapPacketAndCopy HCI_PACKET_TYPE_EVENT hci_packet in
    let saved_cb := internal_command_cb g in
    let g := set_command g 0 (internal_command_opcode g) in
    call_ "int_cmd_cback" [AZ saved_cb; AZ (h_event bt_hdr); AZ (h_len bt_hdr); AB (h_data bt_hdr)] ;!
    IRet g
  else
    do! v := of_cres (deref (g_vendor_interface g)) in
    if (event_cb_ v =? 0)%Z then fatal
    else call_ "event_cb" [AZ (event_cb_ v); AB hci_packet] ;! IRet g.

(** The library sends a command and is told of its completion. *)
Definition transmit_cb (g : globals) (opcode : Z) (buffer : HC_BT_HDR) (callback : Z) : io (Z * globals) :=
  let g := set_command g callback (u16 opcode) in
  do! (_, g) := Send g HCI_PACKET_TYPE_COMMAND (take (Z.to_nat (h_len buffer)) (h_data buffer)) in
  IRet (1%Z, g).

Definition firmware_config_cb (g : globals) (result : Z) : io globals := OnFirmwareConfigured g (u8 result).

(** * The HIDL service *)

Record BluetoothHci := mkHci { unlink_cb_ : Z; has_died_ : bool }.

Definition hci_initialize (b : BluetoothHci) (g : globals) (cb : Z) : io (BluetoothHci * globals) :=
  if (cb =? 0)%Z then IRet (b, g)
  else
    call_ "linkToDeath" [AZ cb] ;!
    do! (rc, g) := Initialize g cb cb in
    when (negb rc) (call_ "initializationComplete" [AZ cb; AS (cs "INITIALIZATION_ERROR")]) ;!
    IRet (mkHci cb false, g).

Definition hci_close (b : BluetoothHci) (g : globals) : io (BluetoothHci * globals) :=
  (if (unlink_cb_ b =? 0)%Z then fatal
   else when (negb (has_died_ b)) (call_ "unlinkToDeath" [AZ (unlink_cb_ b)])) ;!
  do! g := Shutdown g in IRet (b, g).

Definition serviceDied (b : BluetoothHci) (g : globals) : io (BluetoothHci * globals) :=
  hci_close (mkHci (unlink_cb_ b) true) g.

Definition sendDataToController (g : globals) (type : Z) (data : list ascii) : io globals :=
  do! (_, g) := Send g type data in IRet g.

Definition sendHciCommand (g : globals) (command : list ascii) : io globals :=
  sendDataToController g HCI_DATA_TYPE_COMMAND command.
Definition sendAclData (g : globals) (data : list ascii) : io globals :=
  sendDataToController g HCI_DATA_TYPE_ACL data.
Definition sendScoData (g : globals) (data : list ascii) : io globals :=
  sendDataToController g HCI_DATA_TYPE_SCO data.
End vendor.

(** * The low-power protocol *)

(** What the chip and the timer see. *)
Inductive lpm := Assert | Deassert | Packet (data : list ascii) | Timer (ms : Z).

Definition lpm_event `{HciConstants} (e : event) : option lpm :=
  match ev_args e with
  | [AS n; AZ p] =>
    if bool_decide (ev_fn e = "op") && bool_decide (n = cs "BT_VND_OP_LPM_WAKE_SET_STATE") then
      Some (if (p =? BT_VND_LPM_WAKE_ASSERT)%Z then Assert else Deassert)
    else None
  | [AZ _; AB d] => if bool_decide (ev_fn e = "hci_Send") then Some (Packet d) else None
  | [AZ ms] => if bool_decide (ev_fn e = "ConfigureTimeout") then Some (Timer ms) else None
  | _ => None
  end.

(** The chip wakes only from sleep and gets packets only awake; the result says
    whether it is awake at the end. *)
Fixpoint chip (awake : bool) (l : list lpm) : option bool :=
  match l with
  | [] => Some awake
  | Assert :: l => if awake then None else chip true l
  | Deassert :: l => chip false l
  | Packet _ :: l => if awake then chip awake l else None
  | Timer _ :: l => chip awake l
  end.

Definition packets (l : list lpm) : list (list ascii) :=
  omap (λ e, match e with Packet d => Some d | _ => None end) l.

Definition timer_after (ms : Z) (l : list lpm) : Z :=
  foldl (λ ms e, match e with Timer ms => ms | _ => ms end) ms l.

Lemma chip_app awake l1 l2 : chip awake (l1 ++ l2) = a ← chip awake l1; chip a l2.
Proof.
  revert awake. induction l1 as [|e l1 IH]; intros awake; [done|].
  destruct e; cbn [app chip]; rewrite ?IH; destruct awake; try done; by rewrite IH.
Qed.

(** What the clients and the timer do. *)
Inductive lpm_act := ASend (type : Z) (data : list ascii) | ATimeout.

Definition sends (acts : list lpm_act) : list (list ascii) :=
  omap (λ a, match a with ASend _ d => Some d | ATimeout => None end) acts.

Definition act `{HciConstants} (g : globals) (a : lpm_act) : io globals :=
  match a with
  | ASend type data => sendDataToController g type data
  | ATimeout => OnTimeout g
  end.

Fixpoint run_acts `{HciConstants} (g : globals) (acts : list lpm_act) : io globals :=
  match acts with
  | [] => IRet g
  | a :: acts => do! g := act g a in run_acts g acts
  end.

#[local] Arguments cs : simpl never.

Section lpm.
Context `{HciConstants} {S : Type} (env : S → string → list arg → resp * S).
Hypothesis wake_states_differ : BT_VND_LPM_WAKE_DEASSERT ≠ BT_VND_LPM_WAKE_ASSERT.

(** An interface that is open. *)
Definition opened (g : globals) : Prop :=
  ∃ v p, g_vendor_interface g = Some v ∧ lib_interface_ v ≠ 0%Z ∧ hci_ v = Some p.

(** One action: the chip's discipline, the packet, the timer. *)
Definition lpm_step_ok (g g' : globals) (timer : Z) (l : list lpm) (ds : list (list ascii)) : Prop :=
  opened g' ∧ lpm_timeout_ms g' = lpm_timeout_ms g ∧
  chip (negb (lpm_wake_deasserted g)) l = Some (negb (lpm_wake_deasserted g')) ∧ packets l = ds ∧
  (lpm_wake_deasserted g' = false → timer_after timer l = lpm_timeout_ms g).

Lemma act_ok g a timer s :
  opened g → (lpm_wake_deasserted g = false → timer = lpm_timeout_ms g) →
  ∃ g' t s', run env (act g a) s = (Done g', t, s') ∧ lpm_step_ok g g' timer (omap lpm_event t) (sends [a]).
Proof.
  intros (v & p & Hv & Hlib & Hp) Ht. apply Z.eqb_neq in Hlib as Hlib'. destruct a as [type data|]; cbn [act].
  - unfold sendDataToController, Send, op_, op. rewrite Hv. cbn. rewrite Hlib', Hp.
    destruct (lpm_wake_deasserted g) eqn:Ew; cbn; repeat step_env; eexists _, _, _; split; try reflexivity;
      unfold lpm_step_ok; cbn; rewrite Ew; cbn; rewrite ?Z.eqb_refl; cbn;
      (split; [exists v, p; done|]); (split; [done|]); (split; [done|]); (split; [done|]); auto.
  - unfold OnTimeout, op_, op. destruct (recent_activity_flag g) eqn:Er.
    + cbn. eexists _, _, _. split; [reflexivity|]. unfold lpm_step_ok. cbn. split_and!; try done.
      by exists v, p.
    + rewrite Hv. cbn. rewrite Hlib'. cbn. repeat step_env. eexists _, _, _. split; [reflexivity|].
      unfold lpm_step_ok. cbn. apply Z.eqb_neq in wake_states_differ. rewrite wake_states_differ. cbn.
      split_and!; try done. by exists v, p.
Qed.

Lemma timer_after_app ms l1 l2 : timer_after ms (l1 ++ l2) = timer_after (timer_after ms l1) l2.
Proof. apply foldl_app. Qed.

Lemma sends_cons a acts : sends (a :: acts) = sends [a] ++ sends acts.
Proof. by destruct a. Qed.


(** A time-out that finds a packet was sent since the last one only clears the
    mark. *)
Lemma timeout_after_send g type data s :
  opened g →
  ∃ g' t s', run env (do! g := act g (ASend type data) in act g ATimeout) s = (Done g', t, s') ∧
    last (omap lpm_event t) = Some (Packet data) ∧ recent_activity_flag g' = false ∧
    lpm_wake_deasserted g' = false.
Proof.
  intros (v & p & Hv & Hlib & Hp). apply Z.eqb_neq in Hlib as Hlib'. cbn [act].
  unfold sendDataToController, Send, op_, op. rewrite run_bind, Hv. cbn. rewrite Hlib', Hp.
  destruct (lpm_wake_deasserted g) eqn:Ew; cbn; repeat step_env; eexists _, _, _; split; try reflexivity;
    cbn; rewrite ?Z.eqb_refl; repeat split; done.
Qed.

(** An event that is not the answer to the pending internal command, or when none
    is pending, goes to the client and changes nothing; the answer goes to the
    callback only, and no command is pending any more. *)
Lemma event_routed g packet s b :
  opened g → (∀ v, g_vendor_interface g = Some v → event_cb_ v ≠ 0%Z) →
  internal_command_event_match g packet = Ret b →
  ∃ g' e s', run env (HandleIncomingEvent g packet) s = (Done g', [e], s') ∧
    if b && negb (internal_command_cb g =? 0)%Z
    then ev_fn e = "int_cmd_cback" ∧ internal_command_cb g' = 0%Z
    else ev_fn e = "event_cb" ∧ g' = g.
Proof.
  intros (v & p & Hv & _ & _) Hcb Hm. specialize (Hcb v Hv). apply Z.eqb_neq in Hcb.
  unfold HandleIncomingEvent. destruct (internal_command_cb g =? 0)%Z eqn:Ecb.
  - cbn. rewrite Hv. cbn. rewrite Hcb. cbn. step_env. rewrite andb_false_r. eauto 10.
  - rewrite Hm. destruct b; cbn; [step_env; eauto 10|]. rewrite Hv. cbn. rewrite Hcb. cbn. step_env. eauto 10.
Qed.
End lpm.

(** An empty event with a command pending is read past its end. *)
Example empty_event_read `{HciConstants} g : internal_command_event_match g [] = Fault.
Proof. reflexivity. Qed.

(** After an [Open] that failed, [Initialize] fails until [Shutdown]. *)
Lemma initialize_again `{HciConstants} {S} (env : S → string → list arg → resp * S) g v cb1 cb2 s :
  g_vendor_interface g = Some v → run env (Initialize g cb1 cb2) s = (Done (false, g), [], s).
Proof. intros Hv. unfold Initialize. by rewrite Hv. Qed.

Section sample.
#[local] Instance sample_constants : HciConstants :=
  {| HCI_COMMAND_COMPLETE_EVENT := 14; HCI_EVENT_PREAMBLE_SIZE := 2; HCI_PACKET_TYPE_COMMAND := 1;
     HCI_PACKET_TYPE_EVENT := 4; CH_MAX := 4; CH_EVT := 1; CH_ACL_IN := 3; BT_VND_PWR_OFF := 0;
     BT_VND_PWR_ON := 1; BT_VND_LPM_DISABLE := 0; BT_VND_LPM_ENABLE := 1; BT_VND_LPM_WAKE_ASSERT := 0;
     BT_VND_LPM_WAKE_DEASSERT := 1 |}.

Definition quiet_env (s : unit) (fn : string) (args : list arg) : resp * unit := (mkResp 0 0 [] [], s).

Definition sample_globals : globals :=
  mkGlobals (Some (mkVI 1 2 0 3 (Some H4Protocol) false)) 0 0 true 250 false.

End sample.
