(* ===== verification/Gnss.v ===== *)
(** hardware/gnss/{Gnss,GnssUtils}.cpp: the GNSS service between the client's
    callbacks and the legacy driver: conversion of locations and satellites, the
    wake lock shared by two drivers, the extensions and the death of the client.
    Floating-point numbers are only handed on: they are their bits. *)

From Stdlib Require Import ZArith Lia Ascii.
From stdpp Require Import base numbers strings gmap list.
From S2P Require Import Prelude CString Sys.

Definition i16 (z : Z) : Z := (z + 2 ^ 15) `mod` 2 ^ 16 - 2 ^ 15.

(** * GnssUtils *)

Record GpsLocation := mkGpsLocation {
  l_flags : Z; l_latitude : Z; l_longitude : Z; l_altitude : Z; l_speed : Z; l_bearing : Z; l_accuracy : Z; l_timestamp : Z
}.

Record GnssLocation := mkGnssLocation {
  gnssLocationFlags : Z; latitudeDegrees : Z; longitudeDegrees : Z; altitudeMeters : Z; speedMetersPerSec : Z;
  bearingDegrees : Z; horizontalAccuracyMeters : Z; verticalAccuracyMeters : Z;
  speedAccuracyMetersPerSecond : Z; bearingAccuracyDegrees : Z; timestamp : Z
}.

Definition convertToGnssLocation (location : option GpsLocation) : GnssLocation :=
  match location with
  | Some l => mkGnssLocation (Z.land (l_flags l) 0x1f) (l_latitude l) (l_longitude l) (l_altitude l) (l_speed l)
                (l_bearing l) (l_accuracy l) 0 0 0 (l_timestamp l)
  | None => mkGnssLocation 0 0 0 0 0 0 0 0 0 0 0
  end.

Definition GPS_LOCATION_HAS_LAT_LONG : Z := 1.
Definition GPS_LOCATION_HAS_ALTITUDE : Z := 2.
Definition GPS_LOCATION_HAS_SPEED : Z := 4.
Definition GPS_LOCATION_HAS_BEARING : Z := 8.
Definition GPS_LOCATION_HAS_HORIZONTAL_ACCURACY : Z := 16.

(** The flags of fused_location.h, which is not part of the repository, in the
    order of the tests. *)
Record flp_flags := mkFlpFlags { has_lat_long : Z; has_altitude : Z; has_speed : Z; has_bearing : Z; has_accuracy : Z }.

Definition if_flag (flags bit : Z) (out : Z) (acc : Z) : Z :=
  if (Z.land flags bit =? 0)%Z then acc else Z.lor acc out.

Definition convertFlpToGnssLocation (F : flp_flags) (location : option GpsLocation) : GnssLocation :=
  match location with
  | Some l =>
    mkGnssLocation
      (if_flag (l_flags l) (has_accuracy F) GPS_LOCATION_HAS_HORIZONTAL_ACCURACY
        (if_flag (l_flags l) (has_bearing F) GPS_LOCATION_HAS_BEARING
          (if_flag (l_flags l) (has_speed F) GPS_LOCATION_HAS_SPEED
            (if_flag (l_flags l) (has_altitude F) GPS_LOCATION_HAS_ALTITUDE
              (if_flag (l_flags l) (has_lat_long F) GPS_LOCATION_HAS_LAT_LONG 0)))))
      (l_latitude l) (l_longitude l) (l_altitude l) (l_speed l) (l_bearing l) (l_accuracy l) 0 0 0 (l_timestamp l)
  | None => mkGnssLocation 0 0 0 0 0 0 0 0 0 0 0
  end.

(** * Satellites *)

Definition GNSS_MAX_SVS_COUNT : Z := 64.
Definition GPS_MAX_SVS : nat := 32.

Inductive GnssConstellationType := UNKNOWN | GPS | SBAS | GLONASS | QZSS | BEIDOU | GALILEO.

Definition HAS_EPHEMERIS_DATA : Z := 1.
Definition HAS_ALMANAC_DATA : Z := 2.
Definition USED_IN_FIX : Z := 4.
Definition HAS_CARRIER_FREQUENCY : Z := 8.

Definition GLONASS_SVID_OFFSET : Z := 64.
Definition GLONASS_SVID_COUNT : Z := 24.
Definition BEIDOU_SVID_OFFSET : Z := 200.
Definition BEIDOU_SVID_COUNT : Z := 35.
Definition SBAS_SVID_MIN : Z := 33.
Definition SBAS_SVID_MAX : Z := 64.
Definition SBAS_SVID_ADD : Z := 87.
Definition QZSS_SVID_MIN : Z := 193.
Definition QZSS_SVID_MAX : Z := 200.

Record GpsSvInfo := mkGpsSvInfo { prn : Z; snr : Z; elevation : Z; azimuth : Z }.
Record GpsSvStatus := mkGpsSvStatus {
  num_svs : Z; sv_list : list GpsSvInfo; ephemeris_mask : Z; almanac_mask : Z; used_in_fix_mask : Z
}.

Record GnssSvInfo := mkGnssSvInfo {
  svid : Z; constellation : GnssConstellationType; cN0Dbhz : Z; elevationDegrees : Z; azimuthDegrees : Z;
  svFlag : Z; carrierFrequencyHz : option Z   (** [None]: not written *)
}.

(** The constellation of a number and the number in it. *)
Definition classify (svid : Z) : GnssConstellationType * Z :=
  (if (1 <=? svid) && (svid <=? 32) then (GPS, svid)
   else if (GLONASS_SVID_OFFSET <? svid) && (svid <=? GLONASS_SVID_OFFSET + GLONASS_SVID_COUNT)
   then (GLONASS, i16 (svid - GLONASS_SVID_OFFSET))
   else if (BEIDOU_SVID_OFFSET <? svid) && (svid <=? BEIDOU_SVID_OFFSET + BEIDOU_SVID_COUNT)
   then (BEIDOU, i16 (svid - BEIDOU_SVID_OFFSET))
   else if (SBAS_SVID_MIN <=? svid) && (svid <=? SBAS_SVID_MAX) then (SBAS, i16 (svid + SBAS_SVID_ADD))
   else if (QZSS_SVID_MIN <=? svid) && (svid <=? QZSS_SVID_MAX) then (QZSS, svid)
   else (UNKNOWN, svid))%Z.

(** [svidMask] is an int; the masks are unsigned. *)
Definition mask_flag (mask svidMask flag acc : Z) : Z :=
  if (Z.land mask (u32 svidMask) =? 0)%Z then acc else Z.lor acc flag.

Definition gps_sv (s : GpsSvStatus) (i : GpsSvInfo) : GnssSvInfo :=
  let '(c, id) := classify (i16 (prn i)) in
  let flags := match c with
               | GPS =>
                 let svidMask := i32 (Z.shiftl 1 (id - 1)) in
                 mask_flag (used_in_fix_mask s) svidMask USED_IN_FIX
                   (mask_flag (almanac_mask s) svidMask HAS_ALMANAC_DATA
                     (mask_flag (ephemeris_mask s) svidMask HAS_EPHEMERIS_DATA 0))
               | _ => 0%Z
               end in
  mkGnssSvInfo id c (snr i) (elevation i) (azimuth i) flags None.

(** The number of entries, an unsigned number, no more than the message can hold. *)
Definition clamp_svs (n : Z) : Z := if (u32 n >? GNSS_MAX_SVS_COUNT)%Z then GNSS_MAX_SVS_COUNT else u32 n.

(** The loop over the entries of an array. *)
Fixpoint convert_list {A B} (f : A → B) (l : list A) (i n : nat) : cres (list B) :=
  match n with
  | O => Ret []
  | S n =>
    let! x := deref (l !! i) in
    let! r := convert_list f l (S i) n in
    Ret (f x :: r)
  end.

Definition gps_svs (s : GpsSvStatus) : cres (list GnssSvInfo) :=
  convert_list (gps_sv s) (sv_list s) 0 (Z.to_nat (clamp_svs (num_svs s))).

(** The entries of the newer status, with the same fields. *)
Record LegacySv := mkLegacySv { g_svid : Z; g_constellation : GnssConstellationType; g_cn0 : Z; g_elevation : Z; g_azimuth : Z; g_flags : Z }.

Definition gnss_sv (i : LegacySv) : GnssSvInfo :=
  mkGnssSvInfo (g_svid i) (g_constellation i) (g_cn0 i) (g_elevation i) (g_azimuth i)
    (Z.land (g_flags i) (Z.lnot HAS_CARRIER_FREQUENCY) mod 2 ^ 8) (Some 0%Z).

Definition gnss_svs (n : Z) (l : list LegacySv) : cres (list GnssSvInfo) :=
  convert_list gnss_sv l 0 (Z.to_nat (clamp_svs n)).

(** * The service *)

Record gnss := mkGnss {
  mGnssIface : bool;
  sGnssCbIface : option Z;
  sWakelockHeldGnss : bool;
  sWakelockHeldFused : bool;
  sWakelockHeld : bool;           (** static of [updateWakelock] *)
  sCapabilitiesCached : Z;
  sYearOfHwCached : Z;
  extensions : gset string        (** the objects made so far *)
}.

Definition set_cb c (s : gnss) := mkGnss (mGnssIface s) c (sWakelockHeldGnss s) (sWakelockHeldFused s) (sWakelockHeld s)
  (sCapabilitiesCached s) (sYearOfHwCached s) (extensions s).
Definition set_held_gnss b (s : gnss) := mkGnss (mGnssIface s) (sGnssCbIface s) b (sWakelockHeldFused s) (sWakelockHeld s)
  (sCapabilitiesCached s) (sYearOfHwCached s) (extensions s).
Definition set_held_fused b (s : gnss) := mkGnss (mGnssIface s) (sGnssCbIface s) (sWakelockHeldGnss s) b (sWakelockHeld s)
  (sCapabilitiesCached s) (sYearOfHwCached s) (extensions s).
Definition set_held b (s : gnss) := mkGnss (mGnssIface s) (sGnssCbIface s) (sWakelockHeldGnss s) (sWakelockHeldFused s) b
  (sCapabilitiesCached s) (sYearOfHwCached s) (extensions s).
Definition set_capabilities z (s : gnss) := mkGnss (mGnssIface s) (sGnssCbIface s) (sWakelockHeldGnss s)
  (sWakelockHeldFused s) (sWakelockHeld s) z (sYearOfHwCached s) (extensions s).
Definition set_year z (s : gnss) := mkGnss (mGnssIface s) (sGnssCbIface s) (sWakelockHeldGnss s)
  (sWakelockHeldFused s) (sWakelockHeld s) (sCapabilitiesCached s) z (extensions s).
Definition add_extension e (s : gnss) := mkGnss (mGnssIface s) (sGnssCbIface s) (sWakelockHeldGnss s)
  (sWakelockHeldFused s) (sWakelockHeld s) (sCapabilitiesCached s) (sYearOfHwCached s) ({[e]} ∪ extensions s).

(** A call of the client's interface, if there is one; its failure is only logged. *)
Definition with_cb (s : gnss) (m : Z → io gnss) : io gnss :=
  match sGnssCbIface s with None => IRet s | Some cb => m cb end.

Definition cb_call (cb : Z) (fn : string) (args : list arg) (s : gnss) : io gnss :=
  call_ ("cb." +:+ fn) (AZ cb :: args) ;! IRet s.

Definition location_args (l : GnssLocation) : list arg :=
  AZ <$> [gnssLocationFlags l; latitudeDegrees l; longitudeDegrees l; altitudeMeters l; speedMetersPerSec l;
          bearingDegrees l; horizontalAccuracyMeters l; verticalAccuracyMeters l; speedAccuracyMetersPerSecond l;
          bearingAccuracyDegrees l; timestamp l].

Definition constellation_number (c : GnssConstellationType) : Z :=
  match c with UNKNOWN => 0 | GPS => 1 | SBAS => 2 | GLONASS => 3 | QZSS => 4 | BEIDOU => 5 | GALILEO => 6 end.
Definition sv_args (i : GnssSvInfo) : list arg :=
  AZ <$> [svid i; constellation_number (constellation i); cN0Dbhz i; elevationDegrees i; azimuthDegrees i; svFlag i].

Definition locationCb (location : option GpsLocation) (s : gnss) : io gnss :=
  with_cb s (λ cb, match location with
                   | None => IRet s
                   | Some _ => cb_call cb "gnssLocationCb" (location_args (convertToGnssLocation location)) s
                   end).
Definition statusCb (status : option Z) (s : gnss) : io gnss :=
  with_cb s (λ cb, match status with None => IRet s | Some z => cb_call cb "gnssStatusCb" [AZ z] s end).
Definition gpsSvStatusCb (status : option GpsSvStatus) (s : gnss) : io gnss :=
  with_cb s (λ cb, match status with
                   | None => IRet s
                   | Some st => do! l := of_cres (gps_svs st) in cb_call cb "gnssSvStatusCb" (l ≫= sv_args) s
                   end).
Definition gnssSvStatusCb (status : option (Z * list LegacySv)) (s : gnss) : io gnss :=
  with_cb s (λ cb, match status with
                   | None => IRet s
                   | Some (n, l) => do! l := of_cres (gnss_svs n l) in cb_call cb "gnssSvStatusCb" (l ≫= sv_args) s
                   end).

(** [nmea]: the characters that can be read; the one at [length] decides whether
    the string is copied up to its end or handed on. *)
Definition nmeaCb (time : Z) (nmea : list ascii) (len : nat) (s : gnss) : io gnss :=
  with_cb s (λ cb,
    do! last := of_cres (deref (nmea !! len)) in
    do! text := (if bool_decide (last = NUL) then IRet (take len nmea)
                 else if bool_decide (NUL ∈ nmea) then IRet (c_str_of nmea) else IFault) in
    cb_call cb "gnssNmeaCb" [AZ time; AS text] s).

Definition setCapabilitiesCb (capabilities : Z) (s : gnss) : io gnss :=
  with_cb s (λ cb, do! s := cb_call cb "gnssSetCapabilitesCb" [AZ capabilities] s in IRet (set_capabilities capabilities s)).
Definition setSystemInfoCb (year : option Z) (s : gnss) : io gnss :=
  with_cb s (λ cb, match year with
                   | None => IRet s
                   | Some y => do! s := cb_call cb "gnssSetSystemInfoCb" [AZ y] s in IRet (set_year y s)
                   end).
Definition requestUtcTimeCb (s : gnss) : io gnss := with_cb s (λ cb, cb_call cb "gnssRequestTimeCb" [] s).

(** The function run without interruption; it takes no lock, and [GnssWakelock] runs
    it load by load and store by store, by several threads. *)
Definition updateWakelock (s : gnss) : io gnss :=
  with_cb s (λ cb,
    if sWakelockHeldGnss s || sWakelockHeldFused s then
      if negb (sWakelockHeld s) then cb_call cb "gnssAcquireWakelockCb" [] (set_held true s) else IRet s
    else cb_call cb "gnssReleaseWakelockCb" [] (set_held false s)).

Definition acquireWakelockGnss (s : gnss) : io gnss := updateWakelock (set_held_gnss true s).
Definition releaseWakelockGnss (s : gnss) : io gnss := updateWakelock (set_held_gnss false s).
Definition acquireWakelockFused (s : gnss) : io gnss := updateWakelock (set_held_fused true s).
Definition releaseWakelockFused (s : gnss) : io gnss := updateWakelock (set_held_fused false s).

(** A call of the driver whose result is compared with 0. *)
Definition iface_ok (s : gnss) (fn : string) (args : list arg) : io bool :=
  if negb (mGnssIface s) then IRet false
  else do! r := call_ret ("iface." +:+ fn) args in IRet (r =? 0)%Z.
Definition iface_void (s : gnss) (fn : string) (args : list arg) : io unit :=
  if negb (mGnssIface s) then IRet tt else call_ ("iface." +:+ fn) args.

Definition setCallback (callback : option Z) (s : gnss) : io (bool * gnss) :=
  if negb (mGnssIface s) then IRet (false, s)
  else
    match callback with
    | None => IRet (false, s)
    | Some cb =>
      match sGnssCbIface s with Some old => call_ "cb.unlinkToDeath" [AZ old] | None => IRet tt end ;!
      call_ "cb.linkToDeath" [AZ cb] ;!
      let s := set_cb (Some cb) s in
      do! s := (if negb (sCapabilitiesCached s =? 0)%Z then setCapabilitiesCb (sCapabilitiesCached s) s else IRet s) in
      do! s := (if negb (sYearOfHwCached s =? 0)%Z then setSystemInfoCb (Some (sYearOfHwCached s)) s else IRet s) in
      do! r := call_ret "iface.init" [] in
      IRet ((r =? 0)%Z, s)
    end.

Definition start (s : gnss) : io bool := iface_ok s "start" [].
Definition stop (s : gnss) : io bool := iface_ok s "stop" [].
Definition cleanup (s : gnss) : io unit := iface_void s "cleanup" [].
Definition injectLocation (latitude longitude accuracy : Z) (s : gnss) : io bool :=
  iface_ok s "inject_location" [AZ latitude; AZ longitude; AZ accuracy].
Definition injectTime (timeMs timeReferenceMs uncertaintyMs : Z) (s : gnss) : io bool :=
  iface_ok s "inject_time" [AZ timeMs; AZ timeReferenceMs; AZ uncertaintyMs].
Definition deleteAidingData (flags : Z) (s : gnss) : io unit := iface_void s "delete_aiding_data" [AZ (u16 flags)].
Definition setPositionMode (mode recurrence interval accuracy time : Z) (s : gnss) : io bool :=
  iface_ok s "set_position_mode" [AZ mode; AZ recurrence; AZ interval; AZ accuracy; AZ time].

(** The getters of the extensions: the object is made the first time the driver
    has the interface; [true]: there is an object. *)
Definition get_extension (name : string) (s : gnss) : io (bool * gnss) :=
  if negb (mGnssIface s) then IRet (false, s)
  else if bool_decide (name ∈ extensions s) then IRet (true, s)
  else
    do! p := call_ret "iface.get_extension" [AS (cs name)] in
    if (p =? 0)%Z then IRet (false, s) else IRet (true, add_extension name s).

Definition getExtensionAGnssRil := get_extension "agps_ril".
Definition getExtensionGnssConfiguration := get_extension "gnss_configuration".
Definition getExtensionGnssGeofencing := get_extension "gps_geofencing".
Definition getExtensionAGnss := get_extension "agps".
Definition getExtensionGnssNi := get_extension "gps-ni".
Definition getExtensionGnssMeasurement := get_extension "gps_measurement".
Definition getExtensionGnssNavigationMessage := get_extension "gps_navigation_message".
Definition getExtensionXtra := get_extension "gps-xtra".
Definition getExtensionGnssDebug := get_extension "gps-debug".

(** The driver of the batches is another module: its handle and whether it has
    methods, its device, its interface. *)
Definition getExtensionGnssBatching (s : gnss) : io (bool * gnss) :=
  if negb (mGnssIface s) then IRet (false, s)
  else if bool_decide ("batching"%string ∈ extensions s) then IRet (true, s)
  else
    do! m := call "hw_get_module" [AS (cs "flp")] in
    do! iface :=
      (if negb (r_ret m =? 0)%Z then IRet 0%Z
       else if (nth 0 (r_aux m) 0 =? 0)%Z then IRet 0%Z
       else if (nth 1 (r_aux m) 0 =? 0)%Z then IRet 0%Z
       else
         do! err := call_ret "flp.open" [] in
         if negb (err =? 0)%Z then IRet 0%Z else call_ret "flp.get_flp_interface" []) in
    if (iface =? 0)%Z then IRet (false, s) else IRet (true, add_extension "batching" s).

Definition handleHidlDeath (s : gnss) : io gnss :=
  do! _ := stop s in
  let if_made (e : string) (m : io unit) : io unit := if bool_decide (e ∈ extensions s) then m else IRet tt in
  if_made "gps_measurement"%string (call_ "measurement.close" []) ;!
  if_made "gps_navigation_message"%string (call_ "navigation_message.close" []) ;!
  if_made "batching"%string (call_ "batching.stop" [] ;! call_ "batching.cleanup" []) ;!
  cleanup s ;!
  IRet (set_cb None s).

(** * What the client is told about satellites *)

(** The number a satellite had before the conversion. *)
Definition prn_of (o : GnssSvInfo) : option Z :=
  match constellation o with
  | GPS | QZSS => Some (svid o)
  | GLONASS => Some (svid o + 64)%Z
  | BEIDOU => Some (svid o + 200)%Z
  | SBAS => Some (svid o - 87)%Z
  | UNKNOWN | GALILEO => None
  end.

(** The numbers gps.h documents for each constellation. *)
Definition documented (c : GnssConstellationType) (id : Z) : bool :=
  match c with
  | GPS => (1 <=? id) && (id <=? 32)
  | SBAS => (120 <=? id) && (id <=? 151) || (183 <=? id) && (id <=? 192)
  | GLONASS => (1 <=? id) && (id <=? 24) || (93 <=? id) && (id <=? 106)
  | QZSS => (193 <=? id) && (id <=? 200)
  | BEIDOU => (1 <=? id) && (id <=? 37)
  | GALILEO => (1 <=? id) && (id <=? 36)
  | UNKNOWN => true
  end%Z.

Definition known_prn (p : Z) : bool :=
  ((1 <=? p) && (p <=? 88) || (193 <=? p) && (p <=? 235))%Z.

(** A satellite as the client sees it. *)
Record sv_ok (s : GpsSvStatus) (i : GpsSvInfo) (o : GnssSvInfo) : Prop := {
  sv_known : if known_prn (prn i) then prn_of o = Some (prn i) else constellation o = UNKNOWN ∧ svid o = prn i;
  sv_documented : documented (constellation o) (svid o) = true;
  sv_signal : (cN0Dbhz o, elevationDegrees o, azimuthDegrees o) = (snr i, elevation i, azimuth i);
  sv_flags : svFlag o =
    if (1 <=? prn i)%Z && (prn i <=? 32)%Z
    then (Z.b2z (Z.testbit (ephemeris_mask s) (prn i - 1)) + 2 * Z.b2z (Z.testbit (almanac_mask s) (prn i - 1)) +
          4 * Z.b2z (Z.testbit (used_in_fix_mask s) (prn i - 1)))%Z
    else 0%Z
}.

Lemma i16_small z : (- 2 ^ 15 ≤ z < 2 ^ 15)%Z → i16 z = z.
Proof. intros H. unfold i16. rewrite Z.mod_small; lia. Qed.

Lemma mask_flag_bit mask k flag acc :
  (0 ≤ k < 32)%Z →
  mask_flag mask (i32 (Z.shiftl 1 k)) flag acc = if Z.testbit mask k then Z.lor acc flag else acc.
Proof.
  intros Hk. unfold mask_flag. rewrite Z.shiftl_1_l.
  assert (E : u32 (i32 (2 ^ k)) = (2 ^ k)%Z).
  { unfold u32, i32. rewrite Zminus_mod_idemp_l. replace (2 ^ k + 2 ^ 31 - 2 ^ 31)%Z with (2 ^ k)%Z by lia.
    apply Z.mod_small. split; [lia|]. apply Z.pow_lt_mono_r; lia. }
  rewrite E. destruct (Z.testbit mask k) eqn:Eb.
  - destruct (Z.eqb_spec (Z.land mask (2 ^ k)) 0) as [E0|]; [|done].
    apply (f_equal (λ z, Z.testbit z k)) in E0. rewrite Z.land_spec, Eb, Z.pow2_bits_true, Z.bits_0 in E0 by lia. done.
  - destruct (Z.eqb_spec (Z.land mask (2 ^ k)) 0) as [|E0]; [done|]. destruct E0. apply Z.bits_inj'. intros n Hn.
    rewrite Z.land_spec, Z.bits_0. destruct (Z.eq_dec k n) as [->|Hne]; [by rewrite Eb|].
    by rewrite (Z.pow2_bits_false k n), andb_false_r.
Qed.

(** Decide the comparisons that the hypotheses settle. *)
Ltac decide_bounds :=
  repeat match goal with
  | |- context [(?a <=? ?b)%Z] =>
    first [rewrite (proj2 (Z.leb_le a b)) by lia | rewrite (proj2 (Z.leb_gt a b)) by lia]
  | |- context [(?a <? ?b)%Z] =>
    first [rewrite (proj2 (Z.ltb_lt a b)) by lia | rewrite (proj2 (Z.ltb_ge a b)) by lia]
  end; cbn [andb orb].

Lemma classify_spec p :
  (- 2 ^ 15 ≤ p < 2 ^ 15)%Z →
  let '(c, id) := classify p in
  (∀ a b d e f, if known_prn p then prn_of (mkGnssSvInfo id c a b d e f) = Some p else c = UNKNOWN ∧ id = p) ∧
  documented c id = true ∧
  match c with GPS => (1 ≤ p ≤ 32)%Z ∧ id = p | _ => (p < 1)%Z ∨ (32 < p)%Z end.
Proof.
  intros Hp. unfold classify, known_prn, GLONASS_SVID_OFFSET, GLONASS_SVID_COUNT, BEIDOU_SVID_OFFSET,
    BEIDOU_SVID_COUNT, SBAS_SVID_MIN, SBAS_SVID_MAX, SBAS_SVID_ADD, QZSS_SVID_MIN, QZSS_SVID_MAX.
  assert (H : (p < 1 ∨ 1 ≤ p ≤ 32 ∨ 33 ≤ p ≤ 64 ∨ 65 ≤ p ≤ 88 ∨ 89 ≤ p ≤ 192 ∨ 193 ≤ p ≤ 200 ∨ 201 ≤ p ≤ 235 ∨ 235 < p)%Z)
    by lia.
  destruct H as [?|[?|[?|[?|[?|[?|[?|?]]]]]]]; decide_bounds; cbn beta iota; rewrite ?i16_small by lia;
    unfold documented, prn_of; cbn [constellation svid]; decide_bounds;
    (split; [intros; first [f_equal; lia|done]|]); split; try done; lia.
Qed.

Lemma gps_sv_ok s i : (- 2 ^ 15 ≤ prn i < 2 ^ 15)%Z → sv_ok s i (gps_sv s i).
Proof.
  intros Hp. unfold gps_sv. rewrite i16_small by done. pose proof (classify_spec (prn i) Hp) as H.
  destruct (classify (prn i)) as [c id]. destruct H as (Hk & Hd & Hg). split; [exact (Hk _ _ _ _ _)|exact Hd|done|]. cbn [svFlag].
  destruct c.
  2: {
    destruct Hg as [Hr ->]. rewrite (proj2 (Z.leb_le 1 _)), (proj2 (Z.leb_le _ 32)) by lia. cbn [andb].
    rewrite !mask_flag_bit by lia. unfold HAS_EPHEMERIS_DATA, HAS_ALMANAC_DATA, USED_IN_FIX.
    by destruct (Z.testbit (ephemeris_mask s) _), (Z.testbit (almanac_mask s) _), (Z.testbit (used_in_fix_mask s) _). }
  all: destruct (Z.leb_spec 1 (prn i)), (Z.leb_spec (prn i) 32); cbn [andb]; done || lia.
Qed.

Lemma convert_list_spec {A B} (f : A → B) l i n :
  (i + n ≤ length l)%nat → convert_list f l i n = Ret (f <$> take n (drop i l)).
Proof.
  revert i. induction n as [|n IH]; intros i Hn; cbn; [by rewrite take_0|].
  destruct (lookup_lt_is_Some_2 l i) as [x Hx]; [lia|]. rewrite Hx. cbn. rewrite IH by lia. cbn.
  by rewrite (drop_S l x i Hx).
Qed.

(** C35. As many satellites as the driver's array can hold are converted one by one:
    a number in one of the documented ranges can be recovered from the
    constellation and the number the client gets, both as gps.h documents them,
    every other one is unknown, and the flags of a GPS satellite are its bits of
    the three masks. *)
Theorem gps_svs_convert s :
  length (sv_list s) = GPS_MAX_SVS → (0 ≤ num_svs s ≤ Z.of_nat GPS_MAX_SVS)%Z →
  Forall (λ i, (- 2 ^ 15 ≤ prn i < 2 ^ 15)%Z) (sv_list s) →
  ∃ l, gps_svs s = Ret l ∧ Forall2 (sv_ok s) (take (Z.to_nat (num_svs s)) (sv_list s)) l.
Proof.
  intros Hl Hn Hp. unfold gps_svs, clamp_svs, GNSS_MAX_SVS_COUNT, GPS_MAX_SVS in *.
  rewrite u32_small by lia. rewrite Z.gtb_ltb, (proj2 (Z.ltb_ge _ _)) by lia.
  rewrite convert_list_spec by lia. eexists. split; [reflexivity|]. rewrite drop_0.
  apply Forall2_fmap_r, Forall_Forall2_diag. apply (Forall_take _ (Z.to_nat (num_svs s))) in Hp.
  eapply Forall_impl; [exact Hp|]. intros i. apply gps_sv_ok.
Qed.

(** More satellites than the array holds pass the test: the array is left. *)
Example too_many_svs : gps_svs (mkGpsSvStatus 33 (replicate 32 (mkGpsSvInfo 1 0 0 0)) 0 0 0) = Fault.
Proof. vm_compute. reflexivity. Qed.

Definition sample_svs : GpsSvStatus :=
  mkGpsSvStatus 3 ([mkGpsSvInfo 5 1 2 3; mkGpsSvInfo 70 4 5 6; mkGpsSvInfo 100 7 8 9] ++ replicate 29 (mkGpsSvInfo 0 0 0 0))
    16 0 16.

Lemma gps_svs_convert_witness :
  ∃ l, gps_svs sample_svs = Ret l ∧ Forall2 (sv_ok sample_svs) (take 3 (sv_list sample_svs)) l ∧
    (λ o, (svid o, svFlag o)) <$> l = [(5, 5); (6, 0); (100, 0)]%Z.
Proof.
  destruct (gps_svs_convert sample_svs) as (l & E & H).
  - reflexivity.
  - vm_compute. split; discriminate.
  - apply Forall_forall. intros i Hi. unfold sample_svs in Hi. cbn [sv_list] in Hi.
    apply elem_of_app in Hi as [Hi|Hi].
    + repeat (apply elem_of_cons in Hi as [->|Hi]; [cbn; lia|]). by apply elem_of_nil in Hi.
    + apply elem_of_replicate in Hi as [-> _]. cbn. lia.
  - exists l. split; [exact E|]. split; [exact H|]. assert (E2 := E). vm_compute in E2. injection E2 as <-. reflexivity.
Defined.

(** * The wake lock *)

(** The requests of the drivers, each as one thread serves it; [GnssWakelock]
    interleaves their loads and stores. *)
Inductive wake_op := AcquireGnss | ReleaseGnss | AcquireFused | ReleaseFused.

Definition wake_op_run (o : wake_op) : gnss → io gnss :=
  match o with
  | AcquireGnss => acquireWakelockGnss
  | ReleaseGnss => releaseWakelockGnss
  | AcquireFused => acquireWakelockFused
  | ReleaseFused => releaseWakelockFused
  end.

(** What each driver wants after its requests. *)
Definition wants (l : list wake_op) (gnss_wants fused_wants : bool) : bool * bool :=
  foldl (λ w o, match o with
                | AcquireGnss => (true, w.2) | ReleaseGnss => (false, w.2)
                | AcquireFused => (w.1, true) | ReleaseFused => (w.1, false)
                end) (gnss_wants, fused_wants) l.

Definition idle_gnss : gnss := mkGnss true (Some 1%Z) false false false 0 0 ∅.
Definition quiet_env (s : unit) (fn : string) (args : list arg) : resp * unit := (mkResp 0 0 [] [], s).

(** The client dies while the lock is held and the driver lets go of it before
    the next client comes: this one is not told when the lock is wanted again. *)
Example lock_lost_after_death :
  let '(o, t, _) := run quiet_env
    (do! s := acquireWakelockGnss idle_gnss in
     do! s := handleHidlDeath s in
     do! s := releaseWakelockGnss s in
     do! (_, s) := setCallback (Some 2%Z) s in
     acquireWakelockGnss s) tt in
  match o with
  | Done s => sWakelockHeldGnss s = true ∧ calls_of "cb.gnssAcquireWakelockCb" t = 1%nat
  | _ => False
  end.
Proof. vm_compute. split; reflexivity. Qed.

(** A new client is sent what is known of the driver before the driver starts. *)
Example cached_values_resent :
  let '(o, t, _) := run quiet_env
    (do! s := setCapabilitiesCb 7 idle_gnss in
     do! s := setSystemInfoCb (Some 2015%Z) s in
     setCallback (Some 2%Z) s) tt in
  ev_fn <$> drop 2 t = ["cb.unlinkToDeath"; "cb.linkToDeath"; "cb.gnssSetCapabilitesCb"; "cb.gnssSetSystemInfoCb";
                        "iface.init"]%string.
Proof. vm_compute. reflexivity. Qed.
