(* ===== verification/GnssWakelock.v ===== *)
(** hardware/gnss/Gnss.cpp: the wake lock of the client, which the threads of the
    two drivers share (acquireWakelockGnss, releaseWakelockGnss,
    acquireWakelockFused, releaseWakelockFused, updateWakelock), load by load and
    store by store.  [updateWakelock] takes no lock: the threads are interleaved
    on the flags, as long as one client is registered. *)

From Stdlib Require Import ZArith Lia Ascii.
From stdpp Require Import base numbers strings gmap list relations.
From S2P Require Import Prelude CString Sys Gnss.

(** * The machine *)

(** The statics, the calls of the client so far ([true]: gnssAcquireWakelockCb),
    and, for the specification, the requests in the order of their first store. *)
Record shared := mkShared {
  sh_gnss : bool;       (** sWakelockHeldGnss *)
  sh_fused : bool;      (** sWakelockHeldFused *)
  sh_held : bool;       (** sWakelockHeld of [updateWakelock] *)
  sh_calls : list bool;
  sh_asked : list wake_op
}.

Definition store_flag (o : wake_op) (s : shared) : shared :=
  let '(g, f) := wants [o] (sh_gnss s) (sh_fused s) in mkShared g f (sh_held s) (sh_calls s) (sh_asked s ++ [o]).
Definition store_held (b : bool) (s : shared) : shared :=
  mkShared (sh_gnss s) (sh_fused s) b (sh_calls s) (sh_asked s).
Definition call_client (b : bool) (s : shared) : shared :=
  mkShared (sh_gnss s) (sh_fused s) (sh_held s) (sh_calls s ++ [b]) (sh_asked s).

(** Where a thread is: outside, at the store of its request, at the loads of the
    two flags, at the load of [sWakelockHeld], at its stores and at the calls. *)
Inductive wpc := WIdle | WStore (o : wake_op) | WGnss | WFused | WHeld | WSetHeld | WAcquire | WClear | WRelease.

#[export] Instance wpc_eq_dec : EqDecision wpc.
Proof. intros x y. unfold Decision. repeat decide equality. Defined.

Definition thread_next (s : shared) (pc : wpc) : option (shared * wpc) :=
  match pc with
  | WIdle => None
  | WStore o => Some (store_flag o s, WGnss)
  | WGnss => Some (s, if sh_gnss s then WHeld else WFused)
  | WFused => Some (s, if sh_fused s then WHeld else WClear)
  | WHeld => Some (s, if sh_held s then WIdle else WSetHeld)
  | WSetHeld => Some (store_held true s, WAcquire)
  | WAcquire => Some (call_client true s, WIdle)
  | WClear => Some (store_held false s, WRelease)
  | WRelease => Some (call_client false s, WIdle)
  end.

Record conf := mkConf { c_shared : shared; c_threads : list wpc }.

(** A driver makes a request, or a thread goes on.  Without [overlap] a request
    is made only when no other is being served. *)
Inductive step (overlap : bool) : conf → conf → Prop :=
  | s_request s ts i o :
    ts !! i = Some WIdle → (overlap = false → Forall (.= WIdle) ts) →
    step overlap (mkConf s ts) (mkConf s (<[i := WStore o]> ts))
  | s_thread s ts i pc s' pc' :
    ts !! i = Some pc → thread_next s pc = Some (s', pc') →
    step overlap (mkConf s ts) (mkConf s' (<[i := pc']> ts)).

(** The start of the program: [n] threads, nothing asked. *)
Definition init (n : nat) : conf := mkConf (mkShared false false false [] []) (replicate n WIdle).

Definition quiet (c : conf) : Prop := Forall (.= WIdle) (c_threads c).

#[export] Instance quiet_dec c : Decision (quiet c).
Proof. unfold quiet. apply _. Defined.

(** The client's lock after the calls; [None]: acquired while it was held. *)
Fixpoint lock_after (calls : list bool) (held : bool) : option bool :=
  match calls with
  | [] => Some held
  | true :: calls => if held then None else lock_after calls true
  | false :: calls => lock_after calls false
  end.

Definition lock (c : conf) : option bool := lock_after (sh_calls (c_shared c)) false.

(** What the drivers want: the last request of either. *)
Definition wanted (c : conf) : bool := let '(g, f) := wants (sh_asked (c_shared c)) false false in g || f.

Lemma lock_after_app l1 l2 h : lock_after (l1 ++ l2) h = h' ← lock_after l1 h; lock_after l2 h'.
Proof. revert h. induction l1 as [|[] l1 IH]; intros h; cbn; [done|destruct h; [done|apply IH]|apply IH]. Qed.

(** * Without overlap *)

(** What holds when the one thread at work is at [pc]. *)
Definition pc_ok (pc : wpc) (s : shared) : Prop :=
  let l := lock_after (sh_calls s) false in
  let w := sh_gnss s || sh_fused s in
  match pc with
  | WIdle | WStore _ => l = Some (sh_held s) ∧ sh_held s = w
  | WGnss => l = Some (sh_held s)
  | WFused => l = Some (sh_held s) ∧ sh_gnss s = false
  | WHeld => l = Some (sh_held s) ∧ w = true
  | WSetHeld => l = Some (sh_held s) ∧ w = true ∧ sh_held s = false
  | WAcquire => l = Some false ∧ w = true ∧ sh_held s = true
  | WClear => l = Some (sh_held s) ∧ w = false
  | WRelease => is_Some l ∧ w = false ∧ sh_held s = false
  end.

Record inv (c : conf) : Prop := {
  inv_asked : (sh_gnss (c_shared c), sh_fused (c_shared c)) = wants (sh_asked (c_shared c)) false false;
  inv_one : ∃ i, (∀ j pc, c_threads c !! j = Some pc → j ≠ i → pc = WIdle) ∧
    pc_ok (default WIdle (c_threads c !! i)) (c_shared c)
}.

Lemma wants_snoc l o g f : wants (l ++ [o]) g f = let '(g', f') := wants l g f in wants [o] g' f'.
Proof. unfold wants. rewrite foldl_app. by destruct (foldl _ _ l). Qed.

Lemma thread_next_asked s pc s' pc' :
  thread_next s pc = Some (s', pc') → (sh_gnss s, sh_fused s) = wants (sh_asked s) false false →
  (sh_gnss s', sh_fused s') = wants (sh_asked s') false false.
Proof.
  intros H Ha. destruct pc as [|o| | | | | | |]; try done; injection H as <- <-; try exact Ha.
  unfold store_flag. destruct (wants [o] _ _) as [g f] eqn:E. cbn [sh_gnss sh_fused sh_asked].
  by rewrite wants_snoc, <-Ha, E.
Qed.

Lemma thread_next_ok s pc s' pc' : thread_next s pc = Some (s', pc') → pc_ok pc s → pc_ok pc' s'.
Proof.
  intros H. destruct s as [g f h calls asked].
  destruct pc as [|o| | | | | | |]; [done|..]; injection H as <- <-; unfold pc_ok; cbn.
  - unfold store_flag. cbn. by destruct o; cbn; intros [-> _].
  - by destruct g.
  - by intros [-> ->]; destruct f.
  - by intros [-> ->]; destruct h.
  - by intros (-> & -> & ->).
  - intros (E & -> & ->). by rewrite lock_after_app, E.
  - by intros [-> ->]; split_and!; [eexists|..].
  - intros ([x E] & -> & ->). by rewrite lock_after_app, E.
Qed.

Lemma wakelock_inv_step c c' : step false c c' → inv c → inv c'.
Proof.
  intros Hstep [Ha (k & Hk & Hpc)]. destruct Hstep as [s ts i o Hi Hq|s ts i pc s' pc' Hi Hn]; cbn in *.
  - specialize (Hq eq_refl). split; [done|]. exists i. cbn. split.
    + intros j pc Hj Hne. rewrite list_lookup_insert_ne in Hj by done.
      by apply (Forall_lookup_1 _ _ _ _ Hq Hj).
    + rewrite list_lookup_insert_eq by by eapply lookup_lt_Some. cbn.
      destruct (ts !! k) as [pk|] eqn:Ek; cbn in Hpc; [|exact Hpc].
      pose proof (Forall_lookup_1 _ _ _ _ Hq Ek) as ->. exact Hpc.
  - destruct (decide (i = k)) as [->|Hne].
    2: { by rewrite (Hk i pc Hi Hne) in Hn. }
    rewrite Hi in Hpc. cbn in Hpc. split; [by eapply thread_next_asked|]. exists k. cbn. split.
    + intros j p. intros Hj Hne. rewrite list_lookup_insert_ne in Hj by done. by eapply Hk.
    + rewrite list_lookup_insert_eq by by eapply lookup_lt_Some. by eapply thread_next_ok.
Qed.

Lemma wakelock_inv_init n : inv (init n).
Proof.
  split; [done|]. exists 0%nat. cbn. split.
  - intros j pc [-> _]%lookup_replicate. done.
  - destruct (replicate n WIdle !! 0%nat) as [pc|] eqn:E; [|done]. apply lookup_replicate in E as [-> _]. done.
Qed.

(** * With overlap *)

(** A choice of the scheduler: a thread makes a request, or goes on. *)
Inductive act := ARequest (i : nat) (o : wake_op) | AThread (i : nat).

Definition exec1 (c : conf) (a : act) : option conf :=
  let '(mkConf s ts) := c in
  match a with
  | ARequest i o => guard (ts !! i = Some WIdle);; Some (mkConf s (<[i := WStore o]> ts))
  | AThread i => pc ← ts !! i; '(s', pc') ← thread_next s pc; Some (mkConf s' (<[i := pc']> ts))
  end.

Fixpoint exec (c : conf) (l : list act) : option conf :=
  match l with [] => Some c | a :: l => c ← exec1 c a; exec c l end.

Lemma exec_steps c l c' : exec c l = Some c' → rtc (step true) c c'.
Proof.
  revert c. induction l as [|a l IH]; intros [s ts]; cbn; [intros [= <-]; apply rtc_refl|].
  intros (c1 & H1 & H2)%bind_Some. eapply rtc_l; [|by apply IH]. destruct a as [i o|i]; cbn in H1.
  - case_guard as Hi; [|done]. injection H1 as <-. by apply s_request.
  - apply bind_Some in H1 as (pc & Hi & ([s' pc'] & Hn & [= <-])%bind_Some). by eapply s_thread.
Qed.

(** The fused driver releases and has found that nobody wants the lock; the
    position driver asks for it and finds it held; then it is released. *)
Definition lost : list act :=
  ARequest 1 AcquireFused :: replicate 6 (AThread 1) ++
  ARequest 1 ReleaseFused :: replicate 3 (AThread 1) ++
  ARequest 0 AcquireGnss :: replicate 3 (AThread 0) ++ replicate 2 (AThread 1).

(** Both ask before either has stored that the lock is held. *)
Definition twice : list act :=
  ARequest 0 AcquireGnss :: replicate 3 (AThread 0) ++ ARequest 1 AcquireFused :: replicate 5 (AThread 1) ++
  replicate 2 (AThread 0).

(** * The property *)

(** C36. While one client is registered: as long as no request is made while
    another is served, whichever driver makes it, the client's lock is never
    acquired while it is held, and when no request is being served it is held
    exactly if a driver's last request was to acquire it.  The flags have no
    lock, and when requests of the two drivers overlap both fail: the lock can be
    released for good while a driver wants it, and be acquired twice. *)
Theorem wakelock_consolidates n :
  (∀ c, rtc (step false) (init n) c → is_Some (lock c) ∧ (quiet c → lock c = Some (wanted c))) ∧
  (∃ c, rtc (step true) (init 2) c ∧ quiet c ∧ wanted c = true ∧ lock c = Some false) ∧
  (∃ c, rtc (step true) (init 2) c ∧ quiet c ∧ lock c = None).
Proof.
  split; [|split].
  - intros c Hc. assert (inv c) as [Ha (i & Hi & Hpc)].
    { revert c Hc. apply (rtc_ind_r inv); [apply wakelock_inv_init|]. intros c1 c2 _ Hs. by apply wakelock_inv_step. }
    unfold lock, wanted, quiet. split.
    + unfold pc_ok in Hpc. destruct (default WIdle _); naive_solver.
    + intros Hq. assert (Hpc' : pc_ok WIdle (c_shared c)).
      { destruct (c_threads c !! i) as [pc|] eqn:E; [|exact Hpc].
        pose proof (Forall_lookup_1 _ _ _ _ Hq E) as ->. exact Hpc. }
      rewrite <-Ha. destruct Hpc' as [-> ->]. done.
  - destruct (exec (init 2) lost) as [c|] eqn:E; [|by vm_compute in E]. exists c.
    split; [by eapply exec_steps|]. vm_compute in E. injection E as <-. vm_compute. repeat constructor.
  - destruct (exec (init 2) twice) as [c|] eqn:E; [|by vm_compute in E]. exists c.
    split; [by eapply exec_steps|]. vm_compute in E. injection E as <-. vm_compute. repeat constructor.
Qed.

(** * One thread alone *)

(** The steps of one request while the others rest. *)
Fixpoint run_thread (n : nat) (s : shared) (pc : wpc) : option (shared * wpc) :=
  match n, pc with
  | O, _ | _, WIdle => Some (s, pc)
  | S n, _ => '(s, pc) ← thread_next s pc; run_thread n s pc
  end.

Definition shared_of (g : gnss) (calls : list bool) (asked : list wake_op) : shared :=
  mkShared (sWakelockHeldGnss g) (sWakelockHeldFused g) (sWakelockHeld g) calls asked.

Definition lock_calls (t : list event) : list bool :=
  omap (λ e, if bool_decide (ev_fn e = "cb.gnssAcquireWakelockCb"%string) then Some true
             else if bool_decide (ev_fn e = "cb.gnssReleaseWakelockCb"%string) then Some false else None) t.

(** Left alone the steps make the calls and leave the statics of the sequential
    [updateWakelock]. *)
Lemma request_sequential {W} (env : W → string → list arg → resp * W) o g cb calls asked w :
  sGnssCbIface g = Some cb →
  ∃ g' t w', run env (wake_op_run o g) w = (Done g', t, w') ∧ sGnssCbIface g' = Some cb ∧
    run_thread 6 (shared_of g calls asked) (WStore o) =
      Some (shared_of g' (calls ++ lock_calls t) (asked ++ [o]), WIdle).
Proof.
  intros Hcb. destruct g as [iface cbi wg wf h cap year ext]. cbn in Hcb. subst cbi.
  destruct o, wg, wf, h; cbn; try step_env; eexists _, _, _;
    (split; [reflexivity|]); (split; [reflexivity|]); cbn; rewrite ?app_nil_r; reflexivity.
Qed.
