(* ===== verification/GnssExtensions.v ===== *)
(** hardware/gnss/{GnssMeasurement,GnssBatching,GnssConfiguration,AGnss}.cpp: the
    extensions of the GNSS service that convert what the legacy drivers send.
    Floating-point numbers are their bits. *)

From Stdlib Require Import ZArith Lia Ascii.
From stdpp Require Import base numbers strings gmap list.
From S2P Require Import Prelude CString Sys Strtol Gnss.

(** * Measurements *)

Definition STATE_TOW_DECODED : Z := 8.
Definition STATE_GLO_TOD_DECODED : Z := 128.
Definition STATE_TOW_KNOWN : Z := 16384.
Definition STATE_GLO_TOD_KNOWN : Z := 32768.

Definition GNSS_MEASUREMENT_HAS_SNR : Z := 1.
Definition GNSS_MEASUREMENT_HAS_CARRIER_FREQUENCY : Z := 512.
Definition GNSS_MEASUREMENT_HAS_CARRIER_PHASE : Z := 2048.
Definition GNSS_MEASUREMENT_HAS_CARRIER_PHASE_UNCERTAINTY : Z := 4096.

(** A measurement of either driver; the older one has a prn where the newer has
    svid and constellation. *)
Record LegacyMeasurement := mkLegacyMeasurement {
  m_flags : Z; m_svid : Z; m_constellation : GnssConstellationType; m_time_offset_ns : Z; m_state : Z;
  m_received_ns : Z; m_received_uncertainty_ns : Z; m_c_n0_dbhz : Z; m_rate_mps : Z; m_rate_uncertainty_mps : Z;
  m_range_state : Z; m_range_m : Z; m_range_uncertainty_m : Z; m_carrier_frequency_hz : Z; m_carrier_cycles : Z;
  m_carrier_phase : Z; m_carrier_phase_uncertainty : Z; m_multipath_indicator : Z; m_snr_db : Z
}.

Record GnssMeasurementOut := mkMeasurement {
  flags : Z; o_svid : Z; o_constellation : GnssConstellationType; timeOffsetNs : Z; state : Z;
  receivedSvTimeInNs : Z; receivedSvTimeUncertaintyInNs : Z; cN0DbHz : Z; pseudorangeRateMps : Z;
  pseudorangeRateUncertaintyMps : Z; accumulatedDeltaRangeState : Z; accumulatedDeltaRangeM : Z;
  accumulatedDeltaRangeUncertaintyM : Z; o_carrierFrequencyHz : Z; carrierCycles : option Z;  (** [None]: not written *)
  carrierPhase : Z; carrierPhaseUncertainty : Z; multipathIndicator : Z; snrDb : Z
}.

Definition known_state (s : Z) : Z :=
  let s := if (Z.land s STATE_TOW_DECODED =? 0)%Z then s else Z.lor s STATE_TOW_KNOWN in
  if (Z.land s STATE_GLO_TOD_DECODED =? 0)%Z then s else Z.lor s STATE_GLO_TOD_KNOWN.

Definition gnss_measurement (e : LegacyMeasurement) : GnssMeasurementOut :=
  mkMeasurement (m_flags e) (m_svid e) (m_constellation e) (m_time_offset_ns e) (known_state (m_state e))
    (m_received_ns e) (m_received_uncertainty_ns e) (m_c_n0_dbhz e) (m_rate_mps e) (m_rate_uncertainty_mps e)
    (m_range_state e) (m_range_m e) (m_range_uncertainty_m e) (m_carrier_frequency_hz e) (Some (m_carrier_cycles e))
    (m_carrier_phase e) (m_carrier_phase_uncertainty e) (m_multipath_indicator e) (m_snr_db e).

Definition if_has (flags bit value : Z) : Z := if (Z.land flags bit =? 0)%Z then 0%Z else value.

(** [m_svid] is the prn of the older driver. *)
Definition gps_measurement (e : LegacyMeasurement) : GnssMeasurementOut :=
  mkMeasurement (m_flags e) (i16 (m_svid e))
    (if (1 <=? m_svid e)%Z && (m_svid e <=? 32)%Z then GPS else UNKNOWN) (m_time_offset_ns e) (m_state e)
    (m_received_ns e) (m_received_uncertainty_ns e) (m_c_n0_dbhz e) (m_rate_mps e) (m_rate_uncertainty_mps e)
    (m_range_state e) (m_range_m e) (m_range_uncertainty_m e)
    (if_has (m_flags e) GNSS_MEASUREMENT_HAS_CARRIER_FREQUENCY (m_carrier_frequency_hz e)) None
    (if_has (m_flags e) GNSS_MEASUREMENT_HAS_CARRIER_PHASE (m_carrier_phase e))
    (if_has (m_flags e) GNSS_MEASUREMENT_HAS_CARRIER_PHASE_UNCERTAINTY (m_carrier_phase_uncertainty e))
    (m_multipath_indicator e) (if_has (m_flags e) GNSS_MEASUREMENT_HAS_SNR (m_snr_db e)).

Definition GPS_CLOCK_HAS_FULL_BIAS : Z := 4.
Definition GPS_CLOCK_TYPE_UNKNOWN : Z := 0.
Definition GPS_CLOCK_TYPE_LOCAL_HW_TIME : Z := 1.
Definition GPS_CLOCK_TYPE_GPS_TIME : Z := 2.

(** The clock of a driver: [k_type] only of the older one, [k_discontinuities]
    only of the newer one. *)
Record LegacyClock := mkLegacyClock {
  k_flags : Z; k_leap_second : Z; k_type : Z; k_time_ns : Z; k_time_uncertainty_ns : Z; k_full_bias_ns : Z; k_bias_ns : Z;
  k_bias_uncertainty_ns : Z; k_drift_nsps : Z; k_drift_uncertainty_nsps : Z; k_discontinuities : Z
}.

Record GnssClock := mkGnssClock {
  gnssClockFlags : Z; leapSecond : Z; timeNs : Z; timeUncertaintyNs : Z; fullBiasNs : Z; biasNs : Z; biasUncertaintyNs : Z;
  driftNsps : Z; driftUncertaintyNsps : Z; hwClockDiscontinuityCount : option Z   (** [None]: not written *)
}.

Definition gnss_clock (k : LegacyClock) : GnssClock :=
  mkGnssClock (k_flags k) (k_leap_second k) (k_time_ns k) (k_time_uncertainty_ns k) (k_full_bias_ns k) (k_bias_ns k)
    (k_bias_uncertainty_ns k) (k_drift_nsps k) (k_drift_uncertainty_nsps k) (Some (k_discontinuities k)).

(** [-x] of a 64-bit integer and of a double. *)
Definition neg_int64 (z : Z) : cres Z := if (z =? - 2 ^ 63)%Z then Fault else Ret (- z)%Z.
Definition neg_double (bits : Z) : Z := Z.lxor bits (2 ^ 63).

(** [discontinuity_count]: the static of the function, before and after. *)
Definition gps_clock (k : LegacyClock) (discontinuity_count : Z) : cres (GnssClock * Z) :=
  let '(fl, bias, time, d, dc) :=
    (if (k_type k =? GPS_CLOCK_TYPE_GPS_TIME)%Z
     then (Z.lor (k_flags k) GPS_CLOCK_HAS_FULL_BIAS, k_time_ns k, 0%Z, Some discontinuity_count, u32 (discontinuity_count + 1))
     else (k_flags k, k_full_bias_ns k, k_time_ns k, None, discontinuity_count)) in
  let! bias := neg_int64 bias in
  Ret (mkGnssClock fl (k_leap_second k) time (k_time_uncertainty_ns k) bias (neg_double (k_bias_ns k))
         (k_bias_uncertainty_ns k) (k_drift_nsps k) (k_drift_uncertainty_nsps k) d, dc).

Definition measurement_count (n : Z) : nat := Z.to_nat (Z.min n GNSS_MAX_SVS_COUNT).

Definition gnss_data (n : Z) (l : list LegacyMeasurement) (k : LegacyClock) : cres (list GnssMeasurementOut * GnssClock) :=
  let! ms := convert_list gnss_measurement l 0 (measurement_count n) in Ret (ms, gnss_clock k).

Definition gps_data (n : Z) (l : list LegacyMeasurement) (k : LegacyClock) (dc : Z)
    : cres (list GnssMeasurementOut * GnssClock * Z) :=
  let! ms := convert_list gps_measurement l 0 (measurement_count n) in
  let! (c, dc) := gps_clock k dc in Ret (ms, c, dc).

(** What the client is sent of a measurement and of a clock. *)
Definition measurement_args (m : GnssMeasurementOut) : list arg :=
  AZ <$> [flags m; o_svid m; constellation_number (o_constellation m); timeOffsetNs m; state m; receivedSvTimeInNs m;
          receivedSvTimeUncertaintyInNs m; cN0DbHz m; pseudorangeRateMps m; pseudorangeRateUncertaintyMps m;
          accumulatedDeltaRangeState m; accumulatedDeltaRangeM m; accumulatedDeltaRangeUncertaintyM m;
          o_carrierFrequencyHz m; carrierPhase m; carrierPhaseUncertainty m; multipathIndicator m; snrDb m].
Definition clock_args (c : GnssClock) : list arg :=
  AZ <$> [gnssClockFlags c; leapSecond c; timeNs c; timeUncertaintyNs c; fullBiasNs c; biasNs c; biasUncertaintyNs c;
          driftNsps c; driftUncertaintyNsps c].

(** What the drivers hand to the callbacks: the number of entries, the array,
    the clock. *)
Definition LegacyData : Type := (Z * list LegacyMeasurement * LegacyClock)%type.

Definition gnssMeasurementCb (cb : option Z) (data : option LegacyData) : io unit :=
  match cb, data with
  | None, _ | _, None => IRet tt
  | Some cb, Some (n, l, k) =>
    do! (ms, c) := of_cres (gnss_data n l k) in
    call_ "cb.GnssMeasurementCb" (AZ cb :: (ms ≫= measurement_args) ++ clock_args c)
  end.

Definition gpsMeasurementCb (cb : option Z) (data : option LegacyData) (dc : Z) : io Z :=
  match cb, data with
  | None, _ | _, None => IRet dc
  | Some cb, Some (n, l, k) =>
    do! (ms, c, dc) := of_cres (gps_data n l k dc) in
    call_ "cb.GnssMeasurementCb" (AZ cb :: (ms ≫= measurement_args) ++ clock_args c) ;! IRet dc
  end.

Definition ERROR_GENERIC : Z := -101.

(** The status and the client from now on. *)
Definition measurement_setCallback (iface : bool) (callback old : option Z) : io (Z * option Z) :=
  if negb iface then IRet (ERROR_GENERIC, old)
  else do! r := call_ret "measurement.init" [] in IRet (r, callback).
Definition measurement_close (iface : bool) : io unit := if iface then call_ "measurement.close" [] else IRet tt.

(** * Batches of locations *)

Definition FLP_GNSS_BATCHING_CLIENT_ID : Z := 4.
Definition MAX_LOCATIONS_PER_BATCH : Z := 1000.

(** A location of a batch and the technologies it used. *)
Record FlpLocation := mkFlpLocation { f_location : GpsLocation; sources_used : Z }.

Record batching := mkBatching { mFlpLocationIface : bool; sGnssBatchingCbIface : option Z; sFlpSupportsBatching : bool }.

Section flp.
(** From fused_location.h: the flags, the technologies, the capability and the
    option of a batch. *)
Context (F : flp_flags) (FLP_TECH_MASK_GNSS FLP_TECH_MASK_SENSORS CAPABILITY_GNSS WAKEUP_ON_FIFO_FULL FLP_BATCH_WAKEUP_ON_FIFO_FULL : Z).

Definition FLP_TECH_MASK_GNSS_AND_SENSORS : Z := Z.lor FLP_TECH_MASK_GNSS FLP_TECH_MASK_SENSORS.

Definition clamp_locations (n : Z) : Z :=
  if (n <? 0)%Z then 0%Z else if (n >? MAX_LOCATIONS_PER_BATCH)%Z then MAX_LOCATIONS_PER_BATCH else n.

(** The loop; a slot can be null. *)
Fixpoint batch_loop (n : nat) (i : nat) (locations : list (option FlpLocation)) : cres (list GnssLocation) :=
  match n with
  | O => Ret []
  | S n =>
    let! slot := deref (locations !! i) in
    let! r := batch_loop n (S i) locations in
    match slot with
    | None => Ret r
    | Some l =>
      if (Z.land (sources_used l) (Z.lnot FLP_TECH_MASK_GNSS_AND_SENSORS) =? 0)%Z
      then Ret (convertFlpToGnssLocation F (Some (f_location l)) :: r) else Ret r
    end
  end.

Definition batch_locationCb (locationsCount : Z) (locations : option (list (option FlpLocation))) (b : batching) : io unit :=
  match sGnssBatchingCbIface b, locations with
  | None, _ | _, None => IRet tt
  | Some cb, Some l =>
    do! out := of_cres (batch_loop (Z.to_nat (clamp_locations locationsCount)) 0 l) in
    call_ "cb.gnssLocationBatchCb" (AZ cb :: (out ≫= location_args))
  end.

Definition flpCapabilitiesCb (capabilities : Z) (b : batching) : batching :=
  if (Z.land capabilities CAPABILITY_GNSS =? 0)%Z then b
  else mkBatching (mFlpLocationIface b) (sGnssBatchingCbIface b) true.

(** A call of the driver, if there is one. *)
Definition flp_call {A} (b : batching) (absent : A) (m : io A) : io A := if mFlpLocationIface b then m else IRet absent.

Definition batching_init (callback : option Z) (b : batching) : io (bool * batching) :=
  flp_call b (false, b)
    (do! r := call_ret "flp.init" [] in
     IRet ((r =? 0)%Z, mkBatching (mFlpLocationIface b) callback (sFlpSupportsBatching b))).
Definition getBatchSize (b : batching) : io Z := flp_call b 0%Z (do! n := call_ret "flp.get_batch_size" [] in IRet (u16 n)).
Definition batching_start (flags periodNanos : Z) (b : batching) : io bool :=
  flp_call b false
    (if negb (sFlpSupportsBatching b) then IRet false
     else
       do! r := call_ret "flp.start_batching"
         [AZ FLP_GNSS_BATCHING_CLIENT_ID; AZ 100; AZ FLP_TECH_MASK_GNSS_AND_SENSORS;
          AZ (if (Z.land flags WAKEUP_ON_FIFO_FULL =? 0)%Z then 0 else FLP_BATCH_WAKEUP_ON_FIFO_FULL)%Z; AZ periodNanos; AZ 0] in
       IRet (r =? 0)%Z).
Definition batching_flush (b : batching) : io unit := flp_call b tt (call_ "flp.flush_batched_locations" []).
Definition batching_stop (b : batching) : io bool :=
  flp_call b false (do! r := call_ret "flp.stop_batching" [AZ FLP_GNSS_BATCHING_CLIENT_ID] in IRet (r =? 0)%Z).
Definition batching_cleanup (b : batching) : io unit := flp_call b tt (call_ "flp.cleanup" []).
End flp.

(** * Configuration *)

Definition configuration_update (iface : bool) (key : string) (value : Z) : io bool :=
  if negb iface then IRet false
  else
    let config := cs key ++ cs "=" ++ print_d value ++ [chr 10] in
    call_ "iface.configuration_update" [AS config; AZ (Z.of_nat (length config))] ;! IRet true.

Definition setSuplEs iface (enabled : bool) := configuration_update iface "SUPL_ES" (if enabled then 1 else 0).
Definition setSuplVersion iface version := configuration_update iface "SUPL_VER" version.
Definition setSuplMode iface mode := configuration_update iface "SUPL_MODE" mode.
Definition setLppProfile iface lppProfile := configuration_update iface "LPP_PROFILE" lppProfile.
Definition setGlonassPositioningProtocol iface protocol := configuration_update iface "A_GLONASS_POS_PROTOCOL_SELECT" protocol.
Definition setGpsLock iface lock := configuration_update iface "GPS_LOCK" lock.
Definition setEmergencySuplPdn iface (enabled : bool) :=
  configuration_update iface "USE_EMERGENCY_PDN_FOR_EMERGENCY_SUPL" (if enabled then 1 else 0).

(** * AGnss *)

Definition AF_INET : Z := 2.
Definition AF_INET6 : Z := 10.

Record AGpsStatus := mkAGpsStatus {
  a_size : Z; a_type : Z; a_status : Z; ss_family : Z; sin_addr : Z; sin6_addr : list ascii; a_ipaddr : Z
}.

(** The bytes of a 32-bit number in the order of the network, read back. *)
Definition htonl (z : Z) : Z :=
  match le32_bytes (u32 z) with [b0; b1; b2; b3] => le32_of b3 b2 b1 b0 | _ => 0%Z end.

(** [sizeof_status], [sizeof_v2]: the sizes of the two versions of the structure. *)
Definition agnss_statusCb (sizeof_status sizeof_v2 : Z) (cb : option Z) (status : option AGpsStatus) : io unit :=
  match cb, status with
  | None, _ | _, None => IRet tt
  | Some cb, Some st =>
    if (a_size st =? sizeof_status)%Z then
      if (ss_family st =? AF_INET)%Z then call_ "cb.agnssStatusIpV4Cb" [AZ cb; AZ (a_type st); AZ (a_status st); AZ (sin_addr st)]
      else if (ss_family st =? AF_INET6)%Z then
        call_ "cb.agnssStatusIpV6Cb" [AZ cb; AZ (a_type st); AZ (a_status st); AB (take 16 (sin6_addr st))]
      else IRet tt
    else if (a_size st >=? sizeof_v2)%Z then
      call_ "cb.agnssStatusIpV4Cb" [AZ cb; AZ AF_INET; AZ (a_status st); AZ (htonl (a_ipaddr st))]
    else IRet tt
  end.

Definition agnss_setCallback (iface : bool) (callback old : option Z) : io (option Z) :=
  if iface then call_ "iface.agps_init" [] ;! IRet callback else IRet old.
Definition agnss_ok (iface : bool) (fn : string) (args : list arg) : io bool :=
  if iface then do! r := call_ret ("iface." +:+ fn) args in IRet (r =? 0)%Z else IRet false.
Definition dataConnClosed iface := agnss_ok iface "data_conn_closed" [].
Definition dataConnFailed iface := agnss_ok iface "data_conn_failed" [].
Definition setServer iface (type : Z) (hostname : cstr) (port : Z) := agnss_ok iface "set_server" [AZ type; AS hostname; AZ port].
Definition dataConnOpen iface (apn : cstr) (ip_type : Z) := agnss_ok iface "data_conn_open_with_apn_ip_type" [AS apn; AZ (u16 ip_type)].

(** * Reports of measurements *)

(** The local estimates of GPS time: of the older clock, whose type says what its
    time is, and of the one the client gets. *)
Definition legacy_gps_time (k : LegacyClock) : Z :=
  if (k_type k =? GPS_CLOCK_TYPE_GPS_TIME)%Z then k_time_ns k else k_time_ns k + k_full_bias_ns k.
Definition gps_time (c : GnssClock) : Z := timeNs c - fullBiasNs c.

(** A field that a flag announces. *)
Definition announced (flags bit given value : Z) : Prop :=
  value = if (Z.land flags bit =? 0)%Z then 0%Z else given.

Record measurement_ok (e : LegacyMeasurement) (m : GnssMeasurementOut) : Prop := {
  mo_svid : o_svid m = m_svid e ∧ (o_constellation m = GPS ↔ (1 ≤ m_svid e ≤ 32)%Z);
  mo_time : (timeOffsetNs m, receivedSvTimeInNs m, state m) = (m_time_offset_ns e, m_received_ns e, m_state e);
  mo_fields :
    announced (m_flags e) GNSS_MEASUREMENT_HAS_CARRIER_FREQUENCY (m_carrier_frequency_hz e) (o_carrierFrequencyHz m) ∧
    announced (m_flags e) GNSS_MEASUREMENT_HAS_CARRIER_PHASE (m_carrier_phase e) (carrierPhase m) ∧
    announced (m_flags e) GNSS_MEASUREMENT_HAS_CARRIER_PHASE_UNCERTAINTY (m_carrier_phase_uncertainty e)
      (carrierPhaseUncertainty m) ∧
    announced (m_flags e) GNSS_MEASUREMENT_HAS_SNR (m_snr_db e) (snrDb m)
}.

Lemma gps_measurement_ok e : (- 128 ≤ m_svid e < 128)%Z → measurement_ok e (gps_measurement e).
Proof.
  intros H. split; [|done|done]. split; [by apply i16_small; lia|]. cbn [gps_measurement o_constellation].
  destruct (Z.leb_spec 1 (m_svid e)), (Z.leb_spec (m_svid e) 32); cbn; split; (done || lia).
Qed.

(** The reports of an older driver, one after the other. *)
Fixpoint gps_reports (l : list LegacyData) (dc : Z) : cres (list (list GnssMeasurementOut * GnssClock)) :=
  match l with
  | [] => Ret []
  | (n, ms, k) :: l =>
    let! (ms, c, dc) := gps_data n ms k dc in
    let! r := gps_reports l dc in Ret ((ms, c) :: r)
  end.

(** What the driver may report: no more measurements than its array has, and
    times that are far from the ends of their type. *)
Definition GPS_MAX_MEASUREMENT : nat := 32.
Definition report_ok (d : LegacyData) : Prop :=
  let '(n, ms, k) := d in
  (0 ≤ n ≤ Z.of_nat GPS_MAX_MEASUREMENT)%Z ∧ length ms = GPS_MAX_MEASUREMENT ∧
  Forall (λ e, - 128 ≤ m_svid e < 128)%Z ms ∧ (- 2 ^ 63 < k_time_ns k)%Z ∧ (- 2 ^ 63 < k_full_bias_ns k)%Z.

Definition sent_ok (d : LegacyData) (o : list GnssMeasurementOut * GnssClock) : Prop :=
  let '(n, ms, k) := d in
  Forall2 measurement_ok (take (Z.to_nat n) ms) o.1 ∧ gps_time o.2 = legacy_gps_time k ∧
  (k_type k = GPS_CLOCK_TYPE_GPS_TIME →
   Z.testbit (gnssClockFlags o.2) 2 = true ∧ timeNs o.2 = 0%Z ∧ is_Some (hwClockDiscontinuityCount o.2)).

Lemma neg_int64_ok z : (- 2 ^ 63 < z)%Z → neg_int64 z = Ret (- z)%Z.
Proof. intros H. unfold neg_int64. by rewrite (proj2 (Z.eqb_neq _ _)) by lia. Qed.

(** The count and the static after a report of a clock of this type. *)
Definition counted (k : LegacyClock) (dc : Z) : option Z * Z :=
  if (k_type k =? GPS_CLOCK_TYPE_GPS_TIME)%Z then (Some dc, u32 (dc + 1)) else (None, dc).

Lemma gps_data_ok n ms k dc :
  report_ok (n, ms, k) →
  ∃ o, gps_data n ms k dc = Ret (o.1, o.2, (counted k dc).2) ∧ sent_ok (n, ms, k) o ∧
    hwClockDiscontinuityCount o.2 = (counted k dc).1.
Proof.
  intros (Hn & Hl & Hp & Ht & Hb). unfold gps_data, measurement_count, GNSS_MAX_SVS_COUNT, GPS_MAX_MEASUREMENT in *.
  rewrite Z.min_l by lia. rewrite convert_list_spec by lia. cbn [cbind]. rewrite drop_0.
  assert (Hms : Forall2 measurement_ok (take (Z.to_nat n) ms) (gps_measurement <$> take (Z.to_nat n) ms)).
  { apply Forall2_fmap_r, Forall_Forall2_diag. eapply Forall_impl; [by apply Forall_take|].
    intros e. apply gps_measurement_ok. }
  unfold gps_clock, counted. destruct (Z.eqb_spec (k_type k) GPS_CLOCK_TYPE_GPS_TIME) as [E|E].
  - rewrite neg_int64_ok by done. cbn [cbind]. eexists (_, _). split; [reflexivity|]. split; [|done].
    split_and!; [exact Hms| |].
    + unfold gps_time, legacy_gps_time. rewrite E. cbn. lia.
    + intros _. cbn [snd gnssClockFlags]. rewrite Z.lor_spec, orb_true_r. split_and!; [done|done|by eexists].
  - rewrite neg_int64_ok by done. cbn [cbind]. eexists (_, _). split; [reflexivity|]. split; [|done].
    split_and!; [exact Hms| |done].
    unfold gps_time, legacy_gps_time. rewrite (proj2 (Z.eqb_neq _ _)) by done. cbn. lia.
Qed.

Definition counts (o : list (list GnssMeasurementOut * GnssClock)) : list Z :=
  omap (λ x, hwClockDiscontinuityCount x.2) o.

Lemma gps_reports_ok l dc :
  Forall report_ok l → (0 ≤ dc < 2 ^ 32)%Z →
  ∃ o m, gps_reports l dc = Ret o ∧ Forall2 sent_ok l o ∧ (m ≤ length l)%nat ∧
    counts o = (λ i, u32 (dc + Z.of_nat i)) <$> seq 0 m.
Proof.
  intros Hl. revert dc. induction Hl as [|[[n ms] k] l Hd _ IH]; intros dc Hdc.
  - exists [], 0%nat. split_and!; [done|by constructor|done|done].
  - destruct (gps_data_ok n ms k dc Hd) as (o & E & Ho & Hc). cbn [gps_reports]. rewrite E. cbn [cbind].
    destruct (IH (counted k dc).2) as (r & m & Er & Hr & Hm & Hcr).
    { unfold counted. destruct (_ =? _)%Z; cbn [snd]; [|done]. unfold u32. apply Z.mod_pos_bound. lia. }
    rewrite Er. cbn [cbind]. rewrite <-surjective_pairing. unfold counted in *. destruct (_ =? _)%Z; cbn [fst snd] in *.
    + exists (o :: r), (S m). split_and!; [done|by constructor|cbn; lia|].
      unfold counts in *. cbn [omap list_omap]. rewrite Hc. cbn [seq]. rewrite fmap_cons. f_equal.
      * rewrite Z.add_0_r. symmetry. by apply u32_small.
      * etransitivity; [exact Hcr|]. rewrite <-fmap_S_seq, <-list_fmap_compose. apply list_fmap_ext. intros ? x _. cbn.
        unfold u32. rewrite Zplus_mod_idemp_l. f_equal. lia.
    + exists (o :: r), m. split_and!; [done|by constructor|cbn; lia|].
      unfold counts in *. cbn [omap list_omap]. by rewrite Hc.
Qed.

(** Every report of an older driver reaches the client: a measurement for each
    of the driver's with only the announced fields filled, a clock with the same
    estimate of GPS time whatever the type of the driver's clock, and no two of
    the clocks made from GPS time share a discontinuity count, so that the client
    never takes one for the continuation of another. *)
Theorem gps_reports_convert l :
  Forall report_ok l → (Z.of_nat (length l) ≤ 2 ^ 32)%Z →
  ∃ o, gps_reports l 0 = Ret o ∧ Forall2 sent_ok l o ∧ NoDup (counts o).
Proof.
  intros Hl Hn. destruct (gps_reports_ok l 0 Hl) as (o & m & E & Ho & Hm & Hc); [lia|].
  exists o. split_and!; [done|done|]. rewrite Hc. apply NoDup_fmap_2_strong; [|apply NoDup_seq].
  intros i j Hi Hj. rewrite !elem_of_seq in *. rewrite !u32_small by lia. lia.
Qed.

Definition sample_clock (type time bias : Z) : LegacyClock := mkLegacyClock 0 0 type time 0 bias 0 0 0 0 0.
Definition no_measurement : LegacyMeasurement := mkLegacyMeasurement 0 0 UNKNOWN 0 0 0 0 0 0 0 0 0 0 0 0 0 0 0 0.
Definition sample_ms : list LegacyMeasurement :=
  mkLegacyMeasurement 513 7 UNKNOWN 0 0 0 0 0 0 0 0 0 0 9 8 6 5 0 4 :: replicate 31 no_measurement.
Definition sample_reports : list LegacyData :=
  [(1, sample_ms, sample_clock GPS_CLOCK_TYPE_GPS_TIME 1000 5);
   (2, sample_ms, sample_clock GPS_CLOCK_TYPE_LOCAL_HW_TIME 1000 5);
   (0, sample_ms, sample_clock GPS_CLOCK_TYPE_GPS_TIME 2000 5)]%Z.

Lemma gps_reports_convert_witness :
  ∃ o, gps_reports sample_reports 0 = Ret o ∧ Forall2 sent_ok sample_reports o ∧ counts o = [0; 1]%Z ∧
    ((λ x, (gps_time x.2, length x.1)) <$> o) = [(1000, 1%nat); (1005, 2%nat); (2000, 0%nat)]%Z.
Proof.
  destruct (gps_reports_convert sample_reports) as (o & E & Ho & _).
  - assert (Hms : Forall (λ e, - 128 ≤ m_svid e < 128)%Z sample_ms).
    { apply (bool_decide_unpack _). vm_compute. exact I. }
    unfold sample_reports. repeat (apply Forall_cons_2; [split_and!; first [reflexivity|exact Hms|unfold GPS_MAX_MEASUREMENT; cbn; lia]|]).
    by apply Forall_nil.
  - cbn. lia.
  - exists o. split; [exact E|]. split; [exact Ho|]. vm_compute in E. injection E as <-. split; reflexivity.
Defined.

(** As with the satellites, the number is compared with what the message holds and
    not with what the driver's array has. *)
Example too_many_measurements :
  gps_data 33 (replicate 32 no_measurement) (sample_clock 1 0 0) 0 = Fault.
Proof. vm_compute. reflexivity. Qed.

(** * Locations of a batch *)

Section batches.
Context (F : flp_flags) (FLP_TECH_MASK_GNSS FLP_TECH_MASK_SENSORS : Z).

(** A slot with a location made with the requested technologies and no other. *)
Definition requested (slot : option FlpLocation) : option GnssLocation :=
  l ← slot;
  if (Z.land (sources_used l) (Z.lnot (FLP_TECH_MASK_GNSS_AND_SENSORS FLP_TECH_MASK_GNSS FLP_TECH_MASK_SENSORS)) =? 0)%Z
  then Some (convertFlpToGnssLocation F (Some (f_location l))) else None.

Lemma batch_loop_spec n i l :
  (i + n ≤ length l)%nat →
  batch_loop F FLP_TECH_MASK_GNSS FLP_TECH_MASK_SENSORS n i l = Ret (omap requested (take n (drop i l))).
Proof.
  revert i. induction n as [|n IH]; intros i Hn; cbn [batch_loop]; [by rewrite take_0|].
  destruct (lookup_lt_is_Some_2 l i) as [x Hx]; [lia|]. rewrite Hx. cbn [deref cbind]. rewrite IH by lia. cbn [cbind].
  rewrite (drop_S l x i Hx). cbn [take omap list_omap]. unfold requested. destruct x as [x|]; [|done]. cbn.
  by destruct (_ =? 0)%Z.
Qed.

Lemma length_requested l : (length (omap requested l) ≤ length l)%nat.
Proof. induction l as [|x l IH]; cbn; [done|]. destruct (requested x); cbn; lia. Qed.
End batches.

(** A batch, whatever the count the driver gives, is handed to the client in one
    call with the locations of its first slots, at most a thousand, in their order:
    those that are there and used no other technology than the requested ones. *)
Theorem batch_forwards {W} F gnss_mask sensors (env : W → string → list arg → resp * W) n l b cb w :
  sGnssBatchingCbIface b = Some cb → (Z.min n MAX_LOCATIONS_PER_BATCH ≤ Z.of_nat (length l))%Z →
  let out := omap (requested F gnss_mask sensors) (take (Z.to_nat (Z.min n MAX_LOCATIONS_PER_BATCH)) l) in
  ∃ r w', run env (batch_locationCb F gnss_mask sensors n (Some l) b) w =
      (Done tt, [mkEvent "cb.gnssLocationBatchCb" (AZ cb :: (out ≫= location_args)) r], w') ∧
    (length out ≤ 1000)%nat.
Proof.
  intros Hcb Hn out. unfold batch_locationCb. rewrite Hcb. unfold MAX_LOCATIONS_PER_BATCH in *.
  assert (E : Z.to_nat (clamp_locations n) = Z.to_nat (Z.min n 1000)).
  { unfold clamp_locations, MAX_LOCATIONS_PER_BATCH. rewrite Z.gtb_ltb. destruct (Z.ltb_spec n 0), (Z.ltb_spec 1000 n); lia. }
  rewrite E, batch_loop_spec by lia. rewrite drop_0. fold out. cbn. step_env. eexists _, _. split; [reflexivity|].
  subst out. etransitivity; [apply length_requested|]. rewrite length_take. lia.
Qed.

Definition sample_flags : flp_flags := mkFlpFlags 1 2 4 8 16.
Definition sample_batch : list (option FlpLocation) :=
  [Some (mkFlpLocation (mkGpsLocation 17 1 2 3 4 5 6 7) 1); None; Some (mkFlpLocation (mkGpsLocation 17 1 2 3 4 5 6 8) 5);
   Some (mkFlpLocation (mkGpsLocation 17 1 2 3 4 5 6 9) 3)].

Lemma batch_forwards_witness :
  ∃ r w', run quiet_env (batch_locationCb sample_flags 1 2 4 (Some sample_batch) (mkBatching true (Some 5%Z) true)) tt =
    (Done tt, [mkEvent "cb.gnssLocationBatchCb"
       (AZ 5 :: (AZ <$> [17; 1; 2; 3; 4; 5; 6; 0; 0; 0; 7; 17; 1; 2; 3; 4; 5; 6; 0; 0; 0; 9])) r], w')%Z.
Proof.
  destruct (batch_forwards sample_flags 1 2 quiet_env 4 sample_batch (mkBatching true (Some 5%Z) true) 5 tt)
    as (r & w' & E & _); [reflexivity|vm_compute; discriminate|].
  exists r, w'. exact E.
Defined.

(** The older status carries the address in the order of the host; the type the
    client gets for it is the address family, 2, the number of C2K, whatever the
    driver says. *)
Example old_status_type :
  (run quiet_env (agnss_statusCb 160 16 (Some 1%Z) (Some (mkAGpsStatus 16 1 2 0 0 [] 0x7f000001))) tt).1.2 =
  [mkEvent "cb.agnssStatusIpV4Cb" [AZ 1; AZ 2; AZ 2; AZ 0x0100007f] (mkResp 0 0 [] [])].
Proof. vm_compute. reflexivity. Qed.
