(* ===== verification/GnssServices.v ===== *)
(** hardware/gnss/{ThreadCreationWrapper,GnssGeofencing,AGnssRil,GnssNi,GnssXtra,
    GnssNavigationMessage,GnssDebug}.cpp: the threads the drivers have made for
    them, and the extensions of the GNSS service that hand on what they get. *)

From Stdlib Require Import ZArith Lia Ascii.
From stdpp Require Import base numbers strings gmap list.
From S2P Require Import Prelude CString Sys Gnss.

(** * ThreadCreationWrapper *)

Record ThreadFuncArgs := mkThreadFuncArgs { fptr : Z; args : Z }.

(** The arguments on the heap, those the list of the interface owns, the threads
    that have not read theirs yet, and the calls the threads have made. *)
Record threads := mkThreads {
  heap : gmap nat ThreadFuncArgs;
  sThreadFuncArgsList : list nat;
  started : list nat;
  calls : list (Z * Z)
}.
Definition no_threads : threads := mkThreads ∅ [] [] [].

(** [new], the address being any free one; the thread is there if [pthread_create]
    gives 0; [None]: the thread's number was not written. *)
Definition createPthread (start arg : Z) (loc : nat) (ret threadId : Z) (t : threads) : option Z * threads :=
  let heap1 := <[loc := mkThreadFuncArgs start arg]> (heap t) in
  let list1 := sThreadFuncArgsList t ++ [loc] in
  if (ret =? 0)%Z then (Some threadId, mkThreads heap1 list1 (started t ++ [loc]) (calls t))
  else (None, mkThreads heap1 list1 (started t) (calls t)).

(** The [i]-th thread that has not run yet reads its arguments and calls. *)
Definition threadFunc (i : nat) (t : threads) : cres threads :=
  match started t !! i with
  | None => Ret t
  | Some loc =>
    let! a := deref (heap t !! loc) in
    Ret (mkThreads (heap t) (sThreadFuncArgsList t) (delete i (started t)) (calls t ++ [(fptr a, args a)]))
  end.

(** The destructor of an interface: [sThreadFuncArgsList.clear()]. *)
Definition clear_threads (t : threads) : threads :=
  mkThreads (foldr delete (heap t) (sThreadFuncArgsList t)) [] (started t) (calls t).

Inductive thread_op := CreateThread (start arg : Z) (loc : nat) (ret : Z) | RunThread (i : nat).

Definition thread_step (o : thread_op) (t : threads) : cres threads :=
  match o with
  | CreateThread start arg loc ret => Ret (createPthread start arg loc ret 0 t).2
  | RunThread i => threadFunc i t
  end.

(** * GnssGeofencing *)

(** A call of the client, if there is one; its failure is only logged. *)
Definition to_client (cb : option Z) (fn : string) (args : list arg) : io unit :=
  match cb with None => IRet tt | Some cb => call_ ("cb." +:+ fn) (AZ cb :: args) end.
Definition to_driver (iface : bool) (fn : string) (args : list arg) : io unit :=
  if iface then call_ fn args else IRet tt.
(** The same with the answer compared with 0. *)
Definition driver_ok (iface : bool) (fn : string) (args : list arg) : io bool :=
  if iface then do! r := call_ret fn args in IRet (r =? 0)%Z else IRet false.
(** The same where the answer is not looked at. *)
Definition driver_told (iface : bool) (fn : string) (args : list arg) : io bool :=
  if iface then call_ fn args ;! IRet true else IRet false.

Definition gnssGfTransitionCb cb (geofenceId : Z) (location : option GpsLocation) (transition timestamp : Z) : io unit :=
  match location with
  | None => IRet tt
  | Some _ => to_client cb "gnssGeofenceTransitionCb"
                (AZ geofenceId :: location_args (convertToGnssLocation location) ++ [AZ transition; AZ timestamp])
  end.
Definition gnssGfStatusCb cb (status : Z) (location : option GpsLocation) : io unit :=
  to_client cb "gnssGeofenceStatusCb" (AZ status :: location_args (convertToGnssLocation location)).
Definition gnssGfAddCb cb (geofenceId status : Z) := to_client cb "gnssGeofenceAddCb" [AZ geofenceId; AZ status].
Definition gnssGfRemoveCb cb (geofenceId status : Z) := to_client cb "gnssGeofenceRemoveCb" [AZ geofenceId; AZ status].
Definition gnssGfPauseCb cb (geofenceId status : Z) := to_client cb "gnssGeofencePauseCb" [AZ geofenceId; AZ status].
Definition gnssGfResumeCb cb (geofenceId status : Z) := to_client cb "gnssGeofenceResumeCb" [AZ geofenceId; AZ status].

(** The client is kept even without a driver. *)
Definition geofencing_setCallback (iface : bool) (callback : option Z) : io (option Z) :=
  to_driver iface "geofencing.init" [] ;! IRet callback.

(** The two times become ints. *)
Definition addGeofence iface (geofenceId latitude longitude radius lastTransition monitorTransitions
    notificationResponsivenessMs unknownTimerMs : Z) : io unit :=
  to_driver iface "geofencing.add_geofence_area"
    (AZ <$> [geofenceId; latitude; longitude; radius; lastTransition; monitorTransitions;
             i32 notificationResponsivenessMs; i32 unknownTimerMs]).
Definition pauseGeofence iface (geofenceId : Z) := to_driver iface "geofencing.pause_geofence" [AZ geofenceId].
Definition resumeGeofence iface (geofenceId monitorTransitions : Z) :=
  to_driver iface "geofencing.resume_geofence" [AZ geofenceId; AZ monitorTransitions].
Definition removeGeofence iface (geofenceId : Z) := to_driver iface "geofencing.remove_geofence_area" [AZ geofenceId].

(** * AGnssRil *)

Definition requestSetId cb (flags : Z) := to_client cb "requestSetIdCb" [AZ flags].
Definition requestRefLoc cb (flags : Z) := to_client cb "requestRefLocCb" [].

(** Without a driver the client is not kept. *)
Definition ril_setCallback (iface : bool) (callback old : option Z) : io (option Z) :=
  if iface then call_ "ril.init" [] ;! IRet callback else IRet old.

Record CellID := mkCellID { c_type : Z; mcc : Z; mnc : Z; lac : Z; cid : Z; tac : Z; pcid : Z }.

Definition setRefLocation iface (type : Z) (c : CellID) : io unit :=
  to_driver iface "ril.set_ref_location"
    (AZ <$> [u16 type; u16 (c_type c); mcc c; mnc c; lac c; cid c; tac c; pcid c]).
Definition setSetId iface (type : Z) (setid : cstr) : io bool := driver_told iface "ril.set_set_id" [AZ (u16 type); AS setid].
Definition updateNetworkState iface (connected : bool) (type : Z) (roaming : bool) : io bool :=
  driver_told iface "ril.update_network_state" [AZ (Z.b2z connected); AZ type; AZ (Z.b2z roaming)].
Definition updateNetworkAvailability iface (available : bool) (apn : cstr) : io bool :=
  driver_told iface "ril.update_network_availability" [AZ (Z.b2z available); AS apn].

(** * GnssNi *)

Record GpsNiNotification := mkNotification {
  notification_id : Z; ni_type : Z; notify_flags : Z; timeout : Z; default_response : Z;
  requestor_id : list ascii; text : list ascii;         (** arrays of 256 and of 2048 *)
  requestor_id_encoding : Z; text_encoding : Z
}.

(** A string made from an array of characters. *)
Definition string_of (l : list ascii) : cres cstr := if bool_decide (NUL ∈ l) then Ret (c_str_of l) else Fault.

Definition niNotifyCb (cb : option Z) (notification : option GpsNiNotification) : io unit :=
  match cb, notification with
  | None, _ | _, None => IRet tt
  | Some _, Some n =>
    do! requestorId := of_cres (string_of (requestor_id n)) in
    do! notificationMessage := of_cres (string_of (text n)) in
    to_client cb "niNotifyCb"
      [AZ (notification_id n); AZ (ni_type n); AZ (notify_flags n); AZ (u32 (timeout n)); AZ (default_response n);
       AS requestorId; AS notificationMessage; AZ (requestor_id_encoding n); AZ (text_encoding n)]
  end.
Definition ni_setCallback (iface : bool) (callback old : option Z) : io (option Z) :=
  if iface then call_ "ni.init" [] ;! IRet callback else IRet old.
Definition respond iface (notifId userResponse : Z) := to_driver iface "ni.respond" [AZ notifId; AZ userResponse].

(** * GnssXtra *)

Definition gnssXtraDownloadRequestCb cb := to_client cb "downloadRequestCb" [].
Definition xtra_setCallback (iface : bool) (callback old : option Z) : io (bool * option Z) :=
  if iface then do! r := call_ret "xtra.init" [] in IRet ((r =? 0)%Z, callback) else IRet (false, old).
(** The driver is handed a copy. *)
Definition injectXtraData iface (xtraData : list ascii) : io bool :=
  driver_ok iface "xtra.inject_xtra_data" [AB xtraData; AZ (Z.of_nat (length xtraData))].

(** * GnssNavigationMessage *)

Record NavigationMessage := mkNavigationMessage {
  n_svid : Z; n_type : Z; n_status : Z; message_id : Z; submessage_id : Z; data : list ascii; data_length : nat
}.

Definition gnssNavigationMessageCb (cb : option Z) (message : option NavigationMessage) : io unit :=
  match cb, message with
  | None, _ | _, None => IRet tt
  | Some _, Some m =>
    if (data_length m <=? length (data m))%nat
    then to_client cb "gnssNavigationMessageCb"
           [AZ (n_svid m); AZ (n_type m); AZ (n_status m); AZ (message_id m); AZ (submessage_id m);
            AB (take (data_length m) (data m))]
    else IFault
  end.
Definition GnssNavigationMessageStatus_ERROR_GENERIC : Z := -101.
Definition navigation_setCallback (iface : bool) (callback old : option Z) : io (Z * option Z) :=
  if iface then do! r := call_ret "navigation_message.init" [] in IRet (r, callback)
  else IRet (GnssNavigationMessageStatus_ERROR_GENERIC, old).
Definition navigation_close iface := to_driver iface "navigation_message.close" [].

(** * GnssDebug *)

Definition kMaxDebugStrLen : Z := 2047.

(** The driver fills the buffer, of which it is told one byte less, and gives a
    length; the contents are what it left there. *)
Definition getDebugData (iface : bool) : io unit :=
  call_ "_hidl_cb" [] ;!
  if negb iface then IRet tt
  else
    do! r := call "debug.get_internal_state" [AZ kMaxDebugStrLen] in
    let length := Z.max (r_ret r) kMaxDebugStrLen in
    if (length <=? kMaxDebugStrLen)%Z
    then call_ "ALOGD" [AS (c_str_of (take (Z.to_nat length) (r_out r) ++ [NUL]))]
    else IFault.

(** * The arguments of the threads *)

(** Each argument is on the heap and owned by the list, once; a thread that has
    not run has its own. *)
Record threads_ok (t : threads) : Prop := {
  ok_owned : ∀ loc, loc ∈ sThreadFuncArgsList t ↔ is_Some (heap t !! loc);
  ok_started : ∀ loc, loc ∈ started t → loc ∈ sThreadFuncArgsList t
}.

(** What the threads were told to call, those that have called and those that
    will. *)
Definition told (t : threads) : list (Z * Z) :=
  calls t ++ omap (λ loc, (λ a, (fptr a, args a)) <$> heap t !! loc) (started t).

Definition fresh_op (o : thread_op) (t : threads) : Prop :=
  match o with CreateThread _ _ loc _ => heap t !! loc = None | RunThread _ => True end.

(** Steps at addresses that are free when they are taken. *)
Inductive thread_steps : list thread_op → threads → threads → Prop :=
  | steps_nil t : thread_steps [] t t
  | steps_cons o ops t t1 t2 :
      fresh_op o t → thread_step o t = Ret t1 → thread_steps ops t1 t2 → thread_steps (o :: ops) t t2.

(** What was asked for. *)
Definition asked (o : thread_op) : list (Z * Z) :=
  match o with CreateThread start arg _ ret => if (ret =? 0)%Z then [(start, arg)] else [] | RunThread _ => [] end.

Lemma omap_delete_perm {A B} (f : A → option B) (l : list A) i x :
  l !! i = Some x → is_Some (f x) → option_list (f x) ++ omap f (delete i l) ≡ₚ omap f l.
Proof.
  intros Hi [y Hy]. rewrite Hy. cbn [option_list app].
  rewrite (delete_Permutation l i x Hi) at 2. cbn. by rewrite Hy.
Qed.

Lemma thread_step_ok o t :
  threads_ok t → fresh_op o t →
  ∃ t', thread_step o t = Ret t' ∧ threads_ok t' ∧ told t' ≡ₚ asked o ++ told t.
Proof.
  intros [Ho Hs] Hf. destruct o as [st a loc ret|i]; cbn [thread_step asked].
  - eexists. split; [reflexivity|]. unfold createPthread. cbn in Hf.
    assert (Hne : ∀ x, x ∈ started t → x ≠ loc).
    { intros x Hx ->. apply Hs, Ho in Hx. rewrite Hf in Hx. by destruct Hx. }
    assert (Hmap : omap (λ x, (λ a, (fptr a, args a)) <$> <[loc:=mkThreadFuncArgs st a]> (heap t) !! x) (started t)
                   = omap (λ x, (λ a, (fptr a, args a)) <$> heap t !! x) (started t)).
    { clear -Hne. induction (started t) as [|x l IH]; [done|]. cbn.
      rewrite lookup_insert_ne by (intros <-; exact (Hne loc ltac:(by left) eq_refl)).
      rewrite IH; [done|]. intros y Hy. apply Hne. by right. }
    assert (Hown : ∀ x, x ∈ sThreadFuncArgsList t ++ [loc] ↔ is_Some (<[loc:=mkThreadFuncArgs st a]> (heap t) !! x)).
    { intros x. rewrite elem_of_app, list_elem_of_singleton, Ho.
      destruct (decide (loc = x)) as [->|Hn].
      - rewrite lookup_insert_eq. split; [by eexists|by right].
      - rewrite lookup_insert_ne by done. split; [by intros [?| ->]|by left]. }
    destruct (ret =? 0)%Z; cbn [snd].
    + split; [split; [exact Hown|]|].
      * cbn. intros x. rewrite !elem_of_app. intros [Hx|Hx]; [left; by apply Hs|by right].
      * unfold told. cbn. rewrite omap_app, Hmap. cbn. rewrite lookup_insert_eq. cbn.
        rewrite app_assoc. symmetry. apply Permutation_cons_append.
    + split; [split; [exact Hown|]|]; cbn.
      * intros x Hx. apply elem_of_app. left. by apply Hs.
      * unfold told. cbn. by rewrite Hmap.
  - unfold threadFunc. destruct (started t !! i) as [loc|] eqn:Ei; [|eexists; split_and!; [reflexivity|by split|done]].
    assert (Hin : loc ∈ started t) by (eapply list_elem_of_lookup_2; eauto).
    destruct (proj1 (Ho loc) (Hs loc Hin)) as [a Ha]. rewrite Ha. cbn [deref cbind]. eexists. split; [reflexivity|].
    split; [split; [exact Ho|]|].
    + cbn. intros x Hx. apply Hs. rewrite (delete_Permutation _ i loc Ei). by right.
    + unfold told. cbn. rewrite <-app_assoc. f_equiv.
      pose proof (omap_delete_perm (λ x, (λ a, (fptr a, args a)) <$> heap t !! x) (started t) i loc Ei) as P.
      cbn beta in P. rewrite Ha in P. apply P. by eexists.
Qed.

Lemma clear_empties t : threads_ok t → heap (clear_threads t) = ∅.
Proof.
  intros [Ho _]. apply map_empty. intros loc. cbn.
  assert (H : ∀ l (m : gmap nat ThreadFuncArgs), foldr delete m l !! loc = if decide (loc ∈ l) then None else m !! loc).
  { induction l as [|x l IH]; intros m; cbn; [done|]. destruct (decide (x = loc)) as [->|Hn].
    - rewrite lookup_delete_eq, decide_True; [done|by left].
    - rewrite lookup_delete_ne, IH by done. repeat case_decide; set_solver. }
  rewrite H. case_decide as Hd; [done|]. rewrite Ho in Hd. by apply eq_None_not_Some.
Qed.

(** However the threads the driver asks for interleave with its requests, each
    finds its arguments on the heap and no step fails; what they have called and
    will call is what was asked for where [pthread_create] succeeded, once each;
    and the destructor leaves nothing on the heap. *)
Theorem threads_find_args ops t :
  thread_steps ops no_threads t →
  told t ≡ₚ mjoin (asked <$> ops) ∧ (∀ i, ∃ t', threadFunc i t = Ret t') ∧ heap (clear_threads t) = ∅.
Proof.
  assert (H : ∀ t0, threads_ok t0 → thread_steps ops t0 t →
    threads_ok t ∧ told t ≡ₚ mjoin (asked <$> ops) ++ told t0).
  { intros t0 Hok Hst. induction Hst as [|o ops t0 t1 t2 Hf E _ IH]; [done|].
    destruct (thread_step_ok o t0 Hok Hf) as (t1' & E1 & Hok1 & P). rewrite E in E1. injection E1 as <-.
    destruct (IH Hok1) as [Hok2 P2]. split; [done|]. rewrite P2, P. cbn. rewrite !app_assoc. f_equiv.
    apply Permutation_app_comm. }
  intros Hst. destruct (H no_threads) as [Hok P]; [split; cbn; [intros loc; rewrite lookup_empty; split; [by intros ?%elem_of_nil|intros []; done]|done]|done|].
  split_and!.
  - rewrite P. by rewrite app_nil_r.
  - intros i. destruct (thread_step_ok (RunThread i) t Hok I) as (t' & E & _). by exists t'.
  - by apply clear_empties.
Qed.

Lemma threads_find_args_witness :
  ∃ t, thread_steps [CreateThread 1 10 0 0; CreateThread 2 20 1 11; CreateThread 3 30 2 0; RunThread 1] no_threads t ∧
    told t ≡ₚ [(1, 10); (3, 30)]%Z ∧ calls t = [(3, 30)]%Z ∧ heap (clear_threads t) = ∅.
Proof.
  eassert (Hst : thread_steps [CreateThread 1 10 0 0; CreateThread 2 20 1 11; CreateThread 3 30 2 0; RunThread 1]
    no_threads _).
  { repeat (eapply steps_cons; [first [exact I|reflexivity]|reflexivity|]). apply steps_nil. }
  destruct (threads_find_args _ _ Hst) as (P & _ & E). eexists. split; [exact Hst|]. split; [exact P|].
  split; [reflexivity|exact E].
Defined.

(** A thread that starts after the interface is gone reads what was freed. *)
Example thread_after_destructor :
  threadFunc 0 (clear_threads (createPthread 1 10 0 0 5 no_threads).2) = Fault.
Proof. vm_compute. reflexivity. Qed.

(** A driver that wants more room than it was given is trusted. *)
Example debug_length_trusted :
  (run (λ (s : unit) fn args, (mkResp 2048 0 [] [], s)) (getDebugData true) tt).1.1 = Crashed.
Proof. vm_compute. reflexivity. Qed.
