(* ===== verification/InitSec.v ===== *)
(** init/init_sec.cpp, init/init_sec.h: the properties init overrides from the name
    of the boot loader, as a program of calls to the property functions. *)

From Stdlib Require Import ZArith Lia Ascii.
From stdpp Require Import base numbers strings gmap list.
From S2P Require Import Prelude CString Sys.

(** * Strings *)

(** [str.find(needle)]. *)
Fixpoint find (str needle : cstr) : option nat :=
  if bool_decide (needle `prefix_of` str) then Some 0%nat
  else match str with [] => None | _ :: str => S <$> find str needle end.

Definition contains (str : cstr) (needle : string) : bool := bool_decide (is_Some (find str (cs needle))).

Definition replace (str from to : cstr) : cstr :=
  match find str from with
  | None => str
  | Some start_pos => take start_pos str ++ to ++ drop (start_pos + length from) str
  end.

(** * Models *)

(** A branch of the chains: what the boot loader contains, the model and the
    device, the device that is left alone, whether there are two SIM slots. *)
Record branch := mkBranch { code : string; b_model : string; b_device : string; unless : option string; dual : bool }.

Definition plain c m d := mkBranch c m d None false.

Definition G920 : list branch := [
  mkBranch "G920F" "SM-G920F" "zerofltexx" (Some "zeroflteduo") false;
  plain "G920I" "SM-G920I" "zerofltexx"; plain "G920K" "SM-G920K" "zerofltektt"; plain "G920L" "SM-G920L" "zerofltelgt";
  plain "G920P" "SM-G920P" "zerofltespr"; plain "G920S" "SM-G920S" "zeroflteskt"; plain "G920T" "SM-G920T" "zerofltetmo";
  plain "G920W8" "SM-G920W8" "zerofltecan" ]%string.

Definition G925 : list branch := [
  mkBranch "G925F" "SM-G925F" "zeroltexx" (Some "zeroflteduo") false;
  plain "G925I" "SM-G925I" "zeroltexx"; plain "G925K" "SM-G925K" "zeroltektt"; plain "G925L" "SM-G925L" "zeroltelgt";
  plain "G925P" "SM-G925P" "zeroltespr"; plain "G925S" "SM-G925S" "zerolteskt"; plain "G925T" "SM-G925T" "zeroltetmo";
  plain "G925W8" "SM-G925W8" "zeroltecan" ]%string.

Definition G928 : list branch := [
  mkBranch "G928F" "SM-G928F" "zenltexx" (Some "zenltexx") false;
  plain "G928C" "SM-G928C" "zenltejv"; plain "G928I" "SM-G928I" "zenltedv"; plain "G928G" "SM-G928G" "zenltedd";
  plain "G928K" "SM-G928K" "zenltektt"; plain "G928L" "SM-G928L" "zenltelgt"; plain "G928S" "SM-G928S" "zenlteskt";
  plain "G928T" "SM-G928T" "zenltetmo"; plain "G928W8" "SM-G928W8" "zenltecan" ]%string.

Definition N920 : list branch := [
  mkBranch "N920C" "SM-N920C" "nobleltejv" (Some "nobleltejv") true;
  mkBranch "N9208" "SM-N9208" "nobleltezt" None true;
  plain "N920G" "SM-N920G" "nobleltedd"; plain "N920I" "SM-N920I" "nobleltedv"; plain "N920P" "SM-N920P" "nobleltespr";
  plain "N920S" "SM-N920S" "noblelteskt"; plain "N920K" "SM-N920K" "nobleltektt"; plain "N920L" "SM-N920L" "nobleltelgt";
  plain "N920T" "SM-N920T" "nobleltetmo"; plain "N920W8" "SM-N920W8" "nobleltecan" ]%string.

Definition families : list (string * string * list branch) :=
  [("G920", "zeroflte", G920); ("G925", "zerolte", G925); ("G928", "zenlte", G928); ("N920", "noblelte", N920)]%string.

(** What the chain sets of model, device and dualsim; nothing where no branch is
    taken or its device is left alone. *)
Fixpoint chain (bootloader device_orig : cstr) (l : list branch) : option (cstr * cstr * bool) :=
  match l with
  | [] => None
  | b :: l =>
    if contains bootloader (code b) then
      match unless b with
      | Some d => if bool_decide (device_orig = cs d) then None else Some (cs (b_model b), cs (b_device b), dual b)
      | None => Some (cs (b_model b), cs (b_device b), dual b)
      end
    else chain bootloader device_orig l
  end.

Record identity := mkIdentity { model : cstr; device : cstr; product : cstr; dualsim : bool }.

Fixpoint identify_in (bootloader device_orig : cstr) (l : list (string * string * list branch)) : identity :=
  match l with
  | [] => mkIdentity [] [] [] false
  | (fam, prod, bs) :: l =>
    if contains bootloader fam then
      match chain bootloader device_orig bs with
      | Some (m, d, s) => mkIdentity m d (cs prod) s
      | None => mkIdentity [] [] (cs prod) false
      end
    else identify_in bootloader device_orig l
  end.
Definition identify (bootloader device_orig : cstr) : identity := identify_in bootloader device_orig families.

(** * The program *)

Definition GetProperty (name : string) : io cstr :=
  do! r := call "GetProperty" [AS (cs name); AS []] in IRet (r_out r).

Definition property_override (prop : string) (value : cstr) : io unit :=
  let c_value := c_str_of (value ++ [NUL]) in
  let len := AZ (Z.of_nat (length c_value)) in
  do! pi := call_ret "__system_property_find" [AS (cs prop)] in
  if negb (pi =? 0)%Z then call_ "__system_property_update" [AZ pi; AS c_value; len]
  else call_ "__system_property_add" [AS (cs prop); AZ (Z.of_nat (String.length prop)); AS c_value; len].

Fixpoint overrides (l : list (string * cstr)) : io unit :=
  match l with
  | [] => IRet tt
  | (n, v) :: l => property_override n v ;! overrides l
  end.

Definition corrected (device_orig device s : cstr) : cstr :=
  if bool_decide (device_orig ≠ [] ∧ s ≠ []) then replace s device_orig device else s.

(** The overrides in their order. *)
Definition override_list (i : identity) (description fingerprint : cstr) : list (string * cstr) :=
  [("ro.product.model", model i); ("ro.product.device", device i); ("ro.build.product", product i);
   ("ro.lineage.device", device i); ("ro.vendor.product.device", device i);
   ("ro.build.description", description); ("ro.build.fingerprint", fingerprint);
   ("ro.boot.warranty_bit", cs "0"); ("ro.warranty_bit", cs "0"); ("ro.boot.veritymode", cs "enforcing");
   ("ro.boot.verifiedbootstate", cs "green"); ("ro.boot.flash.locked", cs "1"); ("ro.boot.ddrinfo", cs "00000001");
   ("ro.build.selinux", cs "1"); ("ro.fmp_config", cs "1"); ("ro.boot.fmp_config", cs "1");
   ("sys.oem_unlock_allowed", cs "0")]%string ++
  (if dualsim i then
     [("persist.multisim.config", cs "dsds"); ("persist.radio.multisim.config", cs "dsds");
      ("ro.multisim.simslotcount", cs "2"); ("ro.telephony.default_network", cs "9,9")]%string
   else []).

Definition vendor_load_properties : io unit :=
  do! device_orig := GetProperty "ro.product.device" in
  do! bootloader := GetProperty "ro.bootloader" in
  let i := identify bootloader device_orig in
  do! description_orig := GetProperty "ro.build.description" in
  do! fingerprint_orig := GetProperty "ro.build.fingerprint" in
  overrides (override_list i (corrected device_orig (device i) description_orig)
                             (corrected device_orig (device i) fingerprint_orig)).

(** * The identity *)

Lemma find_Some str needle i :
  find str needle = Some i → str = take i str ++ needle ++ drop (i + length needle) str.
Proof.
  revert i. induction str as [|c str IH]; intros i H; cbn [find] in H; case_bool_decide as Hp.
  1, 3: injection H as <-; destruct Hp as [k ->]; cbn [take app plus]; by rewrite drop_app_length.
  - done.
  - destruct (find str needle) as [j|] eqn:E; [|done]. injection H as <-. cbn. f_equal. by apply IH.
Qed.

Lemma find_first str needle i j :
  find str needle = Some i → (j < i)%nat → ¬ needle `prefix_of` drop j str.
Proof.
  revert i j. induction str as [|c str IH]; intros i j H Hj; cbn [find] in H; case_bool_decide as Hp.
  1, 3: injection H as <-; lia.
  - done.
  - destruct (find str needle) as [k|] eqn:E; [|done]. injection H as <-.
    destruct j as [|j]; [done|]. cbn. apply (IH k); [done|lia].
Qed.

(** The phones, without the chains: a family of phones with its product, and the
    variants of each.  The rest follows from the name of a variant. *)
Definition sold : list (string * string * list string) := [
  ("G920", "zeroflte", ["F"; "I"; "K"; "L"; "P"; "S"; "T"; "W8"]);
  ("G925", "zerolte", ["F"; "I"; "K"; "L"; "P"; "S"; "T"; "W8"]);
  ("G928", "zenlte", ["F"; "C"; "I"; "G"; "K"; "L"; "S"; "T"; "W8"]);
  ("N920", "noblelte", ["C"; "8"; "G"; "I"; "P"; "S"; "K"; "L"; "T"; "W8"])]%string.

(** Where, or for which network, a variant is sold: what its device is called after
    the product. *)
Definition region (fam v : string) : string :=
  if bool_decide (v = "I" ∧ fam ∉ ["G920"; "G925"])%string then "dv"
  else default "" (list_to_map (M := gmap string string) [("F", "xx"); ("I", "xx"); ("K", "ktt"); ("L", "lgt");
    ("P", "spr"); ("S", "skt"); ("T", "tmo"); ("W8", "can"); ("C", "jv"); ("G", "dd"); ("8", "zt")] !! v)%string.

Definition two_sims (fam v : string) : bool := bool_decide (fam = "N920" ∧ v ∈ ["C"; "8"])%string.

(** The device on which a variant is left as it is. *)
Definition left_alone (fam v : string) : option string :=
  list_to_map (M := gmap string string) [("G920F", "zeroflteduo"); ("G925F", "zeroflteduo");
    ("G928F", "zenltexx"); ("N920C", "nobleltejv")]%string !! (fam ++ v)%string.

(** The identity that belongs to the name of a boot loader: of the families it
    names the first, of the variants of that family it names the first. *)
Definition phone (bootloader device_orig : cstr) : identity :=
  match List.filter (λ f, contains bootloader f.1.1) sold with
  | [] => mkIdentity [] [] [] false
  | (fam, prod, vs) :: _ =>
    match List.filter (λ v, contains bootloader (fam ++ v)) vs with
    | v :: _ =>
      if bool_decide (cs <$> left_alone fam v = Some device_orig) then mkIdentity [] [] (cs prod) false
      else mkIdentity (cs ("SM-" ++ fam ++ v)) (cs (prod ++ region fam v)) (cs prod) (two_sims fam v)
    | [] => mkIdentity [] [] (cs prod) false
    end
  end.

Definition variant (fam prod v : string) : branch :=
  mkBranch (fam ++ v) ("SM-" ++ fam ++ v) (prod ++ region fam v) (left_alone fam v) (two_sims fam v).

Lemma families_sold :
  families = (λ f : string * string * list string, (f.1.1, f.1.2, variant f.1.1 f.1.2 <$> f.2)) <$> sold.
Proof. vm_compute. reflexivity. Qed.

Lemma chain_variants bootloader device_orig fam prod vs :
  chain bootloader device_orig (variant fam prod <$> vs) =
  match List.filter (λ v, contains bootloader (fam ++ v)) vs with
  | v :: _ =>
    if bool_decide (cs <$> left_alone fam v = Some device_orig) then None
    else Some (cs ("SM-" ++ fam ++ v), cs (prod ++ region fam v), two_sims fam v)
  | [] => None
  end.
Proof.
  induction vs as [|v vs IH]; [done|]. rewrite fmap_cons. cbn [chain variant code unless b_model b_device dual List.filter].
  destruct (contains bootloader (fam ++ v)); [|exact IH].
  destruct (left_alone fam v) as [u|]; cbn [fmap option_fmap option_map]; [|by rewrite bool_decide_false].
  destruct (decide (device_orig = cs u)) as [->|Hu]; [by rewrite !bool_decide_true|].
  rewrite !bool_decide_false; [done|congruence|done].
Qed.

Lemma identify_phone bootloader device_orig : identify bootloader device_orig = phone bootloader device_orig.
Proof.
  unfold identify, phone. rewrite families_sold. generalize sold. intros l.
  induction l as [|[[fam prod] vs] l IH]; [done|]. rewrite fmap_cons. cbn [identify_in fst snd List.filter].
  destruct (contains bootloader fam); [|exact IH]. rewrite chain_variants.
  destruct (List.filter _ vs) as [|v ?]; [done|]. by case_bool_decide.
Qed.

(** A test that every text of the tables passes, and the empty one, is passed by
    the identity. *)
Lemma identify_all (P : cstr → bool) bootloader device_orig :
  P [] = true →
  forallb (λ f : string * string * list branch, P (cs f.1.2) &&
    forallb (λ b, P (cs (b_model b)) && P (cs (b_device b))) f.2) families = true →
  let i := identify bootloader device_orig in P (model i) = true ∧ P (device i) = true ∧ P (product i) = true.
Proof.
  intros H0. unfold identify. generalize families. intros l. induction l as [|[[fam prod] bs] l IH]; [done|].
  cbn [forallb identify_in]. intros H. apply andb_prop in H as [H Hl]. cbn [fst snd] in H. apply andb_prop in H as [Hp Hb].
  destruct (contains bootloader fam); [|by apply IH].
  destruct (chain bootloader device_orig bs) as [[[m d] s]|] eqn:E; [|done]. cbn.
  clear -Hp Hb E. revert E. induction bs as [|b bs IH]; [done|]. cbn [chain forallb] in *.
  apply andb_prop in Hb as [Hb Hbs]. apply andb_prop in Hb as [Hm Hd].
  destruct (contains bootloader (code b)); [|by apply IH].
  destruct (unless b); [case_bool_decide; [done|]|]; by intros [= <- <- <-].
Qed.

(** * Properties of other processes *)

Definition PROP_VALUE_MAX : nat := 92.

(** What the property functions of the C library promise; [props] reads the
    properties off the state of the environment.  Either of the two that write may
    refuse: the area may be full, a new value may be too long for a property that
    exists.  Nothing is promised of the value of a property whose old value is a
    long one, which is stored elsewhere. *)
Class PropertyFunctions {W} (env : W → string → list arg → resp * W) (props : W → gmap cstr cstr) : Prop := {
  value_law w n v : props w !! n = Some v → no_nul v;
  get_law w n :
    let '(r, w1) := env w "GetProperty"%string [AS n; AS []] in r_out r = default [] (props w !! n) ∧ props w1 = props w;
  find_law w n :
    let '(r, w1) := env w "__system_property_find"%string [AS n] in
    (r_ret r ≠ 0 ↔ is_Some (props w !! n))%Z ∧ props w1 = props w;
  update_law w n v :
    let '(r, w1) := env w "__system_property_find"%string [AS n] in
    r_ret r ≠ 0%Z → no_nul v →
    let '(u, w2) := env w1 "__system_property_update"%string [AZ (r_ret r); AS v; AZ (Z.of_nat (length v))] in
    (∀ k, k ≠ n → props w2 !! k = props w !! k) ∧
    (r_ret u ≠ 0%Z → props w2 = props w) ∧
    (r_ret u = 0%Z → (length v < PROP_VALUE_MAX)%nat ∧
       ((length (default [] (props w !! n)) < PROP_VALUE_MAX)%nat → props w2 !! n = Some v));
  add_law w n v :
    props w !! n = None → no_nul v →
    let '(u, w1) := env w "__system_property_add"%string [AS n; AZ (Z.of_nat (length n)); AS v; AZ (Z.of_nat (length v))] in
    props w1 = if (r_ret u =? 0)%Z then <[n := v]> (props w) else props w
}.

(** The calls that write a property, with the answer [z] of the last: an update
    where it was found, an addition where it was not. *)
Definition write_calls (n : string) (v : cstr) (z : Z) (t : list event) : Prop :=
  ∃ r u, r_ret u = z ∧
    t = [mkEvent "__system_property_find" [AS (cs n)] r;
         if (r_ret r =? 0)%Z
         then mkEvent "__system_property_add"
                [AS (cs n); AZ (Z.of_nat (String.length n)); AS v; AZ (Z.of_nat (length v))] u
         else mkEvent "__system_property_update" [AZ (r_ret r); AS v; AZ (Z.of_nat (length v))] u].

(** What has become of a property, from the answer to the call that writes it:
    refused, it is as it was; taken, it has the value. *)
Definition overridden (m m' : gmap cstr cstr) (n : cstr) (v : cstr) (z : Z) : Prop :=
  (z ≠ 0%Z → m' !! n = m !! n) ∧
  (z = 0%Z → (length (default [] (m !! n)) < PROP_VALUE_MAX)%nat → m' !! n = Some v) ∧
  (is_Some (m !! n) → (PROP_VALUE_MAX <= length v)%nat → z ≠ 0%Z).

Section properties.
Context {W : Type} (env : W → string → list arg → resp * W) (props : W → gmap cstr cstr) `{!PropertyFunctions env props}.

Lemma length_cs (s : string) : length (cs s) = String.length s.
Proof. unfold cs. induction s; cbn; by f_equal. Qed.

Lemma run_GetProperty name w :
  ∃ t w1, run env (GetProperty name) w = (Done (default [] (props w !! cs name)), t, w1) ∧ props w1 = props w.
Proof.
  unfold GetProperty, call. cbn. pose proof (get_law w (cs name)) as H.
  destruct (env w "GetProperty"%string _) as [r w1]. destruct H as [-> Hp]. by eexists _, w1.
Qed.

Lemma run_property_override name v w :
  no_nul v →
  ∃ z t w1, run env (property_override name v) w = (Done tt, t, w1) ∧ write_calls name v z t ∧
    overridden (props w) (props w1) (cs name) v z ∧ (∀ k, k ≠ cs name → props w1 !! k = props w !! k).
Proof.
  intros Hv. unfold property_override, call_, call_ret, call. rewrite c_str_of_app by apply Hv. cbn [ibind run].
  pose proof (find_law w (cs name)) as Hf. pose proof (update_law w (cs name) v) as Hu.
  destruct (env w "__system_property_find"%string _) as [r w1]. destruct Hf as [Hf Hp].
  destruct (Z.eqb_spec (r_ret r) 0) as [E|E]; cbn [negb ibind run].
  - pose proof (add_law w1 (cs name) v) as Ha. rewrite length_cs, Hp in Ha.
    assert (Hn : props w !! cs name = None) by (apply eq_None_not_Some; intros Hs; by apply Hf in Hs).
    specialize (Ha Hn Hv). destruct (env w1 "__system_property_add"%string _) as [u w2].
    exists (r_ret u). do 2 eexists. split; [reflexivity|]. rewrite Ha. split; [|split].
    + exists r, u. by rewrite E.
    + unfold overridden. rewrite Hn. destruct (Z.eqb_spec (r_ret u) 0) as [Eu|Eu].
      * split; [done|]. split; [by rewrite lookup_insert_eq|by intros []].
      * split; [done|]. split; [done|by intros []].
    + intros k Hk. destruct (r_ret u =? 0)%Z; [by rewrite lookup_insert_ne|done].
  - specialize (Hu E Hv). destruct (env w1 "__system_property_update"%string _) as [u w2].
    destruct Hu as (Ho & Hr & Hs). exists (r_ret u). do 2 eexists. split; [reflexivity|]. split; [|split; [|exact Ho]].
    + exists r, u. by rewrite (proj2 (Z.eqb_neq _ _) E).
    + split; [by intros ->%Hr|]. split; [intros Ez; by apply Hs|]. intros _ Hlong Ez. apply Hs in Ez. lia.
Qed.

Lemma overridden_ext (m0 m m' m1 : gmap cstr cstr) (n v : cstr) z :
  m0 !! n = m !! n → m1 !! n = m' !! n → overridden m m' n v z → overridden m0 m1 n v z.
Proof. unfold overridden. by intros -> ->. Qed.

(** The writes of a list of properties, one after the other. *)
Lemma run_overrides l w :
  Forall (λ p, no_nul p.2) l → NoDup (cs <$> l.*1) →
  ∃ t w1, run env (overrides l) w = (Done tt, t, w1) ∧
    (∀ n v, (n, v) ∈ l → ∃ z t1 tw t2, t = t1 ++ tw ++ t2 ∧ write_calls n v z tw ∧
       overridden (props w) (props w1) (cs n) v z) ∧
    (∀ k, k ∉ cs <$> l.*1 → props w1 !! k = props w !! k).
Proof.
  intros Hl. revert w. induction Hl as [|[n v] l Hv _ IH]; intros w Hnd; cbn [overrides].
  { eexists _, _. split; [reflexivity|]. split; [by intros ?? ?%elem_of_nil|done]. }
  cbn in Hnd. apply NoDup_cons in Hnd as [Hn Hnd]. rewrite run_bind.
  destruct (run_property_override n v w Hv) as (z & t & w1 & -> & Hc & Ho & Hk).
  destruct (IH w1 Hnd) as (t2 & w2 & -> & Hw & Hrest). eexists _, w2. split; [reflexivity|]. split.
  - intros n' v' [[= -> ->]|Hin]%elem_of_cons.
    + exists z, [], t, t2. split; [done|]. split; [done|]. eapply overridden_ext; [| |exact Ho]; [done|by apply Hrest].
    + destruct (Hw n' v' Hin) as (z' & ta & tw & tb & -> & Hc' & Ho').
      exists z', (t ++ ta), tw, tb. split; [by rewrite <-app_assoc|]. split; [done|].
      assert (Hn' : cs n' ∈ cs <$> l.*1).
      { apply list_elem_of_fmap. exists n'. split; [done|]. apply list_elem_of_fmap. by exists (n', v'). }
      eapply overridden_ext; [| |exact Ho']; [|done]. symmetry. apply Hk. intros E. rewrite E in Hn'. exact (Hn Hn').
  - intros k Hnk. cbn in Hnk. rewrite not_elem_of_cons in Hnk. rewrite Hrest by tauto. apply Hk. tauto.
Qed.
End properties.

Lemma override_names_NoDup i d f : NoDup (cs <$> (override_list i d f).*1).
Proof.
  unfold override_list. destruct (dualsim i); cbn [fst app fmap list_fmap]; apply (bool_decide_unpack _); vm_compute; exact I.
Qed.

Lemma replace_first pre from post to :
  (∀ j, (j < length pre)%nat → ¬ from `prefix_of` drop j (pre ++ from ++ post)) →
  replace (pre ++ from ++ post) from to = pre ++ to ++ post.
Proof.
  intros H. unfold replace.
  assert (E : find (pre ++ from ++ post) from = Some (length pre)).
  { induction pre as [|c pre IH].
    - cbn [app]. assert (Hp : from `prefix_of` from ++ post) by by eexists.
      destruct (from ++ post); cbn [find]; by rewrite bool_decide_true.
    - cbn [app find]. rewrite bool_decide_false by (apply (H 0%nat); cbn; lia). rewrite IH; [done|].
      intros j Hj. apply (H (S j)). cbn. lia. }
  rewrite E. rewrite take_app_length. do 2 f_equal. rewrite <-length_app, app_assoc. apply drop_app_length.
Qed.

Lemma replace_no_nul str from to : no_nul str → no_nul to → no_nul (replace str from to).
Proof.
  intros Hs Ht. unfold replace. destruct (find str from) as [i|]; [|done]. rewrite !no_nul_app. unfold no_nul in *.
  split; [|split; [done|]]; intros Hin; apply Hs.
  - rewrite <-(take_drop i str). apply elem_of_app. by left.
  - rewrite <-(take_drop (i + length from) str). apply elem_of_app. by right.
Qed.

Lemma corrected_no_nul device_orig device s : no_nul s → no_nul device → no_nul (corrected device_orig device s).
Proof. intros Hs Hd. unfold corrected. case_bool_decide; [by apply replace_no_nul|done]. Qed.

Lemma identify_no_nul bootloader device_orig :
  let i := identify bootloader device_orig in no_nul (model i) ∧ no_nul (device i) ∧ no_nul (product i).
Proof.
  destruct (identify_all (λ v : cstr, bool_decide (no_nul v)) bootloader device_orig) as (H1 & H2 & H3);
    [vm_compute; reflexivity..|]. by apply bool_decide_eq_true in H1, H2, H3.
Qed.

Lemma override_values_no_nul bootloader device_orig d f :
  no_nul d → no_nul f → Forall (λ p, no_nul p.2) (override_list (identify bootloader device_orig) d f).
Proof.
  intros Hd Hf. destruct (identify_no_nul bootloader device_orig) as (H1 & H2 & H3).
  assert (Hc : Forall (λ s, no_nul (cs s)) ["0"; "enforcing"; "green"; "1"; "00000001"; "dsds"; "2"; "9,9"]%string).
  { repeat constructor; apply (bool_decide_unpack _); vm_compute; exact I. }
  rewrite Forall_forall in Hc. unfold override_list. destruct (dualsim _); cbn [app];
    repeat apply Forall_cons_2; try apply Forall_nil; cbn [snd]; try done; apply Hc; set_solver.
Qed.

(** C37. Whatever the boot loader and the build say, the program ends.  The model,
    device, product and number of SIM slots it writes are those of the phone that
    the boot loader names; in the description and in the fingerprint the first
    mention of the device of the build has become that device.  Every property of
    the list is written by the call that fits, an update or an addition, with its
    value: refused it is as it was, taken it has the value, unless its old value was
    a long one; a value that is long is refused where the property exists.  No other
    property has changed. *)
Theorem vendor_load_identifies {W} (env : W → string → list arg → resp * W) props
    `{!PropertyFunctions env props} w :
  let get n := default [] (props w !! cs n) in
  let i := phone (get "ro.bootloader"%string) (get "ro.product.device"%string) in
  let text n := corrected (get "ro.product.device"%string) (device i) (get n) in
  let written := override_list i (text "ro.build.description"%string) (text "ro.build.fingerprint"%string) in
  ∃ t w', run env vendor_load_properties w = (Done tt, t, w') ∧
    (∀ n v, (n, v) ∈ written → ∃ z t1 tw t2, t = t1 ++ tw ++ t2 ∧ write_calls n v z tw ∧
       overridden (props w) (props w') (cs n) v z) ∧
    (∀ k, k ∉ cs <$> written.*1 → props w' !! k = props w !! k) ∧
    (∀ n pre post, get n = pre ++ get "ro.product.device"%string ++ post → get "ro.product.device"%string ≠ [] →
       (∀ j, (j < length pre)%nat → ¬ get "ro.product.device"%string `prefix_of` drop j (get n)) →
       text n = pre ++ device i ++ post).
Proof.
  intros get i text written. unfold vendor_load_properties.
  assert (Hget : ∀ n, no_nul (get n)).
  { intros n. unfold get. destruct (props w !! cs n) eqn:E; [by eapply value_law|]. apply not_elem_of_nil. }
  destruct (run_GetProperty env props "ro.product.device" w) as (t1 & w1 & R1 & E1).
  destruct (run_GetProperty env props "ro.bootloader" w1) as (t2 & w2 & R2 & E2).
  destruct (run_GetProperty env props "ro.build.description" w2) as (t3 & w3 & R3 & E3).
  destruct (run_GetProperty env props "ro.build.fingerprint" w3) as (t4 & w4 & R4 & E4).
  rewrite E3, E2, E1 in R4. rewrite E2, E1 in R3. rewrite E1 in R2.
  assert (Hi : i = identify (get "ro.bootloader"%string) (get "ro.product.device"%string)) by (symmetry; apply identify_phone).
  destruct (identify_no_nul (get "ro.bootloader"%string) (get "ro.product.device"%string)) as (_ & Hd & _).
  destruct (run_overrides env props written w4) as (t5 & w5 & R5 & L1 & L2).
  { unfold written. rewrite Hi. apply override_values_no_nul; apply corrected_no_nul; rewrite ?Hi; auto. }
  { apply override_names_NoDup. }
  assert (E : props w4 = props w) by congruence. rewrite E in L1, L2.
  exists (t1 ++ t2 ++ t3 ++ t4 ++ t5), w5. split; [|split; [|split; [exact L2|]]].
  - rewrite run_bind, R1, run_bind, R2. cbn beta iota zeta. rewrite run_bind, R3, run_bind, R4.
    unfold written, text in R5. rewrite Hi in R5. unfold get in R5. by rewrite R5.
  - intros n v Hin. destruct (L1 n v Hin) as (z & ta & tw & tb & -> & Hc & Ho).
    exists z, (t1 ++ t2 ++ t3 ++ t4 ++ ta), tw, tb. split; [by rewrite <-!app_assoc|done].
  - intros n pre post En Hne Hfirst. unfold text, corrected. rewrite bool_decide_true.
    + rewrite En in Hfirst |- *. by apply replace_first.
    + split; [done|]. rewrite En. by destruct pre, (get "ro.product.device"%string).
Qed.

(** Properties kept as a map with room for [capacity] of them; the handle of a
    property is the number of its name. *)
Definition map_env (capacity : nat) (m : gmap cstr cstr) (fn : string) (args : list arg) : resp * gmap cstr cstr :=
  let answer z out := mkResp z 0 out [] in
  if bool_decide (fn = "GetProperty"%string) then
    match args with AS n :: _ => (answer 0%Z (c_str_of (default [] (m !! n))), m) | _ => (answer 0%Z [], m) end
  else if bool_decide (fn = "__system_property_find"%string) then
    match args with
    | AS n :: _ => (answer (if m !! n then Zpos (encode n) else 0%Z) [], m)
    | _ => (answer 0%Z [], m)
    end
  else if bool_decide (fn = "__system_property_update"%string) then
    match args with
    | AZ (Zpos p) :: AS v :: _ =>
      if bool_decide (length v < PROP_VALUE_MAX)%nat
      then (answer 0%Z [], match decode p with Some n => <[n := v]> m | None => m end)
      else (answer (-1)%Z [], m)
    | _ => (answer 0%Z [], m)
    end
  else if bool_decide (fn = "__system_property_add"%string) then
    match args with
    | AS n :: _ :: AS v :: _ =>
      if bool_decide (size m < capacity)%nat then (answer 0%Z [], <[n := v]> m) else (answer (-1)%Z [], m)
    | _ => (answer 0%Z [], m)
    end
  else (answer 0%Z [], m).

Definition texts (m : gmap cstr cstr) : gmap cstr cstr := c_str_of <$> m.

#[export] Instance map_env_properties capacity : PropertyFunctions (map_env capacity) texts.
Proof.
  split.
  - intros w n v. unfold texts. rewrite lookup_fmap_Some. intros (x & <- & _). apply c_str_of_no_nul.
  - intros w n. cbn. split; [|done]. unfold texts. rewrite lookup_fmap. by destruct (w !! n).
  - intros w n. cbn. unfold texts. rewrite lookup_fmap. split; [|done].
    match goal with |- context [match ?x with Some _ => _ | None => _ end] => destruct x as [c|] end; cbn.
    + split; [|done]. intros _. by eexists.
    + split; [done|]. by intros [].
  - intros w n v.
    change (map_env capacity w "__system_property_find"%string [AS n])
      with (mkResp (if w !! n then Zpos (encode n) else 0%Z) 0 [] [], w).
    cbn beta iota. cbn [r_ret]. destruct (w !! n) as [c|]; [|done]. intros _ Hv.
    change (map_env capacity w "__system_property_update"%string [AZ (Zpos (encode n)); AS v; AZ (Z.of_nat (length v))])
      with (if bool_decide (length v < PROP_VALUE_MAX)%nat
            then (mkResp 0 0 [] [], match decode (encode n) with Some n => <[n := v]> w | None => w end)
            else (mkResp (-1) 0 [] [], w)).
    rewrite decode_encode. case_bool_decide as Hl; cbn [r_ret]; [|done]. split; [|split; [done|]].
    + intros k Hk. unfold texts. by rewrite !lookup_fmap, lookup_insert_ne.
    + intros _. split; [done|]. intros _. unfold texts. by rewrite lookup_fmap, lookup_insert_eq; cbn; rewrite c_str_of_id.
  - intros w n v _ Hv.
    change (map_env capacity w "__system_property_add"%string
              [AS n; AZ (Z.of_nat (length n)); AS v; AZ (Z.of_nat (length v))])
      with (if bool_decide (size w < capacity)%nat then (mkResp 0 0 [] [], <[n := v]> w) else (mkResp (-1) 0 [] [], w)).
    case_bool_decide; cbn; [|done]. unfold texts. by rewrite fmap_insert, c_str_of_id.
Qed.

Definition note5 : gmap cstr cstr :=
  {[ cs "ro.bootloader" := cs "N920CXXU5DRI4"; cs "ro.product.device" := cs "noblelte"; cs "other" := cs "x";
     cs "ro.build.description" := cs "lineage_noblelte-userdebug" ]}.

Lemma vendor_load_identifies_witness :
  ∃ t w', run (map_env 64) vendor_load_properties note5 = (Done tt, t, w') ∧
    (∃ z t1 tw t2, t = t1 ++ tw ++ t2 ∧ write_calls "ro.product.model" (cs "SM-N920C") z tw ∧
       overridden (texts note5) (texts w') (cs "ro.product.model") (cs "SM-N920C") z) ∧
    (∃ z t1 tw t2, t = t1 ++ tw ++ t2 ∧ write_calls "ro.product.device" (cs "nobleltejv") z tw ∧
       overridden (texts note5) (texts w') (cs "ro.product.device") (cs "nobleltejv") z) ∧
    texts w' !! cs "other" = Some (cs "x").
Proof.
  destruct (vendor_load_identifies (map_env 64) texts note5) as (t & w' & E & Hw & Ho & _).
  exists t, w'. split; [exact E|]. split; [|split].
  - apply (Hw "ro.product.model"%string (cs "SM-N920C")). apply (bool_decide_unpack _); vm_compute; exact I.
  - apply (Hw "ro.product.device"%string (cs "nobleltejv")). apply (bool_decide_unpack _); vm_compute; exact I.
  - etransitivity; [apply (Ho (cs "other"))|vm_compute; reflexivity].
    apply (bool_decide_unpack _); vm_compute; exact I.
Defined.

(** What is left where there is room for every property, and where there is room for
    none but those that exist: the property that is updated has its value, the one
    that is added is not there. *)
Example area_full :
  let left capacity := (run (map_env capacity) vendor_load_properties note5).2 in
  left 64%nat !! cs "ro.build.description" = Some (cs "lineage_nobleltejv-userdebug") ∧
  left 64%nat !! cs "ro.product.model" = Some (cs "SM-N920C") ∧
  left 4%nat !! cs "ro.build.description" = Some (cs "lineage_nobleltejv-userdebug") ∧
  left 4%nat !! cs "ro.product.model" = None.
Proof. vm_compute. done. Qed.

(** A phone whose boot loader no branch names loses its model, its device and the
    name of its device in the description; so does one whose device is "left
    alone". *)
Example unknown_bootloader :
  identify (cs "A500FXXU1") (cs "a5") = mkIdentity [] [] [] false ∧
  corrected (cs "a5") [] (cs "lineage_a5-user") = cs "lineage_-user".
Proof. vm_compute. split; reflexivity. Qed.

Example device_left_alone :
  identify (cs "G928FXXU1") (cs "zenltexx") = mkIdentity [] [] (cs "zenlte") false.
Proof. vm_compute. reflexivity. Qed.
