(* ===== verification/LiveDisplay.v ===== *)
(** hardware/livedisplay/{DisplayModes,DisplayColorCalibration,SunlightEnhancement,
    service}.cpp: the display settings kept in files, as programs of calls.  A
    stream reads what its file holds when it is opened and writes when it is
    closed; an exception ends the service. *)

From Stdlib Require Import ZArith Lia Ascii.
From stdpp Require Import base numbers strings gmap list.
From S2P Require Import Prelude CString Sys Scanf Strtol.

(** An exception that nobody catches. *)
Definition terminate {A} : io A := IExit 134.

Definition INT_MAX : Z := 2 ^ 31 - 1.
Definition INT_MIN : Z := - 2 ^ 31.

(** [stream >> value]: the value and whether the stream fails.  Without a number
    the value becomes 0, one that is no int the nearest int. *)
Definition extract_int (contents : list ascii) : Z * bool :=
  let '(v, rest) := strtol 10 contents in
  if (length rest =? length contents)%nat then (0%Z, true)
  else if (v >? INT_MAX)%Z then (INT_MAX, true)
  else if (v <? INT_MIN)%Z then (INT_MIN, true)
  else (v, false).

(** [std::stoi]. *)
Definition stoi (s : list ascii) : option Z :=
  let '(v, rest) := strtol 10 s in
  if (length rest =? length s)%nat then None
  else if (v >? INT_MAX)%Z || (v <? INT_MIN)%Z then None else Some v.

(** * DisplayModes *)

Definition kModePath : cstr := cs "/sys/class/mdnie/mdnie/mode".
Definition kModeMaxPath : cstr := cs "/sys/class/mdnie/mdnie/mode_max".
Definition kDefaultPath : cstr := cs "/data/vendor/display/.displaymodedefault".

Definition kModeMap : list (Z * string) :=
  [(0, "Dynamic"); (1, "Standard"); (2, "Natural"); (3, "Cinema"); (4, "Adaptive")]%Z%string.

Definition has_mode (id : Z) : bool := existsb (λ e, (e.1 =? id)%Z) kModeMap.

(** [kModeMap.at]. *)
Definition mode_name (id : Z) : io string :=
  match filter (λ e, e.1 = id) kModeMap with e :: _ => IRet e.2 | [] => terminate end.

Record DisplayModes := mkDisplayModes { mDefaultModeId : Z }.

(** [None]: the file could not be opened. *)
Definition open_read (path : cstr) : io (option (list ascii)) :=
  do! r := call "ifstream" [AS path] in IRet (if (r_ret r =? 0)%Z then None else Some (r_out r)).
Definition open_write (path : cstr) : io bool := do! r := call_ret "ofstream" [AS path] in IRet (negb (r =? 0)%Z).

(** The result and the object; the mode is written when the stream goes out of
    scope, after the default. *)
Definition setDisplayMode (modeID : Z) (makeDefault : bool) (s : DisplayModes) : io (bool * DisplayModes) :=
  if negb (has_mode modeID) then IRet (false, s)
  else
    do! opened := open_write kModePath in
    if negb opened then IRet (false, s)
    else
      let write path := call_ "close" [AS path; AS (print_d modeID)] in
      if makeDefault then
        do! opened := open_write kDefaultPath in
        if negb opened then write kModePath ;! IRet (false, s)
        else write kDefaultPath ;! write kModePath ;! IRet (true, mkDisplayModes modeID)
      else write kModePath ;! IRet (true, s).

(** The constructor. *)
Definition new_DisplayModes : io DisplayModes :=
  let s := mkDisplayModes 0 in
  do! file := open_read kDefaultPath in
  match file with
  | None => IRet s
  | Some text =>
    let '(value, failed) := extract_int text in
    if failed then IRet s
    else
      let s := if has_mode value then mkDisplayModes value else s in
      do! (_, s) := setDisplayMode (mDefaultModeId s) false s in IRet s
  end.

Definition modes_isSupported : io bool := open_write kModePath.

Definition getDisplayModes : io (list (Z * string)) :=
  do! file := open_read kModeMaxPath in
  let value := match file with
               | Some text => (extract_int text).1
               | None => Z.of_nat (length kModeMap)
               end in
  IRet (filter (λ e, (e.1 < value)%Z) kModeMap).

Definition getCurrentDisplayMode (s : DisplayModes) : io (Z * string) :=
  do! file := open_read kModePath in
  let currentModeId :=
    match file with
    | None => mDefaultModeId s
    | Some text =>
      let '(value, failed) := extract_int text in
      if negb failed && has_mode value then value else mDefaultModeId s
    end in
  do! name := mode_name currentModeId in IRet (currentModeId, name).

Definition getDefaultDisplayMode (s : DisplayModes) : io (Z * string) :=
  do! name := mode_name (mDefaultModeId s) in IRet (mDefaultModeId s, name).

(** * DisplayColorCalibration and SunlightEnhancement *)

Definition FILE_RGB : cstr := cs "/sys/class/graphics/fb0/rgb".
Definition kLuxPath : cstr := cs "/sys/class/mdnie/mdnie/lux".

(** [Split] at blanks and [Trim] of the base library, which is not part of the
    repository. *)
Record Strings := mkStrings { Split : list ascii → list (list ascii); Trim : list ascii → list ascii }.

(** [Split] gives back the words that were joined; [Trim] removes the blanks
    around a text that neither begins nor ends with one. *)
Definition blank : ascii := " "%char.
Definition word (w : list ascii) : Prop := w ≠ [] ∧ Forall (λ c, isspace c = false) w.
Fixpoint join (ws : list (list ascii)) : list ascii :=
  match ws with [] => [] | [w] => w | w :: ws => w ++ blank :: join ws end.
Class StringsLaws (B : Strings) : Prop := {
  Split_join ws : ws ≠ [] → Forall word ws → Split B (join ws) = ws;
  Trim_join ws : ws ≠ [] → Forall word ws → Trim B (join ws ++ [blank]) = join ws ∧ Trim B (join ws) = join ws
}.

Section strings.
Context (B : Strings).

Definition getMaxValue : Z := 255.
Definition getMinValue : Z := 0.

Fixpoint stois (l : list (list ascii)) : option (list Z) :=
  match l with
  | [] => Some []
  | s :: l => v ← stoi s; vs ← stois l; Some (v :: vs)
  end.

Definition getCalibration : io (list Z) :=
  do! r := call "ReadFileToString" [AS FILE_RGB] in
  if (r_ret r =? 0)%Z then IRet []
  else match stois (Split B (Trim B (r_out r))) with Some rgb => IRet rgb | None => terminate end.

Definition setCalibration (rgb : list Z) : io bool :=
  let contents := foldl (λ c color, c ++ print_d color ++ [blank]) [] rgb in
  do! r := call_ret "WriteStringToFile" [AS (Trim B contents); AS FILE_RGB] in IRet (negb (r =? 0)%Z).

Definition isEnabled : io bool :=
  do! r := call "ReadFileToString" [AS kLuxPath] in
  if (r_ret r =? 0)%Z then IRet false
  else match stoi (Trim B (r_out r)) with Some status => IRet (negb (status =? 0)%Z) | None => terminate end.
End strings.

Definition setEnabled (enabled : bool) : io bool :=
  do! r := call_ret "WriteStringToFile" [AS (cs (if enabled then "1" else "0")); AS kLuxPath] in IRet (negb (r =? 0)%Z).

(** [std::fstream] for reading and writing. *)
Definition supports (path : cstr) : io bool := do! r := call_ret "fstream" [AS path] in IRet (negb (r =? 0)%Z).
Definition calibration_isSupported : io bool := supports FILE_RGB.
Definition sunlight_isSupported : io bool := supports kLuxPath.

(** * The service *)

(** An interface is registered if it is supported; the first failure ends the
    service, as does the end of the thread pool. *)
Fixpoint register (l : list (io bool * string)) : io bool :=
  match l with
  | [] => IRet true
  | (supported, name) :: l =>
    do! b := supported in
    if b then do! status := call_ret "registerAsService" [AS (cs name)] in if (status =? 0)%Z then register l else IRet false
    else register l
  end.

Definition service_main : io Z :=
  do! _ := new_DisplayModes in
  call_ "configureRpcThreadpool" [AZ 1; AZ 1] ;!
  do! ok := register [(calibration_isSupported, "DisplayColorCalibration"%string);
                      (modes_isSupported, "DisplayModes"%string); (sunlight_isSupported, "SunlightEnhancement"%string)] in
  (if ok then call_ "joinRpcThreadpool" [] else IRet tt) ;! IRet 1%Z.

(** * Facts *)

Definition int_ok (z : Z) : Prop := (- 2 ^ 31 ≤ z < 2 ^ 31)%Z.

Lemma print_d_nonempty z : int_ok z → (0 < length (print_d z))%nat.
Proof. intros H. destruct (print_d_chars z H) as [_ Hn]. destruct (print_d z); cbn; [done|lia]. Qed.

Lemma extract_print z : int_ok z → extract_int (print_d z) = (z, false).
Proof.
  intros H. unfold extract_int. rewrite <-(app_nil_r (print_d z)) at 1. rewrite strtol_print by done.
  pose proof (print_d_nonempty z H) as Hl. cbn [length]. rewrite (proj2 (Nat.eqb_neq _ _)) by lia.
  unfold int_ok in H. unfold INT_MAX, INT_MIN. rewrite Z.gtb_ltb, (proj2 (Z.ltb_ge _ _)), (proj2 (Z.ltb_ge _ _)) by lia. done.
Qed.

Lemma stoi_print z : int_ok z → stoi (print_d z) = Some z.
Proof.
  intros H. unfold stoi. rewrite <-(app_nil_r (print_d z)) at 1. rewrite strtol_print by done.
  pose proof (print_d_nonempty z H) as Hl. cbn [length]. rewrite (proj2 (Nat.eqb_neq _ _)) by lia.
  unfold int_ok in H. unfold INT_MAX, INT_MIN. rewrite Z.gtb_ltb, (proj2 (Z.ltb_ge _ _)), (proj2 (Z.ltb_ge _ _)) by lia. done.
Qed.

Lemma print_d_word z : int_ok z → word (print_d z).
Proof.
  intros H. destruct (print_d_chars z H) as [Hc Hn]. split; [done|]. eapply Forall_impl; [exact Hc|].
  intros c [->|Hd]; [done|]. apply is_digit_10 in Hd. apply not_isspace. lia.
Qed.

Lemma stois_print rgb : Forall int_ok rgb → stois (print_d <$> rgb) = Some rgb.
Proof. induction 1 as [|z l Hz _ IH]; [done|]. cbn [fmap list_fmap stois]. by rewrite stoi_print, IH by done. Qed.

Lemma contents_join rgb acc :
  rgb ≠ [] → foldl (λ c color, c ++ print_d color ++ [blank]) acc rgb = acc ++ join (print_d <$> rgb) ++ [blank].
Proof.
  revert acc. induction rgb as [|z rgb IH]; intros acc Hn; [done|]. cbn [foldl]. destruct rgb as [|y rgb]; [done|].
  rewrite IH by done. cbn [fmap list_fmap join]. by rewrite <-!app_assoc.
Qed.

(** What is asked of the environment about one file that keeps what is written to
    it: [file] reads the file off the state. *)
Class KeepsFile {W} (env : W → string → list arg → resp * W) (path : cstr) (file : W → option (list ascii)) : Prop := {
  keeps_read w : let '(r, w1) := env w "ifstream"%string [AS path] in
    file w1 = file w ∧ match file w with Some c => r_ret r ≠ 0%Z ∧ r_out r = c | None => r_ret r = 0%Z end;
  keeps_close w c : file (env w "close"%string [AS path; AS c]).2 = Some c;
  keeps_other w fn p args : p ≠ path → file (env w fn (AS p :: args)).2 = file w
}.

(** Every mode the service knows is one of its table. *)
Definition modes_ok (s : DisplayModes) : Prop := has_mode (mDefaultModeId s) = true.

Lemma has_mode_in id : has_mode id = true → id ∈ [0; 1; 2; 3; 4]%Z.
Proof.
  unfold has_mode, kModeMap. cbn [existsb fst]. rewrite !orb_true_iff, !Z.eqb_eq. intros H.
  repeat (apply elem_of_cons; destruct H as [<-|H]; [by left|right]). done.
Qed.

Lemma mode_name_returns id : has_mode id = true → returns (λ _, True) (mode_name id).
Proof.
  intros H. apply has_mode_in in H. repeat (apply elem_of_cons in H as [->|H]; [exact I|]). by apply elem_of_nil in H.
Qed.

Lemma setDisplayMode_ok id b s : modes_ok s → returns (λ r, modes_ok r.2) (setDisplayMode id b s).
Proof.
  intros Hs. unfold setDisplayMode, open_write, call_ret, call_, call. destruct (has_mode id) eqn:E; cbn [negb]; [|done].
  cbn [ibind returns]. intros r. destruct (r_ret r =? 0)%Z; cbn [negb]; [done|].
  destruct b; cbn [ibind returns]; [|done]. intros r2. unfold modes_ok in *. by destruct (r_ret r2 =? 0)%Z; cbn.
Qed.

Lemma new_DisplayModes_ok : returns modes_ok new_DisplayModes.
Proof.
  unfold new_DisplayModes, open_read, call. cbn [ibind returns]. intros r.
  destruct (r_ret r =? 0)%Z; [done|]. destruct (extract_int (r_out r)) as [v f]. destruct f; [done|].
  eapply returns_bind; [apply setDisplayMode_ok; by destruct (has_mode v) eqn:E|]. intros [b s] H. exact H.
Qed.

(** What the clients ask for. *)
Inductive mode_op := GetCurrent | GetDefault | GetModes | SetMode (id : Z) (makeDefault : bool).

Definition mode_step (o : mode_op) (s : DisplayModes) : io DisplayModes :=
  match o with
  | GetCurrent => getCurrentDisplayMode s ;! IRet s
  | GetDefault => getDefaultDisplayMode s ;! IRet s
  | GetModes => getDisplayModes ;! IRet s
  | SetMode id b => do! (_, s) := setDisplayMode id b s in IRet s
  end.

Fixpoint mode_steps (l : list mode_op) (s : DisplayModes) : io DisplayModes :=
  match l with [] => IRet s | o :: l => do! s := mode_step o s in mode_steps l s end.

Lemma mode_step_ok o s : modes_ok s → returns modes_ok (mode_step o s).
Proof.
  intros Hs. destruct o; cbn [mode_step].
  - unfold getCurrentDisplayMode, open_read, call. cbn [ibind returns]. intros r.
    assert (H : ∀ id, has_mode id = true → returns modes_ok
      (ibind (do! name := mode_name id in IRet (id, name)) (λ _, IRet s))).
    { intros id Hid. eapply (returns_bind (λ _, True)); [|by intros].
      eapply (returns_bind (λ _, True)); [by apply mode_name_returns|done]. }
    destruct (r_ret r =? 0)%Z; [by apply H|]. destruct (extract_int (r_out r)) as [v f].
    destruct f; cbn [negb andb]; [by apply H|]. destruct (has_mode v) eqn:E; by apply H.
  - unfold getDefaultDisplayMode. eapply (returns_bind (λ _, True)); [|by intros].
    eapply (returns_bind (λ _, True)); [by apply mode_name_returns|done].
  - unfold getDisplayModes, open_read, call. cbn. intros r. exact Hs.
  - eapply returns_bind; [by apply setDisplayMode_ok|]. intros [b s'] H. exact H.
Qed.

Lemma mode_steps_ok l s : modes_ok s → returns modes_ok (mode_steps l s).
Proof.
  revert s. induction l as [|o l IH]; intros s Hs; [done|]. cbn [mode_steps].
  eapply returns_bind; [by apply mode_step_ok|apply IH].
Qed.

(** * The default mode *)

Lemma run_setDisplayMode_default {W} (env : W → string → list arg → resp * W) file `{!KeepsFile env kDefaultPath file}
    id s w s1 t w1 :
  run env (setDisplayMode id true s) w = (Done (true, s1), t, w1) →
  has_mode id = true ∧ mDefaultModeId s1 = id ∧ file w1 = Some (print_d id).
Proof.
  unfold setDisplayMode, open_write, call_ret, call_, call. destruct (has_mode id); cbn [negb]; [|done].
  cbn [ibind run]. step_env. cbn [ibind run]. destruct (r_ret r =? 0)%Z; cbn [negb ibind run]; [done|].
  step_env. destruct (r_ret r0 =? 0)%Z; cbn [negb ibind run].
  { step_env. done. }
  match goal with |- context [env ?x "close"%string [AS kDefaultPath; _]] =>
    pose proof (keeps_close (path := kDefaultPath) x (print_d id)) as Hc; destruct (env x "close"%string _) as [r1 w2] end.
  match goal with |- context [env ?x "close"%string [AS kModePath; ?a]] =>
    pose proof (keeps_other (path := kDefaultPath) x "close"%string kModePath [a]) as Ho;
    destruct (env x "close"%string (AS kModePath :: _)) as [r2 w3] end.
  intros [= <- _ <-]. split_and!; [done|done|]. cbn in Hc, Ho. rewrite <-Hc. apply Ho. vm_compute. discriminate.
Qed.

Lemma run_new_DisplayModes {W} (env : W → string → list arg → resp * W) file `{!KeepsFile env kDefaultPath file} id w :
  has_mode id = true → file w = Some (print_d id) →
  ∃ t w1, run env new_DisplayModes w = (Done (mkDisplayModes id), t, w1).
Proof.
  intros Hid Hf. unfold new_DisplayModes, open_read, call. cbn [ibind run].
  pose proof (keeps_read (path := kDefaultPath) w) as Hr. destruct (env w "ifstream"%string [AS kDefaultPath]) as [r w1].
  destruct Hr as [_ Hr]. rewrite Hf in Hr. destruct Hr as [Hr Hc]. rewrite (proj2 (Z.eqb_neq _ _)) by done.
  assert (Hint : int_ok id) by (apply has_mode_in in Hid; repeat (apply elem_of_cons in Hid as [->|Hid]; [by split|]); by apply elem_of_nil in Hid).
  cbn [ibind]. rewrite Hc, extract_print by done. rewrite Hid. cbn [mDefaultModeId].
  unfold setDisplayMode, open_write, call_ret, call_, call. rewrite Hid. cbn [negb ibind run].
  step_env. destruct (r_ret r0 =? 0)%Z; cbn [negb ibind run]; [by eexists _, _|]. step_env. by eexists _, _.
Qed.

(** Programs whose calls are all about other files. *)
Fixpoint avoids {A} (path : cstr) (m : io A) : Prop :=
  match m with
  | ICall _ (AS p :: _) k => p ≠ path ∧ ∀ r, avoids path (k r)
  | ICall _ _ _ => False
  | _ => True
  end.

Lemma avoids_bind {A B} path (m : io A) (f : A → io B) :
  avoids path m → (∀ a, avoids path (f a)) → avoids path (ibind m f).
Proof.
  intros Hm Hf. induction m as [a|fn args k IH| | |]; cbn in *; auto.
  destruct args as [|[|p|] args]; cbn in *; try done. destruct Hm as [Hp Hk]. auto.
Qed.

Lemma avoids_keeps {A W} (env : W → string → list arg → resp * W) path file `{!KeepsFile env path file} (m : io A) w :
  avoids path m → file (run env m w).2 = file w.
Proof.
  revert w. induction m as [a|fn args k IH|c| |]; intros w Hm; cbn [run]; try done.
  destruct args as [|[|p|] args]; cbn in Hm; try done. destruct Hm as [Hp Hk].
  pose proof (keeps_other w fn p args Hp) as Ho. destruct (env w fn (AS p :: args)) as [r w1].
  specialize (IH r w1 (Hk r)). destruct (run env (k r) w1) as [[o t] w2]. cbn in *. by rewrite IH.
Qed.

Definition keeps_default (o : mode_op) : Prop := match o with SetMode _ true => False | _ => True end.

Lemma mode_name_avoids path id : avoids path (mode_name id).
Proof. unfold mode_name. by destruct (filter _ kModeMap). Qed.

Lemma mode_steps_avoid l s : Forall keeps_default l → avoids kDefaultPath (mode_steps l s).
Proof.
  assert (Hmode : kModePath ≠ kDefaultPath) by (vm_compute; discriminate).
  assert (Hmax : kModeMaxPath ≠ kDefaultPath) by (vm_compute; discriminate).
  intros Hl. revert s. induction Hl as [|o l Ho _ IH]; intros s; [exact I|]. cbn [mode_steps].
  apply avoids_bind; [|done]. destruct o as [| | |id []]; cbn [mode_step]; [| | |done|].
  - apply avoids_bind; [|done]. apply avoids_bind; [by split|]. intros a.
    apply avoids_bind; [apply mode_name_avoids|done].
  - apply avoids_bind; [|done]. apply avoids_bind; [apply mode_name_avoids|done].
  - apply avoids_bind; [|done]. by split.
  - apply avoids_bind; [|by intros []]. unfold setDisplayMode. destruct (has_mode id); cbn [negb]; [|exact I].
    apply avoids_bind; [by split|]. intros []; cbn [negb]; [|exact I]. apply avoids_bind; [by split|done].
Qed.

(** C38. For every behaviour of the files the service of the modes starts and no
    request ends it with an exception, its default always being a mode of the
    table; and a mode that a client successfully made the default of a file that
    keeps what is written is the default of the service after a restart,
    whatever the clients did with other modes in between. *)
Theorem default_mode_persists {W} (env : W → string → list arg → resp * W) file `{!KeepsFile env kDefaultPath file}
    before id between w :
  Forall keeps_default between →
  ∃ s t w1, run env (do! s := new_DisplayModes in mode_steps before s) w = (Done s, t, w1) ∧ modes_ok s ∧
    ∀ s2 t2 w2, run env (setDisplayMode id true s) w1 = (Done (true, s2), t2, w2) →
    ∃ t3 w3, run env (mode_steps between s2 ;! new_DisplayModes) w2 = (Done (mkDisplayModes id), t3, w3).
Proof.
  intros Hb.
  assert (R : returns modes_ok (do! s := new_DisplayModes in mode_steps before s)).
  { eapply returns_bind; [apply new_DisplayModes_ok|]. intros s. apply mode_steps_ok. }
  pose proof (returns_run _ _ env w R) as H. destruct (run env (do! s := new_DisplayModes in _) w) as [[[s| | |] t] w1]; try done.
  exists s, t, w1. split; [done|]. split; [done|]. intros s2 t2 w2 Hset.
  destruct (run_setDisplayMode_default env file id s w1 s2 t2 w2 Hset) as (Hid & Hs2 & Hf). rewrite run_bind.
  assert (Hok : modes_ok s2) by (unfold modes_ok; by rewrite Hs2).
  pose proof (returns_run _ _ env w2 (mode_steps_ok between s2 Hok)) as Hr.
  pose proof (avoids_keeps env kDefaultPath file (mode_steps between s2) w2 (mode_steps_avoid between s2 Hb)) as Hk.
  destruct (run env (mode_steps between s2) w2) as [[[s3| | |] t3] w3]; try done. cbn in Hk.
  destruct (run_new_DisplayModes env file id w3) as (t4 & w4 & ->); [done|by rewrite Hk|]. by eexists _, _.
Qed.

(** One file that keeps what is written, every other one empty. *)
Definition one_file (path : cstr) (w : option (list ascii)) (fn : string) (args : list arg)
    : resp * option (list ascii) :=
  match args with
  | AS p :: rest =>
    if bool_decide (p = path) then
      if bool_decide (fn = "close"%string) then
        match rest with AS c :: _ => (mkResp 0 0 [] [], Some c) | _ => (mkResp 0 0 [] [], w) end
      else match w with Some c => (mkResp 1 0 c [], w) | None => (mkResp (if bool_decide (fn = "ofstream"%string) then 1 else 0) 0 [] [], w) end
    else (mkResp 1 0 [] [], w)
  | _ => (mkResp 1 0 [] [], w)
  end.

#[export] Instance one_file_keeps path : KeepsFile (one_file path) path id.
Proof.
  split.
  - intros w. unfold one_file. rewrite bool_decide_true by done. cbn [bool_decide]. by destruct w.
  - intros w c. unfold one_file. by rewrite bool_decide_true.
  - intros w fn p args Hp. unfold one_file. by rewrite bool_decide_false.
Qed.

Lemma default_mode_persists_witness :
  ∃ t3 w3, run (one_file kDefaultPath) (mode_steps [SetMode 1 false; GetCurrent] (mkDisplayModes 3) ;! new_DisplayModes)
    (Some (cs "3")) = (Done (mkDisplayModes 3), t3, w3).
Proof.
  destruct (default_mode_persists (one_file kDefaultPath) id [GetModes] 3 [SetMode 1 false; GetCurrent] None)
    as (s & t & w1 & E & _ & H); [by repeat constructor|].
  vm_compute in E. injection E as <- _ <-. eapply H. vm_compute. reflexivity.
Defined.

(** * The calibration *)

(** The numbers that are set are read back, whatever they are, from a file that
    keeps them. *)
Theorem calibration_roundtrip B `{!StringsLaws B} rgb :
  rgb ≠ [] → Forall int_ok rgb →
  ∃ text k, setCalibration B rgb = ICall "WriteStringToFile" [AS text; AS FILE_RGB] k ∧
    stois (Split B (Trim B text)) = Some rgb.
Proof.
  intros Hn Hr. unfold setCalibration, call_ret, call. cbn [ibind]. eexists _, _. split; [reflexivity|].
  assert (Hw : Forall word (print_d <$> rgb)).
  { apply Forall_fmap. eapply Forall_impl; [exact Hr|]. intros z. apply print_d_word. }
  assert (Hne : print_d <$> rgb ≠ []) by by destruct rgb.
  rewrite contents_join by done. cbn [app]. destruct (Trim_join (B := B) _ Hne Hw) as [-> ->].
  rewrite Split_join by done. by apply stois_print.
Qed.

(** Nothing set is an empty file, which Split makes one empty word of: reading it
    ends the service. *)
Example empty_calibration :
  let B := mkStrings (λ s, [s]) (λ s, s) in
  setCalibration B [] = ICall "WriteStringToFile" [AS []; AS FILE_RGB] (λ r, IRet (negb (r_ret r =? 0)%Z)) ∧
  (run (λ (s : unit) fn args, (mkResp 1 0 [] [], s)) (getCalibration B) tt).1.1 = Exited 134.
Proof. split; vm_compute; reflexivity. Qed.

(** The mode is written when [setDisplayMode] has reported that it could not make
    it the default. *)
Example failed_default_changes_mode :
  let env (s : unit) fn args :=
    (mkResp match args with [AS p] => if bool_decide (p = kDefaultPath) then 0 else 1 | _ => 1 end 0 [] [], s)%Z in
  let '(o, t, _) := run env (setDisplayMode 3 true (mkDisplayModes 0)) tt in
  o = Done (false, mkDisplayModes 0) ∧ last (ev_args <$> t) = Some [AS kModePath; AS (cs "3")].
Proof. vm_compute. split; reflexivity. Qed.
