(* ===== verification/SecNativeFeature.v ===== *)
(** hardware/libsecnativefeature: the features of the phone's variant, collected
    from an XML file by the handlers of the expat library and read by tag. *)

From Stdlib Require Import ZArith Lia Ascii.
From stdpp Require Import base numbers strings gmap list.
From S2P Require Import Prelude CString Sys Scanf Strtol.

(** * The handlers *)

(** What expat reports: the start of an element, its end, a piece of text. *)
Inductive xml_event := StartElement (name : cstr) | EndElement | CharData (s : cstr).

Record ParserUserData := mkUserData { curr_name : cstr; pFeatures : gmap cstr cstr; depth : Z }.

Definition charDataHandler (s : cstr) (d : ParserUserData) : ParserUserData :=
  match curr_name d with
  | [] => d
  | _ =>
    let value := match pFeatures d !! curr_name d with Some old => old ++ s | None => s end in
    let erased := delete (curr_name d) (pFeatures d) in
    mkUserData (curr_name d) (<[curr_name d := value]> erased) (depth d)
  end.

Definition startElement (name : cstr) (d : ParserUserData) : ParserUserData :=
  mkUserData name (pFeatures d) (depth d + 1).
Definition endElement (d : ParserUserData) : ParserUserData := mkUserData [] (pFeatures d) (depth d - 1).

Definition handle (d : ParserUserData) (e : xml_event) : ParserUserData :=
  match e with
  | StartElement name => startElement name d
  | EndElement => endElement d
  | CharData s => charDataHandler s d
  end.

(** * Loading *)

Definition FEATURE_FILE : cstr := cs "/system/csc/feature.xml".
Definition MPS_FEATURE_FILE : cstr := cs "/system/csc/others.xml".

Section expat.
(** The parser of the expat library: its state; what a piece of the document makes
    of it, whether it is well-formed so far and what is reported meanwhile. *)
Context {P : Type} (XML_ParserCreate : P) (XML_Parse : P → list ascii → bool → bool * P * list xml_event).
Context (BUFSIZ : Z).

(** The loop over the file; what it returns and the data. *)
Fixpoint load_loop (fuel : nat) (file : Z) (parser : P) (d : ParserUserData) : io (Z * ParserUserData) :=
  match fuel with
  | O => IFuel
  | S fuel =>
    do! r := call "fread" [AZ BUFSIZ; AZ file] in
    let len := Z.of_nat (length (r_out r)) in
    let failed := call_ "fclose" [AZ file] ;! IRet ((-1)%Z, d) in
    do! err := (if negb (len =? BUFSIZ)%Z then call_ret "ferror" [AZ file] else IRet 0%Z) in
    if negb (err =? 0)%Z then failed
    else
      let done := (len <? BUFSIZ)%Z in
      let '(ok, parser, events) := XML_Parse parser (r_out r) done in
      let d := fold_left handle events d in
      if negb ok then call_ "fclose" [AZ file] ;! IRet ((-1)%Z, d)
      else if done then
        call_ "XML_ParserFree" [] ;! call_ "fclose" [AZ file] ;! IRet (0%Z, d)
      else load_loop fuel file parser d
  end.

Definition _loadFeature (fuel : nat) : io (Z * gmap cstr cstr) :=
  call_ "XML_ParserCreate" [] ;!
  let userData := mkUserData [] ∅ 0 in
  do! f := call_ret "fopen" [AS FEATURE_FILE] in
  do! pFeatureFile := (if (f =? 0)%Z then call_ret "fopen" [AS MPS_FEATURE_FILE] else IRet f) in
  if (pFeatureFile =? 0)%Z then IRet ((-1)%Z, ∅)
  else do! (ret, d) := load_loop fuel pFeatureFile XML_ParserCreate userData in IRet (ret, pFeatures d).

(** The object is made once; a failure leaves it with what was read. *)
Definition getInstance (fuel : nat) (_instance : option (gmap cstr cstr)) : io (gmap cstr cstr) :=
  match _instance with
  | Some features => IRet features
  | None => do! (_, features) := _loadFeature fuel in IRet features
  end.
End expat.

(** * The getters *)

Section getters.
Context (_features : gmap cstr cstr).

Definition is_true (v : cstr) : bool := bool_decide (v ∈ [cs "true"; cs "TRUE"]).

Definition getEnableStatus (tag : cstr) : bool :=
  match _features !! tag with None => false | Some v => if is_true v then true else false end.
Definition getEnableStatusWithDefault (tag : cstr) (defaultValue : bool) : bool :=
  match _features !! tag with None => defaultValue | Some v => if is_true v then true else defaultValue end.
Definition getString (tag : cstr) : cstr := match _features !! tag with None => [] | Some v => c_str_of (v ++ [NUL]) end.
(** The default can be null. *)
Definition getStringWithDefault (tag : cstr) (defaultValue : option cstr) : option cstr :=
  match _features !! tag with None => defaultValue | Some v => Some (c_str_of (v ++ [NUL])) end.
Definition getInteger (tag : cstr) : cres Z :=
  match _features !! tag with None => Ret (-1)%Z | Some v => atoi (c_str_of (v ++ [NUL])) end.
Definition getIntegerWithDefault (tag : cstr) (defaultValue : Z) : cres Z :=
  match _features !! tag with None => Ret defaultValue | Some v => atoi (c_str_of (v ++ [NUL])) end.

(** The interface for C; its default is any int, and the instance is never null. *)
Definition SecNativeFeature_getEnableStatus (tag : cstr) : Z := Z.b2z (getEnableStatus tag).
Definition SecNativeFeature_getEnableStatusWithDefault (tag : cstr) (defaultValue : Z) : Z :=
  Z.b2z (getEnableStatusWithDefault tag (negb (defaultValue =? 0)%Z)).
Definition SecNativeFeature_getInteger (tag : cstr) : cres Z := getInteger tag.
Definition SecNativeFeature_getIntegerWithDefault (tag : cstr) (defaultValue : Z) : cres Z :=
  getIntegerWithDefault tag defaultValue.
Definition SecNativeFeature_getString (tag : cstr) : option cstr := Some (getString tag).
Definition SecNativeFeature_getStringWithDefault (tag : cstr) (defaultValue : option cstr) : option cstr :=
  getStringWithDefault tag defaultValue.
End getters.

(** * What is collected *)

(** The pieces of text that follow the start of an element [tag] before another
    element starts or ends; [cur]: the element that was started last, if nothing
    ended since. *)
Fixpoint own_text (tag : cstr) (cur : cstr) (l : list xml_event) : list cstr :=
  match l with
  | [] => []
  | StartElement n :: l => own_text tag n l
  | EndElement :: l => own_text tag [] l
  | CharData s :: l => if bool_decide (cur = tag) then s :: own_text tag cur l else own_text tag cur l
  end.

Definition value_of_texts (l : list cstr) : option cstr := match l with [] => None | _ => Some (mjoin l) end.

(** Neighbouring pieces of text put together. *)
Fixpoint merge (l : list xml_event) : list xml_event :=
  match l with
  | [] => []
  | CharData s :: l => match merge l with CharData s' :: l' => CharData (s ++ s') :: l' | l' => CharData s :: l' end
  | e :: l => e :: merge l
  end.

Lemma handlers_collect tag l d :
  tag ≠ [] →
  pFeatures (fold_left handle l d) !! tag =
    match pFeatures d !! tag, own_text tag (curr_name d) l with
    | o, [] => o
    | None, t => Some (mjoin t)
    | Some v, t => Some (v ++ mjoin t)
    end.
Proof.
  intros Ht. revert d. induction l as [|e l IH]; intros d; cbn [fold_left own_text].
  { by destruct (pFeatures d !! tag). }
  rewrite IH. clear IH. destruct e as [n| |s]; cbn [handle startElement endElement curr_name pFeatures]; [done..|].
  unfold charDataHandler. destruct (curr_name d) as [|c n] eqn:En.
  { rewrite bool_decide_false by congruence. by rewrite En. }
  cbn [curr_name pFeatures]. rewrite insert_delete_eq. case_bool_decide as Hc.
  - rewrite <-Hc, lookup_insert_eq. destruct (pFeatures d !! (c :: n)) as [v|]; cbn [own_text mjoin list_join].
    + destruct (own_text (c :: n) (c :: n) l); cbn; by rewrite ?app_nil_r, ?app_assoc.
    + destruct (own_text (c :: n) (c :: n) l); cbn; by rewrite ?app_nil_r.
  - rewrite lookup_insert_ne by done. done.
Qed.

Lemma merge_own_text tag cur l : mjoin (own_text tag cur (merge l)) = mjoin (own_text tag cur l) ∧
  (own_text tag cur (merge l) = [] ↔ own_text tag cur l = []).
Proof.
  revert cur. induction l as [|e l IH]; intros cur; [done|]. destruct e as [n| |s]; cbn [merge own_text]; [apply IH..|].
  destruct (IH cur) as [H1 H2].
  assert (E : mjoin (own_text tag cur (merge (CharData s :: l))) = mjoin (own_text tag cur (CharData s :: merge l)) ∧
    (own_text tag cur (merge (CharData s :: l)) = [] ↔ own_text tag cur (CharData s :: merge l) = [])).
  { cbn [merge]. destruct (merge l) as [|[n| |s'] l'] eqn:Em; [done..|]. cbn [own_text].
    case_bool_decide; [|done]. cbn [mjoin list_join]. split; [by rewrite app_assoc|done]. }
  cbn [merge own_text] in E |- *. destruct E as [-> ->]. case_bool_decide; [|done]. cbn [mjoin list_join]. split; [|done].
  by f_equal.
Qed.

(** The features depend on the text of the elements only, not on the pieces in
    which it comes. *)
Lemma merge_features l1 l2 :
  merge l1 = merge l2 →
  ∀ tag, tag ≠ [] → pFeatures (fold_left handle l1 (mkUserData [] ∅ 0)) !! tag
                  = pFeatures (fold_left handle l2 (mkUserData [] ∅ 0)) !! tag.
Proof.
  intros Hm tag Ht. rewrite !handlers_collect by done. cbn [pFeatures curr_name]. rewrite lookup_empty.
  destruct (merge_own_text tag [] l1) as [H1 N1], (merge_own_text tag [] l2) as [H2 N2]. rewrite Hm in H1, N1.
  destruct (own_text tag [] l1) as [|x1 t1], (own_text tag [] l2) as [|x2 t2]; [done| | |].
  - by specialize (proj1 N2 (proj2 N1 eq_refl)).
  - by specialize (proj1 N1 (proj2 N2 eq_refl)).
  - by rewrite <-H1, <-H2.
Qed.

Lemma no_empty_tag l d : pFeatures d !! [] = None → pFeatures (fold_left handle l d) !! [] = None.
Proof.
  revert d. induction l as [|e l IH]; intros d Hd; [done|]. cbn [fold_left]. apply IH.
  destruct e as [n| |s]; cbn; [done..|]. unfold charDataHandler. destruct (curr_name d) eqn:E; [done|].
  cbn. rewrite lookup_insert_ne, lookup_delete_ne by done. done.
Qed.

(** * The file *)

(** What is asked of expat: a well-formed document is reported the same up to the
    division of its text, in however many pieces it is parsed. *)
Class Expat {P} (XML_Parse : P → list ascii → bool → bool * P * list xml_event) : Prop := {
  parse_app p a b final p1 e1 p2 e2 :
    XML_Parse p a false = (true, p1, e1) → XML_Parse p1 b final = (true, p2, e2) →
    ∃ e p3, XML_Parse p (a ++ b) final = (true, p3, e) ∧ merge e = merge (e1 ++ e2);
  parse_app_inv p a b final p3 e :
    XML_Parse p (a ++ b) final = (true, p3, e) →
    ∃ p1 e1 p2 e2, XML_Parse p a false = (true, p1, e1) ∧ XML_Parse p1 b final = (true, p2, e2)
}.

(** A file that can be opened and read: [text] reads what is left of it. *)
Class ReadsFile {W} (env : W → string → list arg → resp * W) (path : cstr) (file : Z) (text : W → list ascii) : Prop := {
  reads_open w : let '(r, w1) := env w "fopen"%string [AS path] in r_ret r = file ∧ text w1 = text w;
  reads_read w n : (0 < n)%Z → let '(r, w1) := env w "fread"%string [AZ n; AZ file] in
    r_out r = take (Z.to_nat n) (text w) ∧ text w1 = drop (Z.to_nat n) (text w);
  reads_error w : let '(r, w1) := env w "ferror"%string [AZ file] in r_ret r = 0%Z ∧ text w1 = text w;
  reads_other w fn : fn ∈ ["XML_ParserCreate"]%string → text (env w fn []).2 = text w;
  reads_file : file ≠ 0%Z
}.

Section load.
Context {P : Type} (XML_Parse : P → list ascii → bool → bool * P * list xml_event) `{!Expat XML_Parse}.
Context {W : Type} (env : W → string → list arg → resp * W) (file : Z) (text : W → list ascii)
  `{!ReadsFile env FEATURE_FILE file text}.

Lemma merge_app_l a b c : merge b = merge c → merge (a ++ b) = merge (a ++ c).
Proof.
  intros H. induction a as [|e a IH]; [done|]. cbn [app merge]. destruct e; rewrite IH; done.
Qed.

Lemma run_load_loop BUFSIZ fuel parser d w p3 e :
  (0 < BUFSIZ)%Z → (length (text w) < fuel * Z.to_nat BUFSIZ)%nat →
  XML_Parse parser (text w) true = (true, p3, e) →
  ∃ l t w1, run env (load_loop XML_Parse BUFSIZ fuel file parser d) w = (Done (0%Z, fold_left handle l d), t, w1) ∧
    merge l = merge e.
Proof.
  intros HB. revert parser d w p3 e. induction fuel as [|fuel IH]; intros parser d w p3 e Hfuel He; [cbn in Hfuel; lia|].
  cbn [load_loop]. unfold call_ret, call_, call. cbn [ibind run].
  pose proof (reads_read (file := file) w BUFSIZ HB) as Hr. destruct (env w "fread"%string _) as [r w1]. destruct Hr as [Hr Hw].
  rewrite Hr, length_take. cbn zeta.
  destruct (Nat.lt_ge_cases (length (text w)) (Z.to_nat BUFSIZ)) as [Hlt|Hge].
  - rewrite Nat.min_r by lia. rewrite (proj2 (Z.eqb_neq _ _)) by lia. cbn [negb ibind run].
    pose proof (reads_error (file := file) w1) as Hx. destruct (env w1 "ferror"%string _) as [r2 w2]. destruct Hx as [Hx Hw2].
    rewrite Hx. cbn [Z.eqb negb ibind run]. rewrite (proj2 (Z.ltb_lt _ _)) by lia. rewrite take_ge by lia. rewrite He. cbn [negb ibind run].
    step_env. step_env. cbn [run]. by eexists e, _, _.
  - rewrite Nat.min_l by lia. rewrite (proj2 (Z.eqb_eq _ _)) by lia. cbn [negb ibind run Z.eqb].
    rewrite (proj2 (Z.ltb_ge _ _)) by lia.
    rewrite <-(take_drop (Z.to_nat BUFSIZ) (text w)) in He. destruct (parse_app_inv _ _ _ _ _ _ He) as (p1 & e1 & p2 & e2 & E1 & E2).
    rewrite E1. cbn [negb ibind run].
    destruct (IH p1 (fold_left handle e1 d) w1 p2 e2) as (l & t & w2 & R & Hm).
    { rewrite Hw, length_drop. cbn in Hfuel. lia. }
    { by rewrite Hw. }
    rewrite R. exists (e1 ++ l). eexists _, w2. split; [by rewrite fold_left_app|].
    destruct (parse_app _ _ _ _ _ _ _ _ E1 E2) as (e' & p3' & E' & Hm'). rewrite He in E'. injection E' as <- <-.
    rewrite Hm'. by apply merge_app_l.
Qed.
End load.

(** C39. A readable feature file that is well-formed is loaded whatever the size of
    the buffer, and the value of every tag is the text that follows its start
    before any other element starts or ends, put together over the document, no
    matter in which pieces expat and the reads deliver it. *)
Theorem load_collects {P} (XML_ParserCreate : P) XML_Parse `{!Expat XML_Parse}
    {W} (env : W → string → list arg → resp * W) file text `{!ReadsFile env FEATURE_FILE file text} BUFSIZ fuel w p e :
  (0 < BUFSIZ)%Z → (length (text w) < fuel * Z.to_nat BUFSIZ)%nat →
  XML_Parse XML_ParserCreate (text w) true = (true, p, e) →
  ∃ features t w1, run env (_loadFeature XML_ParserCreate XML_Parse BUFSIZ fuel) w = (Done (0%Z, features), t, w1) ∧
    ∀ tag, features !! tag = if bool_decide (tag = []) then None else value_of_texts (own_text tag [] e).
Proof.
  intros HB Hfuel He. unfold _loadFeature, call_ret, call_, call. cbn [ibind run].
  pose proof (reads_other (text := text) w "XML_ParserCreate"%string) as Ho.
  destruct (env w "XML_ParserCreate"%string _) as [r0 w0]. cbn [snd] in Ho. rewrite <-Ho in Hfuel, He by set_solver.
  pose proof (reads_open (path := FEATURE_FILE) w0) as Hf. destruct (env w0 "fopen"%string _) as [r1 w1]. destruct Hf as [Hf Hw1].
  rewrite <-Hw1 in Hfuel, He. rewrite Hf. rewrite (proj2 (Z.eqb_neq _ _)) by apply (reads_file (file := file)).
  cbn [ibind]. rewrite (proj2 (Z.eqb_neq _ _)) by apply (reads_file (file := file)). rewrite run_bind.
  destruct (run_load_loop XML_Parse env file text BUFSIZ fuel XML_ParserCreate (mkUserData [] ∅ 0) w1 p e HB Hfuel He)
    as (l & t & w2 & -> & Hm).
  cbn [run]. eexists _, _, w2. split; [reflexivity|]. intros tag. case_bool_decide as Ht.
  - subst. by apply no_empty_tag.
  - rewrite (merge_features l e Hm tag Ht), handlers_collect by done. cbn [pFeatures curr_name]. rewrite lookup_empty.
    unfold value_of_texts. by destruct (own_text tag [] e).
Qed.

(** Documents of one-letter tags: a capital starts an element, "/" ends one. *)
Definition letter_event (c : ascii) : xml_event :=
  if (65 <=? ord c)%Z && (ord c <=? 90)%Z then StartElement [c]
  else if bool_decide (c = "/"%char) then EndElement else CharData [c].
Definition letters (p : unit) (s : list ascii) (final : bool) : bool * unit * list xml_event := (true, p, letter_event <$> s).

#[export] Instance letters_expat : Expat letters.
Proof.
  split.
  - intros p a b final p1 e1 p2 e2 [= <- <-] [= <- <-]. eexists _, _. split; [reflexivity|]. by rewrite fmap_app.
  - intros p a b final p3 e _. by eexists _, _, _, _.
Qed.

(** A file of which [s] is left. *)
Definition one_reader (s : list ascii) (fn : string) (args : list arg) : resp * list ascii :=
  if bool_decide (fn = "fopen"%string) then (mkResp 7 0 [] [], s)
  else if bool_decide (fn = "fread"%string) then
    match args with AZ n :: _ => (mkResp 0 0 (take (Z.to_nat n) s) [], drop (Z.to_nat n) s) | _ => (mkResp 0 0 [] [], s) end
  else (mkResp 0 0 [] [], s).

#[export] Instance one_reader_reads : ReadsFile one_reader FEATURE_FILE 7 id.
Proof. by split; [intros|intros|intros|intros w fn ->%list_elem_of_singleton|]. Qed.

Lemma load_collects_witness :
  ∃ features t w1, run one_reader (_loadFeature tt letters 2 20) (cs "AtrB1/xueA true/") = (Done (0%Z, features), t, w1) ∧
    features !! cs "A" = Some (cs "tr true") ∧ features !! cs "B" = Some (cs "1").
Proof.
  destruct (load_collects tt letters one_reader 7 id 2 20 (cs "AtrB1/xueA true/") tt
    (letter_event <$> cs "AtrB1/xueA true/")) as (f & t & w1 & E & H);
    [lia|vm_compute; lia|reflexivity|].
  exists f, t, w1. split; [exact E|]. split; (etransitivity; [apply H|vm_compute; reflexivity]).
Defined.

(** A feature that is there and says "false" is on for a caller whose default is
    on. *)
Example false_is_true : getEnableStatusWithDefault {[ cs "T" := cs "false" ]} (cs "T") true = true.
Proof. vm_compute. reflexivity. Qed.

(** Without the files the parser is made and not freed. *)
Example parser_leaks :
  let '(o, t, _) := run (λ (s : unit) fn args, (mkResp 0 0 [] [], s)) (_loadFeature tt letters 2 1) tt in
  calls_of "XML_ParserCreate" t = 1%nat ∧ calls_of "XML_ParserFree" t = 0%nat.
Proof. vm_compute. split; reflexivity. Qed.
