(* ===== verification/PropertyService.v ===== *)
(** tools/resetprop/system_property_set.cpp: the client of the property service,
    [__system_property_set], with both protocols, as a program of calls to the
    C library; and what the service reads from the socket. *)

From Stdlib Require Import ZArith Lia Ascii.
From stdpp Require Import base numbers strings gmap list.
From S2P Require Import Prelude CString Sys Strtol PropInfo Contexts SystemProperties.
From S2P Require Import SystemPropertiesSpec.

Definition property_service_socket : cstr := cs "/dev/socket/property_service".
Definition kServiceVersionPropertyName : cstr := cs "ro.property_service.version".

Definition PROP_NAME_MAX : Z := 32.
Definition PROP_MSG_SETPROP : Z := 1.
Definition PROP_MSG_SETPROP2 : Z := 0x00020001.
Definition PROP_SUCCESS : Z := 0.
Definition EINTR : Z := 4.
Definition POLLHUP : Z := 16.

Definition interrupted (r : resp) : bool := (r_ret r =? -1)%Z && (r_errno r =? EINTR)%Z.

(** [TEMP_FAILURE_RETRY] *)
Fixpoint retry (fuel : nat) (fn : string) (args : list arg) : io resp :=
  match fuel with
  | O => IFuel
  | S fuel => do! r := call fn args in if interrupted r then retry fuel fn args else IRet r
  end.

(** * PropertyServiceConnection *)

Record PropertyServiceConnection := mkConnection { socket_ : Z; last_error_ : Z }.

Definition IsValid (c : PropertyServiceConnection) : bool := negb (socket_ c =? -1)%Z.
Definition GetLastError (c : PropertyServiceConnection) : Z := last_error_ c.

Definition connect_to_service (fuel : nat) : io PropertyServiceConnection :=
  do! s := call "socket" [AS (cs "AF_LOCAL"); AS (cs "SOCK_STREAM | SOCK_CLOEXEC"); AZ 0] in
  if (r_ret s =? -1)%Z then IRet (mkConnection (-1) (r_errno s))
  else
    do! r := retry fuel "connect" [AZ (r_ret s); AS property_service_socket] in
    if (r_ret r =? -1)%Z then
      call_ "close" [AZ (r_ret s)] ;!
      IRet (mkConnection (-1) (r_errno r))
    else IRet (mkConnection (r_ret s) 0).

(** The destructor. *)
Definition disconnect (c : PropertyServiceConnection) : io unit :=
  if IsValid c then call_ "close" [AZ (socket_ c)] else IRet tt.

Definition CheckSendRecvResult (c : PropertyServiceConnection) (r : resp) (expected_len : Z)
    : bool * PropertyServiceConnection :=
  let e := if (r_ret r =? -1)%Z then r_errno r else if negb (r_ret r =? expected_len)%Z then (-1)%Z else 0%Z in
  ((e =? 0)%Z, mkConnection (socket_ c) e).

(** The bytes received over the variable that holds [value]. *)
Definition recv_value (value : Z) (bytes : list ascii) : Z :=
  match bytes with [b0; b1; b2; b3] => i32 (le32_of b0 b1 b2 b3) | _ => value end.

Definition RecvInt32 (fuel : nat) (c : PropertyServiceConnection) (value : Z)
    : io (bool * Z * PropertyServiceConnection) :=
  do! r := retry fuel "recv" [AZ (socket_ c); AZ 4; AS (cs "MSG_WAITALL")] in
  let '(ok, c) := CheckSendRecvResult c r 4 in
  IRet (ok, recv_value value (r_out r), c).

(** * SocketWriter *)

(** The pieces written so far; how many of them are in [uint_buf_]. *)
Record SocketWriter := mkWriter { iov_ : list (list ascii); uint_buf_index_ : nat }.
Definition kUintBufSize : nat := 8.
Definition kIovSize : nat := 8.

Definition push_iov (w : SocketWriter) (b : list ascii) (n : nat) : cres SocketWriter :=
  if (length (iov_ w) <? kIovSize)%nat then Ret (mkWriter (iov_ w ++ [b]) n) else Fault.

Definition WriteUint32 (value : Z) (w : SocketWriter) : cres SocketWriter :=
  if (uint_buf_index_ w <? kUintBufSize)%nat
  then push_iov w (le32_bytes value) (S (uint_buf_index_ w)) else Fault.

Definition WriteString (value : cstr) (w : SocketWriter) : cres SocketWriter :=
  let valuelen := u32 (Z.of_nat (length value)) in
  let! w := WriteUint32 valuelen w in
  if (valuelen =? 0)%Z then Ret w else push_iov w value (uint_buf_index_ w).

Definition Send (c : PropertyServiceConnection) (w : SocketWriter) : io (bool * PropertyServiceConnection) :=
  if negb (IsValid c) then IRet (false, c)
  else
    do! r := call "writev" (AZ (socket_ c) :: (AB <$> iov_ w)) in
    if (r_ret r =? -1)%Z then IRet (false, mkConnection (socket_ c) (r_errno r)) else IRet (true, c).

(** * The old protocol *)

(** [struct prop_msg], zeroed and then filled with [strlcpy]. *)
Definition char_array (size : nat) (s : cstr) : list ascii :=
  strlcpy_contents s size ++ replicate (size - length (strlcpy_contents s size)) NUL.
Definition prop_msg (name value : cstr) : list ascii :=
  le32_bytes PROP_MSG_SETPROP ++ char_array (Z.to_nat PROP_NAME_MAX) name ++
  char_array (Z.to_nat PROP_VALUE_MAX) value.
Definition sizeof_prop_msg : Z := 128.

Definition send_prop_msg (fuel : nat) (msg : list ascii) : io Z :=
  do! connection := connect_to_service fuel in
  if negb (IsValid connection) then IRet (GetLastError connection)
  else
    let s := socket_ connection in
    do! num_bytes := retry fuel "send" [AZ s; AB msg; AZ 0] in
    do! result := (if (r_ret num_bytes =? sizeof_prop_msg)%Z then
                     do! poll_result := retry fuel "poll" [AZ s; AZ 250] in
                     (* a time-out counts as success *)
                     IRet (if (r_ret poll_result =? 1)%Z &&
                              negb (Z.land (nth 0 (r_aux poll_result) 0) POLLHUP =? 0)%Z then 0 else 0)%Z
                   else IRet (-1)%Z) in
    disconnect connection ;!
    IRet result.

(** * Choosing a protocol *)

Definition kProtocolVersion0 : Z := 0.
Definition kProtocolVersion1 : Z := 1.
Definition kProtocolVersion2 : Z := 2.

Definition atoll (s : cstr) : Z := (strtol 10 s).1.

Section set.
(** [__system_property_get]: the length of the value, and the value. *)
Context (property_get : cstr → cres (Z * cstr)).

Definition detect_protocol_version : cres Z :=
  let! (n, value) := property_get kServiceVersionPropertyName in
  if (n =? 0)%Z then Ret kProtocolVersion1
  else
    let version := u32 (atoll value) in
    Ret (if (version >=? kProtocolVersion2)%Z then kProtocolVersion2 else kProtocolVersion1).

(** The result, what is stored in [errno] if anything, and
    [g_propservice_protocol_version]. *)
Definition __system_property_set (fuel : nat) (version : Z) (key value : option cstr)
    : io (Z * option Z * Z) :=
  match key with
  | None => IRet (-1, None, version)%Z
  | Some key =>
    let value := default [] value in
    do! version := (if (version =? 0)%Z then of_cres detect_protocol_version else IRet version) in
    if (version =? kProtocolVersion1)%Z then
      if (Z.of_nat (length key) >=? PROP_NAME_MAX)%Z then IRet (-1, None, version)%Z
      else if (Z.of_nat (length value) >=? PROP_VALUE_MAX)%Z then IRet (-1, None, version)%Z
      else do! r := send_prop_msg fuel (prop_msg key value) in IRet (r, None, version)
    else
      if (Z.of_nat (length value) >=? PROP_VALUE_MAX)%Z && negb (strneq key (cs "ro.") 3)
      then IRet (-1, None, version)%Z
      else
        do! connection := connect_to_service fuel in
        if negb (IsValid connection) then IRet (-1, Some (GetLastError connection), version)%Z
        else
          do! writer := of_cres (let! w := WriteUint32 PROP_MSG_SETPROP2 (mkWriter [] 0) in
                                 let! w := WriteString key w in WriteString value w) in
          do! (sent, connection) := Send connection writer in
          if negb sent then
            disconnect connection ;! IRet (-1, Some (GetLastError connection), version)%Z
          else
            do! (received, result, connection) := RecvInt32 fuel connection (-1) in
            disconnect connection ;!
            IRet (if negb received then (-1, Some (GetLastError connection), version)
                  else if negb (result =? PROP_SUCCESS) then (-1, None, version)
                  else (0, None, version))%Z
  end.
End set.

(** [__system_property_get] of this library. *)
Definition property_get_of (k : kernel) {S} `{Contexts k S} (sp : SystemProperties S) (w : world)
    (name : cstr) : cres (Z * cstr) :=
  let! (n, value, _, _) := Get k sp w name in Ret (n, value).

(** * What the service reads *)

Definition read_string (b : list ascii) : option (cstr * list ascii) :=
  match b with
  | b0 :: b1 :: b2 :: b3 :: b =>
    let n := Z.to_nat (le32_of b0 b1 b2 b3) in
    if (n <=? length b)%nat then Some (take n b, drop n b) else None
  | _ => None
  end.

(** A request of either protocol: the property and its value. *)
Definition read_request (b : list ascii) : option (cstr * cstr) :=
  match b with
  | b0 :: b1 :: b2 :: b3 :: b =>
    let cmd := le32_of b0 b1 b2 b3 in
    if (cmd =? PROP_MSG_SETPROP)%Z then
      if (length b =? 124)%nat then Some (c_str_of (take 32 b), c_str_of (drop 32 b)) else None
    else if (cmd =? PROP_MSG_SETPROP2)%Z then
      '(name, b) ← read_string b; '(value, b) ← read_string b;
      match b with [] => Some (name, value) | _ => None end
    else None
  | _ => None
  end.

Definition piece (a : arg) : list ascii := match a with AB b => b | _ => [] end.

(** The bytes an event hands to the socket. *)
Definition request_of (e : event) : option (list ascii) :=
  if bool_decide (ev_fn e ∈ ["send"; "writev"]%string) then Some (concat (piece <$> ev_args e)) else None.
Definition requests (t : list event) : list (list ascii) := omap request_of t.

Lemma read_string_bytes s r :
  (Z.of_nat (length s) < 2 ^ 32)%Z → read_string (le32_bytes (Z.of_nat (length s)) ++ s ++ r) = Some (s, r).
Proof.
  intros Hs. unfold read_string, le32_bytes. cbn [app]. rewrite le32_roundtrip by lia. rewrite Nat2Z.id.
  rewrite length_app, (proj2 (Nat.leb_le _ _)) by lia. by rewrite take_app_length, drop_app_length.
Qed.

Lemma char_array_spec n s :
  no_nul s → (length s < n)%nat → length (char_array n s) = n ∧ ∀ r, c_str_of (char_array n s ++ r) = s.
Proof.
  intros Hs Hn. unfold char_array, strlcpy_contents. rewrite take_ge by lia. split.
  - rewrite length_app, length_replicate. lia.
  - intros r. destruct (n - length s)%nat eqn:E; [lia|]. cbn [replicate]. rewrite <-app_assoc. by apply c_str_of_app.
Qed.

Lemma read_prop_msg name value :
  no_nul name → no_nul value → (Z.of_nat (length name) < PROP_NAME_MAX)%Z →
  (Z.of_nat (length value) < PROP_VALUE_MAX)%Z →
  read_request (prop_msg name value) = Some (name, value).
Proof.
  intros Hn Hv Ln Lv. unfold PROP_NAME_MAX, PROP_VALUE_MAX in *.
  destruct (char_array_spec 32 name Hn) as [L1 C1]; [lia|].
  destruct (char_array_spec 92 value Hv) as [L2 C2]; [lia|].
  unfold read_request, prop_msg, le32_bytes. cbn [app].
  rewrite le32_roundtrip by (unfold PROP_MSG_SETPROP; lia). cbn [Z.eqb PROP_MSG_SETPROP Pos.eqb].
  change (Z.to_nat PROP_NAME_MAX) with 32%nat. change (Z.to_nat PROP_VALUE_MAX) with 92%nat.
  rewrite length_app, L1, L2. cbn [Nat.add Nat.eqb]. do 2 f_equal.
  - specialize (C1 []). rewrite app_nil_r in C1. by rewrite take_app_le, take_ge by lia.
  - specialize (C2 []). rewrite app_nil_r in C2. by rewrite drop_app_ge, L1, Nat.sub_diag by lia.
Qed.

(** What the writer sends for a request of the new protocol. *)
Lemma write_request key value :
  (Z.of_nat (length key) < 2 ^ 32)%Z → (Z.of_nat (length value) < 2 ^ 32)%Z →
  ∃ w, (let! w := WriteUint32 PROP_MSG_SETPROP2 (mkWriter [] 0) in
        let! w := WriteString key w in WriteString value w) = Ret w ∧
    read_request (concat (iov_ w)) = Some (key, value).
Proof.
  intros Hk Hv.
  assert (E : ∃ w, (let! w := WriteUint32 PROP_MSG_SETPROP2 (mkWriter [] 0) in
                    let! w := WriteString key w in WriteString value w) = Ret w ∧
              concat (iov_ w) = le32_bytes PROP_MSG_SETPROP2 ++ (le32_bytes (Z.of_nat (length key)) ++ key ++
                                le32_bytes (Z.of_nat (length value)) ++ value ++ [])).
  { unfold WriteString. rewrite !u32_small by lia.
    destruct (Z.eqb_spec (Z.of_nat (length key)) 0); destruct (Z.eqb_spec (Z.of_nat (length value)) 0);
      destruct key, value; try (cbn in *; lia); eexists; (split; [reflexivity|]);
      cbn [iov_ app concat]; by rewrite ?app_nil_r, <-?app_assoc. }
  destruct E as (w & E1 & E2). exists w. split; [done|]. rewrite E2.
  change (read_request _) with ('(name, b) ← read_string (le32_bytes (Z.of_nat (length key)) ++ key ++
                                le32_bytes (Z.of_nat (length value)) ++ value ++ []);
    '(value, b) ← read_string b; match b with [] => Some (name, value) | _ => None end).
  rewrite read_string_bytes by done. cbn [mbind option_bind]. by rewrite read_string_bytes.
Qed.

#[local] Arguments cs : simpl never.
#[local] Arguments property_service_socket : simpl never.

(** * The environment *)

Section run.
Context {S : Type} (env : S → string → list arg → resp * S) (budget : S → nat).

(** Documented behaviour of the calls: a failure sets errno, a descriptor is not
    negative; only so many signals interrupt the program. *)
Record posix : Prop := {
  px_errno : ∀ s fn args, r_ret (env s fn args).1 = (-1)%Z → r_errno (env s fn args).1 ≠ 0%Z;
  px_socket : ∀ s args, (-1 ≤ r_ret (env s "socket" args).1)%Z;
  px_budget : ∀ s fn args,
    (budget (env s fn args).2 + (if interrupted (env s fn args).1 then 1 else 0) ≤ budget s)%nat
}.
Context (Hposix : posix).

(** A trace that leaves the descriptors as they are, its requests, and that
    gives no sign of success of the kind [P]. *)
Definition repeats (fn : string) (args : list arg) (r : resp) (t : list event) : Prop :=
  ∃ t0, t = t0 ++ [mkEvent fn args r] ∧
    Forall (λ e, ev_fn e = fn ∧ ev_args e = args ∧ r_ret (ev_resp e) = (-1)%Z) t0.

Lemma run_retry fuel fn args s :
  (budget s < fuel)%nat →
  ∃ r t s', run env (retry fuel fn args) s = (Done r, t, s') ∧ (budget s' ≤ budget s)%nat ∧
    (r_ret r = (-1)%Z → r_errno r ≠ 0%Z) ∧ repeats fn args r t.
Proof.
  revert s. induction fuel as [|fuel IH]; intros s Hf; [lia|]. cbn.
  pose proof (px_budget Hposix s fn args) as Hb. pose proof (px_errno Hposix s fn args) as He.
  destruct (env s fn args) as [r s1]. cbn in Hb, He. destruct (interrupted r) eqn:Ei.
  - destruct (IH s1) as (r' & t & s' & -> & Hs' & Hr & t0 & -> & Ht0); [lia|].
    exists r', (mkEvent fn args r :: t0 ++ [mkEvent fn args r']), s'. split_and!; [done|lia|done|].
    exists (mkEvent fn args r :: t0). split; [done|]. constructor; [|done].
    apply andb_prop in Ei as [Ei _]. by apply Z.eqb_eq in Ei.
  - exists r, [mkEvent fn args r], s1. split_and!; [done|lia|done|]. by exists [].
Qed.

Lemma repeats_open fn args r t fds :
  opens fn = false → closes fn = false → repeats fn args r t → open_after t fds = fds.
Proof.
  intros Ho Hc (t0 & -> & Ht). rewrite open_after_app.
  assert (E : open_after t0 fds = fds).
  { induction Ht as [|e t0 (Ee & _) _ IH]; cbn; [done|]. by rewrite Ee, Ho, Hc. }
  rewrite E. cbn. by rewrite Ho, Hc.
Qed.

Lemma repeats_fn fn args r t : repeats fn args r t → Forall (λ e, ev_fn e = fn ∧ ev_args e = args) t.
Proof.
  intros (t0 & -> & Ht). apply Forall_app. split; [|by repeat constructor].
  eapply Forall_impl; [exact Ht|]. naive_solver.
Qed.

Lemma repeats_requests fn args r t :
  repeats fn args r t → Forall (λ b, b = concat (piece <$> args)) (requests t).
Proof.
  intros Ht%repeats_fn. induction Ht as [|e t [_ Ea] _ IH]; [constructor|]. cbn.
  unfold request_of at 1. case_bool_decide; [|done]. cbn. constructor; [by rewrite Ea|done].
Qed.

Lemma repeats_silent fn args r t :
  bool_decide (fn ∈ ["send"; "writev"]%string) = false → repeats fn args r t → requests t = [].
Proof.
  intros Hf Ht%repeats_fn. induction Ht as [|e t [Ee _] _ IH]; [done|]. cbn.
  unfold request_of at 1. by rewrite Ee, Hf.
Qed.

Lemma repeats_result fn args r t z :
  z ≠ (-1)%Z → repeats fn args r t → (∃ e, e ∈ t ∧ ev_fn e = fn ∧ r_ret (ev_resp e) = z) ↔ r_ret r = z.
Proof.
  intros Hz (t0 & -> & Ht). split.
  - intros (e & [He|He]%elem_of_app & _ & Er).
    + rewrite Forall_forall in Ht. apply Ht in He as (_ & _ & He). congruence.
    + apply list_elem_of_singleton in He as ->. done.
  - intros Hr. exists (mkEvent fn args r). split; [apply elem_of_app; right; by left|done].
Qed.

(** The events of a call of [fn'] are not of [fn]. *)
Lemma repeats_other fn fn' args r t e : repeats fn' args r t → fn ≠ fn' → e ∈ t → ev_fn e ≠ fn.
Proof. intros Ht%repeats_fn Hne He. rewrite Forall_forall in Ht. apply Ht in He as [He _]. congruence. Qed.

Lemma close_fd fd r : open_after [mkEvent "close" [AZ fd] r] [fd] = [].
Proof. change (filter (λ f, f ≠ fd) [fd] = []). by rewrite filter_cons_False by auto. Qed.

Lemma run_connect fuel s :
  (budget s < fuel)%nat →
  ∃ c t s', run env (connect_to_service fuel) s = (Done c, t, s') ∧ (budget s' ≤ budget s)%nat ∧
    requests t = [] ∧ (∀ e, e ∈ t → ev_fn e ∈ ["socket"; "connect"; "close"]%string) ∧
    ((IsValid c = false ∧ last_error_ c ≠ 0%Z ∧ open_after t [] = []) ∨
     (IsValid c = true ∧ open_after t [] = [socket_ c])).
Proof.
  intros Hf. unfold connect_to_service. rewrite run_bind. cbn.
  set (args := [_; _; _]). pose proof (px_socket Hposix s args) as Hs.
  pose proof (px_errno Hposix s "socket" args) as He. pose proof (px_budget Hposix s "socket" args) as Hb.
  destruct (env s "socket" args) as [r s1]. cbn in Hs, He, Hb |- *.
  destruct (Z.eqb_spec (r_ret r) (-1)) as [E|E].
  - eexists _, _, _. split_and!; [reflexivity|lia|done| |].
    + intros e ->%list_elem_of_singleton. set_solver.
    + left. cbn. split_and!; [done|auto|]. by rewrite E.
  - rewrite run_bind. destruct (run_retry fuel "connect" [AZ (r_ret r); AS property_service_socket] s1)
      as (r2 & t & s2 & -> & Hb2 & He2 & Ht); [lia|]. cbn.
    assert (Hin : ∀ e, e ∈ t → ev_fn e ∈ ["socket"; "connect"; "close"]%string).
    { intros e He'. pose proof (repeats_fn _ _ _ _ Ht) as HF. rewrite Forall_forall in HF.
      apply HF in He' as [-> _]. set_solver. }
    assert (Hopen : open_after (mkEvent "socket" args r :: t) [] = [r_ret r]).
    { cbn. rewrite (proj2 (Z.leb_le _ _)) by lia. by apply (repeats_open "connect" _ _ _ _ eq_refl eq_refl Ht). }
    assert (Hreq : requests (mkEvent "socket" args r :: t) = []) by exact (repeats_silent "connect" _ _ _ eq_refl Ht).
    destruct (Z.eqb_spec (r_ret r2) (-1)) as [E2|E2]; cbn.
    + pose proof (px_budget Hposix s2 "close" [AZ (r_ret r)]) as Hb3.
      destruct (env s2 "close" [AZ (r_ret r)]) as [r3 s3]. cbn in Hb3 |- *.
      eexists _, (mkEvent "socket" args r :: t ++ [mkEvent "close" [AZ (r_ret r)] r3]), s3.
      split_and!; [done|lia| | |].
      * change (requests ((mkEvent "socket" args r :: t) ++ [mkEvent "close" [AZ (r_ret r)] r3]) = []).
        unfold requests in *. by rewrite omap_app, Hreq.
      * intros e He'. apply elem_of_cons in He' as [->|[He'|He']%elem_of_app]; [set_solver|auto|].
        apply list_elem_of_singleton in He' as ->. set_solver.
      * left. cbn [IsValid last_error_]. split_and!; [done|auto|].
        change (open_after ((mkEvent "socket" args r :: t) ++ [mkEvent "close" [AZ (r_ret r)] r3]) [] = []).
        by rewrite open_after_app, Hopen, close_fd.
    + eexists _, (mkEvent "socket" args r :: t), s2. rewrite app_nil_r. split_and!; [done|lia|done| |].
      * intros e [->|He']%elem_of_cons; [set_solver|auto].
      * right. unfold IsValid. cbn. split; [|done]. by rewrite (proj2 (Z.eqb_neq _ _) E).
Qed.

Lemma run_disconnect c s :
  ∃ t s', run env (disconnect c) s = (Done tt, t, s') ∧ (budget s' ≤ budget s)%nat ∧ requests t = [] ∧
    (∀ e, e ∈ t → ev_fn e = "close"%string) ∧ (IsValid c = true → open_after t [socket_ c] = []).
Proof.
  unfold disconnect. destruct (IsValid c); cbn; [|by exists [], s; split_and!; [|lia|..|]; set_solver].
  pose proof (px_budget Hposix s "close" [AZ (socket_ c)]) as Hb.
  destruct (env s "close" [AZ (socket_ c)]) as [r s']. cbn in Hb. eexists [_], s'. split_and!; [done|lia|done| |].
  - by intros e ->%list_elem_of_singleton.
  - intros _. apply close_fd.
Qed.

(** What a call of the client leaves: no descriptor, only the request [ok]; its
    result is 0 when and only when [P] holds of an event of [fn]. *)
Definition outcome_ok (ok : list ascii → Prop) (fn : string) (P : resp → Prop) (z : Z) (t : list event) : Prop :=
  open_after t [] = [] ∧ Forall ok (requests t) ∧
  (z = 0%Z ↔ ∃ e, e ∈ t ∧ ev_fn e = fn ∧ P (ev_resp e)).

Lemma no_event fn (P : resp → Prop) (l : list string) (t : list event) :
  (∀ e, e ∈ t → ev_fn e ∈ l) → fn ∉ l → ¬ ∃ e, e ∈ t ∧ ev_fn e = fn ∧ P (ev_resp e).
Proof. intros Ht Hn (e & He & E & _). apply Hn. rewrite <-E. auto. Qed.

Lemma event_app fn (P : resp → Prop) (t1 t2 : list event) :
  (∃ e, e ∈ t1 ++ t2 ∧ ev_fn e = fn ∧ P (ev_resp e)) ↔
  (∃ e, e ∈ t1 ∧ ev_fn e = fn ∧ P (ev_resp e)) ∨ (∃ e, e ∈ t2 ∧ ev_fn e = fn ∧ P (ev_resp e)).
Proof.
  split; [intros (e & [He|He]%elem_of_app & H); eauto|].
  intros [(e & He & H)|(e & He & H)]; exists e; rewrite elem_of_app; auto.
Qed.

Lemma repeats_in fn args r t : repeats fn args r t → ∀ e, e ∈ t → ev_fn e ∈ [fn].
Proof. intros Ht%repeats_fn e He. rewrite Forall_forall in Ht. apply Ht in He as [-> _]. by left. Qed.

Lemma requests_app t1 t2 : requests (t1 ++ t2) = requests t1 ++ requests t2.
Proof. apply omap_app. Qed.

(** The whole message went out on a socket and its closing was then waited for,
    250 ms at most. *)
Definition waited (t : list event) : Prop :=
  ∃ sock msg sent polled, r_ret sent = sizeof_prop_msg ∧
    mkEvent "send" [AZ sock; AB msg; AZ 0] sent ∈ t ∧ mkEvent "poll" [AZ sock; AZ 250] polled ∈ t.

Lemma repeats_last fn args r t : repeats fn args r t → mkEvent fn args r ∈ t.
Proof. intros (t0 & -> & _). apply elem_of_app. right. by left. Qed.

Lemma run_send_prop_msg fuel msg s :
  (budget s < fuel)%nat →
  ∃ z t s', run env (send_prop_msg fuel msg) s = (Done z, t, s') ∧
    outcome_ok (λ b, b = msg) "send" (λ r, r_ret r = sizeof_prop_msg) z t ∧ (z = 0%Z → waited t).
Proof.
  intros Hf. unfold send_prop_msg. rewrite run_bind.
  destruct (run_connect fuel s Hf) as (c & t1 & s1 & -> & Hb1 & Q1 & F1 & Hc).
  assert (N1 : ¬ ∃ e, e ∈ t1 ∧ ev_fn e = "send"%string ∧ r_ret (ev_resp e) = sizeof_prop_msg)
    by (apply (no_event _ (λ r, r_ret r = sizeof_prop_msg) _ _ F1); set_solver).
  destruct Hc as [(-> & He & Ho)|(Hv & Ho)]; cbn [negb].
  { exists (last_error_ c), t1, s1. cbn [run]. rewrite app_nil_r. split; [done|]. split; [|done].
    split_and!; [done|by rewrite Q1|]. by split; intros H. }
  rewrite Hv. cbn [negb]. rewrite run_bind.
  destruct (run_retry fuel "send" [AZ (socket_ c); AB msg; AZ 0] s1) as (r & t2 & s2 & -> & Hb2 & _ & R2); [lia|].
  pose proof (repeats_result _ _ _ _ sizeof_prop_msg ltac:(done) R2) as E2.
  pose proof (repeats_requests _ _ _ _ R2) as Q2. cbn in Q2. rewrite app_nil_r in Q2.
  assert (Hpoll : ∃ z t3 s3, run env (if (r_ret r =? sizeof_prop_msg)%Z then
      do! p := retry fuel "poll" [AZ (socket_ c); AZ 250] in
      IRet (if (r_ret p =? 1)%Z && negb (Z.land (nth 0 (r_aux p) 0) POLLHUP =? 0)%Z then 0 else 0)%Z
      else IRet (-1)%Z) s2 = (Done z, t3, s3) ∧ (z = 0%Z ↔ r_ret r = sizeof_prop_msg) ∧
      requests t3 = [] ∧ (∀ e, e ∈ t3 → ev_fn e ∈ ["poll"%string]) ∧ (∀ fds, open_after t3 fds = fds) ∧
      (z = 0%Z → ∃ p, mkEvent "poll" [AZ (socket_ c); AZ 250] p ∈ t3)).
  { destruct (Z.eqb_spec (r_ret r) sizeof_prop_msg) as [E|E].
    - rewrite run_bind. destruct (run_retry fuel "poll" [AZ (socket_ c); AZ 250] s2)
        as (p & t3 & s3 & -> & _ & _ & R3); [lia|]. cbn [run].
      eexists _, (t3 ++ []), s3. split; [reflexivity|]. rewrite app_nil_r. split_and!.
      + by destruct (_ && _).
      + exact (repeats_silent "poll" _ _ _ eq_refl R3).
      + exact (repeats_in _ _ _ _ R3).
      + intros fds. exact (repeats_open "poll" _ _ _ _ eq_refl eq_refl R3).
      + intros _. exists p. by apply repeats_last.
    - exists (-1)%Z, [], s2. split_and!; [done|by split|done|set_solver|done|done]. }
  rewrite run_bind. destruct Hpoll as (z & t3 & s3 & -> & Hz & Q3 & F3 & O3 & W3).
  rewrite run_bind. destruct (run_disconnect c s3) as (t4 & s4 & -> & _ & Q4 & F4 & O4). cbn [run].
  eexists z, _, s4. split; [reflexivity|]. rewrite app_nil_r. split; [split_and!|].
  - rewrite !open_after_app, Ho, (repeats_open "send" _ _ _ _ eq_refl eq_refl R2), O3. auto.
  - rewrite !requests_app, Q1, Q3, Q4, !app_nil_r. exact Q2.
  - rewrite !(event_app "send" (λ r, r_ret r = sizeof_prop_msg)), Hz. cbn beta. rewrite E2.
    assert (N3 := no_event "send" (λ r, r_ret r = sizeof_prop_msg) _ _ F3 ltac:(set_solver)).
    assert (N4 := no_event "send" (λ r, r_ret r = sizeof_prop_msg) ["close"%string] t4 ltac:(set_solver) ltac:(set_solver)).
    cbn beta in N3, N4. tauto.
  - intros H0. destruct (W3 H0) as [p Hp]. exists (socket_ c), msg, r, p. split; [by apply Hz|].
    apply repeats_last in R2. set_solver.
Qed.

(** The received answer is the sign of success of the new protocol. *)
Definition success (r : resp) : Prop := r_ret r = 4%Z ∧ recv_value (-1) (r_out r) = PROP_SUCCESS.

Lemma run_RecvInt32 fuel c s :
  (budget s < fuel)%nat →
  ∃ ok v c' t s', run env (RecvInt32 fuel c (-1)) s = (Done (ok, v, c'), t, s') ∧ socket_ c' = socket_ c ∧
    requests t = [] ∧ (∀ e, e ∈ t → ev_fn e ∈ ["recv"%string]) ∧ (∀ fds, open_after t fds = fds) ∧
    (ok = true ∧ v = PROP_SUCCESS ↔ ∃ e, e ∈ t ∧ ev_fn e = "recv"%string ∧ success (ev_resp e)).
Proof.
  intros Hf. unfold RecvInt32. rewrite run_bind.
  destruct (run_retry fuel "recv" [AZ (socket_ c); AZ 4; AS (cs "MSG_WAITALL")] s) as (r & t & s' & -> & _ & He & R);
    [done|]. cbn [run CheckSendRecvResult].
  eexists _, _, _, _, _. split; [reflexivity|]. rewrite app_nil_r. split_and!; [done| | | |].
  - exact (repeats_silent "recv" _ _ _ eq_refl R).
  - exact (repeats_in _ _ _ _ R).
  - intros fds. exact (repeats_open "recv" _ _ _ _ eq_refl eq_refl R).
  - set (x := if (r_ret r =? -1)%Z then r_errno r else _). assert (Hx : (x =? 0)%Z = true ↔ r_ret r = 4%Z).
    { subst x. destruct (Z.eqb_spec (r_ret r) (-1)) as [E|E]; [rewrite E, Z.eqb_eq; naive_solver|].
      destruct (Z.eqb_spec (r_ret r) 4) as [E4|E4]; cbn; naive_solver. }
    rewrite Hx. destruct R as (t0 & -> & Ht0). unfold success. split.
    + intros [E V]. exists (mkEvent "recv" [AZ (socket_ c); AZ 4; AS (cs "MSG_WAITALL")] r).
      split; [apply elem_of_app; right; by left|done].
    + intros (e & [He'|He']%elem_of_app & _ & E & V).
      * rewrite Forall_forall in Ht0. apply Ht0 in He' as (_ & _ & He'). congruence.
      * apply list_elem_of_singleton in He' as ->. done.
Qed.

Lemma run_Send c iov n s :
  IsValid c = true →
  ∃ ok c' t s', run env (Send c (mkWriter iov n)) s = (Done (ok, c'), t, s') ∧ socket_ c' = socket_ c ∧
    (budget s' ≤ budget s)%nat ∧ requests t = [concat iov] ∧
    (∀ e, e ∈ t → ev_fn e ∈ ["writev"%string]) ∧ (∀ fds, open_after t fds = fds).
Proof.
  intros Hv. unfold Send. rewrite Hv. cbn. set (args := _ :: _).
  pose proof (px_budget Hposix s "writev" args) as Hb. destruct (env s "writev" args) as [r s']. cbn in Hb.
  assert (Hq : requests [mkEvent "writev" args r] = [concat iov]).
  { change ([concat (piece <$> (AB <$> iov))] = [concat iov]). by rewrite <-list_fmap_compose, list_fmap_id. }
  destruct (r_ret r =? -1)%Z; cbn; eexists _, _, _, s';
    (split_and!; [reflexivity|done|lia|exact Hq|by intros e ->%list_elem_of_singleton; left|done]).
Qed.

(** The new protocol, once the arguments are accepted. *)
Lemma run_new_protocol get fuel version key value s :
  (budget s < fuel)%nat → (Z.of_nat (length key) < 2 ^ 32)%Z → (Z.of_nat (length value) < 2 ^ 32)%Z →
  version ≠ kProtocolVersion0 → version ≠ kProtocolVersion1 →
  (PROP_VALUE_MAX ≤ Z.of_nat (length value) → take 3 key = cs "ro.")%Z →
  ∃ z err t s', run env (__system_property_set get fuel version (Some key) (Some value)) s =
      (Done (z, err, version), t, s') ∧
    outcome_ok (λ b, read_request b = Some (key, value)) "recv" success z t.
Proof.
  intros Hf Hk Hv V0 V1 Hro. unfold __system_property_set. change (default [] (Some value)) with value.
  rewrite (proj2 (Z.eqb_neq version 0) V0). cbn [ibind].
  rewrite (proj2 (Z.eqb_neq version _) V1).
  assert (E : (Z.of_nat (length value) >=? PROP_VALUE_MAX)%Z && negb (strneq key (cs "ro.") 3) = false).
  { rewrite Z.geb_leb. destruct (Z.leb_spec PROP_VALUE_MAX (Z.of_nat (length value))) as [Hl|Hl]; [|done].
    cbn [andb]. apply negb_false_iff, strneq_take. by rewrite Hro. }
  rewrite E, run_bind. destruct (run_connect fuel s Hf) as (c & t1 & s1 & -> & Hb1 & Q1 & F1 & Hc).
  assert (N1 := no_event "recv" success _ _ F1 ltac:(set_solver)).
  destruct Hc as [(-> & He & Ho)|(Hval & Ho)]; cbn [negb].
  { eexists (-1)%Z, _, t1, s1. cbn [run]. rewrite app_nil_r. split; [reflexivity|].
    split_and!; [done|by rewrite Q1|]. by split; intros H. }
  rewrite Hval. cbn [negb]. destruct (write_request key value Hk Hv) as ([iov n] & -> & Hreq). cbn [of_cres ibind].
  rewrite run_bind. destruct (run_Send c iov n s1 Hval) as (ok & c2 & t2 & s2 & -> & Hs2 & Hb2 & Q2 & F2 & O2).
  assert (N2 := no_event "recv" success _ _ F2 ltac:(set_solver)).
  assert (Hval2 : IsValid c2 = true) by (unfold IsValid; by rewrite Hs2).
  destruct ok; cbn [negb]; rewrite run_bind.
  - destruct (run_RecvInt32 fuel c2 s2) as (ok & v & c3 & t3 & s3 & -> & Hs3 & Q3 & F3 & O3 & E3); [lia|].
    rewrite run_bind. destruct (run_disconnect c3 s3) as (t4 & s4 & -> & _ & Q4 & F4 & O4).
    assert (Hval3 : IsValid c3 = true) by (unfold IsValid; by rewrite Hs3). specialize (O4 Hval3).
    assert (N4 := no_event "recv" success ["close"%string] t4 ltac:(set_solver) ltac:(set_solver)).
    set (w := if negb ok then (-1, Some _, version)%Z else _).
    assert (Hw : ∃ z err, w = (z, err, version) ∧ (z = 0%Z ↔ ok = true ∧ v = PROP_SUCCESS)).
    { subst w. destruct ok; cbn [negb]; [|by eexists _, _; split; [reflexivity|]; naive_solver].
      destruct (Z.eqb_spec v PROP_SUCCESS); cbn; eexists _, _; (split; [reflexivity|]); naive_solver. }
    destruct Hw as (z & err & -> & Hz). exists z, err. eexists _, _. cbn [run]. split; [reflexivity|].
    rewrite app_nil_r. split_and!.
    + rewrite !open_after_app, Ho, O2, O3, <-Hs2, <-Hs3. exact O4.
    + rewrite !requests_app, Q1, Q2, Q3, Q4. by repeat constructor.
    + rewrite !(event_app "recv" success), Hz, E3. tauto.
  - destruct (run_disconnect c2 s2) as (t4 & s4 & -> & _ & Q4 & F4 & O4). specialize (O4 Hval2).
    assert (N4 := no_event "recv" success ["close"%string] t4 ltac:(set_solver) ltac:(set_solver)).
    eexists (-1)%Z, _, _, _. cbn [run]. split; [reflexivity|]. rewrite app_nil_r. split_and!.
    + rewrite !open_after_app, Ho, O2, <-Hs2. exact O4.
    + rewrite !requests_app, Q1, Q2, Q4. by repeat constructor.
    + rewrite !(event_app "recv" success). split; [done|tauto].
Qed.
End run.

(** What each protocol accepts. *)
Definition accepts (version : Z) (key value : cstr) : bool :=
  if (version =? kProtocolVersion1)%Z
  then (Z.of_nat (length key) <? PROP_NAME_MAX)%Z && (Z.of_nat (length value) <? PROP_VALUE_MAX)%Z
  else (Z.of_nat (length value) <? PROP_VALUE_MAX)%Z || strneq key (cs "ro.") 3.

(** The call whose answer the result reports, and the answer that gives 0: with
    the new protocol that the service received the request and succeeded, with
    the old one only that the whole message went out. *)
Definition reported_call (version : Z) : string := if (version =? kProtocolVersion1)%Z then "send" else "recv".
Definition reported (version : Z) (r : resp) : Prop :=
  if (version =? kProtocolVersion1)%Z then r_ret r = sizeof_prop_msg else success r.

(** The protocol for a value of ro.property_service.version. *)
Definition protocol_of (n : Z) (value : cstr) : Z :=
  if (n =? 0)%Z || (u32 (atoll value) <? kProtocolVersion2)%Z then kProtocolVersion1 else kProtocolVersion2.

Lemma detect_protocol_version_eq get n v :
  get kServiceVersionPropertyName = Ret (n, v) → detect_protocol_version get = Ret (protocol_of n v).
Proof.
  intros E. unfold detect_protocol_version, protocol_of. rewrite E. cbn [cbind].
  destruct (n =? 0)%Z; [done|]. cbn [orb]. rewrite Z.geb_leb, Z.ltb_antisym.
  by destruct (kProtocolVersion2 <=? _)%Z.
Qed.

(** C25. For every behaviour of the kernel and of the service, setting a property
    ends, whatever is interrupted; a name or a value the protocol does not take
    is refused without a call; what is sent reads back as the name and the value;
    no descriptor stays open.  With the new protocol the result is 0 exactly when
    the service answered that it succeeded.  With the old one it is 0 exactly
    when the whole message went out, after a wait of 250 ms at most for the
    service to close the socket: a time-out, or an error of poll, is taken for
    success as well. *)
Theorem property_set_protocol {S} (env : S → string → list arg → resp * S) (budget : S → nat)
    get fuel version n v key value s :
  posix env budget → (budget s < fuel)%nat →
  get kServiceVersionPropertyName = Ret (n, v) →
  no_nul key → no_nul value → (Z.of_nat (length key) < 2 ^ 32)%Z → (Z.of_nat (length value) < 2 ^ 32)%Z →
  let used := if (version =? kProtocolVersion0)%Z then protocol_of n v else version in
  ∃ z err t s', run env (__system_property_set get fuel version (Some key) (Some value)) s =
      (Done (z, err, used), t, s') ∧
    (accepts used key value = false → z = (-1)%Z ∧ t = []) ∧
    outcome_ok (λ b, read_request b = Some (key, value)) (reported_call used) (reported used) z t ∧
    (used = kProtocolVersion1 → z = 0%Z → waited t).
Proof.
  intros Hp Hf Hget Hk Hv Lk Lv used.
  assert (Hused : used ≠ kProtocolVersion0).
  { subst used. destruct (Z.eqb_spec version kProtocolVersion0); [|done]. unfold protocol_of. by destruct (_ || _). }
  assert (Hrun : run env (__system_property_set get fuel version (Some key) (Some value)) s =
                 run env (__system_property_set get fuel used (Some key) (Some value)) s).
  { subst used. change kProtocolVersion0 with 0%Z in *. destruct (Z.eqb_spec version 0) as [->|]; [|done].
    unfold __system_property_set. rewrite (proj2 (Z.eqb_neq (protocol_of n v) 0) Hused).
    cbn [Z.eqb of_cres]. by rewrite (detect_protocol_version_eq _ _ _ Hget). }
  rewrite Hrun. clearbody used. unfold accepts, reported_call, reported.
  assert (Hno : ∀ fn P, outcome_ok (λ b, read_request b = Some (key, value)) fn P (-1) []).
  { intros fn P. split_and!; [done|constructor|]. split; [done|]. intros (e & He & _). by apply elem_of_nil in He. }
  destruct (Z.eqb_spec used kProtocolVersion1) as [->|V1].
  - unfold __system_property_set. change (default [] (Some value)) with value. cbn [Z.eqb kProtocolVersion1 ibind Pos.eqb].
    rewrite !Z.geb_leb. destruct (Z.leb_spec PROP_NAME_MAX (Z.of_nat (length key))) as [L1|L1].
    { eexists (-1)%Z, _, [], s. split; [reflexivity|]. split; [done|]. split; [apply Hno|done]. }
    destruct (Z.leb_spec PROP_VALUE_MAX (Z.of_nat (length value))) as [L2|L2].
    { eexists (-1)%Z, _, [], s. split; [reflexivity|]. split; [done|]. split; [apply Hno|done]. }
    rewrite run_bind. destruct (run_send_prop_msg env budget Hp fuel (prop_msg key value) s Hf) as (z & t & s' & -> & (Ho & Hq & Hz) & Hw).
    eexists z, _, t, s'. cbn [run]. rewrite app_nil_r. split; [reflexivity|]. split.
    + by rewrite (proj2 (Z.ltb_lt _ _) L1), (proj2 (Z.ltb_lt _ _) L2).
    + split; [|done]. split; [done|]. split; [|done]. eapply Forall_impl; [exact Hq|]. intros b ->. by apply read_prop_msg.
  - destruct ((Z.of_nat (length value) <? PROP_VALUE_MAX)%Z || strneq key (cs "ro.") 3) eqn:Ea.
    + destruct (run_new_protocol env budget Hp get fuel used key value s) as (z & err & t & s' & -> & Hok);
        [done..| |by exists z, err, t, s'; split_and!].
      intros Hl. apply orb_true_iff in Ea as [Ea%Z.ltb_lt|Ea]; [lia|]. by apply strneq_take in Ea.
    + apply orb_false_iff in Ea as [E1 E2]. unfold __system_property_set. change (default [] (Some value)) with value.
      rewrite (proj2 (Z.eqb_neq used 0) Hused). cbn [ibind].
      rewrite (proj2 (Z.eqb_neq used _) V1), Z.geb_leb, E2.
      rewrite (proj2 (Z.leb_le _ _)) by (by apply Z.ltb_ge in E1). cbn [andb negb].
      eexists (-1)%Z, _, [], s. split; [reflexivity|]. split; [done|]. split; [apply Hno|done].
Qed.

(** A service that takes everything; a signal arrives during the first call of
    each kind that can be interrupted. *)
Definition service (s : nat) (fn : string) (args : list arg) : resp * nat :=
  match s with
  | S s => if bool_decide (fn = "socket" ∨ fn = "writev")%string then (mkResp 3 0 [] [], S s)
           else (mkResp (-1) EINTR [] [], s)
  | O => (if bool_decide (fn = "recv"%string) then mkResp 4 0 (le32_bytes PROP_SUCCESS) []
          else if bool_decide (fn = "send"%string) then mkResp sizeof_prop_msg 0 [] [] else mkResp 3 0 [] [], O)
  end.

Lemma service_posix : posix service id.
Proof.
  split; intros s fn; [intros args|intros args|intros args]; destruct s; cbn; repeat case_bool_decide; cbn;
    try lia; try done.
Qed.

Definition version_2 (name : cstr) : cres (Z * cstr) := Ret (1%Z, cs "2").

Lemma property_set_protocol_witness :
  (∃ z err t s', run service (__system_property_set version_2 9 0 (Some (cs "ro.a")) (Some (cs "b"))) 2%nat =
      (Done (z, err, kProtocolVersion2), t, s') ∧ open_after t [] = [] ∧ z = 0%Z) ∧
  accepts kProtocolVersion2 (cs "ro.a") (cs "b") = true.
Proof.
  split; [|reflexivity].
  pose proof (property_set_protocol service id version_2 9 0 1 (cs "2") (cs "ro.a") (cs "b") 2%nat) as H.
  destruct H as (z & err & t & s' & E & _ & (Ho & _) & _).
  1: apply service_posix.
  1: cbn; lia.
  1: reflexivity.
  1, 2: apply (bool_decide_unpack _); vm_compute; exact I.
  1, 2: vm_compute; reflexivity.
  exists z, err, t, s'. split; [exact E|]. split; [exact Ho|].
  assert (E2 : (run service (__system_property_set version_2 9 0 (Some (cs "ro.a")) (Some (cs "b"))) 2%nat).1.1 =
               Done (0%Z, None, kProtocolVersion2)) by (vm_compute; reflexivity).
  rewrite E in E2. cbn in E2. congruence.
Defined.

(** The version property as this library reads it. *)
Lemma property_get_version (k : kernel) {S} `{Contexts k S} `{!ContextsLaws k S} (sp : SystemProperties S) w p m v :
  sp_ok k sp w → area_of k sp w kServiceVersionPropertyName p → stores w p m →
  m !! kServiceVersionPropertyName = Some v → (Z.of_nat (length v) < PROP_VALUE_MAX)%Z →
  property_get_of k sp w kServiceVersionPropertyName = Ret (Z.of_nat (length v), v).
Proof.
  intros Hsp Ha Hs Hm Hl. unfold property_get_of.
  by rewrite (Get_known k sp w _ p m v).
Qed.

(** A failed connection of the old protocol is reported as errno, not as -1. *)
Example old_protocol_errno :
  (run (λ (s : unit) _ _, (mkResp (-1) 13 [] [], s))
     (__system_property_set version_2 3 1 (Some (cs "a")) (Some (cs "b"))) tt).1.1 = Done (13%Z, None, 1%Z).
Proof. reflexivity. Qed.

(** The service that takes a message of the old protocol and never closes the
    socket: poll times out, and the result is 0. *)
Example old_protocol_timeout :
  run (λ (s : unit) fn _, (mkResp (if String.eqb fn "send" then sizeof_prop_msg
                                   else if String.eqb fn "poll" then 0 else 3) 0 [] [], s))
    (__system_property_set version_2 3 1 (Some (cs "a")) (Some (cs "b"))) tt =
  (Done (0%Z, None, 1%Z),
   [mkEvent "socket" [AS (cs "AF_LOCAL"); AS (cs "SOCK_STREAM | SOCK_CLOEXEC"); AZ 0] (mkResp 3 0 [] []);
    mkEvent "connect" [AZ 3; AS property_service_socket] (mkResp 3 0 [] []);
    mkEvent "send" [AZ 3; AB (prop_msg (cs "a") (cs "b")); AZ 0] (mkResp sizeof_prop_msg 0 [] []);
    mkEvent "poll" [AZ 3; AZ 250] (mkResp 0 0 [] []);
    mkEvent "close" [AZ 3] (mkResp 3 0 [] [])], tt).
Proof. reflexivity. Qed.
