(* ===== verification/HalUtils.v ===== *)
(** hardware/Utils.{h,cpp}: the helpers of the HALs, built with STRICT_BEHAVIOUR
    and eight CPUs: files of sysfs, the governors of the CPUs, polling. *)

From Stdlib Require Import ZArith Lia Ascii.
From stdpp Require Import base numbers strings gmap list.
From S2P Require Import Prelude CString Sys Scanf Strtol.

Definition NR_CPUS : Z := 8.
Definition S_IFREG : Z := 32768.
Definition S_IFDIR : Z := 16384.
Definition R_OK : Z := 4.
Definition W_OK : Z := 2.
Definition X_OK : Z := 1.
Definition O_WRONLY : Z := 1.

(** An exception nobody catches, and [LOG_ALWAYS_FATAL]. *)
Definition abort {A} : io A := IExit 134.

Definition statMode (path : cstr) : io Z :=
  do! r := call "stat" [AS path] in
  IRet (if (r_ret r =? -1)%Z then 0 else nth 0 (r_aux r) 0)%Z.

Definition stat_compare_mode (path : cstr) (mode : Z) : io bool :=
  do! m := statMode path in IRet (Z.land m mode =? mode)%Z.

Definition isFile (path : cstr) : io bool := stat_compare_mode path S_IFREG.
Definition isDirectory (path : cstr) : io bool := stat_compare_mode path S_IFDIR.

Definition access (path : cstr) (mode : Z) : io bool :=
  do! n := call_ret "access" [AS path; AZ mode] in IRet (n =? 0)%Z.

Definition canRead (path : cstr) : io bool := access path R_OK.
Definition canWrite (path : cstr) : io bool := access path W_OK.
Definition canExecute (path : cstr) : io bool := access path X_OK.

(** [Utils::write]: opening truncates; a failed output is not noticed. *)
Definition write (path data : cstr) : io bool :=
  do! is_open := call_ret "ofstream::open" [AS path] in
  if (is_open =? 0)%Z then IRet false
  else
    call_ "ofstream::write" [AS path; AS data] ;!
    call_ "ofstream::close" [AS path] ;!
    IRet true.

Definition bool_text (b : bool) : cstr := if b then cs "1" else cs "0".
Definition write_bool (path : cstr) (data : bool) : io bool := write path (bool_text data).
Definition write_int (path : cstr) (data : Z) : io bool := write path (print_d data).

Definition writeLegacy (path data : cstr) : io bool :=
  do! fd := call_ret "open" [AS path; AZ O_WRONLY] in
  if (fd <? 0)%Z then IRet false
  else
    call_ "write" [AZ fd; AS data] ;!
    call_ "close" [AZ fd] ;!
    IRet true.

Definition writeLegacy_bool (path : cstr) (data : bool) : io bool := writeLegacy path (bool_text data).
Definition writeLegacy_int (path : cstr) (data : Z) : io bool := writeLegacy path (print_d data).

(** [Utils::read]: the first line. *)
Definition read (path : cstr) : io (option cstr) :=
  do! is_open := call_ret "ifstream::open" [AS path] in
  if (is_open =? 0)%Z then IRet None
  else
    do! r := call "getline" [AS path] in
    if (r_ret r =? 0)%Z then IRet None
    else call_ "ifstream::close" [AS path] ;! IRet (Some (r_out r)).

(** [std::stoi]: no number, or one that is not an int, is an exception. *)
Definition stoi (s : cstr) : io Z :=
  let '(neg, r) := sign_of (span isspace s).2 in
  match (span (is_digit 10) r).1 with
  | [] => abort
  | ds =>
    let v := (if neg then - value_of 10 ds else value_of 10 ds)%Z in
    if (- 2 ^ 31 <=? v)%Z && (v <? 2 ^ 31)%Z then IRet v else abort
  end.

Definition read_int (path : cstr) : io (option Z) :=
  do! line := read path in
  match line with None => IRet None | Some line => do! v := stoi line in IRet (Some v) end.

Definition read_bool (path : cstr) : io (option bool) :=
  do! out := read_int path in IRet (negb ∘ Z.eqb 0 <$> out).

Definition screenIsOn : io bool :=
  do! brightness := read_int (cs "/sys/devices/13900000.dsim/backlight/panel/brightness") in
  IRet (match brightness with None => true | Some b => b >? 0 end)%Z.

(** * Governors *)

(** [kCpuGovernors]: looking a core up gives the empty name when it is not there. *)
Notation governors := (gmap Z cstr).

Definition governor_of (g : governors) (core : Z) : cstr := default [] (g !! core).

Definition core_ok (core : Z) : bool := (0 <=? core)%Z && (core <? NR_CPUS)%Z.

Definition cpufreq (core : Z) : cstr := cs "/sys/devices/system/cpu/cpu" ++ print_d core ++ cs "/cpufreq/".

Definition updateCpuGov (g : governors) (core : Z) : io (bool * governors) :=
  if negb (core_ok core) then IRet (false, g)
  else
    do! cpugov := read (cpufreq core ++ cs "scaling_governor") in
    IRet (match cpugov with None => (false, g) | Some gov => (true, <[core := gov]> g) end).

Definition assertCpuGov (g : governors) (core : Z) (asserted_cpugov : cstr) : bool :=
  core_ok core && streq (governor_of g core) asserted_cpugov.

Definition writeCpuGov (g : governors) (core : Z) (file data : cstr) : io bool :=
  if negb (core_ok core) then IRet false
  else
    let path := cpufreq core ++ governor_of g core ++ cs "/" ++ file in
    do! ok := isFile path in
    if ok : bool then write path data else IRet false.

Definition writeCpuGov_bool (g : governors) (core : Z) (file : cstr) (data : bool) : io bool :=
  writeCpuGov g core file (bool_text data).
Definition writeCpuGov_int (g : governors) (core : Z) (file : cstr) (data : Z) : io bool :=
  writeCpuGov g core file (print_d data).

(** * Polling *)

(** The variables of the polling thread; [None]: not yet written. *)
Record poll_state := mkPoll { isFirstPoll : bool; ret : option bool; lastValue : option Z }.

Definition poll_turn (path : cstr) (ignoreFailures : bool) (st : poll_state) : io poll_state :=
  do! value := read_int path in
  match value with
  | Some value =>
    do! changed := (if isFirstPoll st then IRet true
                    else do! last := of_cres (deref (lastValue st)) in IRet (negb (value =? last)%Z)) in
    if changed : bool then
      do! r := call_ret "callback" [AZ value] in
      IRet (mkPoll true (Some (negb (r =? 0)%Z)) (Some value))
    else IRet st
  | None => IRet (if ignoreFailures then st else mkPoll (isFirstPoll st) (Some false) (lastValue st))
  end.

Fixpoint poll_loop (fuel : nat) (path : cstr) (delay : Z) (ignoreFailures : bool) (st : poll_state) : io unit :=
  match fuel with
  | O => IFuel
  | S fuel =>
    do! st := poll_turn path ignoreFailures st in
    do! ret := of_cres (deref (ret st)) in
    if ret : bool then call_ "sleep_for" [AZ delay] ;! poll_loop fuel path delay ignoreFailures st
    else IRet tt
  end.

Definition poll (fuel : nat) (path : cstr) (delay : Z) (ignoreFailures : bool) : io unit :=
  poll_loop fuel path delay ignoreFailures (mkPoll true None None).

(** * What they do *)

(** A socket counts as a file and a block device as a directory. *)
Example isFile_bits : Z.land 49152 S_IFREG = S_IFREG ∧ Z.land 24576 S_IFDIR = S_IFDIR.
Proof. done. Qed.

(** The calls of [callback], with their values. *)
Fixpoint callbacks (t : list event) : list Z :=
  match t with
  | [] => []
  | e :: t => match ev_args e with
              | [AZ v] => if bool_decide (ev_fn e = "callback") then v :: callbacks t else callbacks t
              | _ => callbacks t
              end
  end.

(** A file that always holds "1" and a callback that goes on. *)
Definition steady_env (s : unit) (fn : string) (args : list arg) : resp * unit :=
  (mkResp 1 0 (cs "1") [], s).

(** The callback runs at every turn, not only when the value has changed. *)
Example poll_repeats :
  callbacks (run steady_env (poll 3 (cs "/data/.power-profile") 5000 true) tt).1.2 = [1; 1; 1]%Z.
Proof. reflexivity. Qed.

(** When the first read fails [ret] is read without having been written. *)
Example poll_first_failure :
  (run (λ s _ _, (mkResp 0 0 [] [], s)) (poll 3 (cs "/data/.power-profile") 5000 true) tt).1.1 = Crashed.
Proof. reflexivity. Qed.
