(* ===== verification/Profiles.v ===== *)
(** hardware/power/Profiles.{h,cpp}: the power profiles and how they are loaded.
    A profile is a struct of nested structs every field of which has a mark that
    says whether it was set; here a field is named by its path. *)

From Stdlib Require Import ZArith Lia Ascii.
From stdpp Require Import base numbers strings gmap list.
From S2P Require Import Prelude CString Sys Scanf Strtol HalUtils.

Inductive pval := PVBool (b : bool) | PVNum (z : Z) | PVStr (s : cstr).

(** [pf_vals]: the fields written, the others are zero; [pf_marks]: the fields
    whose [__name_set] is true; [pf_gov]: the governor data of a cluster. *)
Record SecPowerProfile := mkProfile {
  pf_vals : gmap string pval;
  pf_marks : gset string;
  pf_gov : gmap string (list (cstr * cstr))
}.

Definition zero_profile : SecPowerProfile := mkProfile ∅ ∅ ∅.

Definition get_bool (p : SecPowerProfile) (f : string) : bool :=
  match pf_vals p !! f with Some (PVBool b) => b | _ => false end.
Definition get_num (p : SecPowerProfile) (f : string) : Z :=
  match pf_vals p !! f with Some (PVNum z) => z | _ => 0%Z end.
Definition get_str (p : SecPowerProfile) (f : string) : cstr :=
  match pf_vals p !! f with Some (PVStr s) => s | _ => [] end.
Definition is_set (p : SecPowerProfile) (f : string) : bool := bool_decide (f ∈ pf_marks p).

Definition store (f : string) (v : pval) (p : SecPowerProfile) : SecPowerProfile :=
  mkProfile (<[f := v]> (pf_vals p)) (pf_marks p) (pf_gov p).
Definition set_mark (f : string) (p : SecPowerProfile) : SecPowerProfile :=
  mkProfile (pf_vals p) ({[f]} ∪ pf_marks p) (pf_gov p).
Definition clear_mark (f : string) (p : SecPowerProfile) : SecPowerProfile :=
  mkProfile (pf_vals p) (pf_marks p ∖ {[f]}) (pf_gov p).
Definition store_gov (cl : string) (l : list (cstr * cstr)) (p : SecPowerProfile) : SecPowerProfile :=
  mkProfile (pf_vals p) (pf_marks p) (<[cl := l]> (pf_gov p)).

(** The profiles by name. *)
Notation profiles := (gmap string SecPowerProfile).

(** What libxml2 finds at a path: the name, the text, the children and the
    attributes of the first node. *)
Inductive xml := XNode (name : cstr) (content : option cstr) (children : list xml) (attrs : list (cstr * cstr)).
Definition x_name (n : xml) := match n with XNode a _ _ _ => a end.
Definition x_content (n : xml) := match n with XNode _ c _ _ => c end.
Definition x_children (n : xml) := match n with XNode _ _ l _ => l end.
Definition x_attrs (n : xml) := match n with XNode _ _ _ a => a end.

Definition to_bool (c : cstr) : bool := streq c (cs "true") || streq c (cs "TRUE") || streq c (cs "1").

(** The three conversions, and a string as it is. *)
Inductive ptype := TBool | TInt | TUint | TString.

Definition convert (t : ptype) (c : cstr) : io pval :=
  match t with
  | TBool => IRet (PVBool (to_bool c))
  | TInt => do! z := stoi c in IRet (PVNum z)
  | TUint => do! z := stoi c in IRet (PVNum (u32 z))
  | TString => IRet (PVStr c)
  end.

Section load.
(** The document: what [xmlXPathEvalExpression] finds. *)
Context (doc : cstr → option xml).

(** [XML_GET]: the text of the first child; a node without children is read
    through a null pointer. *)
Definition XML_GET (path sub : cstr) : cres (option cstr) :=
  match doc (path ++ cs "/" ++ sub) with
  | None => Ret None
  | Some n => match x_children n with [] => Fault | c :: _ => Ret (x_content c) end
  end.

Definition XML_HAS_NODE (path sub : cstr) : bool :=
  match doc (path ++ cs "/" ++ sub) with
  | None => false
  | Some n => match x_children n with [] => false | _ => true end
  end.

(** [XML_GET_ATTR(nullptr, attr)] *)
Fixpoint find_attr (l : list (cstr * cstr)) (attr : cstr) : option cstr :=
  match l with
  | [] => None
  | (n, v) :: l => if streq n attr then Some v else find_attr l attr
  end.

Definition XML_GET_ATTR (path attr : cstr) : option cstr :=
  match doc path with None => None | Some n => find_attr (x_attrs n) attr end.

(** [PROFILE_SET] and its variants: a field, where it is in the document, its
    type and its default. *)
Record field := mkField { f_name : string; f_type : ptype; f_sub : string; f_default : string }.

Definition PROFILE_SET (path : cstr) (f : field) (p : SecPowerProfile) : io SecPowerProfile :=
  do! c := of_cres (XML_GET path (cs (f_sub f))) in
  match c with
  | Some c => do! v := convert (f_type f) c in IRet (set_mark (f_name f) (store (f_name f) v p))
  | None =>
    if is_set p (f_name f) then IRet p
    else do! v := convert (f_type f) (cs (f_default f)) in IRet (store (f_name f) v p)
  end.

Fixpoint set_fields (path : cstr) (fs : list field) (p : SecPowerProfile) : io SecPowerProfile :=
  match fs with
  | [] => IRet p
  | f :: fs => do! p := PROFILE_SET path f p in set_fields path fs p
  end.

Definition enabled (s : string) : string := s +:+ ".enabled".

(** [PROFILE_INIT] of a section. *)
Definition PROFILE_INIT (path : cstr) (name sub : string) (p : SecPowerProfile) : io SecPowerProfile :=
  if XML_HAS_NODE path (cs sub) then
    do! p := PROFILE_SET path (mkField (enabled name) TBool (sub +:+ "/enabled") "false") p in
    IRet (set_mark name p)
  else IRet (clear_mark name p).

Fixpoint init_sections (path : cstr) (l : list (string * string)) (p : SecPowerProfile) : io SecPowerProfile :=
  match l with
  | [] => IRet p
  | (name, sub) :: l => do! p := PROFILE_INIT path name sub p in init_sections path l p
  end.

Definition sections : list (string * string) :=
  [("cpu", "cpu"); ("cpu.apollo", "cpu/apollo"); ("cpu.apollo.cores", "cpu/apollo/cores");
   ("cpu.atlas", "cpu/atlas"); ("cpu.atlas.cores", "cpu/atlas/cores"); ("cpusets", "cpusets");
   ("hmp", "hmp"); ("hmp.threshold", "hmp/threshold"); ("hmp.sb_threshold", "hmp/sb_threshold");
   ("gpu", "gpu"); ("gpu.dvfs", "gpu/dvfs"); ("gpu.highspeed", "gpu/highspeed");
   ("kernel", "kernel"); ("ipa", "ipa"); ("slow", "slow"); ("input_booster", "input_booster")]%string.

(** [XML_GET_CPUGOV]: the children that have children, a name and a text each; two
    arrays of 64 characters, 64 of them. *)
Fixpoint gov_entries (l : list xml) : cres (list (cstr * cstr)) :=
  match l with
  | [] => Ret []
  | n :: l =>
    match x_children n with
    | [] => gov_entries l
    | c :: _ =>
      let! data := deref (x_content c) in
      if (length (x_name n) <? 64)%nat && (length data <? 64)%nat
      then let! r := gov_entries l in Ret ((x_name n, data) :: r) else Fault
    end
  end.

Definition XML_GET_CPUGOV (path : cstr) (cl : string) (p : SecPowerProfile) : io SecPowerProfile :=
  match doc (path ++ cs "/cpu/" ++ cs cl ++ cs "/governor_data") with
  | None => IRet p
  | Some n =>
    match x_children n with
    | [] => IRet p
    | children =>
      do! l := of_cres (gov_entries children) in
      (* the entry after the last one ends the list *)
      if (length l <? 64)%nat then IRet (store_gov ("cpu." +:+ cl) l p) else IFault
    end
  end.

Definition cluster_fields (cl : string) (cln : nat) : list field :=
  let name f := "cpu." +:+ cl +:+ "." +:+ f in
  let sub f := "cpu/" +:+ cl +:+ "/" +:+ f in
  let top := if (cln =? 0)%nat then "1500000" else "2100000" in
  [mkField (name "governor") TString (sub "governor") "interactive";
   mkField (name "freq_min") TUint (sub "freq_min") "200000";
   mkField (name "freq_max") TUint (sub "freq_max") top;
   mkField (name "freq_hispeed") TUint (sub "freq_hispeed") top;
   mkField (name "freq_boost") TUint (sub "freq_boost") "0"]%string.

Definition core_fields (cl : string) : list field :=
  (λ c, mkField ("cpu." +:+ cl +:+ ".cores." +:+ c) TBool ("cpu/" +:+ cl +:+ "/cores/" +:+ c) "true")
    <$> ["core1"; "core2"; "core3"; "core4"]%string.

Definition cpuset_fields : list field :=
  (λ nx, mkField ("cpusets." +:+ nx.1) TString ("cpusets/" +:+ nx.2) "0-7")
    <$> [("defaults", "default"); ("foreground", "foreground"); ("foreground_boost", "foreground_boost");
         ("background", "background"); ("system_background", "system_background"); ("top_app", "top_app")]%string.

Definition hmp_fields : list field :=
  (λ n, mkField ("hmp." +:+ n) TBool ("hmp/" +:+ n) "false")
    <$> ["boost"; "semiboost"; "power_migration"; "active_down_migration"; "aggressive_up_migration"]%string.

(** When the section is switched on. *)
Definition if_enabled (s : string) (m : SecPowerProfile → io SecPowerProfile) (p : SecPowerProfile) : io SecPowerProfile :=
  if get_bool p (enabled s) then m p else IRet p.

Definition seq (m1 m2 : SecPowerProfile → io SecPowerProfile) (p : SecPowerProfile) : io SecPowerProfile :=
  do! p := m1 p in m2 p.
Infix ">>" := seq (at level 60, right associativity).

Definition load_cluster (path : cstr) (cl : string) (cln : nat) : SecPowerProfile → io SecPowerProfile :=
  if_enabled ("cpu." +:+ cl)
    (set_fields path (cluster_fields cl cln) >>
     if_enabled ("cpu." +:+ cl +:+ ".cores") (set_fields path (core_fields cl)) >>
     XML_GET_CPUGOV path cl).

(** The body of [loadProfileImpl] after "extends". *)
Definition load_sections (path : cstr) : SecPowerProfile → io SecPowerProfile :=
  if_enabled "cpu" (load_cluster path "apollo" 0 >> load_cluster path "atlas" 1) >>
  if_enabled "cpusets" (set_fields path cpuset_fields) >>
  if_enabled "hmp"
    (set_fields path hmp_fields >>
     if_enabled "hmp.threshold" (set_fields path
       [mkField "hmp.threshold.down" TUint "hmp/threshold/down" "214";
        mkField "hmp.threshold.up" TUint "hmp/threshold/up" "479"]) >>
     if_enabled "hmp.sb_threshold" (set_fields path
       [mkField "hmp.sb_threshold.down" TUint "hmp/sb_threshold/down" "150";
        mkField "hmp.sb_threshold.up" TUint "hmp/sb_threshold/up" "100"])) >>
  if_enabled "gpu"
    (if_enabled "gpu.dvfs" (set_fields path
       [mkField "gpu.dvfs.freq_min" TUint "gpu/dvfs/freq_min" "100";
        mkField "gpu.dvfs.freq_max" TUint "gpu/dvfs/freq_max" "772"]) >>
     if_enabled "gpu.highspeed" (set_fields path
       [mkField "gpu.highspeed.freq" TUint "gpu/highspeed/freq" "772";
        mkField "gpu.highspeed.load" TUint "gpu/highspeed/load" "99"])) >>
  if_enabled "kernel" (set_fields path [mkField "kernel.pewq" TBool "kernel/pewq" "false"]) >>
  if_enabled "ipa" (set_fields path [mkField "ipa.control_temp" TInt "ipa/control_temp" "65"]) >>
  if_enabled "slow" (set_fields path
    [mkField "slow.mode_toggle" TBool "slow/mode_toggle" "false";
     mkField "slow.timer_rate" TInt "slow/timer_rate" "0"]) >>
  if_enabled "input_booster" (set_fields path
    [mkField "input_booster.tail" TString "input_booster/tail" "0 0 0 0 0 0";
     mkField "input_booster.head" TString "input_booster/head" "0 0 0 0 0 0"]).

(** [kProfileNameToData] and the profiles it points to. *)
Definition profile_names : list string :=
  ["screen_off"; "power_save"; "bias_power_save"; "balanced"; "bias_performance"; "performance"]%string.

Definition kProfileNameToData : profiles := list_to_map ((λ n, (n, zero_profile)) <$> profile_names).

Definition string_of (s : cstr) : string := String.string_of_list_ascii s.

(** [loadProfileImpl(profile, ctx, "/profiles/<name>")]: a parent that does not
    exist is copied from a null pointer. *)
Definition loadProfileImpl (name : string) (ps : profiles) : io profiles :=
  let path := cs "/profiles/" ++ cs name in
  do! p := of_cres (deref (ps !! name)) in
  do! p := PROFILE_SET path (mkField "enabled" TBool "enabled" "false") p in
  do! p := init_sections path sections p in
  if negb (get_bool p "enabled") then IRet (<[name := p]> ps)
  else
    do! p := match XML_GET_ATTR path (cs "extends") with
             | Some parent => of_cres (deref (<[name := p]> ps !! string_of parent))
             | None => IRet p
             end in
    do! p := load_sections path p in
    IRet (<[name := p]> ps).

Fixpoint load_all (names : list string) (ps : profiles) : io profiles :=
  match names with
  | [] => IRet ps
  | n :: names => do! ps := loadProfileImpl n ps in load_all names ps
  end.

Definition loadProfilesImpl (ps : profiles) : io profiles := load_all profile_names ps.
End load.

(** [loadProfiles]: [parse] is libxml2 reading a file. *)
Definition loadProfiles (parse : cstr → cstr → option xml) (ps : profiles) : io profiles :=
  do! user := isFile (cs "/data/system/power_profiles.xml") in
  if user : bool then loadProfilesImpl (parse (cs "/data/system/power_profiles.xml")) ps
  else
    do! vendor := isFile (cs "/vendor/etc/power_profiles.xml") in
    if vendor : bool then loadProfilesImpl (parse (cs "/vendor/etc/power_profiles.xml")) ps
    else
      do! system := isFile (cs "/system/etc/power_profiles.xml") in
      if system : bool then loadProfilesImpl (parse (cs "/system/etc/power_profiles.xml")) ps
      else abort.

(** [enum class SecPowerProfiles] is an int; the names of the profiles by number. *)
Definition INVALID : Z := - 2 ^ 31.
Definition SCREEN_OFF : Z := -1.
Definition POWER_SAVE : Z := 0.
Definition BALANCED : Z := 1.
Definition HIGH_PERFORMANCE : Z := 2.
Definition BIAS_POWER_SAVE : Z := 3.
Definition BIAS_PERFORMANCE : Z := 4.
Definition MAX_PROFILES : Z := 5.

Definition profile_name (profile : Z) : option string :=
  if (profile =? SCREEN_OFF)%Z then Some "screen_off"
  else if (profile =? POWER_SAVE)%Z then Some "power_save"
  else if (profile =? BIAS_POWER_SAVE)%Z then Some "bias_power_save"
  else if (profile =? BALANCED)%Z then Some "balanced"
  else if (profile =? BIAS_PERFORMANCE)%Z then Some "bias_performance"
  else if (profile =? HIGH_PERFORMANCE)%Z then Some "performance"
  else None.

(** [None]: the null pointer. *)
Definition getProfileData (ps : profiles) (profile : Z) : option SecPowerProfile :=
  n ← profile_name profile; ps !! n.

(** * Where a field gets its value *)

(** A conversion that is not an exception. *)
Definition conv (t : ptype) (c : cstr) : option pval :=
  match convert t c with IRet v => Some v | _ => None end.

Lemma stoi_cases s : (∃ z, stoi s = IRet z) ∨ stoi s = IExit 134.
Proof.
  unfold stoi. destruct (sign_of _) as [neg r]. destruct (span _ r).1; [by right|].
  destruct (_ && _); [left; eauto|by right].
Qed.

Lemma convert_cases t c : (∃ v, convert t c = IRet v) ∨ convert t c = IExit 134.
Proof.
  destruct t; cbn; try (left; eauto; fail); destruct (stoi_cases c) as [[z ->]| ->]; cbn; eauto.
Qed.

(** The value of a field in [p'], given the profile [p] before. *)
Definition field_ok (doc : cstr → option xml) (path : cstr) (p p' : SecPowerProfile) (f : field) : Prop :=
  match XML_GET doc path (cs (f_sub f)) with
  | Ret (Some c) => conv (f_type f) c = pf_vals p' !! f_name f ∧ is_set p' (f_name f) = true
  | Ret None =>
    is_set p' (f_name f) = is_set p (f_name f) ∧
    pf_vals p' !! f_name f =
      if is_set p (f_name f) then pf_vals p !! f_name f else conv (f_type f) (cs (f_default f))
  | _ => False
  end.

(** A text of the field that is not a number it can hold. *)
Definition bad_number (doc : cstr → option xml) (path : cstr) (f : field) : Prop :=
  ∃ text, conv (f_type f) text = None ∧
    (XML_GET doc path (cs (f_sub f)) = Ret (Some text) ∨
     XML_GET doc path (cs (f_sub f)) = Ret None ∧ text = cs (f_default f)).

Section fields.
Context (doc : cstr → option xml) (path : cstr).

Lemma convert_conv t c :
  convert t c = match conv t c with Some v => IRet v | None => IExit 134 end.
Proof. unfold conv. by destruct (convert_cases t c) as [[v ->]| ->]. Qed.

Lemma XML_GET_not_fuel sub : XML_GET doc path sub ≠ OutOfFuel.
Proof. unfold XML_GET. by repeat case_match. Qed.

Lemma PROFILE_SET_cases f p :
  match PROFILE_SET doc path f p with
  | IRet p' => field_ok doc path p p' f ∧
      ∀ n, n ≠ f_name f → pf_vals p' !! n = pf_vals p !! n ∧ is_set p' n = is_set p n
  | IExit c => c = 134%Z ∧ bad_number doc path f
  | IFault => XML_GET doc path (cs (f_sub f)) = Fault
  | ICall _ _ _ | IFuel => False
  end.
Proof.
  unfold PROFILE_SET, field_ok. pose proof (XML_GET_not_fuel (cs (f_sub f))) as Hfuel.
  destruct (XML_GET doc path (cs (f_sub f))) as [[c|]| |] eqn:Ex; cbn; try done.
  - rewrite convert_conv. destruct (conv (f_type f) c) as [v|] eqn:Ev; cbn; [|split; [done|exists c; auto]].
    rewrite lookup_insert_eq. split; [split; [done|]|].
    + unfold is_set. cbn. apply bool_decide_eq_true. set_solver.
    + intros n Hn. rewrite lookup_insert_ne by done. split; [done|]. apply bool_decide_ext. cbn. set_solver.
  - destruct (is_set p (f_name f)) eqn:Em; cbn; [by rewrite Em|].
    rewrite convert_conv. destruct (conv _ _) as [v|] eqn:Ev; cbn; [|split; [done|eexists; eauto]].
    rewrite lookup_insert_eq. split; [by split|]. intros n Hn. by rewrite lookup_insert_ne.
Qed.
End fields.

(** A field takes the document's value where there is one, what was inherited
    where it is marked, the default otherwise; the fields of other sections stay.
    A number that is not an int is an uncaught exception, a node without a text a
    null pointer. *)
Theorem set_fields_priority doc path fs p :
  NoDup (f_name <$> fs) →
  match set_fields doc path fs p with
  | IRet p' => Forall (field_ok doc path p p') fs ∧
      ∀ n, n ∉ f_name <$> fs → pf_vals p' !! n = pf_vals p !! n ∧ is_set p' n = is_set p n
  | IExit c => c = 134%Z ∧ Exists (bad_number doc path) fs
  | IFault => Exists (λ f, XML_GET doc path (cs (f_sub f)) = Fault) fs
  | ICall _ _ _ | IFuel => False
  end.
Proof.
  revert p. induction fs as [|f fs IH]; intros p Hnd; cbn [set_fields]; [done|].
  cbn in Hnd. apply NoDup_cons in Hnd as [Hf Hnd]. pose proof (PROFILE_SET_cases doc path f p) as H1.
  destruct (PROFILE_SET doc path f p) as [p1|? ? ?|c| |]; cbn [ibind]; try done.
  2,3: naive_solver auto.
  destruct H1 as [Hok Hoth]. specialize (IH p1 Hnd).
  destruct (set_fields doc path fs p1) as [p2|? ? ?|c| |]; try done; [|naive_solver auto..].
  destruct IH as [Hall Hoth2]. split.
  - constructor.
    + unfold field_ok in *. destruct (Hoth2 (f_name f) Hf) as [-> ->]. exact Hok.
    + rewrite Forall_forall in Hall |- *. intros g Hin. specialize (Hall g Hin). unfold field_ok in *.
      assert (Hne : f_name g ≠ f_name f).
      { intros E. apply Hf. rewrite <-E. by apply list_elem_of_fmap_2. }
      by destruct (Hoth (f_name g) Hne) as [<- <-].
  - intros n Hn. cbn in Hn. rewrite not_elem_of_cons in Hn. destruct Hn as [H1 H2].
    destruct (Hoth2 n H2) as [-> ->]. by apply Hoth.
Qed.

(** A document that sets the lowest frequency of a cluster, the highest one and
    the governor inherited. *)
Definition small_doc (path : cstr) : option xml :=
  if streq path (cs "/profiles/balanced/cpu/apollo/freq_min")
  then Some (XNode (cs "freq_min") None [XNode (cs "text") (Some (cs "400000")) [] []] []) else None.
Definition parent_profile : SecPowerProfile :=
  set_mark "cpu.apollo.freq_max" (store "cpu.apollo.freq_max" (PVNum 1296000) zero_profile).

Lemma set_fields_priority_witness :
  match set_fields small_doc (cs "/profiles/balanced") (cluster_fields "apollo" 0) parent_profile with
  | IRet p' => Forall (field_ok small_doc (cs "/profiles/balanced") parent_profile p') (cluster_fields "apollo" 0) ∧
      get_num p' "cpu.apollo.freq_min" = 400000%Z ∧ get_num p' "cpu.apollo.freq_max" = 1296000%Z ∧
      get_num p' "cpu.apollo.freq_hispeed" = 1500000%Z
  | _ => False
  end.
Proof.
  pose proof (set_fields_priority small_doc (cs "/profiles/balanced") (cluster_fields "apollo" 0) parent_profile) as H.
  assert (Hnd : NoDup (f_name <$> cluster_fields "apollo" 0)) by (apply (bool_decide_unpack _); vm_compute; exact I).
  specialize (H Hnd). assert (Hc : match set_fields small_doc (cs "/profiles/balanced") (cluster_fields "apollo" 0)
    parent_profile with IRet p' => get_num p' "cpu.apollo.freq_min" = 400000%Z ∧
      get_num p' "cpu.apollo.freq_max" = 1296000%Z ∧ get_num p' "cpu.apollo.freq_hispeed" = 1500000%Z | _ => False end)
    by (vm_compute; repeat split).
  destruct (set_fields small_doc _ _ _); try done. split; [apply H|exact Hc].
Defined.
