(* ===== verification/Power.v ===== *)
(** hardware/power/Power.{h,cpp}: the power HAL.  It keeps the profile asked for
    and the one in use, and writes profiles, input devices and governors to
    sysfs; work it leaves to a detached thread is a task. *)

From Stdlib Require Import ZArith Lia Ascii.
From stdpp Require Import base numbers strings gmap list.
From S2P Require Import Prelude CString Sys Strtol HalUtils Profiles.

Inductive SecDeviceVariant := UNKNOWN | FLAT | EDGE.

(** The detached threads: a profile to set after a delay, the touch keys. *)
Inductive task := TSetProfile (profile : Z) | TTouchkeys.

Record power := mkPower {
  mIsInteractive : bool;
  mRequestedProfile : Z;
  mCurrentProfile : Z;
  mVariant : SecDeviceVariant;
  mTouchControlPath : cstr;
  mTouchkeysEnabled : bool;
  mIsDT2WEnabled : bool;
  p_governors : governors;   (** Utils::kCpuGovernors *)
  p_tasks : list task
}.

Definition set_interactive b (s : power) := mkPower b (mRequestedProfile s) (mCurrentProfile s) (mVariant s)
  (mTouchControlPath s) (mTouchkeysEnabled s) (mIsDT2WEnabled s) (p_governors s) (p_tasks s).
Definition set_requested z (s : power) := mkPower (mIsInteractive s) z (mCurrentProfile s) (mVariant s)
  (mTouchControlPath s) (mTouchkeysEnabled s) (mIsDT2WEnabled s) (p_governors s) (p_tasks s).
Definition set_current z (s : power) := mkPower (mIsInteractive s) (mRequestedProfile s) z (mVariant s)
  (mTouchControlPath s) (mTouchkeysEnabled s) (mIsDT2WEnabled s) (p_governors s) (p_tasks s).
Definition set_touchkeys b (s : power) := mkPower (mIsInteractive s) (mRequestedProfile s) (mCurrentProfile s)
  (mVariant s) (mTouchControlPath s) b (mIsDT2WEnabled s) (p_governors s) (p_tasks s).
Definition set_dt2w b (s : power) := mkPower (mIsInteractive s) (mRequestedProfile s) (mCurrentProfile s)
  (mVariant s) (mTouchControlPath s) (mTouchkeysEnabled s) b (p_governors s) (p_tasks s).
Definition set_governors g (s : power) := mkPower (mIsInteractive s) (mRequestedProfile s) (mCurrentProfile s)
  (mVariant s) (mTouchControlPath s) (mTouchkeysEnabled s) (mIsDT2WEnabled s) g (p_tasks s).
Definition set_tasks l (s : power) := mkPower (mIsInteractive s) (mRequestedProfile s) (mCurrentProfile s)
  (mVariant s) (mTouchControlPath s) (mTouchkeysEnabled s) (mIsDT2WEnabled s) (p_governors s) l.

Definition POWER_DT2W_ENABLED := cs "/sys/class/dt2w/enabled".
Definition POWER_TOUCHKEYS_ENABLED := cs "/sys/class/sec/sec_touchkey/input/enabled".
Definition POWER_TOUCHKEYS_BRIGHTNESS := cs "/sys/class/sec/sec_touchkey/brightness".
Definition POWER_FINGERPRINT_PM := cs "/sys/class/fingerprint/fingerprint/pm".
Definition POWER_FINGERPRINT_WAKELOCKS := cs "/sys/class/fingerprint/fingerprint/wakelocks".
Definition POWER_TOUCHSCREEN_NAME := cs "/sys/class/input/input1/name".
Definition POWER_TOUCHSCREEN_NAME_EXPECT := cs "sec_touchscreen".
Definition POWER_TOUCHSCREEN_ENABLED_FLAT := cs "/sys/class/input/input1/enabled".
Definition POWER_TOUCHSCREEN_ENABLED_EDGE := cs "/sys/class/input/input0/enabled".

Definition drop_result {A} (m : io A) : io unit := do! _ := m in IRet tt.

Definition when (b : bool) (m : io unit) : io unit := if b then m else IRet tt.

Definition cpu_path (core : Z) (file : string) : cstr :=
  cs "/sys/devices/system/cpu/cpu" ++ print_d core ++ cs file.

Definition CPU_ONLINE (core : Z) (state : bool) : io unit := drop_result (write_bool (cpu_path core "/online") state).

(** [PROFILE_WRITE]: the overload of [Utils::write] for the field's type. *)
Definition PROFILE_WRITE (p : SecPowerProfile) (path : cstr) (field : string) : io unit :=
  if is_set p field then
    match pf_vals p !! field with
    | Some (PVBool b) => drop_result (write_bool path b)
    | Some (PVNum z) => drop_result (write_int path z)
    | Some (PVStr s) => drop_result (write path s)
    | None => IRet tt
    end
  else IRet tt.

Fixpoint profile_writes (p : SecPowerProfile) (l : list (string * string)) : io unit :=
  match l with
  | [] => IRet tt
  | (path, field) :: l => PROFILE_WRITE p (cs path) field ;! profile_writes p l
  end.

Fixpoint governor_writes (g : governors) (core : Z) (l : list (cstr * cstr)) : io unit :=
  match l with
  | [] => IRet tt
  | (name, data) :: l => drop_result (writeCpuGov g core name data) ;! governor_writes g core l
  end.

(** One cluster; [None]: the governor cannot be read and [setProfile] returns. *)
Definition apply_cluster (p : SecPowerProfile) (g : governors) (cl : string) (core : Z) : io (option governors) :=
  let name f := "cpu." +:+ cl +:+ "." +:+ f in
  if negb (get_bool p (enabled ("cpu." +:+ cl))) then IRet (Some g)
  else
    PROFILE_WRITE p (cpu_path core "/cpufreq/scaling_governor") (name "governor") ;!
    do! (ok, g) := updateCpuGov g core in
    if negb ok then IRet None
    else
      PROFILE_WRITE p (cpu_path core "/cpufreq/scaling_min_freq") (name "freq_min") ;!
      PROFILE_WRITE p (cpu_path core "/cpufreq/scaling_max_freq") (name "freq_max") ;!
      PROFILE_WRITE p (cpu_path core "/online") (name "cores.core1") ;!
      PROFILE_WRITE p (cpu_path (core + 1) "/online") (name "cores.core2") ;!
      PROFILE_WRITE p (cpu_path (core + 2) "/online") (name "cores.core3") ;!
      PROFILE_WRITE p (cpu_path (core + 3) "/online") (name "cores.core4") ;!
      drop_result (writeCpuGov_int g core (cs "freq_min") (get_num p (name "freq_min"))) ;!
      drop_result (writeCpuGov_int g core (cs "freq_max") (get_num p (name "freq_max"))) ;!
      drop_result (writeCpuGov_int g core (cs "hispeed_freq") (get_num p (name "freq_hispeed"))) ;!
      governor_writes g core (default [] (pf_gov p !! ("cpu." +:+ cl))) ;!
      IRet (Some g).

(** Everything after the clusters. *)
Definition apply_rest (p : SecPowerProfile) : io unit :=
  let on s := get_bool p (enabled s) in
  when (on "cpusets") (profile_writes p
    [("/dev/cpuset/cpus", "cpusets.defaults"); ("/dev/cpuset/foreground/cpus", "cpusets.foreground");
     ("/dev/cpuset/foreground/boost/cpus", "cpusets.foreground_boost");
     ("/dev/cpuset/background/cpus", "cpusets.background");
     ("/dev/cpuset/system-background/cpus", "cpusets.system_background");
     ("/dev/cpuset/top-app/cpus", "cpusets.top_app")]%string) ;!
  when (on "ipa")
    (* a string literal is a bool to the overloads of [Utils::write] *)
    (drop_result (write_bool (cs "/sys/power/ipa/enabled") true) ;!
     profile_writes p [("/sys/power/ipa/control_temp", "ipa.control_temp")]%string) ;!
  when (on "gpu")
    (when (on "gpu.dvfs") (profile_writes p
       [("/sys/devices/14ac0000.mali/dvfs_min_lock", "gpu.dvfs.freq_min");
        ("/sys/devices/14ac0000.mali/dvfs_max_lock", "gpu.dvfs.freq_max")]%string) ;!
     when (on "gpu.highspeed") (profile_writes p
       [("/sys/devices/14ac0000.mali/highspeed_clock", "gpu.highspeed.freq");
        ("/sys/devices/14ac0000.mali/highspeed_load", "gpu.highspeed.load")]%string)) ;!
  when (on "hmp")
    (profile_writes p
       [("/sys/kernel/hmp/boost", "hmp.boost"); ("/sys/kernel/hmp/semiboost", "hmp.semiboost");
        ("/sys/kernel/hmp/power_migration", "hmp.power_migration");
        ("/sys/kernel/hmp/active_down_migration", "hmp.semiboost");
        ("/sys/kernel/hmp/aggressive_up_migration", "hmp.aggressive_up_migration")]%string ;!
     when (on "hmp.threshold") (profile_writes p
       [("/sys/kernel/hmp/down_threshold", "hmp.threshold.down");
        ("/sys/kernel/hmp/up_threshold", "hmp.threshold.up")]%string) ;!
     when (on "hmp.sb_threshold") (profile_writes p
       [("/sys/kernel/hmp/sb_down_threshold", "hmp.sb_threshold.down");
        ("/sys/kernel/hmp/sb_up_threshold", "hmp.sb_threshold.up")]%string)) ;!
  drop_result (write_bool (cs "/sys/power/enable_dm_hotplug") false) ;!
  when (on "kernel") (profile_writes p
    [("/sys/module/workqueue/parameters/power_efficient", "kernel.pewq")]%string) ;!
  when (on "slow") (profile_writes p
    [("/sys/devices/virtual/sec/sec_slow/enforced_slow_mode", "slow.mode_toggle");
     ("/sys/devices/virtual/sec/sec_slow/timer_rate", "slow.timer_rate")]%string) ;!
  when (on "input_booster") (profile_writes p
    [("/sys/class/input_booster/tail", "input_booster.tail");
     ("/sys/class/input_booster/head", "input_booster.head")]%string).

Definition isModuleEnabled (module : string) : io bool :=
  do! r := call "GetProperty" [AS (cs ("sys.power." +:+ module)); AS (cs "true")] in
  IRet (streq (r_out r) (cs "true")).

Section power.
(** The profiles [Profiles::loadProfiles] left. *)
Context (ps : profiles).

(** A profile applied to the files, with the governors it reads. *)
Definition apply_profile (p : SecPowerProfile) (g : governors) : io governors :=
  CPU_ONLINE 0 true ;!
  CPU_ONLINE 4 true ;!
  do! g1 := (if negb (get_bool p (enabled "cpu")) then IRet (g, true)
             else
               do! g1 := apply_cluster p g "apollo" 0 in
               match g1 with
               | None => IRet (g, false)
               | Some g1 =>
                 do! g2 := apply_cluster p g1 "atlas" 4 in
                 match g2 with None => IRet (g1, false) | Some g2 => IRet (g2, true) end
               end) in
  when g1.2 (apply_rest p) ;!
  IRet g1.1.

Definition setProfile (s : power) (profile : Z) : io power :=
  let s := set_current profile s in
  do! user := isModuleEnabled "profiles" in
  if negb user then IRet s
  else
    do! p := of_cres (deref (getProfileData ps (mCurrentProfile s))) in
    if negb (get_bool p "enabled") then IRet s
    else do! g := apply_profile p (p_governors s) in IRet (set_governors g s).

(** [setProfile(profile, delay)] *)
Definition setProfile_delayed (s : power) (profile delay : Z) : io power :=
  if (delay <=? 0)%Z then setProfile s profile
  else IRet (set_tasks (p_tasks s ++ [TSetProfile profile]) s).

Definition resetProfile (s : power) (delay : Z) : io power :=
  if (mRequestedProfile s =? INVALID)%Z then setProfile_delayed s BALANCED delay
  else setProfile_delayed s (mRequestedProfile s) delay.

Definition boost_cluster (p : SecPowerProfile) (g : governors) (cl : string) (core duration : Z) : io (option governors) :=
  let boost := get_num p ("cpu." +:+ cl +:+ ".freq_boost") in
  if (boost =? 0)%Z then IRet (Some g)
  else
    do! (ok, g) := updateCpuGov g core in
    if negb ok then IRet None
    else
      drop_result (writeCpuGov_int g core (cs "boost_freq") boost) ;!
      (if (duration * 1000 <? 2 ^ 31)%Z
       then drop_result (writeCpuGov_int g core (cs "boostpulse_duration") (duration * 1000))
       else IFault) ;!
      drop_result (writeCpuGov_bool g core (cs "boostpulse") true) ;!
      IRet (Some g).

(** A duration of more than 35 minutes overflows: undefined. *)
Definition boostpulse (s : power) (duration : Z) : io power :=
  let duration := (if duration <=? 0 then (1000 / 60) * 10 else duration)%Z in
  do! p := of_cres (deref (getProfileData ps (mCurrentProfile s))) in
  do! g1 := boost_cluster p (p_governors s) "apollo" 0 duration in
  match g1 with
  | None => IRet s
  | Some g1 =>
    do! g2 := boost_cluster p g1 "atlas" 4 duration in
    IRet (set_governors (default g1 g2) s)
  end.

Definition setDT2WState (s : power) : io unit := drop_result (write_bool POWER_DT2W_ENABLED (mIsDT2WEnabled s)).

Definition setInputState (s : power) (enabled : bool) : io power :=
  let keys := match mVariant s with EDGE => false | _ => true end in
  let touch := negb (length (mTouchControlPath s) =? 0)%nat in
  do! s :=
    (if enabled then
       when touch (drop_result (write_bool (mTouchControlPath s) true)) ;!
       (if keys : bool then
          drop_result (write_int POWER_TOUCHKEYS_BRIGHTNESS 255) ;!
          IRet (set_tasks (p_tasks s ++ [TTouchkeys]) s)
        else IRet s)
     else
       do! s := (if keys : bool then
                   do! r := read_bool POWER_TOUCHKEYS_ENABLED in
                   drop_result (write_bool POWER_TOUCHKEYS_ENABLED false) ;!
                   drop_result (write_int POWER_TOUCHKEYS_BRIGHTNESS 0) ;!
                   IRet (set_touchkeys (default (mTouchkeysEnabled s) r) s)
                 else IRet s) in
       when (touch && negb (mIsDT2WEnabled s)) (drop_result (write_bool (mTouchControlPath s) false)) ;!
       IRet s) in
  setDT2WState s ;!
  IRet s.

Definition setFingerprintState (enabled : bool) : io unit :=
  if enabled then
    drop_result (write_bool POWER_FINGERPRINT_WAKELOCKS true) ;!
    drop_result (write_bool POWER_FINGERPRINT_PM true)
  else
    drop_result (write_bool POWER_FINGERPRINT_PM false) ;!
    drop_result (write_bool POWER_FINGERPRINT_WAKELOCKS false).

(** The constructor from the name of the touch screen on, with the profiles loaded. *)
Definition set_up (name : cstr) : io power :=
  let flat := streq name POWER_TOUCHSCREEN_NAME_EXPECT in
  let s := mkPower false INVALID INVALID (if flat then FLAT else EDGE)
             (if flat then POWER_TOUCHSCREEN_ENABLED_FLAT else POWER_TOUCHSCREEN_ENABLED_EDGE)
             true false ∅ [] in
  let s := set_requested BALANCED s in
  do! s := setProfile s (mRequestedProfile s) in
  do! s := setInputState s true in
  setFingerprintState true ;!
  IRet s.

(** The constructor, the profiles being loaded already. *)
Definition Power : io power :=
  do! name := read POWER_TOUCHSCREEN_NAME in
  match name with None => abort | Some name => set_up name end.

Definition setInteractive (s : power) (interactive : bool) : io power :=
  let s := set_interactive interactive s in
  do! stay := (if negb interactive then screenIsOn else IRet false) in
  if stay : bool then IRet s
  else
    do! s := (if interactive then resetProfile s 500 else setProfile s SCREEN_OFF) in
    setInputState s interactive.

Inductive hint := SET_PROFILE | LOW_POWER | SUSTAINED_PERFORMANCE | VR_MODE | INTERACTION | LAUNCH | VSYNC | other_hint.

Definition powerHint (s : power) (h : hint) (data : Z) : io power :=
  let toggle profile := if (data =? 0)%Z then resetProfile s 0 else setProfile s profile in
  match h with
  | SET_PROFILE => let s := set_requested data s in setProfile s (mRequestedProfile s)
  | LOW_POWER => toggle POWER_SAVE
  | SUSTAINED_PERFORMANCE => toggle HIGH_PERFORMANCE
  | VR_MODE => toggle HIGH_PERFORMANCE
  | INTERACTION => boostpulse s data
  | LAUNCH | VSYNC | other_hint => IRet s
  end.

(** [dt2w]: the feature is POWER_FEATURE_DOUBLE_TAP_TO_WAKE. *)
Definition setFeature (s : power) (dt2w activate : bool) : io power :=
  if dt2w then let s := set_dt2w activate s in setDT2WState s ;! IRet s else IRet s.

Inductive lineage_feature := SUPPORTED_PROFILES | DOUBLE_TAP_TO_WAKE | other_feature.

Definition getFeature (f : lineage_feature) : io Z :=
  match f with
  | SUPPORTED_PROFILES => IRet MAX_PROFILES
  | DOUBLE_TAP_TO_WAKE =>
    do! file := isFile POWER_DT2W_ENABLED in
    if file : bool then do! w := canWrite POWER_DT2W_ENABLED in IRet (if w : bool then 1 else 0)%Z else IRet 0%Z
  | other_feature => IRet (-1)%Z
  end.

(** A detached thread gets to its work. *)
Definition run_task (s : power) (i : nat) : io power :=
  match p_tasks s !! i with
  | None => IRet s
  | Some t =>
    let s := set_tasks (delete i (p_tasks s)) s in
    match t with
    | TSetProfile profile => setProfile s profile
    | TTouchkeys => drop_result (write_bool POWER_TOUCHKEYS_ENABLED (mTouchkeysEnabled s)) ;! IRet s
    end
  end.
End power.

(** * No call faults *)

(** One step of a program: a call whose answer can be anything, a test, a part
    already known. *)
Create HintDb io_safe.

Ltac safe_step :=
  match goal with
  | |- safe _ (IRet _) => cbn
  | |- safe _ (IExit _) => exact I
  | |- safe _ (ICall _ _ _) => cbn; intros ?
  | |- safe _ (ibind (call_ _ _) _) => cbn; intros ?
  | |- safe _ (ibind (call_ret _ _) _) => cbn; intros ?
  | |- safe _ (ibind (call _ _) _) => cbn; intros ?
  | |- safe _ (ibind ?m _) => eapply (safe_bind (λ _, True)); [solve [eauto 12 with io_safe]|intros ? _]
  | |- safe _ (if ?b then _ else _) => destruct b
  | |- safe _ (match ?x with _ => _ end) => destruct x
  | |- safe (λ _, True) ?m => solve [eauto 12 with io_safe]
  | |- True => exact I
  end.
Ltac safe_steps := repeat safe_step; try done.

Abbreviation calm := (safe (λ _, True)).

Lemma calm_call fn args : calm (call fn args).
Proof. done. Qed.
Lemma calm_drop {A} (m : io A) : calm m → calm (drop_result m).
Proof. intros H. by apply (safe_bind (λ _, True)). Qed.
Lemma calm_when b m : calm m → calm (when b m).
Proof. by destruct b. Qed.
#[export] Hint Resolve calm_call calm_drop calm_when : io_safe.

Lemma calm_write path data : calm (write path data).
Proof. unfold write. safe_steps. Qed.
#[export] Hint Resolve calm_write : io_safe.
Lemma calm_write_bool path b : calm (write_bool path b).
Proof. unfold write_bool. safe_steps. Qed.
Lemma calm_write_int path z : calm (write_int path z).
Proof. unfold write_int. safe_steps. Qed.
Lemma calm_read path : calm (read path).
Proof. unfold read. safe_steps. Qed.
#[export] Hint Resolve calm_write_bool calm_write_int calm_read : io_safe.
Lemma calm_stoi s : calm (stoi s).
Proof. destruct (stoi_cases s) as [[z ->]| ->]; done. Qed.
#[export] Hint Resolve calm_stoi : io_safe.
Lemma calm_read_int path : calm (read_int path).
Proof. unfold read_int. safe_steps. Qed.
#[export] Hint Resolve calm_read_int : io_safe.
Lemma calm_read_bool path : calm (read_bool path).
Proof. unfold read_bool. safe_steps. Qed.
Lemma calm_screenIsOn : calm screenIsOn.
Proof. unfold screenIsOn. safe_steps. Qed.
Lemma calm_isFile path : calm (isFile path).
Proof. done. Qed.
#[export] Hint Resolve calm_read_bool calm_screenIsOn calm_isFile : io_safe.
Lemma calm_updateCpuGov g core : calm (updateCpuGov g core).
Proof. unfold updateCpuGov. safe_steps. Qed.
Lemma calm_writeCpuGov g core file data : calm (writeCpuGov g core file data).
Proof. unfold writeCpuGov. safe_steps. Qed.
#[export] Hint Resolve calm_updateCpuGov calm_writeCpuGov : io_safe.
Lemma calm_writeCpuGov_int g core file data : calm (writeCpuGov_int g core file data).
Proof. unfold writeCpuGov_int. safe_steps. Qed.
Lemma calm_writeCpuGov_bool g core file data : calm (writeCpuGov_bool g core file data).
Proof. unfold writeCpuGov_bool. safe_steps. Qed.
Lemma calm_CPU_ONLINE core b : calm (CPU_ONLINE core b).
Proof. unfold CPU_ONLINE. safe_steps. Qed.
#[export] Hint Resolve calm_writeCpuGov_int calm_writeCpuGov_bool calm_CPU_ONLINE : io_safe.
Lemma calm_PROFILE_WRITE p path f : calm (PROFILE_WRITE p path f).
Proof. unfold PROFILE_WRITE. safe_steps. Qed.
#[export] Hint Resolve calm_PROFILE_WRITE : io_safe.
Lemma calm_profile_writes p l : calm (profile_writes p l).
Proof. induction l as [|[path f] l IH]; cbn [profile_writes]; safe_steps. Qed.
Lemma calm_governor_writes g core l : calm (governor_writes g core l).
Proof. induction l as [|[n d] l IH]; cbn [governor_writes]; safe_steps. Qed.
#[export] Hint Resolve calm_profile_writes calm_governor_writes : io_safe.
Lemma calm_apply_cluster p g cl core : calm (apply_cluster p g cl core).
Proof. unfold apply_cluster. safe_steps. Qed.
Lemma calm_seq (m1 m2 : io unit) : calm m1 → calm m2 → calm (m1 ;! m2).
Proof. intros H1 H2. by apply (safe_bind (λ _, True)). Qed.
#[export] Hint Resolve calm_apply_cluster calm_seq : io_safe.
Lemma calm_apply_rest p : calm (apply_rest p).
Proof. unfold apply_rest. safe_steps. Qed.
#[export] Hint Resolve calm_apply_rest : io_safe.
Lemma calm_apply_profile p g : calm (apply_profile p g).
Proof.
  unfold apply_profile. do 2 safe_step. eapply (safe_bind (λ _, True)); [|intros [g1 b] _; safe_steps].
  safe_steps.
Qed.
#[export] Hint Resolve calm_apply_profile : io_safe.

(** * What the service does to the profile *)

Inductive call := CInteractive (b : bool) | CHint (h : hint) (data : Z) | CFeature (dt2w activate : bool) | CTask (i : nat).

Definition act (ps : profiles) (s : power) (c : call) : io power :=
  match c with
  | CInteractive b => setInteractive ps s b
  | CHint h data => powerHint ps s h data
  | CFeature dt2w activate => setFeature s dt2w activate
  | CTask i => run_task ps s i
  end.

Fixpoint run_calls (ps : profiles) (s : power) (l : list call) : io power :=
  match l with
  | [] => IRet s
  | c :: l => do! s := act ps s c in run_calls ps s l
  end.

(** The specification: the profile asked for, the one in use, the work left to
    threads; whether the device has touch keys. *)
Record aspec := mkSpec { a_keys : bool; a_requested : Z; a_current : Z; a_tasks : list task }.

Definition has_keys (s : power) : bool := match mVariant s with EDGE => false | _ => true end.

Definition abs (s : power) : aspec := mkSpec (has_keys s) (mRequestedProfile s) (mCurrentProfile s) (p_tasks s).

Definition effective (requested : Z) : Z := if (requested =? INVALID)%Z then BALANCED else requested.

Definition toggled (h : hint) : option Z :=
  match h with
  | LOW_POWER => Some POWER_SAVE
  | SUSTAINED_PERFORMANCE | VR_MODE => Some HIGH_PERFORMANCE
  | _ => None
  end.

Inductive astep : call → aspec → aspec → Prop :=
  | a_on k r c l :
      astep (CInteractive true) (mkSpec k r c l)
        (mkSpec k r c (l ++ TSetProfile (effective r) :: if k then [TTouchkeys] else []))
  | a_off k r c l : astep (CInteractive false) (mkSpec k r c l) (mkSpec k r SCREEN_OFF l)
  | a_screen_still_on a : astep (CInteractive false) a a
  | a_set k r c l data : astep (CHint SET_PROFILE data) (mkSpec k r c l) (mkSpec k data data l)
  | a_toggle h p k r c l data : toggled h = Some p →
      astep (CHint h data) (mkSpec k r c l) (mkSpec k r (if (data =? 0)%Z then effective r else p) l)
  | a_no_profile h a data : h ≠ SET_PROFILE → toggled h = None → astep (CHint h data) a a
  | a_feature dt2w activate a : astep (CFeature dt2w activate) a a
  | a_task i k r c l p : l !! i = Some (TSetProfile p) →
      astep (CTask i) (mkSpec k r c l) (mkSpec k r p (delete i l))
  | a_touchkeys i k r c l : l !! i = Some TTouchkeys →
      astep (CTask i) (mkSpec k r c l) (mkSpec k r c (delete i l))
  | a_no_task i a : a_tasks a !! i = None → astep (CTask i) a a.

Inductive asteps : list call → aspec → aspec → Prop :=
  | asteps_nil a : asteps [] a a
  | asteps_cons c l a a1 a2 : astep c a a1 → asteps l a1 a2 → asteps (c :: l) a a2.

Definition valid (p : Z) : Prop := is_Some (profile_name p).

(** Data the hints are documented to have. *)
Definition call_ok (c : call) : Prop :=
  match c with
  | CHint SET_PROFILE data => valid data
  | CHint INTERACTION data => (data * 1000 < 2 ^ 31)%Z
  | _ => True
  end.

Definition task_ok (t : task) : Prop := match t with TSetProfile p => valid p | TTouchkeys => True end.

Definition state_ok (s : power) : Prop :=
  valid (mCurrentProfile s) ∧ valid (effective (mRequestedProfile s)) ∧ Forall task_ok (p_tasks s).

Section refinement.
Context (ps : profiles).
Hypothesis ps_complete : Forall (λ n, is_Some (ps !! n)) profile_names.

Lemma getProfileData_valid p : valid p → is_Some (getProfileData ps p).
Proof.
  intros [n Hn]. unfold getProfileData. rewrite Hn. cbn.
  rewrite Forall_forall in ps_complete. apply ps_complete. revert Hn. unfold profile_name.
  repeat case_match; try done; intros [= <-]; apply (bool_decide_unpack _); vm_compute; exact I.
Qed.

Definition same_but_profile (s s' : power) (p : Z) : Prop := ∃ g, s' = set_governors g (set_current p s).

Lemma safe_setProfile s p : valid p → safe (λ s', same_but_profile s s' p) (setProfile ps s p).
Proof.
  intros Hp. unfold setProfile.
  assert (Hset : same_but_profile s (set_current p s) p) by (exists (p_governors s); by destruct s).
  eapply (safe_bind (λ _, True)); [done|]. intros user _. destruct user; cbn [negb]; [|exact Hset].
  cbn [mCurrentProfile set_current]. destruct (getProfileData_valid p Hp) as [d ->]. cbn [deref of_cres ibind].
  destruct (get_bool d "enabled"); cbn [negb]; [|exact Hset].
  eapply (safe_bind (λ _, True)); [auto with io_safe|]. intros g _. cbn. by exists g.
Qed.

Lemma safe_boost_cluster p g cl core duration :
  (duration * 1000 < 2 ^ 31)%Z → calm (boost_cluster p g cl core duration).
Proof.
  intros Hd. unfold boost_cluster. rewrite (proj2 (Z.ltb_lt _ _) Hd). safe_steps.
Qed.

Lemma safe_boostpulse s duration :
  valid (mCurrentProfile s) → (duration * 1000 < 2 ^ 31)%Z →
  safe (λ s', ∃ g, s' = set_governors g s) (boostpulse ps s duration).
Proof.
  intros Hp Hd. unfold boostpulse. destruct (getProfileData_valid _ Hp) as [d ->]. cbn [deref of_cres ibind].
  set (dur := (if duration <=? 0 then _ else _)%Z).
  assert (Hdur : (dur * 1000 < 2 ^ 31)%Z) by (subst dur; destruct (Z.leb_spec duration 0); [vm_compute; done|lia]).
  assert (Hs : ∃ g, s = set_governors g s) by (exists (p_governors s); by destruct s).
  eapply (safe_bind (λ _, True)); [by apply safe_boost_cluster|]. intros [g1|] _; [|exact Hs].
  eapply (safe_bind (λ _, True)); [by apply safe_boost_cluster|]. intros g2 _. cbn. eauto.
Qed.

Definition input_effect (s s' : power) (b : bool) : Prop :=
  ∃ k, s' = set_tasks (p_tasks s ++ if b && has_keys s then [TTouchkeys] else []) (set_touchkeys k s).

Lemma safe_setInputState s b : safe (λ s', input_effect s s' b) (setInputState s b).
Proof.
  unfold setInputState. fold (has_keys s).
  assert (Hk : ∀ k b', b' && has_keys s = false → input_effect s (set_touchkeys k s) b')
    by (intros k b' E; exists k; rewrite E, app_nil_r; by destruct s).
  assert (Hs : ∀ b', b' && has_keys s = false → input_effect s s b')
    by (intros b' E; generalize (Hk (mTouchkeysEnabled s) b' E); by destruct s).
  eapply (safe_bind (λ s', input_effect s s' b)).
  - destruct b.
    + safe_step. destruct (has_keys s) eqn:E; cbn [andb] in *; [|apply (Hs true eq_refl)].
      safe_step. cbn [safe]. exists (mTouchkeysEnabled s). rewrite E. by destruct s.
    + eapply (safe_bind (λ s', ∃ k, s' = set_touchkeys k s)).
      * destruct (has_keys s).
        -- do 3 safe_step. cbn. eauto.
        -- cbn. exists (mTouchkeysEnabled s). by destruct s.
      * intros s' [k ->]. safe_step. cbn [safe]. by apply Hk.
  - intros s' Hs'. eapply (safe_bind (λ _, True)); [unfold setDT2WState; auto with io_safe|]. intros _ _. exact Hs'.
Qed.

Lemma safe_setProfile_delayed s p delay :
  valid p →
  safe (λ s', if (delay <=? 0)%Z then same_but_profile s s' p else s' = set_tasks (p_tasks s ++ [TSetProfile p]) s)
    (setProfile_delayed ps s p delay).
Proof.
  intros Hp. unfold setProfile_delayed. destruct (delay <=? 0)%Z; [by apply safe_setProfile|done].
Qed.

Lemma safe_resetProfile s delay :
  valid (effective (mRequestedProfile s)) →
  let p := effective (mRequestedProfile s) in
  safe (λ s', if (delay <=? 0)%Z then same_but_profile s s' p else s' = set_tasks (p_tasks s ++ [TSetProfile p]) s)
    (resetProfile ps s delay).
Proof.
  unfold resetProfile, effective. intros Hp. cbn zeta. destruct (_ =? INVALID)%Z; by apply safe_setProfile_delayed.
Qed.

Definition refined (s : power) (c : call) (s' : power) : Prop := state_ok s' ∧ astep c (abs s) (abs s').

Lemma valid_screen_off : valid SCREEN_OFF.
Proof. by eexists. Qed.

Lemma safe_setInteractive s b : state_ok s → safe (refined s (CInteractive b)) (setInteractive ps s b).
Proof.
  intros (Hc & Hr & Ht). unfold setInteractive. destruct b; cbn [negb ibind].
  - eapply safe_bind; [by apply safe_resetProfile|]. intros s1 Hs1. cbn in Hs1. subst s1.
    eapply safe_mono; [apply safe_setInputState|]. intros _ [k ->].
    replace (has_keys _) with (has_keys s) by done. split.
    + split_and!; cbn; [done|done|]. rewrite !Forall_app. split_and!; [done|by repeat constructor|].
      destruct (has_keys s); repeat constructor.
    + unfold abs; cbn. rewrite <-app_assoc. apply a_on.
  - eapply (safe_bind (λ _, True)); [apply calm_screenIsOn|]. intros [] _.
    + split; [done|]. apply a_screen_still_on.
    + eapply safe_bind; [apply safe_setProfile, valid_screen_off|]. intros _ [g ->].
      eapply safe_mono; [apply safe_setInputState|]. intros _ [k ->].
      cbn [andb]. rewrite app_nil_r. split.
      * split_and!; [apply valid_screen_off|done|done].
      * apply a_off.
Qed.

Lemma same_ok s : state_ok s → ∀ g, state_ok (set_governors g s).
Proof. done. Qed.

Lemma safe_switch s p (P : power → Prop) :
  valid p → (∀ g, P (set_governors g (set_current p s))) → safe P (setProfile ps s p).
Proof. intros Hp HP. eapply safe_mono; [by apply safe_setProfile|]. intros _ [g ->]. apply HP. Qed.

Lemma safe_toggle s h p data :
  state_ok s → toggled h = Some p → valid p →
  safe (refined s (CHint h data)) (if (data =? 0)%Z then resetProfile ps s 0 else setProfile ps s p).
Proof.
  intros (Hc & Hr & Ht) Hh Hp.
  assert (Hg : ∀ q g, valid q → q = (if (data =? 0)%Z then effective (mRequestedProfile s) else p) →
                 refined s (CHint h data) (set_governors g (set_current q s)))
    by (intros q g Hq ->; split; [done|]; by apply a_toggle).
  destruct (data =? 0)%Z; [|apply safe_switch; auto].
  eapply safe_mono; [by apply safe_resetProfile|]. intros _ [g ->]. auto.
Qed.

Lemma safe_powerHint s h data :
  state_ok s → call_ok (CHint h data) → safe (refined s (CHint h data)) (powerHint ps s h data).
Proof.
  intros Hs Hok. assert (Hsame : toggled h = None → h ≠ SET_PROFILE → refined s (CHint h data) s)
    by (intros; split; [done|by apply a_no_profile]).
  destruct h; cbn [powerHint]; try by apply Hsame.
  - apply safe_switch; [done|]. intros g. destruct Hs as (_ & _ & Ht). split; [|apply a_set].
    split_and!; [done| |done]. cbn. unfold effective. cbn in Hok. case_match; [by eexists|done].
  - apply safe_toggle; [done..|by eexists].
  - apply safe_toggle; [done..|by eexists].
  - apply safe_toggle; [done..|by eexists].
  - eapply safe_mono; [apply safe_boostpulse; [apply Hs|done]|]. intros _ [g ->]. by apply Hsame.
Qed.

Lemma safe_run_task s i : state_ok s → safe (refined s (CTask i)) (run_task ps s i).
Proof.
  intros (Hc & Hr & Ht). unfold run_task. destruct (p_tasks s !! i) as [[p|]|] eqn:Hi.
  - apply safe_switch; [by apply (Forall_lookup_1 _ _ _ _ Ht Hi)|]. intros g. split.
    + split_and!; cbn; [by apply (Forall_lookup_1 _ _ _ _ Ht Hi)|done|by apply Forall_delete].
    + by apply a_task.
  - eapply (safe_bind (λ _, True)); [auto with io_safe|]. intros _ _. split.
    + split_and!; cbn; [done..|by apply Forall_delete].
    + by apply a_touchkeys.
  - split; [done|]. by apply a_no_task.
Qed.

Lemma safe_act s c : state_ok s → call_ok c → safe (refined s c) (act ps s c).
Proof.
  intros Hs Hok. destruct c as [b|h data|dt2w activate|i]; cbn [act].
  - by apply safe_setInteractive.
  - by apply safe_powerHint.
  - assert (H : ∀ b, refined s (CFeature dt2w activate) (set_dt2w b s)) by (intros; split; [done|apply a_feature]).
    unfold setFeature. destruct dt2w; [|split; [done|apply a_feature]].
    eapply (safe_bind (λ _, True)); [unfold setDT2WState; auto with io_safe|]. intros _ _. apply H.
  - by apply safe_run_task.
Qed.

Lemma safe_run_calls s l :
  state_ok s → Forall call_ok l → safe (λ s', state_ok s' ∧ asteps l (abs s) (abs s')) (run_calls ps s l).
Proof.
  intros Hs Hl. revert s Hs. induction Hl as [|c l Hc _ IH]; intros s Hs; cbn [run_calls].
  - split; [done|constructor].
  - eapply safe_bind; [by apply safe_act|]. intros s1 [Hs1 Hstep].
    eapply safe_mono; [by apply IH|]. intros s' [Hs' Hsteps]. split; [done|by econstructor].
Qed.

(** The state the constructor leaves. *)
Definition initial (a : aspec) : Prop :=
  a = mkSpec (a_keys a) BALANCED BALANCED (if a_keys a then [TTouchkeys] else []).

Lemma safe_Power : safe (λ s, state_ok s ∧ initial (abs s)) (Power ps).
Proof.
  unfold Power. eapply (safe_bind (λ _, True)); [auto with io_safe|]. intros [name|] _; [|exact I].
  eapply safe_bind; [apply safe_setProfile; by eexists|]. intros _ [g ->].
  eapply safe_bind; [apply safe_setInputState|]. intros _ [k ->].
  eapply (safe_bind (λ _, True)); [unfold setFingerprintState; auto with io_safe|]. intros _ _.
  cbn [safe]. destruct (streq name _); (split; [|done]); split_and!; cbn; repeat constructor; by eexists.
Qed.
End refinement.

(** C18. The service implements the specification: whatever the files answer and in
    whatever order the hints arrive and the threads get to their work, no call
    dereferences a null profile, and the profile asked for, the one in use and
    the delayed ones are what the specification says. *)
Theorem power_refines (ps : profiles) (l : list call)
    {S : Type} (env : S → string → list arg → resp * S) (s0 : S) :
  Forall (λ n, is_Some (ps !! n)) profile_names →
  Forall call_ok l →
  match (run env (do! s := Power ps in run_calls ps s l) s0).1.1 with
  | Done s => state_ok s ∧ ∃ a, initial a ∧ asteps l a (abs s)
  | Exited _ => True
  | Crashed | Starved => False
  end.
Proof.
  intros Hps Hl. apply safe_run. eapply safe_bind; [by apply safe_Power|]. intros s [Hs Ha].
  eapply safe_mono; [by apply safe_run_calls|]. intros s' [Hs' Hsteps]. eauto.
Qed.

(** A device whose files can be opened: every module on, the touchscreen named
    as the flat variant's, the panel dark, an interactive governor. *)
Definition device (s : unit) (fn : string) (args : list arg) : resp * unit :=
  let ok (z : Z) := (mkResp z 0 [] [], tt) in
  match args with
  | AS path :: _ =>
    if bool_decide (fn = "getline")
    then (mkResp 1 0 (if streq path POWER_TOUCHSCREEN_NAME then POWER_TOUCHSCREEN_NAME_EXPECT
                      else if streq path (cs "/sys/devices/13900000.dsim/backlight/panel/brightness") then cs "0"
                      else if streq path POWER_TOUCHKEYS_ENABLED then cs "1"
                      else cs "interactive") [], tt)
    else if bool_decide (fn = "GetProperty") then (mkResp 0 0 (cs "true") [], tt)
    else ok 1%Z
  | _ => ok 1%Z
  end.

Definition full_profile : SecPowerProfile :=
  foldr (λ n, store n (PVBool true)) (store "cpu.apollo.freq_boost" (PVNum 900000) zero_profile)
    ["enabled"; enabled "cpu"; enabled "cpu.apollo"; enabled "hmp"]%string.

Definition all_profiles : profiles := list_to_map ((λ n, (n, full_profile)) <$> profile_names).

Definition day : list call :=
  [CInteractive true; CTask 0; CHint LOW_POWER 1; CHint INTERACTION 40; CInteractive false; CHint SET_PROFILE 4].

Lemma power_refines_witness :
  match (run device (do! s := Power all_profiles in run_calls all_profiles s day) tt).1.1 with
  | Done s => (state_ok s ∧ ∃ a, initial a ∧ asteps day a (abs s)) ∧ mCurrentProfile s = BIAS_PERFORMANCE
  | _ => False
  end.
Proof.
  assert (H := power_refines all_profiles day device tt).
  assert (E : match (run device (do! s := Power all_profiles in run_calls all_profiles s day) tt).1.1 with
              | Done s => mCurrentProfile s = BIAS_PERFORMANCE | _ => False end) by (vm_compute; reflexivity).
  destruct (run device _ tt) as [[[s| | |] t] u]; [|destruct E..]. split; [|exact E].
  apply H.
  - apply (bool_decide_unpack _). vm_compute. exact I.
  - repeat constructor; try (by eexists).
Defined.

(** A profile number between the named ones has no data: the null profile is
    dereferenced. *)
Example profile_5_faults :
  (run device (do! s := Power all_profiles in powerHint all_profiles s SET_PROFILE 5) tt).1.1 = Crashed.
Proof. vm_compute. reflexivity. Qed.

(** The display goes off within half a second of going on: the delayed reset
    comes last, and the balanced profile is in use while nothing is shown. *)
Example late_reset :
  match (run device (do! s := Power all_profiles in
                     run_calls all_profiles s [CTask 0; CInteractive true; CInteractive false; CTask 0]) tt).1.1 with
  | Done s => mIsInteractive s = false ∧ mCurrentProfile s = BALANCED
  | _ => False
  end.
Proof. vm_compute. split; reflexivity. Qed.
