(* ===== verification/Hosts.v ===== *)
(** Processes and entry points that host the HALs, and the shims of closed
    libraries: hardware/power/Service.cpp with [Power::registerAsSystemService],
    [HIDL_FETCH_IGnss] (gnss/Gnss.cpp), shims/libstagefright/CameraSource.cpp
    and shims/libbauthtzcommon/libbauthtzcommon.c. *)

From Stdlib Require Import ZArith Lia Ascii.
From stdpp Require Import base numbers strings gmap list.
From S2P Require Import Prelude CString Sys CameraParameters HalUtils Profiles Power Gnss.

(** * The service of the power HAL *)

(** [lineage]: POWER_HAS_LINEAGE_HINTS is defined. *)
Definition registerAsSystemService (lineage : bool) : io Z :=
  do! ret := call_ret "registerAsService" [AS (cs "IPower")] in
  if negb (ret =? 0)%Z then abort
  else if lineage then
    do! ret := call_ret "registerAsService" [AS (cs "ILineagePower")] in
    if negb (ret =? 0)%Z then abort else IRet 0%Z
  else IRet 0%Z.

(** The constructor loads the profiles once it knows the touch screen. *)
Definition new_Power (parse : cstr → cstr → option xml) : io (profiles * power) :=
  do! name := read POWER_TOUCHSCREEN_NAME in
  match name with
  | None => abort
  | Some name => do! ps := loadProfiles parse ∅ in do! s := set_up ps name in IRet (ps, s)
  end.

(** [new] does not return null: a failure ends the process. *)
Definition power_main (lineage : bool) (parse : cstr → cstr → option xml) : io Z :=
  do! _ := new_Power parse in
  call_ "configureRpcThreadpool" [AZ 1; AZ 1] ;!
  do! status := registerAsSystemService lineage in
  (if negb (status =? 0)%Z then IRet tt else call_ "joinRpcThreadpool" []) ;! IRet 1%Z.

(** * The GNSS object *)

Definition GPS_HARDWARE_MODULE_ID : cstr := cs "gps".

(** The constructor; [sInterfaceExists]: an object is there already, and the
    process is aborted.  [device]: null or not. *)
Definition new_Gnss (sInterfaceExists : bool) (device : Z) (s : gnss) : io gnss :=
  if sInterfaceExists then abort
  else if (device =? 0)%Z then IRet s
  else
    do! iface := call_ret "get_gps_interface" [AZ device] in
    IRet (mkGnss (negb (iface =? 0)%Z) (sGnssCbIface s) (sWakelockHeldGnss s) (sWakelockHeldFused s)
            (sWakelockHeld s) (sCapabilitiesCached s) (sYearOfHwCached s) (extensions s)).

(** [None]: null.  [s]: the static members. *)
Definition HIDL_FETCH_IGnss (sInterfaceExists : bool) (s : gnss) : io (option gnss) :=
  do! m := Sys.call "hw_get_module" [AS GPS_HARDWARE_MODULE_ID] in
  if (r_ret m =? 0)%Z then
    let module := nth 0 (r_aux m) 0%Z in
    do! d := Sys.call "module.open" [AZ module; AS GPS_HARDWARE_MODULE_ID] in
    if (r_ret d =? 0)%Z then do! g := new_Gnss sInterfaceExists (nth 0 (r_aux d) 0%Z) s in IRet (Some g)
    else IRet None
  else IRet None.

(** * Shims *)

(** The formats of OpenMAX, by name; the one of the vendor is a number. *)
Inductive OMX_COLOR_FORMAT :=
  | YUV420Planar | YUV422SemiPlanar | YUV420SemiPlanar | YCbYCr | Format16bitRGB565
  | TI_YUV420PackedSemiPlanar | AndroidOpaque | QCOM_YVU420SemiPlanar
  | OMX_vendor (n : Z).

Definition OMX_SEC_COLOR_FormatNV21Linear : Z := 0x7F000011.
Definition PIXEL_FORMAT_YUV420SP_NV21 : cstr := cs "nv21".
Definition PIXEL_FORMAT_ANDROID_OPAQUE : cstr := cs "android-opaque".
Definition KEY_VIDEO_FRAME_FORMAT : cstr := cs "video-frame-format".

(** [None]: -1. *)
Definition getColorFormat (colorFormat : option cstr) : option OMX_COLOR_FORMAT :=
  match colorFormat with
  | None => None
  | Some f =>
    if streq f PIXEL_FORMAT_YUV420P then Some YUV420Planar
    else if streq f PIXEL_FORMAT_YUV422SP then Some YUV422SemiPlanar
    else if streq f PIXEL_FORMAT_YUV420SP then Some YUV420SemiPlanar
    else if streq f PIXEL_FORMAT_YUV420SP_NV21 then Some (OMX_vendor OMX_SEC_COLOR_FormatNV21Linear)
    else if streq f PIXEL_FORMAT_YUV422I then Some YCbYCr
    else if streq f PIXEL_FORMAT_RGB565 then Some Format16bitRGB565
    else if streq f (cs "OMX_TI_COLOR_FormatYUV420PackedSemiPlanar") then Some TI_YUV420PackedSemiPlanar
    else if streq f PIXEL_FORMAT_ANDROID_OPAQUE then Some AndroidOpaque
    else if streq f (cs "YVU420SemiPlanar") then Some QCOM_YVU420SemiPlanar
    else None
  end.

Definition BAD_VALUE : Z := -22.

(** The new [mColorFormat] and the status. *)
Definition isCameraColorFormatSupported `{KeyedVector M} (params : M) : option OMX_COLOR_FORMAT * Z :=
  let mColorFormat := getColorFormat (CameraParameters.get params KEY_VIDEO_FRAME_FORMAT) in
  (mColorFormat, match mColorFormat with None => BAD_VALUE | Some _ => 0%Z end).

(** A message and success, whatever the arguments. *)
Definition BAuth_Hat_OP (arg0 arg1 arg2 arg3 arg4 arg5 : Z) : io Z :=
  call_ "ALOGW" [AS (cs "SHIM: hijacking BAuth_Hat_OP!")] ;! IRet 0%Z.

(** [Fence::~Fence] *)
Definition _ZN7android5FenceD1Ev (_this : Z) : Z := _this.

(** Every format the shim knows is accepted, and what it knows is not the list of
    [previewFormatToEnum]: "nv21" is added, "yuv420sp" is in both. *)
Example shim_formats :
  getColorFormat (Some (cs "nv21")) = Some (OMX_vendor 0x7F000011) ∧
  previewFormatToEnum (Some (cs "nv21")) = None ∧
  getColorFormat (Some (cs "yuv420sp")) = Some YUV420SemiPlanar ∧
  getColorFormat (Some (cs "rgba8888")) = None.
Proof. done. Qed.

(** The parameters of a camera without a frame format are refused. *)
Lemma no_format_refused `{KeyedVectorLaws M} :
  isCameraColorFormatSupported (kv_empty : M) = (None, BAD_VALUE).
Proof.
  unfold isCameraColorFormatSupported, CameraParameters.get. by rewrite kv_find_empty.
Qed.
