(* ===== verification/Double.v ===== *)
(** The type double of C, IEEE 754 binary64, as the standard library of Rocq
    defines it on integers, and bounds of the operations on numbers that are not
    negative: a result lies between the integers below 2^53 between which the
    exact one lies. *)

From Stdlib Require Import ZArith Lia SpecFloat.
From stdpp Require Import base numbers.
From S2P Require Import Prelude.

Local Open Scope Z_scope.

Definition double : Type := spec_float.
Definition of_int (z : Z) : double := binary_normalize 53 1024 z 0 false.
Definition dadd : double → double → double := SFadd 53 1024.
Definition dsub : double → double → double := SFsub 53 1024.
Definition dmul : double → double → double := SFmul 53 1024.
Definition ddiv : double → double → double := SFdiv 53 1024.
Definition dsqrt : double → double := SFsqrt 53 1024.

Definition floor_Z (f : double) : Z :=
  match f with
  | S754_finite s m e =>
    let z := if s then Z.neg m else Z.pos m in
    if (0 <=? e)%Z then z * 2 ^ e else z / 2 ^ (- e)
  | _ => 0
  end.

Definition dopp (f : double) : double := SFopp f.

(** [(int)ceil(f)]; the value for infinities and NaN is never used. *)
Definition ceil_Z (f : double) : Z := - floor_Z (dopp f).

(** * Rounding *)

(** A number with the integer part [m] at the scale [e], [exact] when there is no
    fraction, lies between [A] and [B]. *)
Definition bracket (A B m e : Z) (exact : bool) : Prop :=
  A * 2 ^ (- e) ≤ m ∧ m ≤ B * 2 ^ (- e) ∧ (exact = false → m < B * 2 ^ (- e)).

Definition exact_of (r : shr_record) : bool := negb (shr_r r || shr_s r).

(** A double between two integers, with its digits no coarser than 1. *)
Definition between (A B : Z) (f : double) : Prop :=
  match f with
  | S754_zero _ => A ≤ 0
  | S754_finite false m e => e ≤ 0 ∧ A * 2 ^ (- e) ≤ Z.pos m ≤ B * 2 ^ (- e)
  | _ => False
  end.

Lemma pow2_step e : e < 0 → 2 ^ (- e) = 2 * 2 ^ (- (e + 1)).
Proof. intros H. replace (- e) with (Z.succ (- (e + 1))) by lia. apply Z.pow_succ_r. lia. Qed.

Lemma pow2_pos e : e ≤ 0 → 0 < 2 ^ (- e).
Proof. intros H. apply Z.pow_pos_nonneg; lia. Qed.

(** Multiplication by a power of two keeps an order. *)
Lemma pow2_le a b e : e ≤ 0 → a ≤ b → a * 2 ^ (- e) ≤ b * 2 ^ (- e).
Proof. intros He Hab. apply Z.mul_le_mono_nonneg_r; [|done]. pose proof (pow2_pos e He). lia. Qed.

Lemma shr_1_eq r : 0 ≤ shr_m r → shr_1 r = Build_shr_record (shr_m r / 2) (Z.odd (shr_m r)) (shr_r r || shr_s r).
Proof.
  destruct r as [m r s]. cbn [shr_m shr_r shr_s]. intros Hm.
  rewrite <-Z.div2_div. by destruct m as [|[p|p|]|].
Qed.

Lemma shr_1_bracket A B r e :
  0 ≤ A → e < 0 → bracket A B (shr_m r) e (exact_of r) →
  bracket A B (shr_m (shr_1 r)) (e + 1) (exact_of (shr_1 r)).
Proof.
  intros HA He (H1 & H2 & H3). pose proof (pow2_pos (e + 1) ltac:(lia)) as Hp.
  pose proof (pow2_step e He) as Hs. rewrite Hs in *. set (P := 2 ^ (- (e + 1))) in *.
  rewrite shr_1_eq by nia. unfold bracket, exact_of in *. cbn [shr_m shr_r shr_s]. fold P.
  pose proof (Z.div_mod (shr_m r) 2 ltac:(lia)) as Hd. rewrite Zmod_odd in Hd.
  set (h := shr_m r / 2) in *.
  split_and!; [destruct (Z.odd (shr_m r)); lia..|]. intros Hx. destruct (Z.odd (shr_m r)); [lia|].
  cbn [orb] in Hx. specialize (H3 Hx). lia.
Qed.

Lemma iter_shr_bracket A B p r e :
  0 ≤ A → e + Z.pos p ≤ 0 → bracket A B (shr_m r) e (exact_of r) →
  bracket A B (shr_m (SpecFloat.iter_pos shr_1 p r)) (e + Z.pos p) (exact_of (SpecFloat.iter_pos shr_1 p r)).
Proof.
  intros HA. revert r e. induction p as [p IH|p IH|]; intros r e He H; cbn [SpecFloat.iter_pos].
  - replace (e + Z.pos p~1) with (e + 1 + Z.pos p + Z.pos p) by lia.
    apply IH; [lia|]. apply IH; [lia|]. apply shr_1_bracket; [done|lia|done].
  - replace (e + Z.pos p~0) with (e + Z.pos p + Z.pos p) by lia. apply IH; [lia|]. apply IH; [lia|done].
  - apply shr_1_bracket; [done|lia|done].
Qed.

Lemma digits_lower p : 2 ^ (Z.pos (digits2_pos p) - 1) ≤ Z.pos p.
Proof.
  induction p as [p IH|p IH|]; cbn [digits2_pos]; [| |done];
    rewrite Pos2Z.inj_succ; replace (Z.succ (Z.pos (digits2_pos p)) - 1) with (Z.succ (Z.pos (digits2_pos p) - 1)) by lia;
    rewrite Z.pow_succ_r by lia; lia.
Qed.

Lemma digits_upper p : Z.pos p < 2 ^ Z.pos (digits2_pos p).
Proof.
  induction p as [p IH|p IH|]; cbn [digits2_pos]; [| |done];
    rewrite Pos2Z.inj_succ, Z.pow_succ_r by lia; lia.
Qed.

(** A number below 2^53 has at most 53 digits before the point. *)
Lemma digits_le m e : 0 ≤ m → e ≤ 0 → m < 2 ^ 53 * 2 ^ (- e) → Zdigits2 m + e ≤ 53.
Proof.
  intros Hm He H. rewrite <-Z.pow_add_r in H by lia. destruct m as [|p|p]; cbn [Zdigits2]; [lia| |lia].
  pose proof (digits_lower p) as Hd. assert (2 ^ (Z.pos (digits2_pos p) - 1) < 2 ^ (53 + - e)) as Hp by lia.
  apply Z.pow_lt_mono_r_iff in Hp; lia.
Qed.

Definition exact_loc (l : location) : bool := match l with loc_Exact => true | _ => false end.

Lemma record_of_loc m l : shr_m (shr_record_of_loc m l) = m ∧ exact_of (shr_record_of_loc m l) = exact_loc l.
Proof. by destruct l as [|[]]. Qed.

Lemma shr_fexp_bracket A B m e l :
  0 ≤ A → B < 2 ^ 53 → e ≤ 0 → bracket A B m e (exact_loc l) →
  let '(r, e') := shr_fexp 53 1024 m e l in e' ≤ 0 ∧ bracket A B (shr_m r) e' (exact_of r).
Proof.
  intros HA HB He Hb. destruct (record_of_loc m l) as [Em El]. unfold shr_fexp, shr.
  assert (Hd : Zdigits2 m + e ≤ 53).
  { destruct Hb as (H1 & H2 & _). pose proof (pow2_pos e He). apply digits_le; nia. }
  destruct (fexp 53 1024 (Zdigits2 m + e) - e) as [|p|p] eqn:E.
  - split; [done|]. by rewrite Em, El.
  - assert (Hp : e + Z.pos p ≤ 0) by (unfold fexp, emin in E; lia).
    split; [done|]. apply iter_shr_bracket; [done|done|]. by rewrite Em, El.
  - split; [done|]. by rewrite Em, El.
Qed.

Lemma loc_of_record r : exact_loc (loc_of_shr_record r) = exact_of r.
Proof. by destruct r as [m [] []]. Qed.

Lemma round_bracket A B m e l :
  bracket A B m e (exact_loc l) → bracket A B (round_nearest_even m l) e true.
Proof.
  intros (H1 & H2 & H3). unfold bracket. destruct l as [|[]]; cbn [round_nearest_even exact_loc] in *;
    try specialize (H3 eq_refl); try destruct (Z.even m); split_and!; try done; lia.
Qed.

Lemma round_between A B m e l :
  0 ≤ A → B < 2 ^ 53 → e ≤ 0 → bracket A B m e (exact_loc l) →
  between A B (binary_round_aux 53 1024 false m e l).
Proof.
  intros HA HB He Hb. unfold binary_round_aux.
  pose proof (shr_fexp_bracket A B m e l HA HB He Hb) as H1. destruct (shr_fexp _ _ m e l) as [r e1].
  destruct H1 as [He1 Hb1]. rewrite <-loc_of_record in Hb1. apply round_bracket in Hb1.
  pose proof (shr_fexp_bracket A B _ e1 loc_Exact HA HB He1 Hb1) as H2. destruct (shr_fexp _ _ _ e1 _) as [r2 e2].
  destruct H2 as [He2 (H2 & H3 & _)]. pose proof (pow2_pos e2 He2).
  destruct (shr_m r2) as [|p|p]; [cbn; nia| |nia]. rewrite (proj2 (Z.leb_le _ _)) by lia. done.
Qed.

(** * Integers and operations *)

Lemma shl_align_eq mx ex ex' :
  let '(m, e) := shl_align mx ex ex' in e ≤ ex ∧ Z.pos m = Z.pos mx * 2 ^ (ex - e).
Proof.
  unfold shl_align. destruct (ex' - ex) as [|p|p] eqn:E.
  - rewrite Z.sub_diag. lia.
  - rewrite Z.sub_diag. lia.
  - split; [lia|]. replace (ex - ex') with (Z.pos p) by lia.
    rewrite Z.mul_comm. exact (shift_pos_correct p mx).
Qed.

Lemma scale_split e e' : e' ≤ e → e ≤ 0 → 2 ^ (- e') = 2 ^ (- e) * 2 ^ (e - e').
Proof. intros H1 H2. rewrite <-Z.pow_add_r by lia. f_equal. lia. Qed.

Lemma normalize_between A B m e s :
  0 ≤ A → B < 2 ^ 53 → e ≤ 0 → A * 2 ^ (- e) ≤ m ≤ B * 2 ^ (- e) →
  between A B (binary_normalize 53 1024 m e s).
Proof.
  intros HA HB He Hm. pose proof (pow2_pos e He). destruct m as [|p|p]; cbn [binary_normalize]; [cbn; nia| |nia].
  unfold binary_round. set (ex := fexp _ _ _). clearbody ex. pose proof (shl_align_eq p e ex) as Hs.
  destruct (shl_align p e ex) as [m' e']. destruct Hs as [He' Hm']. apply round_between; [done|done|lia|].
  unfold bracket. rewrite Hm', (scale_split e e'), !Z.mul_assoc by lia.
  assert (0 < 2 ^ (e - e')) by (apply Z.pow_pos_nonneg; lia).
  split_and!; [nia|nia|done].
Qed.

Lemma of_int_between z : 0 ≤ z < 2 ^ 53 → between z z (of_int z).
Proof. intros H. apply normalize_between; [lia|lia|done|]. rewrite Z.mul_1_r. done. Qed.

Lemma between_weaken A A' B B' f : A' ≤ A → B ≤ B' → between A B f → between A' B' f.
Proof.
  intros HA HB. destruct f as [s| | |[] m e]; cbn; [lia|done|done|done|]. intros (He & H1 & H2).
  pose proof (pow2_le A' A e He HA). pose proof (pow2_le B B' e He HB). lia.
Qed.

Lemma mul_between A1 B1 A2 B2 x y :
  0 ≤ A1 → 0 ≤ A2 → B1 * B2 < 2 ^ 53 → between A1 B1 x → between A2 B2 y →
  between (A1 * A2) (B1 * B2) (dmul x y).
Proof.
  intros H1 H2 HB Hx Hy.
  destruct x as [sx| | |[] mx ex]; try done; destruct y as [sy| | |[] my ey]; try done; cbn in Hx, Hy; try (cbn; nia).
  destruct Hx as (Hex & Hx1 & Hx2), Hy as (Hey & Hy1 & Hy2). apply round_between; [nia|done|lia|].
  pose proof (pow2_pos ex Hex). pose proof (pow2_pos ey Hey).
  unfold bracket. replace (- (ex + ey)) with (- ex + - ey) by lia. rewrite Z.pow_add_r, Pos2Z.inj_mul by lia.
  replace (A1 * A2 * (2 ^ (- ex) * 2 ^ (- ey))) with (A1 * 2 ^ (- ex) * (A2 * 2 ^ (- ey))) by ring.
  replace (B1 * B2 * (2 ^ (- ex) * 2 ^ (- ey))) with (B1 * 2 ^ (- ex) * (B2 * 2 ^ (- ey))) by ring.
  split_and!; [apply Z.mul_le_mono_nonneg; nia|apply Z.mul_le_mono_nonneg; nia|done].
Qed.

Lemma align_to_min mx ex ez :
  ez ≤ ex → Z.pos (shl_align mx ex ez).1 = Z.pos mx * 2 ^ (ex - ez).
Proof.
  intros H. pose proof (shl_align_eq mx ex ez) as Hs. unfold shl_align in *.
  destruct (ez - ex) as [|p|p] eqn:E; cbn [fst]; [|lia|by destruct Hs].
  replace (ex - ez) with 0 by lia. lia.
Qed.

Lemma sub_between A1 B1 A2 B2 x y :
  0 ≤ A2 → A2 ≤ B2 → B2 ≤ A1 → B1 < 2 ^ 53 → between A1 B1 x → between A2 B2 y →
  between (A1 - B2) (B1 - A2) (dsub x y).
Proof.
  intros H2 H22 H12 HB Hx Hy.
  destruct x as [sx| | |[] mx ex]; try done; destruct y as [sy| | |[] my ey]; try done.
  - cbn in Hx, Hy |- *. destruct sx, sy; cbn; lia.
  - cbn in Hx, Hy. destruct Hy as (He & _ & Hy). pose proof (pow2_pos ey He). nia.
  - cbn in Hy. unfold dsub. cbn [SFsub]. eapply between_weaken; [| |exact Hx]; lia.
  - cbn in Hx, Hy. destruct Hx as (Hex & Hx1 & Hx2), Hy as (Hey & Hy1 & Hy2). unfold dsub. cbn [SFsub cond_Zopp].
    set (ez := Z.min ex ey). rewrite !align_to_min by lia.
    pose proof (Z.pow_pos_nonneg 2 (ex - ez) ltac:(lia) ltac:(lia)).
    pose proof (Z.pow_pos_nonneg 2 (ey - ez) ltac:(lia) ltac:(lia)).
    apply normalize_between; [lia|lia|lia|].
    rewrite !Z.mul_sub_distr_r.
    assert (E1 : ∀ C, C * 2 ^ (- ez) = C * 2 ^ (- ex) * 2 ^ (ex - ez))
      by (intros C; rewrite (scale_split ex ez) by lia; ring).
    assert (E2 : ∀ C, C * 2 ^ (- ez) = C * 2 ^ (- ey) * 2 ^ (ey - ez))
      by (intros C; rewrite (scale_split ey ez) by lia; ring).
    rewrite (E1 A1), (E2 B2), (E1 B1), (E2 A2).
    pose proof (Z.mul_le_mono_nonneg_r _ _ (2 ^ (ex - ez)) ltac:(lia) Hx1).
    pose proof (Z.mul_le_mono_nonneg_r _ _ (2 ^ (ex - ez)) ltac:(lia) Hx2).
    pose proof (Z.mul_le_mono_nonneg_r _ _ (2 ^ (ey - ez)) ltac:(lia) Hy1).
    pose proof (Z.mul_le_mono_nonneg_r _ _ (2 ^ (ey - ez)) ltac:(lia) Hy2). lia.
Qed.

Lemma new_location_exact m r : exact_loc (new_location m r) = (r =? 0).
Proof. unfold new_location, new_location_even, new_location_odd. destruct (Z.even m), (r =? 0); done. Qed.

(** Dividing by an integer. *)
Lemma div_between B K x y :
  1 ≤ K → 0 ≤ B < 2 ^ 53 → between 0 B x → between K K y → between 0 B (ddiv x y).
Proof.
  intros HK HB Hx Hy.
  destruct y as [sy| | |[] my ey]; try done; [cbn in Hy; lia|].
  destruct x as [sx| | |[] mx ex]; try done.
  cbn in Hx, Hy. destruct Hx as (Hex & _ & Hx), Hy as (Hey & Hy & _).
  unfold ddiv. cbn [SFdiv xorb]. unfold SFdiv_core_binary.
  pose proof (pow2_pos ex Hex). pose proof (pow2_pos ey Hey).
  assert (Hdx : Zdigits2 (Z.pos mx) + ex ≤ 53) by (apply digits_le; nia).
  assert (Hdy : 1 ≤ Zdigits2 (Z.pos my) + ey).
  { cbn [Zdigits2]. pose proof (digits_upper my) as Hu. assert (2 ^ (- ey) < 2 ^ Z.pos (digits2_pos my)) as Hp by nia.
    apply Z.pow_lt_mono_r_iff in Hp; lia. }
  set (e' := Z.min _ _).
  assert (He' : e' ≤ 0 ∧ e' ≤ ex - ey) by (unfold e', fexp, emin; lia).
  set (m' := match ex - ey - e' with Z0 => _ | _ => _ end).
  assert (Hm' : m' = Z.pos mx * 2 ^ (ex - ey - e')).
  { unfold m'. destruct (ex - ey - e') as [|p|p] eqn:E; [lia| |lia]. by rewrite Z.shiftl_mul_pow2 by lia. }
  clearbody m'. pose proof (Z_div_mod m' (Z.pos my) ltac:(lia)) as Hdiv.
  destruct (Z.div_eucl m' (Z.pos my)) as [q r]. destruct Hdiv as [Hq Hr].
  apply round_between; [lia|lia|lia|]. rewrite new_location_exact.
  assert (Hpe : 0 < 2 ^ (- e')) by (apply pow2_pos; lia).
  assert (Hle : m' ≤ B * 2 ^ (- e') * 2 ^ (- ey)).
  { rewrite Hm'. trans (B * 2 ^ (- ex) * 2 ^ (ex - ey - e')).
    - apply Z.mul_le_mono_nonneg_r; [|done]. apply Z.pow_nonneg. lia.
    - rewrite <-!Z.mul_assoc, <-!Z.pow_add_r by lia. apply Z.mul_le_mono_nonneg_l; [lia|].
      apply Z.pow_le_mono_r; lia. }
  assert (Hm0 : 0 ≤ m') by (rewrite Hm'; apply Z.mul_nonneg_nonneg; [lia|apply Z.pow_nonneg; lia]).
  assert (Hmy : 2 ^ (- ey) ≤ Z.pos my) by nia.
  assert (Hle2 : Z.pos my * q + r ≤ B * 2 ^ (- e') * Z.pos my).
  { rewrite <-Hq. etrans; [exact Hle|]. apply Z.mul_le_mono_nonneg_l; [|done]. nia. }
  set (T := B * 2 ^ (- e')) in *. unfold bracket. rewrite Z.mul_0_l. fold T.
  split_and!; [nia|nia|]. intros E%Z.eqb_neq. nia.
Qed.

Lemma ceil_between B f : between 0 B f → 0 ≤ B → 0 ≤ ceil_Z f ≤ B.
Proof.
  intros H HB. unfold ceil_Z, dopp. destruct f as [s| | |[] m e]; try done.
  cbn [SFopp negb floor_Z]. destruct H as (He & _ & H). pose proof (pow2_pos e He) as Hp.
  destruct (Z.leb_spec 0 e) as [H0|H0].
  - replace e with 0 in * by lia. cbn in *. lia.
  - pose proof (Z.div_mod (Z.neg m) (2 ^ (- e)) ltac:(lia)).
    pose proof (Z.mod_pos_bound (Z.neg m) (2 ^ (- e)) Hp). nia.
Qed.
