(* ===== verification/IrqBalance.v ===== *)
(** hardware/irqbalance: the daemon that spreads the interrupts over the CPUs
    that are on line, from the load it reads in /proc/stat, with the arithmetic of
    [Double]. *)

From Stdlib Require Import ZArith Lia Ascii Sorted.
From stdpp Require Import base numbers sorting strings gmap list.
From S2P Require Import Prelude CString Scanf Double.

(** * Data *)

Record cpudata := mkCpu {
  core : Z;
  online : bool;
  cputime_user : Z; cputime_nice : Z; cputime_system : Z; cputime_idle : Z; cputime_iowait : Z;
  cputime_irq : Z; cputime_softirq : Z; cputime_steal : Z; cputime_guest : Z; cputime_guest_nice : Z;
  cpu_util : Z
}.

(** The statics of the program; the entries of [irqs] are unset until read. *)
Record daemon := mkDaemon {
  NR_CPUS : Z;
  OFFS_CPUS : Z;
  THREAD_DELAY : Z;
  irqs : list (option Z);
  irqs_num : Z;
  irq_blacklist : list Z;
  irq_blacklist_num : Z;
  cpus : list cpudata
}.

Definition initial : daemon := mkDaemon (-1) (-1) 0 [] 0 [] 0 [].

Definition set_cpun (d : daemon) (v : Z) : daemon :=
  mkDaemon v (OFFS_CPUS d) (THREAD_DELAY d) (irqs d) (irqs_num d) (irq_blacklist d)
    (irq_blacklist_num d) (cpus d).
Definition set_cpuo (d : daemon) (v : Z) : daemon :=
  mkDaemon (NR_CPUS d) v (THREAD_DELAY d) (irqs d) (irqs_num d) (irq_blacklist d)
    (irq_blacklist_num d) (cpus d).
Definition set_tdel (d : daemon) (v : Z) : daemon :=
  mkDaemon (NR_CPUS d) (OFFS_CPUS d) v (irqs d) (irqs_num d) (irq_blacklist d)
    (irq_blacklist_num d) (cpus d).
Definition set_irqs (d : daemon) (l : list (option Z)) (n : Z) : daemon :=
  mkDaemon (NR_CPUS d) (OFFS_CPUS d) (THREAD_DELAY d) l n (irq_blacklist d)
    (irq_blacklist_num d) (cpus d).
Definition set_blacklist (d : daemon) (l : list Z) (n : Z) : daemon :=
  mkDaemon (NR_CPUS d) (OFFS_CPUS d) (THREAD_DELAY d) (irqs d) (irqs_num d) l n (cpus d).
Definition set_cpus (d : daemon) (l : list cpudata) : daemon :=
  mkDaemon (NR_CPUS d) (OFFS_CPUS d) (THREAD_DELAY d) (irqs d) (irqs_num d) (irq_blacklist d)
    (irq_blacklist_num d) l.

Definition EINVAL : Z := 22.
Definition ENOENT : Z := 2.
Definition ENOMEM : Z := 12.

(** * Reading /proc/stat *)

Definition set_online (c : cpudata) (b : bool) : cpudata :=
  mkCpu (core c) b (cputime_user c) (cputime_nice c) (cputime_system c) (cputime_idle c)
    (cputime_iowait c) (cputime_irq c) (cputime_softirq c) (cputime_steal c) (cputime_guest c)
    (cputime_guest_nice c) (cpu_util c).

Definition set_util (c : cpudata) (u : Z) : cpudata :=
  mkCpu (core c) (online c) (cputime_user c) (cputime_nice c) (cputime_system c) (cputime_idle c)
    (cputime_iowait c) (cputime_irq c) (cputime_softirq c) (cputime_steal c) (cputime_guest c)
    (cputime_guest_nice c) u.

Definition times (c : cpudata) : list Z :=
  [cputime_user c; cputime_nice c; cputime_system c; cputime_idle c; cputime_iowait c;
   cputime_irq c; cputime_softirq c; cputime_steal c; cputime_guest c; cputime_guest_nice c].

Definition with_times (c : cpudata) (l : list Z) : cpudata :=
  let t i := nth i l 0%Z in
  mkCpu (core c) (online c) (t 0) (t 1) (t 2) (t 3) (t 4) (t 5) (t 6) (t 7) (t 8) (t 9) (cpu_util c).

Fixpoint skip_lines (n : nat) (st : stream) : stream :=
  match n with O => st | S n => skip_lines n (skip_line st) end.

(** " %llu" for each of the variables [old]: those read so far, the rest as
    they were, and whether all matched. *)
Fixpoint scan_times (old : list Z) (st : stream) : list Z * bool :=
  match old with
  | [] => ([], true)
  | o :: old' =>
    match scan_int (skip_ws st) with
    | (None, _) => (old, false)
    | (Some v, st) => let '(l, ok) := scan_times old' st in (u64 v :: l, ok)
    end
  end.

(** "cpu%d %llu ...": the variables and whether all eleven matched. *)
Definition scan_cpu (c : cpudata) (st : stream) : cpudata * bool :=
  match lit "c" st with
  | (false, _) => (c, false)
  | (true, st) =>
    match lit "p" st with
    | (false, _) => (c, false)
    | (true, st) =>
      match lit "u" st with
      | (false, _) => (c, false)
      | (true, st) =>
        match scan_int st with
        | (None, _) => (c, false)
        | (Some _, st) => let '(l, ok) := scan_times (times c) st in (with_times c l, ok)
        end
      end
    end
  end.

(** [read_cpudata] of the text [fopen] gives, if any: the result and the data. *)
Definition read_cpudata (d : daemon) (proc_stat : option (list ascii)) (c : cpudata) (i : Z)
    : Z * cpudata :=
  match proc_stat with
  | None => (- ENOENT, c)%Z
  | Some f =>
    let st := skip_lines (Z.to_nat (i + OFFS_CPUS d + 1)) (fopen_text f) in
    let '(c, ok) := scan_cpu c st in
    if ok then (0%Z, set_online c true) else (- EINVAL, set_online c false)%Z
  end.

(** * Load *)

(** [TOTAL_CPUTIME] *)
Definition total_cputime (c : cpudata) : Z :=
  u64 (cputime_user c + cputime_nice c + cputime_system c + cputime_iowait c + cputime_irq c +
       cputime_softirq c + cputime_steal c + cputime_guest c + cputime_guest_nice c).

(** The new utilization; a division by zero has no defined result. *)
Definition utilization (old cur : cpudata) : cres Z :=
  let old_total := total_cputime old in
  let cur_total := total_cputime cur in
  let delta := u64 (cur_total - old_total) in
  let total_delta := u64 (u64 (cur_total + cputime_idle cur) - u64 (old_total + cputime_idle old)) in
  if (total_delta =? 0)%Z then Fault else Ret (u64 (delta * 100) / total_delta)%Z.

(** [irqbalance_load_watchdog] from the [i]th CPU on; [stats] is what /proc/stat
    reads like at each of its [fopen]s. *)
Fixpoint watchdog_loop (d : daemon) (i : Z) (l : list cpudata) (stats : list (option (list ascii)))
    : cres (list cpudata * list (option (list ascii))) :=
  match l with
  | [] => Ret ([], stats)
  | c :: l =>
    match stats with
    | [] => OutOfFuel
    | s :: stats =>
      let '(ret, c') := read_cpudata d s c i in
      if negb (ret =? 0)%Z then Ret (c' :: l, stats)
      else
        let! u := utilization c c' in
        let! (l, stats) := watchdog_loop d (i + 1) l stats in
        Ret (set_util c' u :: l, stats)
    end
  end.

Definition irqbalance_load_watchdog (d : daemon) (stats : list (option (list ascii)))
    : cres (daemon * list (option (list ascii))) :=
  let! (l, stats) := watchdog_loop d 0 (cpus d) stats in Ret (set_cpus d l, stats).

(** * Sorting *)

(** One pass of [m] comparisons; the flag is [swp]. *)
Fixpoint bubble_pass (m : nat) (l : list cpudata) : list cpudata * bool :=
  match m, l with
  | S m, x :: (y :: l) as rest =>
    if (cpu_util x >? cpu_util y)%Z then
      let '(r, _) := bubble_pass m (x :: l) in (y :: r, true)
    else let '(r, s) := bubble_pass m rest in (x :: r, s)
  | _, _ => (l, false)
  end.

Fixpoint sort_loop (fuel : nat) (n : nat) (l : list cpudata) : cres (list cpudata) :=
  match fuel with
  | O => OutOfFuel
  | S fuel =>
    let '(l, swp) := bubble_pass (n - 1) l in
    if swp then sort_loop fuel (n - 1) l else Ret l
  end.

Definition sort_cpus (l : list cpudata) : cres (list cpudata) :=
  sort_loop (S (length l)) (length l) l.

(** * Sharing out *)

(** How many of the interrupts left the CPU gets: [irqnum]. *)
Definition share (util irqs_left online_index : Z) : Z :=
  let ratio := ddiv (of_int util) (of_int 100) in
  let left := of_int irqs_left in
  if (online_index =? 0)%Z then irqs_left
  else ceil_Z (ddiv (dsub left (dmul (dsqrt ratio) left)) (of_int online_index)).

(** [1 << core] *)
Definition cpu_mask (core : Z) : cres Z :=
  if (core >=? 31)%Z then Fault else Ret (Z.shiftl 1 core).

(** The inner loop: [n] interrupts from index [idx]; [out] are the masks
    written to the smp_affinity files that could be opened. *)
Fixpoint assign (d : daemon) (open_ok : Z → bool) (mask : Z) (n : nat) (idx : Z)
    (out : list (Z * Z)) : cres (list (Z * Z)) :=
  match n with
  | O => Ret out
  | S n =>
    let! slot := deref (if (idx <? 0)%Z then None else irqs d !! Z.to_nat idx) in
    let! irq := deref slot in
    assign d open_ok mask n (idx + 1) (if open_ok irq then out ++ [(irq, mask)] else out)
  end.

(** The loop from the last CPU of the sorted list down. *)
Fixpoint balance (d : daemon) (open_ok : Z → bool) (l : list cpudata)
    (online_cpus irqs_processed : Z) (out : list (Z * Z)) : cres (list (Z * Z)) :=
  match l with
  | [] => Ret out
  | c :: l =>
    if (irqs_processed <? irqs_num d)%Z then
      if negb (online c) then balance d open_ok l online_cpus irqs_processed out
      else
        let irqnum := share (i32 (cpu_util c)) (irqs_num d - irqs_processed) (online_cpus - 1) in
        let! out :=
          if (irqnum <=? 0)%Z then Ret out
          else let! mask := cpu_mask (core c) in
               assign d open_ok mask (Z.to_nat irqnum) irqs_processed out in
        let irqs_processed := (irqs_processed + irqnum)%Z in
        if (online_cpus <=? 0)%Z then Ret out
        else balance d open_ok l (online_cpus - 1) irqs_processed out
    else Ret out
  end.

Definition count_online (l : list cpudata) : Z :=
  Z.of_nat (length (List.filter online l)).

Definition irqbalance_main (d : daemon) (open_ok : Z → bool) : cres (list (Z * Z)) :=
  let! l := sort_cpus (cpus d) in
  balance d open_ok (rev l) (count_online l) 0 [].

(** The microseconds to sleep, from the two times in nanoseconds: the constants
    1e9 and 1e3 are doubles. *)
Definition time_val (tv_sec tv_nsec : Z) : Z :=
  u64 (floor_Z (dadd (dmul (of_int tv_sec) (of_int 1000000000)) (of_int tv_nsec))).

Definition sleep_delta (delay time_start_val time_end_val : Z) : Z :=
  let time_delta := u64 (floor_Z (ddiv (of_int (u64 (time_end_val - time_start_val))) (of_int 1000))) in
  if (delay <? time_delta)%Z then 0%Z else u64 (delay - time_delta).

(** One round of [irqbalance_loop]: the masks written and how long it sleeps. *)
Definition loop_round (d : daemon) (stats : list (option (list ascii))) (open_ok : Z → bool)
    (t0 t1 : Z * Z) : cres (daemon * list (Z * Z) * Z) :=
  let! (d, _) := irqbalance_load_watchdog d stats in
  let! out := irqbalance_main d open_ok in
  Ret (d, out, sleep_delta (THREAD_DELAY d) (time_val t0.1 t0.2) (time_val t1.1 t1.2)).

(** * Configuration *)

Section config.
(** [malloc] of that many bytes succeeds. *)
Context (malloc_ok : Z → bool).

(** The loop over the blacklist entries, of which the allocation holds [cap]:
    what is read, if all were. *)
Fixpoint scan_blacklist (cap : Z) (n : nat) (st : stream) : cres (option (list Z) * stream) :=
  match n with
  | O => Ret (Some [], st)
  | S n =>
    match scan_int st with
    | (None, st) => Ret (None, st)
    | (Some v, st) =>
      if (cap <=? 0)%Z then Fault
      else
        let! (l, st) := scan_blacklist (cap - 1) n (skip_ws st) in
        Ret ((λ l, i32 v :: l) <$> l, st)
    end
  end.

(** "%d\n" into a variable, which keeps its value when nothing matches. *)
Definition scan_d (st : stream) (old : Z) : Z * stream :=
  match scan_int st with
  | (None, st) => (old, st)
  | (Some v, st) => (i32 v, skip_ws st)
  end.

Definition scan_llu (st : stream) (old : Z) : Z * stream :=
  match scan_int st with
  | (None, st) => (old, st)
  | (Some v, st) => (u64 v, skip_ws st)
  end.

(** One iteration of the loop of [read_irqbalance_configuration]: the error, if
    it ends the loop.  A command whose three other letters are missing would
    compare bytes nothing has written. *)
Definition config_step (d : daemon) (st : stream) : cres (option Z * daemon * stream) :=
  match fgetc st with
  | (None, st) => Ret (Some (- EINVAL)%Z, d, st)
  | (Some c, st) =>
    if bool_decide (c = "#"%char) then Ret (None, d, skip_line st)
    else
      match scan_word 3 st with
      | (None, st) => if bool_decide (c = "c"%char ∨ c = "t"%char ∨ c = "b"%char) then Fault
                      else Ret (Some (- EINVAL)%Z, d, st)
      | (Some w, st) =>
        let cmd := c :: w in
        if streq cmd (cs "cpun") then
          let '(v, st) := scan_d st (NR_CPUS d) in Ret (None, set_cpun d v, st)
        else if streq cmd (cs "cpuo") then
          let '(v, st) := scan_d st (OFFS_CPUS d) in Ret (None, set_cpuo d v, st)
        else if streq cmd (cs "tdel") then
          let '(v, st) := scan_llu st (THREAD_DELAY d) in Ret (None, set_tdel d v, st)
        else if streq cmd (cs "blck") then
          let '(n, st) := scan_d st (irq_blacklist_num d) in
          let sz := i32 (u64 (n * 4)) in
          if negb (malloc_ok (u64 sz)) then Ret (Some (- ENOMEM)%Z, set_blacklist d [] n, st)
          else
            let! (l, st) := scan_blacklist (sz / 4) (Z.to_nat n) st in
            match l with
            | None => Ret (Some (- EINVAL)%Z, set_blacklist d [] n, st)
            | Some l => Ret (None, set_blacklist d l n, st)
            end
        else Ret (Some (- EINVAL)%Z, d, st)
      end
  end.

Fixpoint config_loop (fuel : nat) (d : daemon) (st : stream) : cres (Z * daemon) :=
  match fuel with
  | O => OutOfFuel
  | S fuel =>
    if s_eof st then Ret (0%Z, d)
    else
      let! (err, d, st) := config_step d st in
      match err with Some e => Ret (e, d) | None => config_loop fuel d st end
  end.

Definition read_irqbalance_configuration (d : daemon) (conf : option (list ascii))
    : cres (Z * daemon) :=
  match conf with
  | None => Ret (- ENOENT, d)%Z
  | Some f => config_loop (S (length f)) d (fopen_text f)
  end.

(** * The list of interrupts *)

(** "%d: ": the number, if any, and what is left. *)
Definition scan_irq (st : stream) : option Z * stream :=
  match scan_int st with
  | (None, st) => (None, st)
  | (Some v, st) =>
    match lit ":" st with
    | (true, st) => (Some (i32 v), skip_ws st)
    | (false, st) => (Some (i32 v), st)
    end
  end.

(** The counting loop, from the count [n]. *)
Fixpoint count_irqs (fuel : nat) (st : stream) (n : Z) : cres Z :=
  match fuel with
  | O => OutOfFuel
  | S fuel =>
    match scan_irq st with
    | (None, _) => Ret n
    | (Some _, st) => count_irqs fuel (skip_line st) (n + 1)
    end
  end.

(** The reading loop: [slot] is what [irqs[i]] holds before its [fscanf]; [left]
    entries are to be read. *)
Fixpoint read_irqs (fuel : nat) (blacklist : list Z) (left : nat) (slot : option Z) (st : stream)
    : cres (list (option Z)) :=
  match left with
  | O => Ret []
  | S left' =>
    match fuel with
    | O => OutOfFuel
    | S fuel =>
      let '(v, st) := scan_irq st in
      let slot := match v with Some v => Some v | None => slot end in
      let! skip :=
        match blacklist with
        | [] => Ret false
        | _ => let! v := deref slot in Ret (bool_decide (v ∈ blacklist))
        end in
      if (skip : bool) then read_irqs fuel blacklist left slot (skip_line st)
      else let! l := read_irqs fuel blacklist left' None (skip_line st) in Ret (slot :: l)
    end
  end.

Definition scan_for_irqs (d : daemon) (interrupts : option (list ascii)) : cres (Z * daemon) :=
  match interrupts with
  | None => Ret (- ENOENT, d)%Z
  | Some f =>
    let st := skip_line (fopen_text f) in
    let! n := count_irqs (S (length f)) st 0 in
    let n := (n - irq_blacklist_num d)%Z in
    let sz := i32 (u64 (n * 4)) in
    if negb (malloc_ok (u64 sz)) then Ret (- ENOMEM, set_irqs d [] n)%Z
    else
      let! l := read_irqs (S (length f)) (irq_blacklist d) (Z.to_nat n) None st in
      Ret (0%Z, set_irqs d l n)
  end.

(** * Start *)

Definition sizeof_cpudata : Z := 96.

(** The loop of [main] over the CPUs from the [i]th on. *)
Fixpoint init_cpus (d : daemon) (n : nat) (i : Z) (stats : list (option (list ascii)))
    : cres (Z * list cpudata) :=
  match n with
  | O => Ret (0%Z, [])
  | S n =>
    match stats with
    | [] => OutOfFuel
    | s :: stats =>
      let dt := mkCpu (u8 (i + OFFS_CPUS d)) false 0 0 0 0 0 0 0 0 0 0 0 in
      let '(ret, dt) := read_cpudata d s dt i in
      if negb (ret =? 0)%Z then Ret (ret, [dt])
      else let! (ret, l) := init_cpus d n (i + 1) stats in Ret (ret, dt :: l)
    end
  end.

(** [main] up to [irqbalance_loop]: its result so far and the state. *)
Definition main (conf interrupts : option (list ascii)) (stats : list (option (list ascii)))
    : cres (Z * daemon) :=
  let! (ret, d) := read_irqbalance_configuration initial conf in
  if negb (ret =? 0)%Z then Ret (ret, d)
  else
    let! (ret, d) := scan_for_irqs d interrupts in
    if negb (ret =? 0)%Z then Ret (ret, d)
    else
      let dtsz := i32 (u64 (sizeof_cpudata * NR_CPUS d)) in
      if negb (malloc_ok (u64 dtsz)) then Ret (- ENOMEM, d)%Z
      else
        let! (ret, l) := init_cpus d (Z.to_nat (NR_CPUS d)) 0 stats in
        Ret (ret, set_cpus d l).
End config.

(** * Sorting by load *)

Definition by_util (a b : cpudata) : Prop := (cpu_util a ≤ cpu_util b)%Z.

#[export] Instance by_util_trans : Transitive by_util.
Proof. intros a b c. unfold by_util. lia. Qed.

Lemma bubble_pass_spec m x l r s :
  bubble_pass m (x :: l) = (r, s) → (m ≤ length l)%nat →
  ∃ p y, r = p ++ y :: drop m l ∧ x :: take m l ≡ₚ p ++ [y] ∧ Forall (λ z, by_util z y) p ∧
    (s = false → p ++ [y] = x :: take m l ∧ StronglySorted by_util (x :: take m l)).
Proof.
  revert x l r s. induction m as [|m IH]; intros x l r s H Hm.
  - cbn in H. injection H as <- <-. exists [], x. split_and!; [done|done|constructor|].
    intros _. split; [done|]. repeat constructor.
  - destruct l as [|y l]; [simpl in Hm; lia|]. cbn [bubble_pass] in H. simpl in Hm.
    destruct (Z.gtb_spec (cpu_util x) (cpu_util y)) as [Hgt|Hle].
    + destruct (bubble_pass m (x :: l)) as [r' s'] eqn:E. injection H as <- <-.
      destruct (IH x l r' s' E ltac:(lia)) as (p & z & -> & Hp & Hall & _).
      exists (y :: p), z. split_and!; [done| |constructor; [|done]|done].
      * simpl. rewrite <- Hp. constructor.
      * assert (Hin : x ∈ p ++ [z]) by (rewrite <- Hp; by left). unfold by_util.
        rewrite elem_of_app, list_elem_of_singleton in Hin. destruct Hin as [Hin| ->]; [|lia].
        rewrite Forall_forall in Hall. specialize (Hall x Hin). unfold by_util in Hall. lia.
    + destruct (bubble_pass m (y :: l)) as [r' s'] eqn:E. injection H as <- <-.
      destruct (IH y l r' s' E ltac:(lia)) as (p & z & -> & Hp & Hall & Hs).
      assert (Hin : y ∈ p ++ [z]) by (rewrite <- Hp; by left).
      assert (Hyz : by_util y z).
      { rewrite elem_of_app, list_elem_of_singleton in Hin. destruct Hin as [Hin| ->].
        - rewrite Forall_forall in Hall. by apply Hall.
        - unfold by_util. lia. }
      exists (x :: p), z. split_and!; [done| |constructor; [|done]|].
      * simpl. by rewrite <- Hp.
      * unfold by_util in *. lia.
      * intros Hf. destruct (Hs Hf) as [Heq Hss]. simpl. split; [by rewrite <- Heq|].
        constructor; [done|]. inversion Hss as [|? ? _ Hfa]; subst. constructor.
        -- unfold by_util. lia.
        -- eapply Forall_impl; [exact Hfa|]. intros w. unfold by_util. lia.
Qed.

Lemma StronglySorted_join (a b : list cpudata) :
  StronglySorted by_util a → StronglySorted by_util b →
  (∀ x y, x ∈ a → y ∈ b → by_util x y) → StronglySorted by_util (a ++ b).
Proof.
  intros Ha Hb Hab. induction Ha as [|x a Ha IH Hx]; simpl; [done|]. constructor.
  - apply IH. intros u v Hu. apply Hab. by right.
  - apply Forall_app. split; [done|]. apply Forall_forall. intros v. apply Hab. by left.
Qed.

Lemma sort_loop_spec fuel a b :
  (length a < fuel)%nat → StronglySorted by_util b → (∀ x y, x ∈ a → y ∈ b → by_util x y) →
  ∃ r, sort_loop fuel (length a) (a ++ b) = Ret r ∧ r ≡ₚ a ++ b ∧ StronglySorted by_util r.
Proof.
  revert a b. induction fuel as [|fuel IH]; intros a b Hf Hb Hab; [lia|]. cbn [sort_loop].
  destruct a as [|x a].
  { simpl. destruct b; eexists; split_and!; done. }
  simpl length. replace (S (length a) - 1)%nat with (length a) by lia.
  cbn [app]. destruct (bubble_pass (length a) (x :: a ++ b)) as [r s] eqn:E.
  destruct (bubble_pass_spec _ _ _ _ _ E) as (p & y & -> & Hp & Hall & Hs).
  { rewrite length_app. lia. }
  rewrite drop_app_length in *. rewrite take_app_length in *.
  assert (Hyb : ∀ u v, u ∈ p ++ [y] → v ∈ b → by_util u v).
  { intros u v Hu. apply Hab. by rewrite Hp. }
  destruct s.
  - assert (Hlen : length p = length a).
    { apply Permutation_length in Hp. rewrite length_app in Hp. simpl in Hp. lia. }
    rewrite <- Hlen. destruct (IH p (y :: b)) as (r & Hr & Hperm & Hsort).
    + simpl in Hf. lia.
    + constructor; [done|]. apply Forall_forall. intros v. apply Hyb. set_solver.
    + intros u v Hu. rewrite elem_of_cons. intros [->|Hv].
      * rewrite Forall_forall in Hall. by apply Hall.
      * apply Hyb; [set_solver|done].
    + exists r. split_and!; [done| |done]. rewrite Hperm.
      replace (p ++ y :: b) with ((p ++ [y]) ++ b) by (by rewrite <- app_assoc). by rewrite <- Hp.
  - destruct (Hs eq_refl) as [Heq Hss]. exists (p ++ y :: b).
    replace (p ++ y :: b) with ((p ++ [y]) ++ b) by (by rewrite <- app_assoc).
    rewrite Heq. split_and!; [done|done|]. by apply StronglySorted_join.
Qed.

(** The exchange sort of [irqbalance_main] terminates and leaves the CPUs
    it was given in ascending order of load. *)
Theorem sort_cpus_sorts l :
  ∃ r, sort_cpus l = Ret r ∧ r ≡ₚ l ∧ StronglySorted by_util r.
Proof.
  destruct (sort_loop_spec (S (length l)) l []) as (r & H1 & H2 & H3).
  - lia.
  - constructor.
  - set_solver.
  - exists r. unfold sort_cpus. rewrite app_nil_r in H1, H2. done.
Qed.

(** * Load in percent *)

(** Between two readings of /proc/stat the counters of a CPU only grow, and the
    sums stay in 64 bits. *)
Definition later (old cur : cpudata) : Prop :=
  Forall2 Z.le (times old) (times cur) ∧ Forall (λ t, 0 ≤ t)%Z (times old) ∧
  (100 * foldr Z.add 0 (times cur) < 2 ^ 64)%Z.

(** Between two readings of growing counters the load is a percentage, and
    the division is defined exactly when some time passed. *)
Theorem utilization_percent old cur :
  later old cur →
  utilization old cur =
    (if decide (foldr Z.add 0 (times cur) = foldr Z.add 0 (times old))%Z then Fault
     else Ret (100 * (total_cputime cur - total_cputime old) /
               (foldr Z.add 0 (times cur) - foldr Z.add 0 (times old)))%Z) ∧
  ∀ u, utilization old cur = Ret u → (0 ≤ u ≤ 100)%Z.
Proof.
  intros (Hle & Hpos & Hmax). unfold times in *. cbn [foldr] in *.
  repeat match goal with H : Forall2 _ (_ :: _) (_ :: _) |- _ =>
    apply Forall2_cons in H as [? H] end.
  repeat match goal with H : Forall _ (_ :: _) |- _ => apply Forall_cons in H as [? H] end.
  assert (Ho : total_cputime old = (cputime_user old + cputime_nice old + cputime_system old +
    cputime_iowait old + cputime_irq old + cputime_softirq old + cputime_steal old +
    cputime_guest old + cputime_guest_nice old)%Z) by (apply u64_small; lia).
  assert (Hc : total_cputime cur = (cputime_user cur + cputime_nice cur + cputime_system cur +
    cputime_iowait cur + cputime_irq cur + cputime_softirq cur + cputime_steal cur +
    cputime_guest cur + cputime_guest_nice cur)%Z) by (apply u64_small; lia).
  unfold utilization. cbv zeta.
  rewrite (u64_small (total_cputime cur - total_cputime old)) by lia.
  rewrite (u64_small (total_cputime cur + _)) by lia.
  rewrite (u64_small (total_cputime old + _)) by lia.
  rewrite (u64_small (_ + _ - _)) by lia.
  rewrite (u64_small (_ * 100)) by lia.
  set (dt := (total_cputime cur + cputime_idle cur - (total_cputime old + cputime_idle old))%Z).
  assert (Hdt : (0 ≤ total_cputime cur - total_cputime old ≤ dt)%Z) by lia.
  match goal with |- context [decide (?a = ?b)] => assert (Hab : (a - b = dt)%Z) by lia end.
  destruct (Z.eqb_spec dt 0) as [E|E].
  - rewrite decide_True by lia. split; [done|]. intros u [=].
  - rewrite decide_False by lia. rewrite Hab. split; [do 2 f_equal; lia|].
    intros u [= <-]. split; [apply Z.div_pos; lia|].
    apply Z.div_le_upper_bound; lia.
Qed.

(** * Sharing out *)

Section sharing.
Context (open_ok : Z → bool).

Lemma assign_spec d (ns : list Z) mask n idx out :
  irqs d = Some <$> ns → (idx + n ≤ length ns)%nat →
  assign d open_ok mask n (Z.of_nat idx) out =
    Ret (out ++ ((λ i, (i, mask)) <$> List.filter open_ok (take n (drop idx ns)))).
Proof.
  intros Hirqs. revert idx out. induction n as [|n IH]; intros idx out Hn.
  - simpl. by rewrite app_nil_r.
  - cbn [assign]. rewrite (proj2 (Z.ltb_ge _ _)), Nat2Z.id, Hirqs, list_lookup_fmap by lia.
    destruct (lookup_lt_is_Some_2 ns idx ltac:(lia)) as [x Hx]. rewrite Hx.
    cbn [deref cbind fmap option_fmap option_map].
    replace (Z.of_nat idx + 1)%Z with (Z.of_nat (S idx)) by lia. rewrite IH by lia.
    rewrite (drop_S ns x idx Hx). cbn [take List.filter]. destruct (open_ok x); [|done].
    rewrite fmap_cons. by rewrite <- app_assoc.
Qed.

Lemma count_online_perm l l' : l ≡ₚ l' → count_online l = count_online l'.
Proof.
  intros H. unfold count_online. f_equal. apply Permutation_length.
  induction H as [|x a b _ IH|x y a|a b c _ IH1 _ IH2]; simpl.
  - constructor.
  - destruct (online x); [by constructor|done].
  - destruct (online x), (online y); done || constructor.
  - by etrans; [exact IH1|].
Qed.

(** ** Shares *)

(** The square root of the ratio of a load in percent is at most 1. *)
Definition unit_double (f : double) : bool :=
  match f with
  | SpecFloat.S754_zero _ => true
  | SpecFloat.S754_finite false m e => (e <=? 0)%Z && (Z.pos m <=? 2 ^ (- e))%Z
  | _ => false
  end.

Lemma roots_fit :
  forallb (λ u, unit_double (dsqrt (ddiv (of_int (Z.of_nat u)) (of_int 100)))) (seq 0 101) = true.
Proof. vm_compute. reflexivity. Qed.

Lemma root_between u : (0 ≤ u ≤ 100)%Z → between 0 1 (dsqrt (ddiv (of_int u) (of_int 100))).
Proof.
  intros Hu. pose proof (proj1 (forallb_forall _ _) roots_fit (Z.to_nat u)) as H. cbv beta in H.
  rewrite Z2Nat.id in H by lia. specialize (H ltac:(apply in_seq; lia)). clear Hu. revert H.
  generalize (dsqrt (ddiv (of_int u) (of_int 100))) as f. intros [s| | |[] m e]; cbn; try done.
  intros [H1 H2]%andb_true_iff. apply Z.leb_le in H1, H2. lia.
Qed.

(** The share of a load in percent is between nothing and all that is left. *)
Lemma share_bounds u left k :
  (0 ≤ u ≤ 100)%Z → (0 ≤ left < 2 ^ 53)%Z → (0 ≤ k < 2 ^ 53)%Z → (0 ≤ share u left k ≤ left)%Z.
Proof.
  intros Hu Hl Hk. unfold share. destruct (Z.eqb_spec k 0) as [->|Hk0]; [lia|].
  pose proof (of_int_between left Hl) as BL. pose proof (of_int_between k Hk) as BK.
  pose proof (mul_between 0 1 left left _ _ ltac:(lia) ltac:(lia) ltac:(lia) (root_between u Hu) BL) as BM.
  rewrite Z.mul_0_l, Z.mul_1_l in BM.
  pose proof (sub_between left left 0 left _ _ ltac:(lia) ltac:(lia) ltac:(lia) ltac:(lia) BL BM) as BS.
  rewrite Z.sub_diag, Z.sub_0_r in BS.
  apply ceil_between; [|lia]. exact (div_between left k _ _ ltac:(lia) Hl BS BK).
Qed.

(** How the interrupts are dealt to the CPUs on line, the busiest first: to each
    its share of those that are left, to the last all of them. *)
Fixpoint dealt (us : list cpudata) (ns : list Z) : list (Z * cpudata) :=
  match us with
  | [] => []
  | c :: us =>
    let n := Z.to_nat (share (i32 (cpu_util c)) (Z.of_nat (length ns)) (Z.of_nat (length us))) in
    ((λ i, (i, c)) <$> take n ns) ++ dealt us (drop n ns)
  end.

(** The masks that are written: that of the CPU for each interrupt whose file
    opens. *)
Definition masks (ics : list (Z * cpudata)) : list (Z * Z) :=
  (λ ic, (ic.1, Z.shiftl 1 (core ic.2))) <$> List.filter (λ ic, open_ok ic.1) ics.

Lemma masks_app l1 l2 : masks (l1 ++ l2) = masks l1 ++ masks l2.
Proof. unfold masks. by rewrite List.filter_app, fmap_app. Qed.

Lemma masks_one (ns : list Z) c :
  masks ((λ i, (i, c)) <$> ns) = (λ i, (i, Z.shiftl 1 (core c))) <$> List.filter open_ok ns.
Proof.
  unfold masks. induction ns as [|i ns IH]; [done|]. cbn. destruct (open_ok i); cbn; by rewrite IH.
Qed.

Lemma dealt_nil us : dealt us [] = [].
Proof. induction us as [|c us IH]; [done|]. cbn [dealt]. by rewrite take_nil, drop_nil, IH. Qed.

(** With a CPU on line every interrupt is dealt, once and in order. *)
Lemma dealt_all us ns : us ≠ [] → (dealt us ns).*1 = ns.
Proof.
  revert ns. induction us as [|c us IH]; intros ns Hne; [done|]. cbn [dealt]. set (n := Z.to_nat _).
  rewrite fmap_app, <-list_fmap_compose, list_fmap_id. destruct us as [|c2 us].
  - cbn [dealt]. rewrite app_nil_r. apply take_ge. subst n. change (Z.of_nat (length [])) with 0%Z. unfold share. rewrite Z.eqb_refl. lia.
  - rewrite IH by done. apply take_drop.
Qed.

Definition load_ok (c : cpudata) : Prop := (0 ≤ cpu_util c ≤ 100)%Z.

Lemma balance_spec d (ns : list Z) l done_ out :
  irqs d = Some <$> ns → irqs_num d = Z.of_nat (length ns) → (Z.of_nat (length ns) < 2 ^ 31)%Z →
  (∀ c, c ∈ l → online c = true → load_ok c ∧ (core c < 31)%Z) → (Z.of_nat (length l) < 2 ^ 31)%Z →
  (done_ ≤ length ns)%nat →
  balance d open_ok l (count_online l) (Z.of_nat done_) out =
    Ret (out ++ masks (dealt (List.filter online l) (drop done_ ns))).
Proof.
  intros Hirqs Hnum Hmax. revert done_ out. induction l as [|c l IH]; intros done_ out Hc Hlen Hdone.
  { cbn. by rewrite app_nil_r. }
  cbn [length] in Hlen. assert (Hc' : ∀ c, c ∈ l → online c = true → load_ok c ∧ (core c < 31)%Z)
    by (intros x Hx; apply Hc; by right).
  cbn [balance]. rewrite Hnum. destruct (Z.ltb_spec (Z.of_nat done_) (Z.of_nat (length ns))) as [Hlt|Hge].
  2: { rewrite drop_ge, dealt_nil by lia. cbn. by rewrite app_nil_r. }
  unfold count_online in *. cbn [List.filter]. destruct (online c) eqn:Eon; cbn [negb]; [|by apply IH; [|lia|]].
  destruct (Hc c ltac:(by left) Eon) as [Hload Hcore]. cbn [length]. set (us := List.filter online l) in *.
  assert (Hus : (length us ≤ length l)%nat) by apply filter_length_le.
  replace (Z.of_nat (S (length us)) - 1)%Z with (Z.of_nat (length us)) by lia.
  cbn [dealt]. rewrite length_drop.
  replace (Z.of_nat (length ns - done_)) with (Z.of_nat (length ns) - Z.of_nat done_)%Z by lia.
  assert (Hn : (0 ≤ share (i32 (cpu_util c)) (Z.of_nat (length ns) - Z.of_nat done_) (Z.of_nat (length us))
                  ≤ Z.of_nat (length ns) - Z.of_nat done_)%Z).
  { unfold load_ok in Hload. rewrite (i32_small (cpu_util c)) by lia. apply share_bounds; lia. }
  set (n := share _ _ _) in *.
  rewrite masks_app, masks_one. replace (Z.to_nat n) with (Z.to_nat n) by done. rewrite drop_drop.
  destruct (Z.leb_spec n 0) as [Hz|Hz]; cbn [cbind].
  - rewrite (proj2 (Z.leb_gt _ _)) by lia. assert (n = 0%Z) as -> by lia. cbn [Z.to_nat take List.filter fmap list_fmap app].
    rewrite Z.add_0_r, Nat.add_0_r. by apply IH; [|lia|].
  - unfold cpu_mask. rewrite Z.geb_leb, (proj2 (Z.leb_gt _ _)) by lia.
    cbn [cbind]. rewrite (assign_spec d ns) by (done || lia). cbn [cbind].
    rewrite (proj2 (Z.leb_gt _ _)) by lia.
    replace (Z.of_nat done_ + n)%Z with (Z.of_nat (done_ + Z.to_nat n)) by lia.
    rewrite (IH (done_ + Z.to_nat n)%nat) by (done || lia). by rewrite <-app_assoc.
Qed.
End sharing.

Lemma filter_rev_online (l : list cpudata) : List.filter online (rev l) = rev (List.filter online l).
Proof.
  induction l as [|c l IH]; [done|]. cbn [rev List.filter]. rewrite List.filter_app, IH. cbn.
  destruct (online c); cbn; [done|by rewrite app_nil_r].
Qed.

(** Sorted by load, the busiest CPU first. *)
Definition busier (c c' : cpudata) : Prop := by_util c' c.

Lemma sorted_snoc {A} (R : A → A → Prop) l x :
  StronglySorted R l → Forall (λ y, R y x) l → StronglySorted R (l ++ [x]).
Proof.
  induction 1 as [|y l Hl IH Hy]; intros Hx; cbn; [repeat constructor|]. apply Forall_cons in Hx as [Hyx Hx].
  constructor; [by apply IH|]. apply Forall_app. split; [done|by constructor].
Qed.

Lemma sorted_rev l : StronglySorted by_util l → StronglySorted busier (rev l).
Proof.
  induction 1 as [|c l Hl IH Hc]; [constructor|]. cbn [rev]. apply sorted_snoc; [done|].
  rewrite <-(Permutation_rev l). exact Hc.
Qed.

Lemma sorted_filter {A} (R : A → A → Prop) f l : StronglySorted R l → StronglySorted R (List.filter f l).
Proof.
  induction 1 as [|y l Hl IH Hy]; cbn; [constructor|]. destruct (f y); [|done]. constructor; [done|].
  rewrite Forall_forall in *. intros x [Hx _]%list_elem_of_In%filter_In. apply Hy. by apply list_elem_of_In.
Qed.

Lemma filter_perm (l l' : list cpudata) : l ≡ₚ l' → List.filter online l ≡ₚ List.filter online l'.
Proof.
  induction 1 as [|x l l' _ IH|x y l|l1 l2 l3 _ IH1 _ IH2]; cbn; [done| | |by rewrite IH1].
  - destruct (online x); [by f_equiv|done].
  - destruct (online x), (online y); try done. apply Permutation_swap.
Qed.

(** C24. One round of [irqbalance_main] deals the interrupts to the CPUs on line,
    from the busiest to the least busy: each gets the next ones, as many as the
    square root of its load leaves it of those that remain, and the last gets
    the rest.  The mask of that one CPU is written for each interrupt whose file
    opens, once and in the order of the list; no index leaves the list, and with
    a CPU on line every interrupt has its turn. *)
Theorem irqbalance_main_assigns d open_ok ns :
  irqs d = Some <$> ns → irqs_num d = Z.of_nat (length ns) →
  (Z.of_nat (length ns) < 2 ^ 31)%Z → (Z.of_nat (length (cpus d)) < 2 ^ 31)%Z →
  (∀ c, c ∈ cpus d → online c = true → load_ok c ∧ (core c < 31)%Z) →
  ∃ us, us ≡ₚ List.filter online (cpus d) ∧ StronglySorted busier us ∧
    irqbalance_main d open_ok = Ret (masks open_ok (dealt us ns)) ∧ (us ≠ [] → (dealt us ns).*1 = ns).
Proof.
  intros Hirqs Hnum Hmax Hcpus Hc. unfold irqbalance_main.
  destruct (sort_loop_spec (S (length (cpus d))) (cpus d) []) as (l & Hl & Hp & Hs);
    [lia|constructor|set_solver|]. rewrite app_nil_r in Hl, Hp.
  unfold sort_cpus. rewrite Hl. cbn [cbind].
  assert (Hrl : rev l ≡ₚ cpus d) by (by rewrite <- Permutation_rev).
  rewrite (count_online_perm l (rev l)) by apply Permutation_rev.
  exists (List.filter online (rev l)). split; [by apply filter_perm|].
  split; [by apply sorted_filter, sorted_rev|]. split; [|apply dealt_all].
  apply (balance_spec open_ok d ns (rev l) 0 []); try done; [|by rewrite (Permutation_length Hrl)|lia].
  intros c Hin. apply Hc. by rewrite <-Hrl.
Qed.

(** * The list of interrupts *)

(** A line "  <digits>: <rest>" of /proc/interrupts. *)
Record irq_line := mkIrqLine { il_space : list ascii; il_digits : list ascii; il_rest : list ascii }.

Definition irq_line_ok (l : irq_line) : Prop :=
  Forall (λ c, isspace c = true) (il_space l) ∧ il_digits l ≠ [] ∧
  Forall (λ c, isdigit c = true) (il_digits l) ∧
  chr 10 ∉ il_rest l ∧ (match il_rest l with c :: _ => isspace c = false | [] => False end).

Definition irq_of (l : irq_line) : Z := i32 (digits_val (il_digits l)).

(** The lines and what comes after the numeric interrupts. *)
Fixpoint irq_text (ls : list irq_line) (tail : list ascii) : list ascii :=
  match ls with
  | [] => tail
  | l :: ls => il_space l ++ il_digits l ++ cs ": " ++ il_rest l ++ chr 10 :: irq_text ls tail
  end.

(** Nothing more, or a word that is not a number. *)
Definition no_number (tail : list ascii) : Prop :=
  match tail with
  | [] => True
  | c :: _ => isspace c = false ∧ isdigit c = false ∧ c ≠ "-"%char ∧ c ≠ "+"%char
  end.

Lemma scan_irq_skip_ws st : scan_irq (skip_ws st) = scan_irq st.
Proof. unfold scan_irq. by rewrite scan_int_skip_ws. Qed.

Lemma scan_irq_line l ls tail e :
  irq_line_ok l →
  scan_irq (mkStream (irq_text (l :: ls) tail) e) =
    (Some (irq_of l), mkStream (il_rest l ++ chr 10 :: irq_text ls tail) e).
Proof.
  intros (Hs & Hne & Hd & Hn & Hr). unfold scan_irq. cbn [irq_text].
  rewrite scan_int_digits; [|done|done|done|by intros c r' [= <- _]].
  change (cs ": ") with [":"%char; " "%char]. cbn [app].
  rewrite (bool_decide_false (":"%char :: _ = [])) by done. rewrite orb_false_r.
  unfold lit. cbn [s_rest s_eof]. rewrite bool_decide_true by done. unfold skip_ws, at_rest.
  cbn [s_rest s_eof span]. change (isspace " ") with true.
  rewrite (span_none isspace (il_rest l ++ _)) by (by destruct (il_rest l)).
  cbn [snd]. rewrite bool_decide_false by (by destruct (il_rest l)). by rewrite orb_false_r.
Qed.

Lemma skip_irq_line l ls tail e :
  irq_line_ok l →
  skip_line (mkStream (il_rest l ++ chr 10 :: irq_text ls tail) e) =
    skip_ws (mkStream (irq_text ls tail) e).
Proof. intros (_ & _ & _ & Hn & Hr). apply skip_line_ws; [by destruct (il_rest l)|done]. Qed.

Lemma scan_irq_tail tail e : no_number tail → (scan_irq (mkStream tail e)).1 = None.
Proof.
  intros Ht. unfold scan_irq, scan_int, skip_ws. cbn [s_rest]. destruct tail as [|c tail].
  - done.
  - destruct Ht as (Hs & Hd & Hm & Hp). rewrite (span_none isspace) by done. cbn [snd s_rest at_rest].
    rewrite !bool_decide_false by done. by rewrite (span_none isdigit) by done.
Qed.

Lemma count_irqs_spec ls tail fuel e n :
  Forall irq_line_ok ls → no_number tail → (length ls < fuel)%nat →
  count_irqs fuel (skip_ws (mkStream (irq_text ls tail) e)) n = Ret (n + Z.of_nat (length ls))%Z.
Proof.
  intros Hls Ht. revert fuel e n. induction Hls as [|l ls Hl Hls IH]; intros [|fuel] e n Hf;
    simpl in Hf; try lia; cbn [count_irqs]; rewrite scan_irq_skip_ws.
  - pose proof (scan_irq_tail tail e Ht) as Hnone. cbn [irq_text].
    destruct (scan_irq _) as [[v|] st]; [done|]. simpl. f_equal. lia.
  - rewrite scan_irq_line, skip_irq_line, IH by (done || lia). f_equal. simpl. lia.
Qed.

Lemma read_irqs_spec bl ls tail fuel e left slot :
  Forall irq_line_ok ls → (length ls < fuel)%nat →
  (left ≤ length (filter (λ i, i ∉ bl) (irq_of <$> ls)))%nat →
  read_irqs fuel bl left slot (skip_ws (mkStream (irq_text ls tail) e)) =
    Ret (Some <$> take left (filter (λ i, i ∉ bl) (irq_of <$> ls))).
Proof.
  intros Hls. revert fuel e left slot.
  induction Hls as [|l ls Hl Hls IH]; intros [|fuel] e [|left] slot Hf Hleft; simpl in Hf; try lia;
    try done; [simpl in Hleft; lia|].
  cbn [read_irqs]. rewrite scan_irq_skip_ws, scan_irq_line by done.
  assert (Hskip : match bl with [] => Ret false
    | _ => let! v := deref (Some (irq_of l)) in Ret (bool_decide (v ∈ bl)) end =
    Ret (bool_decide (irq_of l ∈ bl))).
  { destruct bl; [|done]. by rewrite bool_decide_false by apply not_elem_of_nil. }
  rewrite Hskip. cbn [cbind]. rewrite skip_irq_line by done.
  rewrite fmap_cons, filter_cons in *. case_bool_decide as Hin.
  - rewrite decide_False by tauto. rewrite decide_False in Hleft by tauto.
    apply IH; [lia|done].
  - rewrite decide_True in * by done. simpl in Hleft. rewrite IH by lia. done.
Qed.

Lemma length_irq_text ls tail : (length ls ≤ length (irq_text ls tail))%nat.
Proof.
  induction ls as [|l ls IH]; simpl; [lia|]. rewrite !length_app. simpl. rewrite length_app. simpl. lia.
Qed.

(** At most as many interrupts are left out as the blacklist has entries. *)
Lemma filter_blacklist_length (bl l : list Z) :
  NoDup l → (length l ≤ length bl + length (filter (λ i, i ∉ bl) l))%nat.
Proof.
  intros Hl. pose proof (Permutation_length (filter_app_complement (λ i, i ∈ bl) l)) as Hsplit.
  rewrite length_app in Hsplit. cbv beta in Hsplit.
  assert (length (filter (λ i, i ∈ bl) l) ≤ length bl)%nat; [|lia].
  apply submseteq_length, NoDup_submseteq; [by apply NoDup_filter|].
  intros x. rewrite list_elem_of_filter. tauto.
Qed.

(** [scan_for_irqs] reads the numeric interrupts of /proc/interrupts in
    order, leaves out the blacklisted ones, and stops.  As many entries are kept
    as there are interrupts less the length of the blacklist, which never
    exceeds what there is to keep. *)
Theorem scan_for_irqs_lists malloc_ok d header ls tail :
  (∀ n, malloc_ok n = true) → header ≠ [] → chr 10 ∉ header →
  Forall irq_line_ok ls → no_number tail → NoDup (irq_of <$> ls) →
  irq_blacklist_num d = Z.of_nat (length (irq_blacklist d)) →
  ∃ d', scan_for_irqs malloc_ok d (Some (header ++ chr 10 :: irq_text ls tail)) = Ret (0%Z, d') ∧
    irqs_num d' = (Z.of_nat (length ls) - irq_blacklist_num d)%Z ∧
    irqs d' = Some <$> take (Z.to_nat (irqs_num d'))
                         (filter (λ i, i ∉ irq_blacklist d) (irq_of <$> ls)) ∧
    length (irqs d') = Z.to_nat (irqs_num d').
Proof.
  intros Hm Hh Hnl Hls Ht Hnd Hbl. unfold scan_for_irqs, fopen_text.
  rewrite skip_line_ws by done.
  assert (Hf : (length ls < S (length (header ++ chr 10%Z :: irq_text ls tail)))%nat).
  { rewrite length_app. simpl. pose proof (length_irq_text ls tail). lia. }
  rewrite count_irqs_spec by done. cbn [cbind]. rewrite Hm. cbn [negb].
  pose proof (filter_blacklist_length (irq_blacklist d) _ Hnd) as Hlen.
  rewrite length_fmap in Hlen.
  rewrite read_irqs_spec by (done || lia). cbn [cbind]. eexists. split; [reflexivity|].
  cbn [set_irqs irqs irqs_num]. split; [lia|]. split; [done|].
  rewrite length_fmap, length_take. lia.
Qed.

(** * Concrete instances *)

Definition sample_lines : list irq_line :=
  [mkIrqLine (cs "  ") (cs "5") (cs "1 2 timer"); mkIrqLine (cs "  ") (cs "7") (cs "3 4 gpio");
   mkIrqLine (cs " ") (cs "12") (cs "0 9 mmc0")].

Definition sample_header : list ascii := cs "     CPU0  CPU1".

Lemma scan_for_irqs_lists_witness : ∃ d',
  scan_for_irqs (λ _, true) (set_blacklist initial [7%Z] 1)
    (Some (sample_header ++ chr 10 :: irq_text sample_lines (cs "IPI0: 4"))) = Ret (0%Z, d') ∧
  irqs_num d' = 2%Z.
Proof.
  destruct (scan_for_irqs_lists (λ _, true) (set_blacklist initial [7%Z] 1) sample_header
    sample_lines (cs "IPI0: 4")) as (d' & H1 & H2 & _).
  - reflexivity.
  - discriminate.
  - apply (bool_decide_unpack _). vm_compute. exact I.
  - repeat constructor; try discriminate; apply (bool_decide_unpack _); vm_compute; exact I.
  - repeat split; discriminate.
  - apply (bool_decide_unpack _). vm_compute. exact I.
  - reflexivity.
  - exact (ex_intro _ d' (conj H1 H2)).
Defined.

(** A blacklisted number that is no interrupt costs the last interrupt its
    place in the list. *)
Lemma blacklist_drops_interrupt :
  match scan_for_irqs (λ _, true) (set_blacklist initial [99%Z] 1)
          (Some (sample_header ++ chr 10 :: irq_text sample_lines [])) with
  | Ret (_, d') => irqs d' = [Some 5%Z; Some 7%Z]
  | _ => False
  end.
Proof. vm_compute. reflexivity. Qed.

Definition sample_cpu (i : Z) (on : bool) (u : Z) : cpudata :=
  mkCpu i on 0 0 0 0 0 0 0 0 0 0 u.

Definition sample_daemon : daemon :=
  mkDaemon 3 4 1000000 [Some 5%Z; Some 12%Z; Some 13%Z] 3 [] 0
    [sample_cpu 4 true 80; sample_cpu 5 true 20; sample_cpu 6 false 0].

(** The CPU 4, at 80%, gets one interrupt, the CPU 5, at 20%, the two others. *)
Lemma irqbalance_main_assigns_witness :
  irqbalance_main sample_daemon (λ _, true) = Ret [(5, 16); (12, 32); (13, 32)]%Z ∧
  ∃ us, us ≡ₚ List.filter online (cpus sample_daemon) ∧ StronglySorted busier us ∧
    irqbalance_main sample_daemon (λ _, true) = Ret (masks (λ _, true) (dealt us [5; 12; 13]%Z)) ∧
    (us ≠ [] → (dealt us [5; 12; 13]%Z).*1 = [5; 12; 13]%Z).
Proof.
  split; [vm_compute; reflexivity|]. apply (irqbalance_main_assigns sample_daemon (λ _, true) [5; 12; 13]%Z).
  - reflexivity.
  - reflexivity.
  - vm_compute. reflexivity.
  - vm_compute. reflexivity.
  - intros c Hc _. cbn [sample_daemon cpus] in Hc. rewrite !elem_of_cons in Hc.
    destruct Hc as [->|[->|[->|Hc]]]; try (by apply not_elem_of_nil in Hc);
    unfold load_ok; cbn; lia.
Defined.

Lemma utilization_percent_witness :
  let old := mkCpu 4 true 10 0 5 100 0 0 0 0 0 0 0 in
  let cur := mkCpu 4 true 40 0 10 165 0 0 0 0 0 0 0 in
  utilization old cur = Ret 35%Z.
Proof.
  intros old cur. refine (eq_trans (proj1 (utilization_percent old cur _)) _).
  - repeat split; repeat constructor; vm_compute; congruence.
  - vm_compute. reflexivity.
Defined.

(** Two readings within one tick divide by zero. *)
Lemma utilization_same_tick c : utilization c c = Fault.
Proof.
  unfold utilization. cbv zeta.
  replace (u64 (total_cputime c + cputime_idle c) - u64 (total_cputime c + cputime_idle c))%Z
    with 0%Z by lia. done.
Qed.
