(* ===== verification/ZeroModel.v ===== *)
(** include/zero-helpers.h and include/samsung_audio-common.h: which model of the
    phone the boot loader belongs to, and what depends on it. *)

From Stdlib Require Import ZArith Lia Ascii.
From stdpp Require Import base numbers strings gmap list.
From S2P Require Import Prelude CString.

Inductive zero_model := UNDEFINED | DEFAULT | INDIA | TMOBILE | CANADA | SPRINT.

#[export] Instance zero_model_eq_dec : EqDecision zero_model.
Proof. solve_decision. Defined.

Definition PROPERTY_VALUE_MAX : Z := 92.

(** [!strncmp(bootloader, p, n)] for one of the names. *)
Definition one_of (bootloader : cstr) (names : list (string * nat)) : bool :=
  existsb (λ p, strneq bootloader (cs p.1) p.2) names.

Definition india_names : list (string * nat) :=
  [("G920I", 5); ("G925I", 5); ("G928I", 5); ("N920I", 5)]%string%nat.
Definition tmobile_names : list (string * nat) :=
  [("G920T", 5); ("G925T", 5); ("G928T", 5); ("N920T", 5)]%string%nat.
Definition canada_names : list (string * nat) :=
  [("G920W8", 6); ("G925W8", 6); ("G928W8", 6); ("N920W8", 6)]%string%nat.
Definition sprint_names : list (string * nat) :=
  [("G920P", 6); ("G925P", 6); ("G920R4", 6); ("G925R4", 6); ("G9200", 6);
   ("G9250", 6); ("G9208", 6); ("G9258", 6); ("G9209", 6); ("G9259", 6)]%string%nat.

(** [zero_model_read]: [cached] is the static [__zero_model], [bootloader] the
    property.  The result is also the new value of the static. *)
Definition zero_model_read (cached : zero_model) (bootloader : cstr) : zero_model :=
  if negb (bool_decide (cached = UNDEFINED)) then cached
  else
    let bootloader_len := Z.of_nat (length bootloader) in
    if (bootloader_len <=? 0)%Z || (bootloader_len >=? PROPERTY_VALUE_MAX)%Z then UNDEFINED
    else if one_of bootloader india_names then INDIA
    else if one_of bootloader tmobile_names then TMOBILE
    else if one_of bootloader canada_names then CANADA
    else if one_of bootloader sprint_names then SPRINT
    else DEFAULT.

Definition zero_audio_supports_audience (model : zero_model) : bool :=
  match model with TMOBILE | CANADA | SPRINT => true | _ => false end.

Definition zero_audio_select_mixer_paths (model : zero_model) : cstr :=
  if zero_audio_supports_audience model then cs "/vendor/etc/mixer_paths-audience.xml"
  else cs "/vendor/etc/mixer_paths.xml".

(** * What is recognised *)

(** Comparing one character more than the pattern has compares its end too. *)
Lemma strneq_exact s p : strneq s p (S (length p)) = true ↔ s = p.
Proof.
  rewrite strneq_take. rewrite (take_ge p) by lia. split; [|intros ->; by rewrite take_ge by lia].
  intros H. destruct (decide (length s ≤ length p)%nat) as [Hl|Hl].
  - by rewrite take_ge in H by lia.
  - apply (f_equal length) in H. rewrite length_take in H. lia.
Qed.

Definition starts_with (names : list string) (b : cstr) : Prop :=
  Exists (λ p, cs p `prefix_of` b) names.

Lemma one_of_prefix b names :
  one_of b ((λ p, (p, length (cs p))) <$> names) = true ↔ starts_with names b.
Proof.
  unfold one_of, starts_with. rewrite existsb_exists, Exists_exists. split.
  - intros (p & Hp & H). apply list_elem_of_In, list_elem_of_fmap in Hp as (q & -> & Hq).
    exists q. split; [done|]. by apply strneq_prefix_r.
  - intros (q & Hq & H). exists (q, length (cs q)). split.
    + apply list_elem_of_In, list_elem_of_fmap. eauto.
    + by apply strneq_prefix_r.
Qed.

Lemma one_of_app b n1 n2 : one_of b (n1 ++ n2) = one_of b n1 || one_of b n2.
Proof. apply existsb_app. Qed.

Lemma one_of_exact b names :
  one_of b ((λ p, (p, S (length (cs p)))) <$> names) = true ↔ b ∈ (cs <$> names).
Proof.
  unfold one_of. rewrite existsb_exists, list_elem_of_fmap. split.
  - intros (p & Hp & H). apply list_elem_of_In, list_elem_of_fmap in Hp as (q & -> & Hq).
    exists q. split; [|done]. by apply strneq_exact.
  - intros (q & -> & Hq). exists (q, S (length (cs q))). split.
    + apply list_elem_of_In, list_elem_of_fmap. eauto.
    + by apply strneq_exact.
Qed.

(** Names that differ within the characters compared exclude each other. *)
Definition clash (p q : string * nat) : bool :=
  negb (bool_decide (take (p.2 `min` q.2) (cs p.1) = take (p.2 `min` q.2) (cs q.1))).

Lemma one_of_exclusive b A B :
  forallb (λ p, forallb (clash p) B) A = true → one_of b A = true → one_of b B = false.
Proof.
  intros Hc HA. destruct (one_of b B) eqn:HB; [|done]. exfalso. revert HA HB.
  unfold one_of. rewrite !existsb_exists.
  intros (p & Hp & Ep) (q & Hq & Eq). rewrite forallb_forall in Hc. specialize (Hc p Hp).
  cbv beta in Hc. rewrite forallb_forall in Hc. specialize (Hc q Hq).
  unfold clash in Hc. apply negb_true_iff, bool_decide_eq_false in Hc. apply Hc.
  apply strneq_take in Ep, Eq.
  trans (take (p.2 `min` q.2) b).
  - by rewrite Nat.min_comm, <-!take_take, Ep.
  - by rewrite <-!take_take, Eq.
Qed.

Lemma one_of_sprint b :
  one_of b sprint_names = true ↔
  starts_with ["G920R4"; "G925R4"]%string b ∨
  b ∈ cs <$> ["G920P"; "G925P"; "G9200"; "G9250"; "G9208"; "G9258"; "G9209"; "G9259"]%string.
Proof.
  rewrite <-one_of_prefix, <-one_of_exact, <-orb_true_iff, <-one_of_app.
  unfold one_of. rewrite !existsb_exists. f_equiv. intros p. f_equiv.
  unfold sprint_names. cbn [In app fmap list_fmap]. cbn [length cs String.list_ascii_of_string]. tauto.
Qed.

Lemma zero_model_read_lists b :
  (0 < Z.of_nat (length b) < PROPERTY_VALUE_MAX)%Z →
  let m := zero_model_read UNDEFINED b in
  m ≠ UNDEFINED ∧
  (m = INDIA ↔ one_of b india_names = true) ∧ (m = TMOBILE ↔ one_of b tmobile_names = true) ∧
  (m = CANADA ↔ one_of b canada_names = true) ∧ (m = SPRINT ↔ one_of b sprint_names = true).
Proof.
  intros Hb. unfold zero_model_read. rewrite bool_decide_eq_true_2 by done. cbv zeta.
  rewrite (proj2 (Z.leb_gt _ _)), Z.geb_leb, (proj2 (Z.leb_gt _ _)) by lia. cbn [negb orb].
  pose proof (one_of_exclusive b india_names tmobile_names eq_refl).
  pose proof (one_of_exclusive b india_names canada_names eq_refl).
  pose proof (one_of_exclusive b india_names sprint_names eq_refl).
  pose proof (one_of_exclusive b tmobile_names canada_names eq_refl).
  pose proof (one_of_exclusive b tmobile_names sprint_names eq_refl).
  pose proof (one_of_exclusive b canada_names sprint_names eq_refl).
  destruct (one_of b india_names), (one_of b tmobile_names), (one_of b canada_names),
    (one_of b sprint_names); naive_solver.
Qed.

(** A first read classifies the boot loader by its first letters, in the
    order of the tests, with one exception: of the boot loaders of the Sprint
    models only "G920R4..." and "G925R4..." are recognised by their first
    letters; the other eight names must be the whole string, because six
    characters of a five-character name are compared.  A second read returns
    the first result. *)
Theorem zero_model_read_classifies b b' :
  (0 < Z.of_nat (length b) < PROPERTY_VALUE_MAX)%Z →
  let m := zero_model_read UNDEFINED b in
  zero_model_read m b' = m ∧
  (m = INDIA ↔ starts_with ["G920I"; "G925I"; "G928I"; "N920I"]%string b) ∧
  (m = TMOBILE ↔ starts_with ["G920T"; "G925T"; "G928T"; "N920T"]%string b) ∧
  (m = CANADA ↔ starts_with ["G920W8"; "G925W8"; "G928W8"; "N920W8"]%string b) ∧
  (m = SPRINT ↔ starts_with ["G920R4"; "G925R4"]%string b ∨
     b ∈ cs <$> ["G920P"; "G925P"; "G9200"; "G9250"; "G9208"; "G9258"; "G9209"; "G9259"]%string).
Proof.
  intros Hb m.
  rewrite <-one_of_sprint, <-!one_of_prefix.
  destruct (zero_model_read_lists b Hb) as [Hu Hd]. split; [|exact Hd].
  unfold m, zero_model_read at 1. by rewrite bool_decide_eq_false_2.
Qed.

Lemma zero_model_read_classifies_witness :
  let m := zero_model_read UNDEFINED (cs "G920W8VLU5CQB3") in
  zero_model_read m (cs "G920F") = m ∧ m = CANADA.
Proof.
  split; [|reflexivity].
  exact (proj1 (zero_model_read_classifies (cs "G920W8VLU5CQB3") (cs "G920F")
    (conj eq_refl eq_refl))).
Defined.

(** A boot loader of a Sprint phone has more letters than the name tested. *)
Example sprint_boot_loader_not_recognised :
  zero_model_read UNDEFINED (cs "G920PVPU4DQB1") = DEFAULT ∧
  zero_model_read UNDEFINED (cs "G9200ZCU2ERB1") = DEFAULT ∧
  zero_model_read UNDEFINED (cs "G920R4VVU4DQB1") = SPRINT.
Proof. repeat split. Qed.
