(* ===== verification/Rild.v ===== *)
(** hardware/rild/rild.c: the radio daemon picks the vendor library for the model
    of the phone, loads it and gives it its arguments. *)

From Stdlib Require Import ZArith Lia Ascii.
From stdpp Require Import base numbers strings gmap list.
From S2P Require Import Prelude CString Sys Scanf Strtol ZeroModel.

Definition MAX_LIB_ARGS : nat := 16.
Definition MAX_RILDS : Z := 3.
Definition MAX_SERVICE_NAME_LENGTH : nat := 6.
Definition MAX_CLIENT_ID_LENGTH : nat := 2.
Definition PATH_MAX : nat := 4096.
Definition EXIT_FAILURE : Z := 1.

(** [strtok] with the one delimiter " ": the token and what is left. *)
Definition is_space (c : ascii) : bool := bool_decide (c = " "%char).

Definition strtok (s : cstr) : option (cstr * cstr) :=
  match (span is_space s).2 with
  | [] => None
  | r => let '(tok, r') := span (λ c, negb (is_space c)) r in Some (tok, tail r')
  end.

(** An array of [char *]: storing outside it is undefined. *)
Notation slots := (list (option cstr)).

Definition store (a : slots) (i : nat) (v : cstr) : cres slots :=
  if (i <? length a)%nat then Ret (<[i := Some v]> a) else Fault.

Fixpoint make_argv_loop (fuel : nat) (s : cstr) (argv : slots) (count : nat) : cres (nat * slots) :=
  match fuel with
  | O => OutOfFuel
  | S fuel =>
    match strtok s with
    | None => Ret (count, argv)
    | Some (tok, s) => let! argv := store argv count tok in make_argv_loop fuel s argv (S count)
    end
  end.

(** Each token takes a character at least. *)
Definition make_argv (args : cstr) (argv : slots) : cres (nat * slots) :=
  make_argv_loop (S (length args)) args argv 1.

(** The options of [main]: [oi] is the index at which its loop stopped. *)
Record opts := mkOpts {
  rilLibPath : option cstr; clientId : option cstr; rilImplSuffix : option cstr;
  hasLibArgs : bool; oi : nat }.

Definition no_opts : opts := mkOpts None None None false 1.

Definition with_lib (v : cstr) (o : opts) := mkOpts (Some v) (clientId o) (rilImplSuffix o) (hasLibArgs o) (oi o + 2).
Definition with_client (v : cstr) (o : opts) := mkOpts (rilLibPath o) (Some v) (rilImplSuffix o) (hasLibArgs o) (oi o + 2).
Definition with_suffix (v : cstr) (o : opts) := mkOpts (rilLibPath o) (clientId o) (Some v) (hasLibArgs o) (oi o + 2).
Definition with_args (o : opts) := mkOpts (rilLibPath o) (clientId o) (rilImplSuffix o) true (oi o + 1).

(** The loop on [argv[i]], [args] being the arguments from [i] on; [None]:
    [usage]. *)
Fixpoint parse_opts (args : list cstr) (o : opts) : option opts :=
  match args with
  | [] => Some o
  | a :: rest =>
    match rest with
    | v :: rest' =>
      if streq a (cs "-l") then parse_opts rest' (with_lib v o)
      else if streq a (cs "--") then Some (with_args o)
      else if streq a (cs "-c") then parse_opts rest' (with_client v o)
      else if streq a (cs "-s") then parse_opts rest' (with_suffix v o)
      else None
    | [] => if streq a (cs "--") then Some (with_args o) else None
    end
  end.

Definition lib_base (model : zero_model) : cstr :=
  match model with
  | INDIA => cs "/vendor/lib64/libsec-ril-india"
  | TMOBILE => cs "/vendor/lib64/libsec-ril-tmobile"
  | CANADA => cs "/vendor/lib64/libsec-ril-canada"
  | SPRINT => cs "/vendor/lib64/libsec-ril-spr"
  | _ => cs "/vendor/lib64/libsec-ril"
  end.

(** The path put together in [newRilLibPath]. *)
Definition auto_path (model : zero_model) (suffix : option cstr) : cres cstr :=
  let p := lib_base model ++ match suffix with Some s => cs "-" ++ s | None => [] end ++ cs ".so" in
  if (length p <? PATH_MAX)%nat then Ret p else Fault.

Definition property_get (name : string) : io cstr :=
  do! r := call "property_get" [AS (cs name)] in IRet (c_str_of (r_out r)).

(** The path of the library; [__zero_model] is not cached when [main] starts. *)
Definition lib_path (o : opts) : io cstr :=
  match rilLibPath o with
  | Some p => IRet p
  | None =>
    do! bootloader := property_get "ro.bootloader" in
    of_cres (auto_path (zero_model_read UNDEFINED bootloader) (rilImplSuffix o))
  end.

Definition set_service_name (ril_service_name_base : cstr) (id : cstr) : io unit :=
  if strneq id (cs "0") MAX_CLIENT_ID_LENGTH then IRet tt
  else call_ "snprintf" [AS (take (MAX_SERVICE_NAME_LENGTH - 1) (ril_service_name_base ++ id))].

Definition slot_arg (s : option cstr) : arg := match s with Some v => AS v | None => AZ 0 end.

(** The arguments of the library: their number and the array. *)
Definition lib_args (argv : list cstr) (o : opts) : io (nat * slots) :=
  if hasLibArgs o then
    IRet (length argv - oi o + 1, drop (oi o - 1) ((Some <$> argv) ++ [None]))%nat
  else
    do! args := property_get "rild.libargs" in
    of_cres (make_argv args (replicate MAX_LIB_ARGS None)).

(** "-c" and the client after them, the program's name before them. *)
Definition finish_args (argv0 : cstr) (id : cstr) (n : nat) (a : slots) : cres (nat * slots) :=
  let! a := store a n (cs "-c") in
  let! a := store a (n + 1) id in
  let! a := store a 0 argv0 in
  Ret (n + 2, a)%nat.

(** The arguments [RIL_Init] is given: their number and as many slots. *)
Definition ril_args (argv : list cstr) (argv0 id : cstr) (o : opts) : io (nat * slots) :=
  do! na := lib_args argv o in
  of_cres (let! na := finish_args argv0 id na.1 na.2 in Ret (na.1, take na.1 na.2)).

Definition run_library (argv : list cstr) (argv0 id : cstr) (o : opts) (rilInit rilUimInit : Z) : io unit :=
  do! na := ril_args argv argv0 id o in
  let rilArgv := AZ (Z.of_nat na.1) :: (slot_arg <$> na.2) in
  do! funcs := call_ret "RIL_Init" rilArgv in
  call_ "RIL_register" [AZ funcs] ;!
  (if (rilUimInit =? 0)%Z then IRet tt
   else call_ "RIL_register_socket" (AZ rilUimInit :: rilArgv)) ;!
  call_ "rilc_thread_pool" [].

Fixpoint sleep_loop (fuel : nat) : io unit :=
  match fuel with
  | O => IFuel
  | S fuel => call_ "sleep" [AZ UINT32_MAX] ;! sleep_loop fuel
  end.

Definition main (ril_service_name_base : cstr) (fuel : nat) (argv0 : cstr) (args : list cstr) : io unit :=
  let argv := argv0 :: args in
  call_ "umask" [AZ 63] ;!
  match parse_opts args no_opts with
  | None => IExit EXIT_FAILURE
  | Some o =>
    do! id := match clientId o with
              | None => IRet (cs "0")
              | Some c =>
                do! n := of_cres (atoi c) in
                if (n >=? MAX_RILDS)%Z then IExit 0 else IRet c
              end in
    set_service_name ril_service_name_base id ;!
    do! path := lib_path o in
    do! dlHandle := call_ret "dlopen" [AS path] in
    if (dlHandle =? 0)%Z then call_ "dlerror" [] ;! IExit EXIT_FAILURE
    else
      call_ "RIL_startEventLoop" [] ;!
      do! rilInit := call_ret "dlsym" [AZ dlHandle; AS (cs "RIL_Init")] in
      if (rilInit =? 0)%Z then IExit EXIT_FAILURE
      else
        call_ "dlerror" [] ;!
        do! rilUimInit := call_ret "dlsym" [AZ dlHandle; AS (cs "RIL_SAP_Init")] in
        call_ "dlerror" [] ;!
        run_library argv argv0 id o rilInit rilUimInit ;!
        sleep_loop fuel
  end.

(** * The tokens *)

(** The reference: the words between the spaces. *)
Fixpoint split_spaces (s : cstr) : list cstr :=
  match s with
  | [] => [[]]
  | c :: s =>
    match split_spaces s with
    | w :: ws => if is_space c then [] :: w :: ws else (c :: w) :: ws
    | [] => []
    end
  end.

Definition words (s : cstr) : list cstr := filter (.≠ []) (split_spaces s).

Lemma split_spaces_cons s : ∃ w ws, split_spaces s = w :: ws.
Proof.
  induction s as [|c s (w & ws & IH)]; [eauto|]. simpl. rewrite IH. destruct (is_space c); eauto.
Qed.

Lemma words_space c s : is_space c = true → words (c :: s) = words s.
Proof.
  intros Hc. unfold words. cbn [split_spaces].
  destruct (split_spaces_cons s) as (w & ws & ->). rewrite Hc. done.
Qed.

Lemma words_spaces s : words (span is_space s).2 = words s.
Proof.
  induction s as [|c s IH]; [done|]. simpl. destruct (is_space c) eqn:E; [|done].
  rewrite words_space by done. by destruct (span is_space s).
Qed.

Lemma split_spaces_word tok r :
  Forall (λ c, negb (is_space c) = true) tok →
  match r with [] => True | c :: _ => is_space c = true end →
  split_spaces (tok ++ r) = tok :: match r with [] => [] | _ :: r => split_spaces r end.
Proof.
  intros Ht Hr. induction Ht as [|c tok Hc Ht IH]; simpl.
  - destruct r as [|c r]; [done|]. simpl. rewrite Hr. by destruct (split_spaces_cons r) as (? & ? & ->).
  - rewrite IH. apply negb_true_iff in Hc. by rewrite Hc.
Qed.

Lemma span_parts p s : let '(a, b) := span p s in
  s = a ++ b ∧ Forall (λ c, p c = true) a ∧ match b with c :: _ => p c = false | [] => True end.
Proof.
  induction s as [|c s IH]; simpl; [done|]. destruct (p c) eqn:E; [|done].
  destruct (span p s) as [a b]. destruct IH as (-> & Ha & Hb). auto.
Qed.

(** [strtok] takes the first word off. *)
Lemma strtok_words s :
  match strtok s with
  | None => words s = []
  | Some (tok, s') => words s = tok :: words s' ∧ (length s' < length s)%nat
  end.
Proof.
  unfold strtok. pose proof (span_parts is_space s) as H1. pose proof (words_spaces s) as Hw.
  destruct (span is_space s) as [a r]. cbn [snd] in *. destruct H1 as (-> & _ & Hr).
  destruct r as [|c r]; [by rewrite <-Hw|].
  pose proof (span_parts (λ c, negb (is_space c)) (c :: r)) as H2.
  destruct (span (λ c, negb (is_space c)) (c :: r)) as [tok r'] eqn:E. destruct H2 as (Hcr & Ht & Hr').
  destruct tok as [|x tok].
  { cbn [span] in E. rewrite Hr in E. cbn in E. destruct (span _ r); discriminate. }
  rewrite <-Hw, Hcr. split.
  - unfold words at 1. rewrite split_spaces_word; [|done|destruct r'; [done|by apply negb_false_iff]].
    rewrite filter_cons_True by done. by destruct r'.
  - rewrite !length_app. destruct r'; simpl; lia.
Qed.

(** The array after [make_argv_loop] from a count on. *)
Definition filled (argv : slots) (count : nat) (ws : list cstr) : slots :=
  take count argv ++ (Some <$> ws) ++ drop (count + length ws) argv.

Lemma filled_cons argv count w ws :
  (count < length argv)%nat →
  filled (<[count := Some w]> argv) (S count) ws = filled argv count (w :: ws).
Proof.
  intros H. unfold filled. rewrite drop_insert_lt by lia.
  rewrite (take_S_r _ _ (Some w)) by by rewrite list_lookup_insert_eq.
  rewrite take_insert_ge by lia. rewrite <-app_assoc. cbn. do 4 f_equal. lia.
Qed.

Lemma make_argv_loop_words fuel s argv count :
  (length s < fuel)%nat → (count ≤ length argv)%nat →
  make_argv_loop fuel s argv count =
  if (count + length (words s) <=? length argv)%nat
  then Ret (count + length (words s), filled argv count (words s))%nat else Fault.
Proof.
  revert s argv count. induction fuel as [|fuel IH]; intros s argv count Hf Hc; [lia|].
  cbn [make_argv_loop]. pose proof (strtok_words s) as Hs. destruct (strtok s) as [[tok s']|].
  - destruct Hs as [-> Hl]. unfold store. cbn [length].
    destruct (Nat.ltb_spec count (length argv)) as [Hlt|Hge]; cbn [cbind].
    + rewrite IH by (rewrite ?length_insert; lia). rewrite length_insert, filled_cons by done.
      by rewrite <-Nat.add_succ_comm.
    + destruct (Nat.leb_spec (count + S (length (words s'))) (length argv)); [lia|done].
  - rewrite Hs. cbn [length]. rewrite Nat.add_0_r. rewrite (proj2 (Nat.leb_le _ _)) by done.
    unfold filled. cbn. by rewrite Nat.add_0_r, take_drop.
Qed.

Lemma make_argv_words args argv :
  (1 ≤ length argv)%nat →
  make_argv args argv =
  if (1 + length (words args) <=? length argv)%nat
  then Ret (1 + length (words args), filled argv 1 (words args))%nat else Fault.
Proof. intros H. unfold make_argv. by rewrite make_argv_loop_words by lia. Qed.

Lemma store_at l x r v n : n = length l → store (l ++ x :: r) n v = Ret (l ++ Some v :: r).
Proof.
  intros ->. unfold store. rewrite (proj2 (Nat.ltb_lt _ _)) by (rewrite length_app; simpl; lia).
  by rewrite insert_app_r_alt, Nat.sub_diag by lia.
Qed.

Lemma store_out l n v : (length l ≤ n)%nat → store l n v = Fault.
Proof. intros H. unfold store. by rewrite (proj2 (Nat.ltb_ge _ _)). Qed.

(** What is given to [RIL_Init] when there is no "--". *)
Definition property_args (argv0 id args : cstr) : cres (nat * slots) :=
  let! na := make_argv args (replicate MAX_LIB_ARGS None) in
  let! na := finish_args argv0 id na.1 na.2 in
  Ret (na.1, take na.1 na.2).

Lemma property_args_words argv0 id args :
  property_args argv0 id args =
  if (length (words args) + 3 <=? MAX_LIB_ARGS)%nat
  then Ret (length (words args) + 3, Some <$> argv0 :: words args ++ [cs "-c"; id])%nat
  else Fault.
Proof.
  unfold property_args. rewrite make_argv_words by (cbn; lia).
  rewrite length_replicate. set (ws := words args). unfold MAX_LIB_ARGS.
  destruct (Nat.leb_spec (1 + length ws) 16) as [H1|H1];
    destruct (Nat.leb_spec (length ws + 3) 16) as [H2|H2]; try lia; cbn [cbind fst snd]; [| |done];
    unfold finish_args, filled; rewrite drop_replicate; cbn [take replicate].
  - destruct (16 - (1 + length ws))%nat as [|[|k]] eqn:Ek; [lia..|]. cbn [replicate].
    rewrite (app_assoc [None]), store_at by (rewrite length_app, length_fmap; done).
    cbn [cbind]. rewrite (cons_middle (Some (cs "-c"))), app_assoc.
    rewrite store_at by (rewrite !length_app, length_fmap; cbn; lia). cbn [cbind app].
    unfold store at 1. cbn [length Nat.ltb Nat.leb cbind fst snd list_insert insert].
    f_equal. f_equal; [lia|].
    rewrite <-!app_assoc. cbn [app fmap list_fmap]. rewrite fmap_app.
    replace (1 + length ws + 2)%nat with (S (length (Some <$> ws) + 2)) by (rewrite length_fmap; lia).
    cbn [take]. f_equal. by rewrite take_app_add.
  - destruct (16 - (1 + length ws))%nat as [|[|k]] eqn:Ek; [|cbn [replicate]|lia].
    + rewrite store_out; [done|]. rewrite !length_app, length_fmap. cbn. lia.
    + rewrite (app_assoc [None]), store_at by (rewrite length_app, length_fmap; done). cbn [cbind].
      rewrite store_out; [done|]. rewrite !length_app, length_fmap. cbn. lia.
Qed.

(** * The daemon *)

(** The arguments of every call of [RIL_Init], in order. *)
Fixpoint inits (t : list event) : list (list arg) :=
  match t with
  | [] => []
  | e :: t => if bool_decide (ev_fn e = "RIL_Init") then ev_args e :: inits t else inits t
  end.

#[local] Arguments cs : simpl never.
#[local] Arguments make_argv : simpl never.
#[local] Arguments finish_args : simpl never.
#[local] Arguments replicate : simpl never.

Lemma inits_app t1 t2 : inits (t1 ++ t2) = inits t1 ++ inits t2.
Proof. induction t1 as [|e t1 IH]; simpl; [done|]. rewrite IH. by destruct (bool_decide _). Qed.

Section rild.
Context {S : Type} (env : S → string → list arg → resp * S).

#[local] Notation answers := (answers env).

Lemma run_sleep_loop fuel s : ∃ t s', run env (sleep_loop fuel) s = (Starved, t, s') ∧ inits t = [].
Proof.
  revert s. induction fuel as [|fuel IH]; intros s; [by eexists [], s|]. cbn.
  destruct (env s "sleep" [AZ UINT32_MAX]) as [r s1]. destruct (IH s1) as (t & s' & -> & Ht). eauto.
Qed.

(** The library that is opened. *)
Definition path_for (o : opts) (bootloader : cstr) : cres cstr :=
  match rilLibPath o with
  | Some p => Ret p
  | None => auto_path (zero_model_read UNDEFINED bootloader) (rilImplSuffix o)
  end.

Definition client_is (o : opts) (id : cstr) : Prop :=
  match clientId o with
  | None => id = cs "0"
  | Some c => id = c ∧ match atoi c with Ret n => (n < MAX_RILDS)%Z | _ => False end
  end.

(** The library's initialisation, without "--". *)
Definition init_args (argv0 id libargs : cstr) : list arg :=
  AZ (Z.of_nat (length (words libargs) + 3)) ::
    (AS <$> argv0 :: words libargs ++ [cs "-c"; id]).

Lemma run_of_cres {A} (m : cres A) s :
  run env (of_cres m) s = (match m with Ret a => Done a | Fault => Crashed | OutOfFuel => Starved end, [], s).
Proof. by destruct m. Qed.

(** The loop stops within the arguments. *)
Lemma parse_opts_oi n args o o' :
  (length args ≤ n)%nat → parse_opts args o = Some o' → (oi o ≤ oi o' ≤ oi o + length args)%nat.
Proof.
  revert args o. induction n as [|n IH]; intros args o Hn H; (destruct args as [|a [|v args]]; cbn in Hn, H; [|try lia..]).
  - injection H as <-. cbn. lia.
  - injection H as <-. cbn. lia.
  - destruct (streq a _); [|done]. injection H as <-. cbn. lia.
  - repeat match type of H with (if ?b then _ else _) = _ => destruct b end; try done;
      try (apply IH in H; [cbn in *; lia|lia]). injection H as <-. cbn. lia.
Qed.

(** After "--" the arguments are the end of argv, where there is one slot left
    for the two that are added. *)
Lemma finish_argv_overruns argv argv0 id i :
  (1 ≤ i ≤ length argv)%nat →
  finish_args argv0 id (length argv - i + 1) (drop (i - 1) ((Some <$> argv) ++ [None])) = Fault.
Proof.
  intros Hi. unfold finish_args. set (a := drop _ _).
  assert (Hl : length a = (length argv - i + 2)%nat)
    by (subst a; rewrite length_drop, length_app, length_fmap; cbn; lia).
  unfold store at 1. rewrite (proj2 (Nat.ltb_lt _ _)) by lia. cbn [cbind].
  rewrite store_out; [done|]. rewrite length_insert. lia.
Qed.

(** Whether all arguments fit: argv has no room for the two that are added. *)
Definition fits (o : opts) (libargs : cstr) : bool :=
  negb (hasLibArgs o) && (length (words libargs) + 3 <=? MAX_LIB_ARGS)%nat.

Lemma run_ril_args argv argv0 id o libargs s :
  (1 ≤ oi o ≤ length argv)%nat →
  answers "property_get" [AS (cs "rild.libargs")] (λ r, c_str_of (r_out r) = libargs) →
  ∃ t s',
    run env (ril_args argv argv0 id o) s =
      (if fits o libargs
       then Done (length (words libargs) + 3, Some <$> argv0 :: words libargs ++ [cs "-c"; id])%nat
       else Crashed, t, s') ∧ inits t = [].
Proof.
  intros Hi Hp. specialize (Hp s). unfold ril_args, lib_args, property_get, fits.
  destruct (hasLibArgs o); cbn [negb andb].
  { cbn [run ibind fst snd]. rewrite finish_argv_overruns by done. cbn. eauto. }
  pose proof (property_args_words argv0 id libargs) as Hw. unfold property_args in Hw. cbn.
  destruct (env s _ _) as [r s1]. cbn in Hp. rewrite Hp. destruct (_ <=? _)%nat;
  (destruct (make_argv _ _) as [na| |]; cbn [cbind] in Hw; try done; cbn;
    [destruct (finish_args _ _ _ _) as [[n a]| |]; cbn [cbind fst snd] in Hw; try done; cbn|..];
    try (injection Hw as -> Hw; rewrite Hw); eauto).
Qed.

Lemma run_run_library argv argv0 id o libargs init uim s :
  (1 ≤ oi o ≤ length argv)%nat →
  answers "property_get" [AS (cs "rild.libargs")] (λ r, c_str_of (r_out r) = libargs) →
  ∃ t s',
    run env (run_library argv argv0 id o init uim) s = (if fits o libargs then Done tt else Crashed, t, s') ∧
    inits t = if fits o libargs then [init_args argv0 id libargs] else [].
Proof.
  intros Hi Hp. unfold run_library. rewrite run_bind.
  destruct (run_ril_args argv argv0 id o libargs s Hi Hp) as (t & s1 & -> & Ht).
  destruct (fits o libargs); [|eauto].
  cbn -[fmap]. rewrite <-list_fmap_compose.
  change (slot_arg ∘ Some) with AS. fold (init_args argv0 id libargs).
  destruct (uim =? 0)%Z; cbn -[fmap]; repeat step_env;
    (eexists _, _; split; [reflexivity|]; rewrite inits_app, Ht; done).
Qed.

Lemma run_set_service_name base id s :
  ∃ t s', run env (set_service_name base id) s = (Done tt, t, s') ∧ inits t = [].
Proof.
  unfold set_service_name. destruct (strneq _ _ _); cbn; [eauto|]. step_env. eauto.
Qed.

Lemma run_client o id s :
  client_is o id →
  run env (match clientId o with
           | None => IRet (cs "0")
           | Some c => do! n := of_cres (atoi c) in
                       if (n >=? MAX_RILDS)%Z then IExit 0 else IRet c
           end) s = (Done id, [], s).
Proof.
  unfold client_is. destruct (clientId o) as [c|]; [|by intros ->].
  intros [-> H]. destruct (atoi c) as [n| |]; [|done..]. cbn. rewrite Z.geb_leb.
  by rewrite (proj2 (Z.leb_gt _ _)).
Qed.

Lemma run_lib_path o bootloader path s :
  answers "property_get" [AS (cs "ro.bootloader")] (λ r, c_str_of (r_out r) = bootloader) →
  path_for o bootloader = Ret path →
  ∃ t s', run env (lib_path o) s = (Done path, t, s') ∧ inits t = [].
Proof.
  intros Hb. specialize (Hb s). unfold path_for, lib_path, property_get.
  destruct (rilLibPath o); [intros [= ->]; by eexists [], s|]. intros Hp. cbn.
  destruct (env s _ _) as [r s1]. cbn in Hb. rewrite Hb, run_of_cres, Hp. eauto.
Qed.

(** C29. With options and a client that are accepted and a library that can be
    opened and defines [RIL_Init]: when there is no "--" and rild.libargs has at
    most 13 words, [RIL_Init] is called once, with the program's name, those
    words, "-c" and the client, and the daemon then sleeps for ever.  With more
    words the array of the arguments is overrun before the call, and with "--"
    always the argument vector of the program. *)
Theorem rild_main_inits base fuel argv0 args s o id bootloader libargs path h init :
  parse_opts args no_opts = Some o → client_is o id →
  answers "property_get" [AS (cs "ro.bootloader")] (λ r, c_str_of (r_out r) = bootloader) →
  answers "property_get" [AS (cs "rild.libargs")] (λ r, c_str_of (r_out r) = libargs) →
  path_for o bootloader = Ret path →
  answers "dlopen" [AS path] (λ r, r_ret r = h ∧ h ≠ 0%Z) →
  answers "dlsym" [AZ h; AS (cs "RIL_Init")] (λ r, r_ret r = init ∧ init ≠ 0%Z) →
  let '(out, t, _) := run env (main base fuel argv0 args) s in
  if fits o libargs
  then out = Starved ∧ inits t = [init_args argv0 id libargs]
  else out = Crashed ∧ inits t = [].
Proof.
  intros Hp Hid Hb Ha Hpath Hopen Hsym.
  assert (Hoi : (1 ≤ oi o ≤ length (argv0 :: args))%nat) by exact (parse_opts_oi _ _ _ _ (le_n _) Hp).
  unfold main. rewrite Hp. cbn. step_env.
  rewrite run_bind, (run_client o id _ Hid). cbn. rewrite run_bind.
  destruct (run_set_service_name base id s0) as (t1 & s1 & -> & Ht1). rewrite run_bind.
  destruct (run_lib_path o bootloader path s1 Hb Hpath) as (t2 & s2 & -> & Ht2). cbn.
  specialize (Hopen s2). destruct (env s2 "dlopen" _) as [r2 s3]. cbn in Hopen.
  destruct Hopen as [-> Hh]. rewrite (proj2 (Z.eqb_neq h 0) Hh). cbn. step_env.
  specialize (Hsym s4). destruct (env s4 "dlsym" _) as [r4 s5]. cbn in Hsym.
  destruct Hsym as [-> Hi]. rewrite (proj2 (Z.eqb_neq init 0) Hi). cbn. do 3 step_env.
  rewrite run_bind.
  match goal with |- context [run env (run_library ?v ?a ?i ?p ?ini ?u) ?st] =>
    destruct (run_run_library v a i p libargs ini u st Hoi Ha) as (t3 & s9 & -> & Ht3) end.
  destruct (fits o libargs).
  - match goal with |- context [run env (sleep_loop fuel) ?st] =>
      destruct (run_sleep_loop fuel st) as (t4 & s10 & -> & Ht4) end.
    cbn. split; [done|]. rewrite !inits_app, Ht1, Ht2. cbn. by rewrite inits_app, Ht3, Ht4, app_nil_r.
  - cbn. split; [done|]. rewrite !inits_app, Ht1, Ht2. cbn. by rewrite Ht3.
Qed.
End rild.

(** Every library opens at 1 and defines everything at 2; the radio is a
    T-Mobile one. *)
Definition sample_env (s : unit) (fn : string) (args : list arg) : resp * unit :=
  (match fn, args with
   | "property_get", [AS n] =>
     mkResp 0 0 (if streq n (cs "ro.bootloader") then cs "G920TUVU5FQC7" else cs "  -d /dev/umts_ipc0 ") []
   | "dlopen", _ => mkResp 1 0 [] []
   | "dlsym", _ => mkResp 2 0 [] []
   | _, _ => mkResp 0 0 [] []
   end%string, s).

Lemma rild_main_inits_witness :
  let '(out, t, _) := run sample_env (main (cs "rild") 2 (cs "rild") [cs "-s"; cs "v2"; cs "-c"; cs "1"]) tt in
  out = Starved ∧
  inits t = [init_args (cs "rild") (cs "1") (cs "  -d /dev/umts_ipc0 ")] ∧
  init_args (cs "rild") (cs "1") (cs "  -d /dev/umts_ipc0 ") =
    [AZ 5; AS (cs "rild"); AS (cs "-d"); AS (cs "/dev/umts_ipc0"); AS (cs "-c"); AS (cs "1")].
Proof.
  pose proof (rild_main_inits sample_env (cs "rild") 2 (cs "rild")
    [cs "-s"; cs "v2"; cs "-c"; cs "1"] tt (mkOpts None (Some (cs "1")) (Some (cs "v2")) false 5)
    (cs "1") (cs "G920TUVU5FQC7") (cs "  -d /dev/umts_ipc0 ")
    (cs "/vendor/lib64/libsec-ril-tmobile-v2.so") 1%Z 2%Z eq_refl
    (conj eq_refl eq_refl) (λ _, eq_refl) (λ _, eq_refl) eq_refl
    (λ _, conj eq_refl (Z.neq_succ_diag_l 0))
    (λ _, conj eq_refl (λ H : 2%Z = 0%Z, eq_ind 2%Z (λ z, match z with Zpos _ => True | _ => False end) I 0%Z H))) as H.
  destruct (run sample_env _ tt) as [[out t] u]. destruct H as [H1 H2].
  split; [exact H1|]. split; [exact H2|reflexivity].
Defined.

(** With "--" the two arguments added at the end of [argv] do not fit. *)
Example dash_dash_overruns_argv :
  (run sample_env (main (cs "rild") 2 (cs "rild") [cs "--"; cs "-d"]) tt).1.1 = Crashed.
Proof. reflexivity. Qed.
