(* ===== verification/ResetProp.v ===== *)
(** resetprop.c and persist_properties.c: the command that reads, sets and
    deletes properties behind init's back, with the persistent storage under
    /data/property and the parser of its command line.

    The protocol-buffer library that reads and writes the persistent file, and
    the service init offers behind [__system_property_set], are parameters. *)

From Stdlib Require Import ZArith Lia Ascii.
From stdpp Require Import base numbers strings gmap list.
From S2P Require Import Prelude CString PropInfo PropArea PropertyInfoParser Contexts.
From S2P Require Import ContextsSplit ContextsSerialized SystemProperties Vector.

(** * Legal names *)

Definition legal_char (c : ascii) : bool :=
  let z := ord c in
  (z =? 95)%Z || (z =? 45)%Z || (z =? 64)%Z || (z =? 58)%Z ||
  ((97 <=? z) && (z <=? 122))%Z || ((65 <=? z) && (z <=? 90))%Z || ((48 <=? z) && (z <=? 57))%Z.

Definition is_dot_char (c : ascii) : bool := bool_decide (c = "."%char).

(** The loop of [check_legal_property_name]; [prev] is [name[i-1]]. *)
Fixpoint legal_loop (prev : option ascii) (s : cstr) : cres bool :=
  match s with
  | [] => Ret true
  | c :: s =>
    if is_dot_char c then
      let! p := deref prev in
      if is_dot_char p then Ret false else legal_loop (Some c) s
    else if legal_char c then legal_loop (Some c) s
    else Ret false
  end.

(** [check_legal_property_name]: true when it returns 0. *)
Definition legal_property_name (name : cstr) : cres bool :=
  match name with
  | [] => Ret false
  | c :: _ =>
    if is_dot_char c then Ret false
    else if is_dot_char (List.last name NUL) then Ret false
    else legal_loop None name
  end.

(** * State *)

(** [struct prop_t] *)
Record prop_t := mkProp { p_name : cstr; p_value : cstr }.

(** What lies under /data/property: the protocol-buffer file, when it can be
    read, and the one-property files. *)
Record pstore := mkPstore { ps_pb : option (list ascii); ps_files : gmap cstr (list ascii) }.

(** The static [system_properties], the shared world, the persistent storage,
    the flag [prop_verbose] and what was printed. *)
Record tool := mkTool {
  t_sp : SystemProperties AnyContexts;
  t_w : world;
  t_ps : pstore;
  t_verbose : bool;
  t_out : list cstr
}.

Definition set_sys (t : tool) (sp : SystemProperties AnyContexts) (w : world) : tool :=
  mkTool sp w (t_ps t) (t_verbose t) (t_out t).
Definition set_ps (t : tool) (ps : pstore) : tool :=
  mkTool (t_sp t) (t_w t) ps (t_verbose t) (t_out t).
Definition set_verbose (t : tool) : tool := mkTool (t_sp t) (t_w t) (t_ps t) true (t_out t).
Definition print (t : tool) (s : cstr) : tool :=
  mkTool (t_sp t) (t_w t) (t_ps t) (t_verbose t) (t_out t ++ [s]).

(** [strcpy] into a buffer of PROP_VALUE_MAX bytes. *)
Definition strcpy_value (value : cstr) : cres cstr :=
  if (Z.of_nat (length value) >=? PROP_VALUE_MAX)%Z then Fault else Ret value.

(** * Callbacks *)

Definition collect_props (name value : cstr) (v : vector prop_t) : cres (vector prop_t) :=
  let! value := strcpy_value value in vec_push_back v (Elem (mkProp name value)).

Definition collect_unique_props (name value : cstr) (v : vector prop_t) : cres (vector prop_t) :=
  let! uniq := vec_for_each v (λ e uniq,
    match e with
    | Elem p => if streq name (p_name p) then (true, Ret false) else (false, uniq)
    | _ => (true, Fault)
    end) (Ret true) in
  let! uniq := uniq in
  if uniq then collect_props name value v else Ret v.

Definition store_prop_value (name value dst : cstr) : cres cstr := strcpy_value value.

(** The function that a [read_cb_t] holds, called with its cookie. *)
Definition callback_wrapper {C} (func : cstr → cstr → C → cres C) (name value : cstr) (serial : Z) (cookie : C) : cres C :=
  func name value cookie.

Definition prop_cmp (p1 p2 : prop_t) : comparison := strcmp (p_name p1) (p_name p2).

Section tool.
Context (k : kernel).
(** nanopb: the records of the bytes, and the bytes of a list of records
    ([None] when encoding fails). *)
Context (pb_decode : list ascii → list (cstr * cstr)).
Context (pb_encode : list (cstr * cstr) → option (list ascii)).
(** [__system_property_set]: what init does, to the properties and to the
    persistent storage, and the result. *)
Context (property_set : world → pstore → cstr → cstr → cres (Z * world * pstore)).

Definition system_property_set (t : tool) (name value : cstr) : cres (Z * tool) :=
  let! (ret, w, ps) := property_set (t_w t) (t_ps t) name value in Ret (ret, set_ps (set_sys t (t_sp t) w) ps).

(** * Persistent storage *)

Fixpoint fold_records {C} (f : cstr → cstr → C → cres C) (l : list (cstr * cstr)) (c : C) : cres C :=
  match l with
  | [] => Ret c
  | (n, v) :: l => let! c := f n v c in fold_records f l c
  end.

(** The part of [persist_getprop] that reads a file: [read] is given the size
    of the constant [PROP_VALUE_MAX], an [int]. *)
Definition sizeof_int : nat := 4.

Definition read_prop_of_file (ps : pstore) (name : cstr) : option cstr :=
  match ps_files ps !! name with
  | None => None
  | Some bytes => Some (c_str_of (take sizeof_int bytes))
  end.

(** [persist_getprop_all]: without the protocol-buffer file the entries of the
    directory are visited in the order the kernel lists them. *)
Definition persist_getprop_all {C} (ps : pstore) (f : cstr → cstr → C → cres C) (c : C) : cres C :=
  match ps_pb ps with
  | Some buf => fold_records f (pb_decode buf) c
  | None =>
    fold_records f (omap (λ nb, (λ v, (nb.1, v)) <$> read_prop_of_file ps nb.1)
                      (map_to_list (ps_files ps))) c
  end.

(** [pb_getprop_cb]: the first record of the name; [prop->name] becomes null. *)
Definition pb_getprop_cb (name value : cstr) (prop : option cstr * cstr) : cres (option cstr * cstr) :=
  match prop.1 with
  | Some n => if streq name n then let! v := strcpy_value value in Ret (None, v) else Ret prop
  | None => Ret prop
  end.

Definition persist_getprop (ps : pstore) (name : cstr) : cres (option cstr) :=
  match ps_pb ps with
  | Some _ =>
    let! prop := persist_getprop_all ps pb_getprop_cb (Some name, []) in
    match prop.1 with Some _ => Ret None | None => Ret (Some prop.2) end
  | None => Ret (read_prop_of_file ps name)
  end.

(** The loop of [persist_deleteprop]: the position of the first match. *)
Definition find_prop (v : vector prop_t) (name : cstr) : cres (option Z) :=
  let! r := vec_for_each v (λ e (s : cres (option Z) * Z),
    match e with
    | Elem p => if streq (p_name p) name then (true, (Ret (Some s.2), s.2)) else (false, (s.1, (s.2 + 1)%Z))
    | _ => (true, (Fault, s.2))
    end) (Ret None, 0%Z) in r.1.

(** [prop_encode]: the records that are left, in order. *)
Definition remaining (v : vector prop_t) : cres (list (cstr * cstr)) :=
  vec_for_each v (λ e l,
    (false, match e with Elem p => l ++ [(p_name p, p_value p)] | _ => l end)) [].

Definition persist_deleteprop (ps : pstore) (name : cstr) : cres (bool * pstore) :=
  match ps_pb ps with
  | Some _ =>
    let! v := persist_getprop_all ps collect_props vec_init in
    let! pos := find_prop v name in
    match pos with
    | Some i =>
      let! v := vec_set v i Null in
      let! l := remaining v in
      match pb_encode l with
      | None => Ret (false, ps)
      | Some bytes => Ret (true, mkPstore (Some bytes) (ps_files ps))
      end
    | None => Ret (false, ps)
    end
  | None =>
    match ps_files ps !! name with
    | Some _ => Ret (true, mkPstore None (delete name (ps_files ps)))
    | None => Ret (false, ps)
    end
  end.

(** * The interface of resetprop.h *)

Definition PROP_FILENAME : cstr := cs "/dev/__properties__".

(** [__system_properties_init], [init_resetprop]: true when it returns 0. *)
Definition init_resetprop (t : tool) : cres (bool * tool) :=
  let! (ok, sp, w) := Init k (t_sp t) (t_w t) PROP_FILENAME in Ret (ok, set_sys t sp w).

(** [__system_property_find] *)
Definition property_find (t : tool) (name : cstr) : cres (option prop_ptr * tool) :=
  let! (pi, sp, w) := Find k (t_sp t) (t_w t) name in Ret (pi, set_sys t sp w).

Definition prop_exist (t : tool) (name : cstr) : cres (bool * tool) :=
  let! (ok, t) := init_resetprop t in
  if negb ok then Ret (false, t)
  else let! (pi, t) := property_find t name in Ret (bool_decide (is_Some pi), t).

Definition is_persist (name : cstr) : bool := strneq name (cs "persist.") 8.

Definition getprop2 (t : tool) (name : cstr) (persist : bool) : cres (option cstr * tool) :=
  let! legal := legal_property_name name in
  if negb legal then Ret (None, t)
  else
    let! (ok, t) := init_resetprop t in
    if negb ok then Ret (None, t)
    else
      let! (pi, t) := property_find t name in
      match pi with
      | None =>
        if persist && is_persist name then
          let! v := persist_getprop (t_ps t) name in Ret (v, t)
        else Ret (None, t)
      | Some pi =>
        let! (n, v, serial) := ReadCallback (t_w t) pi in
        let! value := callback_wrapper store_prop_value n v serial [] in
        Ret (Some value, t)
      end.

Definition getprop (t : tool) (name : cstr) : cres (option cstr * tool) := getprop2 t name false.

Definition prop_foreach_cb {C} (t : tool) (pi : prop_ptr) (f : cstr → cstr → C → cres C) (c : C) : cres C :=
  let! (n, v, serial) := ReadCallback (t_w t) pi in callback_wrapper f n v serial c.

(** [getprop_all]: the callback gets what [__system_property_read_callback]
    reads of each record. *)
Definition getprop_all {C} (t : tool) (f : cstr → cstr → C → cres C) (c : C) : cres (C * tool) :=
  let! (ok, t) := init_resetprop t in
  if negb ok then Ret (c, t)
  else
    let! (_, c, sp, w) := Foreach k (t_sp t) (t_w t) (λ pi c,
      let! c := c in prop_foreach_cb t pi f c) (Ret c) in
    let! c := c in Ret (c, set_sys t sp w).

Definition deleteprop2 (t : tool) (name : cstr) (persist : bool) : cres (Z * tool) :=
  let! legal := legal_property_name name in
  if negb legal then Ret (1%Z, t)
  else
    let! (ok, t) := init_resetprop t in
    if negb ok then Ret ((-1)%Z, t)
    else
      let! (persist, t) :=
        if persist && is_persist name then
          let! (b, ps) := persist_deleteprop (t_ps t) name in Ret (b, set_ps t ps)
        else Ret (persist, t) in
      let! (r, sp, w) := Delete k (t_sp t) (t_w t) name in
      Ret (Z.b2z (negb (r =? 0)%Z && negb (persist && is_persist name)), set_sys t sp w).

Definition deleteprop (t : tool) (name : cstr) : cres (Z * tool) := deleteprop2 t name true.

Definition setprop2 (t : tool) (name value : cstr) (trigger : bool) : cres (Z * tool) :=
  let! legal := legal_property_name name in
  if negb legal then Ret (1%Z, t)
  else
    let! (ok, t) := init_resetprop t in
    if negb ok then Ret ((-1)%Z, t)
    else
      let! (pi, t) := property_find t name in
      match pi with
      | Some pi =>
        if trigger then
          let! t := if strneq name (cs "ro.") 3
                    then let! (_, t) := deleteprop t name in Ret t else Ret t in
          system_property_set t name value
        else
          let! (ret, w) := Update k (t_sp t) (t_w t) pi value (Z.of_nat (length value)) in
          Ret (ret, set_sys t (t_sp t) w)
      | None =>
        if trigger then system_property_set t name value
        else
          let! (ret, sp, w) := Add k (t_sp t) (t_w t) name (Z.of_nat (length name)) value
                                 (Z.of_nat (length value)) in
          Ret (ret, set_sys t sp w)
      end.

Definition setprop (t : tool) (name value : cstr) : cres (Z * tool) := setprop2 t name value true.

(** * Property files *)

(** How many leading characters of the [read] ones are spaces. *)
Fixpoint leading_spaces (line : list ascii) : nat :=
  match line with
  | c :: l => if bool_decide (c = " "%char) then S (leading_spaces l) else 0
  | [] => 0
  end.

(** The name and value of a line [getline] returned, if it is to be set. *)
Definition parse_prop_line (raw : list ascii) : option (cstr * cstr) :=
  let line := match last raw with
              | Some c => if bool_decide (c = chr 10) then removelast raw else raw
              | None => raw
              end in
  let read := length line in
  let i := leading_spaces line in
  if bool_decide (line !! i = Some "#"%char) then None
  else
    match strchr (c_str_of line) "="%char with
    | None => None
    | Some pch =>
      if (pch <=? i)%nat || (read - 1 <=? pch)%nat then None
      else Some (take (pch - i) (drop i line), c_str_of (drop (S pch) line))
    end.

Fixpoint prop_lines (t : tool) (lines : list (list ascii)) (trigger : bool) : cres tool :=
  match lines with
  | [] => Ret t
  | l :: lines =>
    match parse_prop_line l with
    | None => prop_lines t lines trigger
    | Some (n, v) =>
      let! (_, t) := setprop2 t n v trigger in prop_lines t lines trigger
    end
  end.

Definition read_prop_file (t : tool) (filename : cstr) (trigger : bool) : cres (Z * tool) :=
  let! (ok, t) := init_resetprop t in
  if negb ok then Ret ((-1)%Z, t)
  else
    match k_text k filename with
    | None => Ret (1%Z, t)
    | Some f => let! t := prop_lines t (getlines f) trigger in Ret (0%Z, t)
    end.

(** * The command *)

Fixpoint print_slots (t : tool) (l : list (slot prop_t)) : cres tool :=
  match l with
  | [] => Ret t
  | Elem p :: l =>
    print_slots (print t (cs "[" ++ p_name p ++ cs "]: [" ++ p_value p ++ cs "]")) l
  | _ :: _ => Fault
  end.

Definition print_props (t : tool) (persist : bool) : cres tool :=
  let! (v, t) := getprop_all t collect_props vec_init in
  let! v := if persist then persist_getprop_all (t_ps t) collect_unique_props v else Ret v in
  let! v := vec_sort v (Some prop_cmp) in
  let! l := vec_for_each v (λ e l, (false, l ++ [e])) [] in
  print_slots t l.

(** The flags parsed so far. *)
Record flags := mkFlags { f_trigger : bool; f_persist : bool; f_verbose : bool }.

(** What the command line asks for. *)
Inductive command :=
  | CFile (f : cstr) (fl : flags)
  | CDelete (name : cstr) (fl : flags)
  | CUsage
  | CPrint (fl : flags)
  | CGet (name : cstr) (fl : flags)
  | CSet (name value : cstr) (fl : flags).

(** The loop over the characters of an option from index 1: [None] when the
    option ends, or a command that ends the program.  A '-' that is none of
    the long options falls through to 'v'. *)
Fixpoint parse_chars (arg : cstr) (args : list cstr) (s : cstr) (fl : flags) : flags + command :=
  match s with
  | [] => inl fl
  | c :: s =>
    let v := mkFlags (f_trigger fl) (f_persist fl) true in
    if bool_decide (c = "-"%char) then
      match args with
      | [x] =>
        if streq arg (cs "--file") then inr (CFile x fl)
        else if streq arg (cs "--delete") then inr (CDelete x fl)
        else if streq arg (cs "--help") then inr CUsage
        else parse_chars arg args s v
      | _ => if streq arg (cs "--help") then inr CUsage else parse_chars arg args s v
      end
    else if bool_decide (c = "v"%char) then parse_chars arg args s v
    else if bool_decide (c = "p"%char) then
      parse_chars arg args s (mkFlags (f_trigger fl) true (f_verbose fl))
    else if bool_decide (c = "n"%char) then
      parse_chars arg args s (mkFlags false (f_persist fl) (f_verbose fl))
    else inr CUsage
  end.

Fixpoint parse_args (args : list cstr) (fl : flags) : command :=
  match args with
  | [] => CPrint fl
  | a :: rest =>
    match a with
    | "-"%char :: s =>
      match parse_chars a rest s fl with
      | inl fl => parse_args rest fl
      | inr c => c
      end
    | _ =>
      match rest with
      | [] => CGet a fl
      | [v] => CSet a v fl
      | _ => CUsage
      end
    end
  end.

(** [main]: the exit status; [args] without the program's name. *)
Definition main (t : tool) (args : list cstr) : cres (Z * tool) :=
  let verbose fl t := if f_verbose fl then set_verbose t else t in
  match parse_args args (mkFlags true false false) with
  | CFile f fl => read_prop_file (verbose fl t) f (f_trigger fl)
  | CDelete n fl => deleteprop2 (verbose fl t) n (f_persist fl)
  | CUsage => Ret (1%Z, t)
  | CPrint fl => let! t := print_props (verbose fl t) (f_persist fl) in Ret (0%Z, t)
  | CGet n fl =>
    let! (prop, t) := getprop2 (verbose fl t) n (f_persist fl) in
    match prop with
    | None => Ret (1%Z, t)
    | Some v => Ret (0%Z, print t v)
    end
  | CSet n v fl => setprop2 (verbose fl t) n v (f_trigger fl)
  end.
End tool.
