(* ===== verification/ResetPropSpec.v ===== *)
(** What resetprop.c promises: which names it accepts, and that a property it
    sets, changes or deletes behind init's back is what it reads afterwards. *)

From Stdlib Require Import ZArith Lia Ascii.
From stdpp Require Import base numbers strings gmap list.
From S2P Require Import Prelude CString PropInfo PropArea PropTrie PropAreaProofs.
From S2P Require Import PropAreaSpec PropAreaForeach PropertyInfoParser Contexts.
From S2P Require Import ContextsSplit ContextsSerialized SystemProperties.
From S2P Require Import SystemPropertiesSpec Vector ResetProp.

(** * Names *)

Lemma split_dot_cons c s : c ≠ "."%char →
  ∃ l ls, split_dot s = l :: ls ∧ split_dot (c :: s) = (c :: l) :: ls.
Proof.
  intros Hc. simpl. rewrite decide_False by done. pose proof (split_dot_nonempty s).
  destruct (split_dot s) as [|l ls]; [done|eauto].
Qed.

(** A label of a legal name. *)
Definition legal_label (l : cstr) : Prop := l ≠ [] ∧ Forall (λ c, legal_char c = true) l.

#[export] Instance legal_label_dec l : Decision (legal_label l).
Proof. unfold legal_label. apply _. Defined.

Lemma legal_char_not_dot c : legal_char c = true → c ≠ "."%char.
Proof. intros H ->. vm_compute in H. discriminate. Qed.

(** From a character that is not a dot the loop accepts the rest when the label
    it is in has legal characters only and the labels after it are legal. *)
Lemma legal_loop_label c s :
  c ≠ "."%char → List.last (c :: s) NUL ≠ "."%char →
  ∃ b l ls, legal_loop (Some c) s = Ret b ∧ split_dot s = l :: ls ∧
    (b = true ↔ Forall (λ c, legal_char c = true) l ∧ Forall legal_label ls).
Proof.
  assert (H : ∀ n s c, length s = n → c ≠ "."%char → List.last (c :: s) NUL ≠ "."%char →
    ∃ b l ls, legal_loop (Some c) s = Ret b ∧ split_dot s = l :: ls ∧
      (b = true ↔ Forall (λ c, legal_char c = true) l ∧ Forall legal_label ls)); [|eauto].
  clear c s. induction n as [n IH] using lt_wf_ind. intros [|d s] c Hn Hc Hl.
  { exists true, [], []. repeat split; constructor. }
  cbn [legal_loop]. unfold is_dot_char at 1. destruct (decide (d = "."%char)) as [->|Hd].
  - rewrite bool_decide_true by done. cbn [deref cbind].
    unfold is_dot_char. rewrite bool_decide_false by done.
    destruct s as [|e s]; [done|]. cbn [legal_loop]. unfold is_dot_char.
    destruct (decide (e = "."%char)) as [->|He].
    + rewrite bool_decide_true by done. cbn [deref cbind]. rewrite bool_decide_true by done.
      exists false, [], ([] :: split_dot s). split; [done|]. split; [done|]. split; [done|].
      intros [_ Hf]. inversion Hf as [|? ? [? _]]. done.
    + rewrite bool_decide_false by done.
      destruct (split_dot_cons e s He) as (l & ls & Hs & Hes).
      exists (if legal_char e then match legal_loop (Some e) s with Ret b => b | _ => false end else false).
      exists [], ((e :: l) :: ls). destruct (IH (length s) ltac:(simpl in Hn; lia) s e eq_refl He Hl)
        as (b & l' & ls' & Hrun & Hsp & Hb).
      rewrite Hs in Hsp. injection Hsp as <- <-. rewrite Hrun. split; [by case_match|].
      split; [change (split_dot ("."%char :: e :: s)) with ([] :: split_dot (e :: s)); by rewrite Hes|].
      rewrite Forall_cons. unfold legal_label at 1. rewrite Forall_cons.
      destruct (legal_char e) eqn:E; [|naive_solver]. rewrite Hb. split; [|naive_solver].
      intros [H1 H2]. repeat split; auto.
  - rewrite bool_decide_false by done. destruct (split_dot_cons d s Hd) as (l & ls & Hs & Hds).
    destruct (IH (length s) ltac:(simpl in Hn; lia) s d eq_refl Hd Hl)
      as (b & l' & ls' & Hrun & Hsp & Hb).
    rewrite Hs in Hsp. injection Hsp as <- <-. rewrite Hds.
    exists (if legal_char d then b else false), (d :: l), ls. split; [rewrite Hrun; by case_match|].
    split; [done|]. rewrite Forall_cons. destruct (legal_char d); [|naive_solver]. naive_solver.
Qed.

(** A trailing dot leaves an empty last label. *)
Lemma split_dot_trailing s : split_dot (s ++ ["."%char]) = split_dot s ++ [[]].
Proof.
  induction s as [|c s IH]; [done|]. cbn [app split_dot]. case_decide; [by rewrite IH|].
  rewrite IH. pose proof (split_dot_nonempty s). by destruct (split_dot s).
Qed.

Lemma trailing_dot_illegal name :
  name ≠ [] → List.last name NUL = "."%char → ¬ Forall legal_label (split_dot name).
Proof.
  intros Hne Hl. rewrite (app_removelast_last NUL Hne), Hl, split_dot_trailing, Forall_app.
  intros [_ H]. by inversion H as [|? ? [? _]].
Qed.

(** One or more non-empty labels of legal characters separated by single dots. *)
Definition legal_name (name : cstr) : Prop := name ≠ [] ∧ Forall legal_label (split_dot name).

#[export] Instance legal_name_dec name : Decision (legal_name name).
Proof. unfold legal_name. apply _. Defined.

Lemma legal_name_no_nul name : legal_name name → no_nul name.
Proof.
  intros [_ Hl]. rewrite <-(join_split name). induction Hl as [|l ls [_ Hc] _ IH]; [by intros ?%elem_of_nil|].
  assert (Hn : NUL ∉ l) by (intros Hin; rewrite Forall_forall in Hc; by specialize (Hc _ Hin)).
  destruct ls as [|l2 ls]; [done|]. rewrite join_dot_cons by done. unfold no_nul in *.
  rewrite elem_of_app, elem_of_cons. naive_solver.
Qed.

Lemma legal_property_name_result name : legal_property_name name = Ret (bool_decide (legal_name name)).
Proof.
  enough (H : ∃ b, legal_property_name name = Ret b ∧ (b = true ↔ legal_name name)).
  { destruct H as (b & -> & Hb). f_equal. destruct b.
    - symmetry. apply bool_decide_eq_true. by apply Hb.
    - symmetry. apply bool_decide_eq_false. intros Hl. by apply Hb in Hl. }
  unfold legal_name, legal_property_name. destruct name as [|c s]; [exists false; naive_solver|].
  unfold is_dot_char. destruct (decide (c = "."%char)) as [->|Hc].
  { rewrite bool_decide_true by done. exists false. split; [done|]. split; [done|].
    intros [_ H]. simpl in H. by inversion H as [|? ? []]. }
  rewrite bool_decide_false by done. destruct (split_dot_cons c s Hc) as (l & ls & Hs & Hcs).
  destruct (decide (List.last (c :: s) NUL = "."%char)) as [Hl|Hl].
  - rewrite bool_decide_true by done. exists false. split; [done|]. split; [done|].
    intros [Hne H]. by destruct (trailing_dot_illegal (c :: s)).
  - rewrite bool_decide_false by done. cbn [legal_loop]. unfold is_dot_char.
    rewrite bool_decide_false by done.
    destruct (legal_loop_label c s Hc Hl) as (b & l' & ls' & Hrun & Hsp & Hb).
    rewrite Hs in Hsp. injection Hsp as <- <-. rewrite Hrun, Hcs.
    exists (if legal_char c then b else false). split; [by case_match|].
    rewrite Forall_cons. unfold legal_label at 1. rewrite Forall_cons.
    destruct (legal_char c); [|naive_solver]. rewrite Hb. naive_solver.
Qed.

(** C30. [check_legal_property_name] never reads outside the name, and it accepts
    exactly the names made of one or more non-empty labels of legal characters
    separated by single dots. *)
Theorem legal_property_name_spec name :
  ∃ b, legal_property_name name = Ret b ∧
    (b = true ↔ name ≠ [] ∧ Forall legal_label (split_dot name)).
Proof.
  exists (bool_decide (legal_name name)). split; [apply legal_property_name_result|apply bool_decide_eq_true].
Qed.

Lemma legal_name_ok name : (Z.of_nat (length name) < 2 ^ 32)%Z → name_ok name.
Proof. done. Qed.

(** * Dispatch keeps the interface's laws *)

#[export] Instance Any_Laws (k : kernel) : ContextsLaws k AnyContexts.
Proof.
  refine {| ctx_ok := λ c w,
    match c with
    | ASerialized s => ctx_ok (k := k) s w
    | ASplit s => ctx_ok (k := k) s w
    | APreSplit s => ctx_ok (k := k) s w
    end |}.
  - intros [s|s|s] w w' Hd; exact (ctx_ok_files (k := k) s w w' Hd).
  - intros [s|s|s] w p; exact (ctx_serial (k := k) s w p).
  - intros [s|s|s] w name H; destruct (ctx_get (k := k) s w name H)
      as (r & s' & w' & Hrun & Hok & Hf & Hser & Hsz & Hp);
    cbn [GetPropAreaForName Any_Contexts]; rewrite Hrun; cbn [cmap3 cbind];
    (eexists _, _, _; split; [reflexivity|]; split_and!; auto;
     intros p Hr; destruct (Hp p Hr) as [H1 H2]; split; [done|]; intros w'';
     cbn [GetPropAreaForName Any_Contexts]; by rewrite H2).
Defined.

(** * Reading a record through the callback *)

Section reading.
Context (k : kernel) {S : Type} `{!Contexts k S} `{!ContextsLaws k S}.

Lemma ReadCallback_known w p o a r v name :
  get_area w p = Ret a → data a !! o = Some (OInfo r) → rec_ok name r → has_value a o v →
  (Z.of_nat (length v) < PROP_VALUE_MAX)%Z →
  ReadCallback w (p, o) = Ret (name, v, pi_serial r).
Proof.
  intros Ha Hr (Hnm & Hlen & Hs & Hd & Hmax & Hvl) [Hv Hl] Hshort.
  assert (Hlong : is_long r = false).
  { destruct (is_long r) eqn:E; [|done]. pose proof (Hl r Hr E). lia. }
  unfold prop_value in Hv. rewrite (load_info_data _ _ _ Hr) in Hv. cbn [cbind] in Hv.
  rewrite Hlong in Hv. injection Hv as Hv.
  unfold ReadCallback, Serial. rewrite (load_pi_data _ _ _ _ _ Ha Hr). cbn [cbind].
  rewrite Hd. cbn [cbind]. rewrite Hlong, Hnm. destruct (is_read_only name); [by rewrite Hv|].
  unfold PROP_VALUE_MAX in Hmax. unfold copy_value. rewrite Hlen.
  destruct (Z.gtb_spec (SERIAL_VALUE_LEN (pi_serial r)) (Z.of_nat 92)); [lia|]. cbn [cbind].
  by rewrite Hvl, Nat2Z.id, c_str_of_len, Hv.
Qed.

(** The value a reader is given, for a name whose area and map are known. *)
Lemma read_known sp w name p m v :
  sp_ok k sp w → area_of k sp w name p → stores w p m → name_ok name → m !! name = Some v →
  (Z.of_nat (length v) < PROP_VALUE_MAX)%Z →
  ∃ pi s, Find k sp w name = Ret (Some pi, sp, w) ∧ ReadCallback w pi = Ret (name, v, s).
Proof.
  intros Hsp Ha Hm Hn Hv Hshort.
  destruct (Find_known k sp w name p m Hsp Ha Hm Hn) as (r & a & Hf & Hga & _ & _ & Hr).
  destruct r as [o|]; simpl in Hr; [|congruence].
  destruct Hr as (v' & pi & Hv' & Hpi & Hro & Hhv). assert (v' = v) as -> by congruence.
  exists (p, o), (pi_serial pi). split; [done|].
  by apply (ReadCallback_known w p o a pi v name).
Qed.

(** What [Find] answers. *)
Lemma Find_outcome sp w name :
  sp_ok k sp w → name_ok name →
  ∃ r sp' w', Find k sp w name = Ret (r, sp', w') ∧ sp_ok k sp' w' ∧
    w_files w' = w_files w ∧
    ∀ pi, r = Some pi → area_of k sp' w' name pi.1 ∧
      ∀ m, stores w pi.1 m → is_Some (m !! name).
Proof.
  intros Hsp Hn. pose proof Hsp as [Hw Hi (c & Hc & Hok & _)]. unfold Find.
  rewrite Hi, Hc. cbn [negb deref cbind].
  destruct (get_spec k sp w name c Hsp Hc) as (r & c' & w1 & -> & Hsp1 & Hf & _ & Ha).
  cbn [cbind]. destruct r as [p|]; [|by eexists _, _, _].
  destruct (Ha p eq_refl) as [Hp Hg]. pose proof (so_world _ _ _ Hsp1) as Hw1.
  destruct (world_ok_stores _ _ Hw1 Hp) as (m & Hm).
  destruct (stores_get _ _ _ Hm) as (a & Hga & Hr). rewrite Hga. cbn [cbind].
  rewrite (wo_size _ Hw1). destruct (find_result_ok _ a m name Hr Hn) as (o & Hfo & Hres).
  rewrite Hfo. cbn [cbind]. eexists _, _, _. split; [reflexivity|]. split; [done|]. split; [done|].
  intros pi. destruct o as [o|]; [|done]. intros [= <-]. split; [by apply Ha|].
  intros m' Hm'. destruct (stores_get w1 p m') as (b & Hb & Hrb); [by apply (stores_files w)|].
  rewrite Hga in Hb. injection Hb as <-.
  destruct (find_result_ok _ a m' name Hrb Hn) as (r' & Hr' & Hres').
  rewrite Hfo in Hr'. injection Hr' as <-. simpl in Hres'.
  destruct Hres' as (v & ? & Hv & _). eauto.
Qed.
End reading.

(** * The tool *)

Section tool.
Context (k : kernel).
Context (pb_decode : list ascii → list (cstr * cstr)).
Context (pb_encode : list (cstr * cstr) → option (list ascii)).
Context (property_set : world → pstore → cstr → cstr → cres (Z * world * pstore)).

Abbreviation getprop2 := (getprop2 k pb_decode).
Abbreviation setprop2 := (setprop2 k pb_decode pb_encode property_set).
Abbreviation deleteprop2 := (deleteprop2 k pb_decode pb_encode).

(** The tool has mapped the areas of a well-formed world. *)
Definition tool_ok (t : tool) : Prop := sp_ok k (t_sp t) (t_w t).

Lemma init_again t : tool_ok t → init_resetprop k t = Ret (true, t).
Proof.
  intros [_ Hi _]. unfold init_resetprop, Init. rewrite Hi. cbn [cbind]. by destruct t.
Qed.

(** Reading a property whose area and map are known. *)
Lemma getprop2_known t name persist p m v :
  tool_ok t → legal_property_name name = Ret true → name_ok name →
  area_of k (t_sp t) (t_w t) name p → stores (t_w t) p m → m !! name = Some v →
  (Z.of_nat (length v) < PROP_VALUE_MAX)%Z →
  getprop2 t name persist = Ret (Some v, t).
Proof.
  intros Ht Hl Hn Ha Hm Hv Hs. unfold ResetProp.getprop2. rewrite Hl. cbn [cbind negb].
  rewrite init_again by done. cbn [cbind negb]. unfold property_find.
  destruct (read_known k (t_sp t) (t_w t) name p m v Ht Ha Hm Hn Hv Hs) as (pi & s & Hf & Hr).
  rewrite Hf. cbn [cbind set_sys t_sp t_w]. rewrite Hr. cbn [cbind]. unfold callback_wrapper, store_prop_value, strcpy_value.
  rewrite Z.geb_leb, (proj2 (Z.leb_gt _ _)) by done. cbn [cbind]. by destruct t.
Qed.

(** "resetprop -n name value" for a property nobody has set: when it
    reports success, "resetprop name" prints exactly that value, whichever
    layout of /dev/__properties__ is in use. *)
Theorem setprop2_then_getprop2 t name value persist t' :
  tool_ok t → legal_property_name name = Ret true → name_ok name → no_nul value →
  (Z.of_nat (length value) < PROP_VALUE_MAX)%Z →
  (∀ p m, stores (t_w t) p m → m !! name = None) →
  setprop2 t name value false = Ret (0%Z, t') →
  getprop2 t' name persist = Ret (Some value, t').
Proof.
  intros Ht Hl Hn Hv Hs Hfresh. unfold ResetProp.setprop2. rewrite Hl. cbn [cbind negb].
  rewrite init_again by done. cbn [cbind negb]. unfold property_find.
  destruct (Find_outcome k (t_sp t) (t_w t) name Ht Hn) as (r & sp1 & w1 & -> & Hsp1 & Hf1 & Hr).
  cbn [cbind]. destruct r as [pi|].
  { destruct (Hr pi eq_refl) as [[Hsome _] Hin].
    destruct (world_ok_stores _ _ (so_world _ _ _ Hsp1) Hsome) as (m & Hm).
    apply (stores_files _ (t_w t)) in Hm; [|done]. destruct (Hin m Hm). by rewrite (Hfresh _ _ Hm) in *. }
  cbn [set_sys t_sp t_w].
  destruct (Add_outcome k sp1 w1 name value Hsp1 Hn Hv) as (ret & sp2 & w2 & -> & Ho).
  cbn [cbind]. intros [= -> <-]. destruct Ho as (Hsp2 & _ & [|(_ & p & m & Ha & Hm & Hm' & _)]); [done|].
  apply (stores_files _ (t_w t)) in Hm; [|done]. rewrite (Hfresh _ _ Hm) in Hm'.
  apply (getprop2_known _ name persist p (<[name := value]> m) value); try done. by rewrite lookup_insert_eq.
Qed.

(** "resetprop -n name value" changes an existing short property, a
    read-only one included, and "resetprop name" then prints the new value. *)
Theorem setprop2_changes_getprop2 t name value persist p o m v r :
  tool_ok t → legal_property_name name = Ret true → name_ok name → no_nul value →
  (Z.of_nat (length value) < PROP_VALUE_MAX)%Z →
  area_of k (t_sp t) (t_w t) name p → stores (t_w t) p m → m !! name = Some v →
  Find k (t_sp t) (t_w t) name = Ret (Some (p, o), t_sp t, t_w t) →
  load_pi (t_w t) (p, o) = Ret r → is_long (updated r value) = false →
  ∃ t', setprop2 t name value false = Ret (0%Z, t') ∧ tool_ok t' ∧
    getprop2 t' name persist = Ret (Some value, t').
Proof.
  intros Ht Hl Hn Hv Hs Ha Hm Hmv Hf Hld Hlong. unfold ResetProp.setprop2. rewrite Hl. cbn [cbind negb].
  rewrite init_again by done. cbn [cbind negb]. unfold property_find. rewrite Hf.
  cbn [cbind set_sys t_sp t_w].
  destruct (Update_outcome k (t_sp t) (t_w t) name p o m v value r Ht Ha Hm Hn Hv Hs Hf Hmv Hld Hlong)
    as (w' & -> & Hsp' & Ha' & Hm' & _). cbn [cbind].
  eexists. split; [reflexivity|]. split; [done|].
  apply (getprop2_known _ name persist p (<[name := value]> m) value); try done. by rewrite lookup_insert_eq.
Qed.

(** "resetprop --delete name" reports success exactly when the area lost
    the property, and "resetprop name" then fails. *)
Theorem deleteprop2_then_getprop2 t name :
  tool_ok t → legal_property_name name = Ret true → name_ok name →
  ∃ r t', deleteprop2 t name false = Ret (r, t') ∧ tool_ok t' ∧
    (r = 0%Z → getprop2 t' name false = Ret (None, t')) ∧
    (∀ p m, area_of k (t_sp t) (t_w t) name p → stores (t_w t) p m → is_Some (m !! name) → r = 0%Z).
Proof.
  intros Ht Hl Hn. unfold ResetProp.deleteprop2. rewrite Hl. cbn [cbind negb].
  rewrite init_again by done. cbn [cbind negb andb].
  destruct (Delete_outcome k (t_sp t) (t_w t) name Ht Hn) as (r & sp' & w' & -> & Hsp' & _ & Ho & Hin).
  cbn [cbind]. eexists _, _. split; [reflexivity|]. split; [done|]. split.
  - destruct (Z.eqb_spec r 0) as [->|]; [|done]. intros _.
    destruct Ho as [[? _]|(_ & p & m & Ha & _ & Hm' & _)]; [done|].
    unfold ResetProp.getprop2. rewrite Hl. cbn [cbind negb]. rewrite init_again by done.
    cbn [cbind negb]. unfold property_find.
    destruct (Find_known k sp' w' name p _ Hsp' Ha Hm' Hn) as (o & a & Hf & _ & _ & _ & Hr).
    cbn [set_sys t_sp t_w]. rewrite Hf. destruct o as [o|]; [|done].
    destruct Hr as (v & ? & Hv & _). by rewrite lookup_delete_eq in Hv.
  - intros p m Ha Hm Hs. by rewrite (Hin p m Ha Hm Hs).
Qed.
End tool.

(** * Property files *)

Lemma leading_spaces_app n s :
  head s ≠ Some " "%char → leading_spaces (replicate n " "%char ++ s) = n.
Proof.
  intros Hs. induction n as [|n IH]; cbn [replicate app leading_spaces].
  - destruct s as [|c s]; [done|]. cbn [leading_spaces]. rewrite bool_decide_false; [done|].
    intros ->. by apply Hs.
  - rewrite bool_decide_true by done. by rewrite IH.
Qed.

(** A line "name=value" of a property file, indented by any number of
    spaces and ended by a newline, sets exactly that name to everything after
    the first '='. *)
Theorem parse_prop_line_pair n name value :
  name ≠ [] → head name ≠ Some " "%char → head name ≠ Some "#"%char → "="%char ∉ name →
  no_nul name → value ≠ [] → no_nul value →
  parse_prop_line (replicate n " "%char ++ name ++ "="%char :: value ++ [chr 10]) = Some (name, value).
Proof.
  intros Hne Hsp Hh Heq Hnn Hv Hnv. unfold parse_prop_line.
  set (line := replicate n " "%char ++ name ++ "="%char :: value).
  replace (replicate n " "%char ++ name ++ "="%char :: value ++ [chr 10]) with (line ++ [chr 10])
    by (subst line; by rewrite <- !app_assoc).
  rewrite last_snoc. cbv beta iota zeta.
  rewrite (bool_decide_true (chr 10 = chr 10)), removelast_snoc by done.
  assert (Hls : leading_spaces line = n).
  { subst line. apply leading_spaces_app. by destruct name. }
  rewrite Hls. assert (Hd : drop n line = name ++ "="%char :: value).
  { subst line. by rewrite drop_app_length' by (by rewrite length_replicate). }
  rewrite bool_decide_false; cycle 1.
  { rewrite <- (Nat.add_0_r n), <- lookup_drop, Hd. destruct name as [|c name]; [done|]. exact Hh. }
  assert (Hno : no_nul line).
  { subst line. unfold no_nul in *. rewrite !elem_of_app, elem_of_cons, elem_of_replicate.
    intros [[Hx _]|[Hx|[Hx|Hx]]]; [discriminate Hx|done|discriminate Hx|done]. }
  rewrite (c_str_of_id line Hno).
  assert (Hch : strchr line "="%char = Some (n + length name)).
  { subst line. rewrite app_assoc. rewrite strchr_app.
    - by rewrite length_app, length_replicate.
    - rewrite elem_of_app, elem_of_replicate. intros [[Hx _]|?]; [discriminate Hx|done]. }
  rewrite Hch. assert (Hlen : length line = n + length name + S (length value)).
  { subst line. rewrite !length_app, length_replicate. simpl. lia. }
  assert (0 < length name ∧ 0 < length value) as [H1 H2]
    by (destruct name, value; simpl; try done; lia).
  rewrite Hlen, (proj2 (Nat.leb_gt _ n)), (proj2 (Nat.leb_gt _ _)) by lia. cbn [orb].
  rewrite Hd. replace (n + length name - n) with (length name) by lia. rewrite take_app_length.
  replace (S (n + length name)) with (n + S (length name)) by lia.
  rewrite <- drop_drop, Hd, cons_middle, app_assoc.
  rewrite drop_app_length' by (rewrite length_app; simpl; lia). by rewrite c_str_of_id.
Qed.

Lemma parse_prop_line_pair_witness :
  parse_prop_line (cs "  ro.debuggable=1=x" ++ [chr 10]) = Some (cs "ro.debuggable", cs "1=x").
Proof.
  refine (parse_prop_line_pair 2 (cs "ro.debuggable") (cs "1=x") _ _ _ _ _ _ _);
    apply (bool_decide_unpack _); vm_compute; exact I.
Defined.

(** * Concrete instances *)

Definition no_service (w : world) (ps : pstore) (name value : cstr) : cres (Z * world * pstore) := Ret ((-1)%Z, w, ps).

Definition sample_tool (a : prop_area) : tool :=
  mkTool (mkSystemProperties (Some (APreSplit (mkPreSplit (Some sample_path)))) true sample_path)
    (sample_world a) (mkPstore None ∅) false [].

Lemma sample_tool_ok a m :
  represents PA_DATA_SIZE a m → tool_ok sample_kernel (sample_tool a).
Proof.
  intros Hm. destruct (sample_sp_ok a m Hm) as [Hw _ _]. split; [exact Hw|done|].
  eexists. split; [reflexivity|]. split; [|eexists; reflexivity].
  simpl. intros p [= <-]. by rewrite lookup_singleton_eq.
Qed.

Lemma sample_tool_area a name :
  area_of sample_kernel (t_sp (sample_tool a)) (t_w (sample_tool a)) name sample_path.
Proof.
  split; [simpl; by rewrite lookup_singleton_eq|]. intros w'. by eexists.
Qed.

Abbreviation sample_set a n v :=
  (setprop2 sample_kernel (λ _, []) (λ _, None) no_service (sample_tool a) n v false).

Definition tool_of {A} (r : cres (A * tool)) : tool :=
  match r with Ret (_, t) => t | _ => sample_tool empty_area end.

Lemma setprop2_then_getprop2_witness :
  sample_set sample_area1 (cs "debug.sf.hw") (cs "1") =
    Ret (0%Z, tool_of (sample_set sample_area1 (cs "debug.sf.hw") (cs "1"))) ∧
  getprop2 sample_kernel (λ _, []) (tool_of (sample_set sample_area1 (cs "debug.sf.hw") (cs "1")))
    (cs "debug.sf.hw") false =
    Ret (Some (cs "1"), tool_of (sample_set sample_area1 (cs "debug.sf.hw") (cs "1"))).
Proof.
  assert (H : sample_set sample_area1 (cs "debug.sf.hw") (cs "1") =
    Ret (0%Z, tool_of (sample_set sample_area1 (cs "debug.sf.hw") (cs "1")))) by (vm_compute; reflexivity).
  refine (conj H (setprop2_then_getprop2 _ _ _ _ _ _ _ _ _ _ _ _ _ _ _ H)).
  - apply (sample_tool_ok _ _ sample_area1_represents).
  - vm_compute. reflexivity.
  - vm_compute. reflexivity.
  - apply (bool_decide_unpack _). vm_compute. exact I.
  - vm_compute. reflexivity.
  - apply (sample_fresh _ _ _ sample_area1_represents); vm_compute; reflexivity.
Defined.

Lemma setprop2_changes_getprop2_witness : ∃ t',
  sample_set sample_area1 (cs "ro.product") (cs "zerolte") = Ret (0%Z, t') ∧
  getprop2 sample_kernel (λ _, []) t' (cs "ro.product") false = Ret (Some (cs "zerolte"), t').
Proof.
  destruct (setprop2_changes_getprop2 sample_kernel (λ _, []) (λ _, None) no_service
    (sample_tool sample_area1) (cs "ro.product") (cs "zerolte") false
    sample_path 72%Z {[ cs "ro.product" := cs "zeroflte" ]} (cs "zeroflte")
    (match load_pi (sample_world sample_area1) (sample_path, 72%Z) with Ret r => r
     | _ => PropInfo 0 [] [] end)) as (t' & H1 & _ & H2).
  - apply (sample_tool_ok _ _ sample_area1_represents).
  - vm_compute. reflexivity.
  - vm_compute. reflexivity.
  - apply (bool_decide_unpack _). vm_compute. exact I.
  - vm_compute. reflexivity.
  - apply sample_tool_area.
  - eexists. split; [apply lookup_singleton_eq|apply sample_area1_represents].
  - apply lookup_singleton_eq.
  - vm_compute. reflexivity.
  - vm_compute. reflexivity.
  - vm_compute. reflexivity.
  - exact (ex_intro _ t' (conj H1 H2)).
Defined.

Lemma deleteprop2_then_getprop2_witness : ∃ r t',
  deleteprop2 sample_kernel (λ _, []) (λ _, None) (sample_tool sample_area1) (cs "ro.product") false
    = Ret (r, t') ∧
  (r = 0%Z → getprop2 sample_kernel (λ _, []) t' (cs "ro.product") false = Ret (None, t')).
Proof.
  destruct (deleteprop2_then_getprop2 sample_kernel (λ _, []) (λ _, None)
    (sample_tool sample_area1) (cs "ro.product")) as (r & t' & H1 & _ & H2 & _).
  - apply (sample_tool_ok _ _ sample_area1_represents).
  - vm_compute. reflexivity.
  - vm_compute. reflexivity.
  - exact (ex_intro _ r (ex_intro _ t' (conj H1 H2))).
Defined.

(** * Behaviours at the edge of the contract *)

(** Reading a long read-only property overflows the 92 bytes of the buffer. *)
Lemma getprop2_long_overflows :
  getprop2 sample_kernel (λ _, []) (sample_tool sample_area2) (cs "ro.long") false = Fault ∧
  print_props sample_kernel (λ _, []) (sample_tool sample_area2) false = Fault.
Proof. split; vm_compute; reflexivity. Qed.

(** A value under /data/property is cut after four bytes. *)
Lemma persist_getprop_truncates :
  persist_getprop (λ _, []) (mkPstore None {[ cs "persist.a" := cs "12345" ]}) (cs "persist.a") =
    Ret (Some (cs "1234")).
Proof. vm_compute. reflexivity. Qed.

(** "resetprop -pn a b", "resetprop --delete a", "resetprop --verbose" (each
    unknown letter of a long option prints the usage). *)
Lemma parse_args_samples :
  parse_args [cs "-pn"; cs "a"; cs "b"] (mkFlags true false false) =
    CSet (cs "a") (cs "b") (mkFlags false true false) ∧
  parse_args [cs "-p"; cs "--delete"; cs "a"] (mkFlags true false false) =
    CDelete (cs "a") (mkFlags true true false) ∧
  parse_args [cs "--verbose"] (mkFlags true false false) = CUsage.
Proof. split_and!; reflexivity. Qed.
