(* ===== verification/ContextsHome.v ===== *)
(** Which area a name lives in is settled once and for all: the answer of
    [GetPropAreaForName] for a name does not depend on what was looked up
    before, nor on what the areas hold (contexts_serialized.cpp,
    contexts_split.cpp, contexts_pre_split.h).  Nodes are opened on demand and
    remember their mapping, so this is a law the three implementations have to
    be shown to keep. *)

From Stdlib Require Import ZArith Lia Ascii.
From stdpp Require Import base numbers strings gmap list.
From S2P Require Import Prelude CString PropInfo PropArea PropertyInfoParser Contexts.
From S2P Require Import ContextsSplit ContextsSerialized SystemProperties ResetPropSpec.

(** The area a name lives in. *)
Definition home (k : kernel) {S : Type} `{!Contexts k S} (s : S) (w : world) (name : cstr) : option cstr :=
  match GetPropAreaForName (k := k) s w name with Ret (r, _, _) => r | _ => None end.

(** The same files, apart from what their areas hold. *)
Definition same_header (f f' : area_file) : Prop :=
  af_stat f = af_stat f' ∧ magic (af_area f) = magic (af_area f') ∧
  version (af_area f) = version (af_area f').

Definition same_files (w w' : world) : Prop :=
  ∀ p, match w_files w !! p, w_files w' !! p with
       | Some f, Some f' => same_header f f'
       | None, None => True
       | _, _ => False
       end.

(** The law, on top of those of [ContextsLaws]. *)
Class ContextsStable (k : kernel) (S : Type) `{ContextsLaws k S} := {
  home_lookup : ∀ s w name r s' w' n, ctx_ok s w →
    GetPropAreaForName (k := k) s w name = Ret (r, s', w') → home k s' w' n = home k s w n;
  home_files : ∀ s w w' n, ctx_ok s w → same_files w w' → home k s w' n = home k s w n
}.

Lemma same_files_of w w' : w_files w' = w_files w → same_files w w'.
Proof. intros E p. rewrite E. by destruct (w_files w !! p). Qed.

#[export] Instance same_header_equivalence : Equivalence same_header.
Proof.
  unfold same_header. split.
  - by intros f.
  - intros f g (-> & -> & ->). done.
  - intros f g h (-> & -> & ->) (-> & -> & ->). done.
Qed.

#[export] Instance same_files_equivalence : Equivalence same_files.
Proof.
  unfold same_files. split.
  - intros w p. by destruct (w_files w !! p).
  - intros w1 w2 H p. specialize (H p). destruct (w_files w1 !! p), (w_files w2 !! p); try done.
  - intros w1 w2 w3 H1 H2 p. specialize (H1 p). specialize (H2 p).
    destruct (w_files w1 !! p), (w_files w2 !! p), (w_files w3 !! p); try done. by etrans.
Qed.

Section nodes.
Context (k : kernel).

Lemma map_prop_area_same w w' filename :
  same_files w w' → (map_prop_area k w' filename).1 = (map_prop_area k w filename).1.
Proof.
  intros Hs. specialize (Hs filename). unfold map_prop_area.
  destruct (w_files w !! filename) as [f|], (w_files w' !! filename) as [f'|]; try done.
  destruct Hs as (Hst & Hm & Hv). destruct (k_open k filename); [|done].
  unfold map_fd_rw. rewrite Hst, Hm, Hv. by repeat case_match.
Qed.

(** The area of a node, mapped or about to be. *)
Definition node_home (n : ContextNode) (w : world) : option cstr :=
  match cn_pa n with
  | Some p => Some p
  | None =>
    match format_path (cn_filename n) (cn_context n) with
    | Some filename => (map_prop_area k w filename).1
    | None => None
    end
  end.

Lemma node_home_same n w w' : same_files w w' → node_home n w' = node_home n w.
Proof.
  intros Hs. unfold node_home. destruct (cn_pa n); [done|].
  destruct (format_path _ _); [|done]. by apply map_prop_area_same.
Qed.

Lemma cn_Open_home n w ff ok n' ff' w' :
  cn_lock n = false → cn_Open k n w false ff = Ret (ok, n', ff', w') →
  cn_pa n' = node_home n w ∧ node_home n' w' = node_home n w ∧ same_files w w'.
Proof.
  intros Hl. unfold cn_Open, cn_acquire, node_home. rewrite Hl. cbn [cbind cn_pa cn_filename cn_context].
  destruct (cn_pa n) as [p|] eqn:Hp.
  { intros [= <- <- <- <-]. cbn [cn_release cn_pa]. split_and!; [done|done|]. by apply same_files_of. }
  destruct (format_path _ _) as [filename|] eqn:Hfp.
  2:{ intros [= <- <- <- <-]. cbn [cn_release cn_pa cn_filename cn_context]. rewrite Hfp.
      split_and!; [done|done|]. by apply same_files_of. }
  destruct (map_prop_area k w filename) as [pa w1] eqn:Hm. cbn [cbind]. intros [= <- <- <- <-].
  destruct (map_prop_area_spec k _ _ _ _ Hm) as (Hf & _). pose proof (same_files_of _ _ Hf) as Hs.
  cbn [cn_release set_pa cn_pa cn_filename cn_context fst]. rewrite Hfp. destruct pa; [done|].
  rewrite (map_prop_area_same w w1) by done. by rewrite Hm.
Qed.

#[export] Instance PreSplit_Stable : ContextsStable k ContextsPreSplit.
Proof. split; [|done]. intros s w name r s' w' n _ [= <- <- <-]. done. Qed.

(** ** The serialized implementation *)

Definition ser_home (s : ContextsSerialized) (w : world) (name : cstr) : option cstr :=
  match mmap_base (property_info_area_file_ s) with
  | Some d =>
    match GetPropertyInfoIndexes d name with
    | Ret (index, _) =>
      if (index =? UINT32_MAX)%Z || (index >=? num_context_nodes_ s)%Z then None
      else ns ← context_nodes_ s; n ← ns !! Z.to_nat index; node_home n w
    | _ => None
    end
  | None => None
  end.

Lemma ser_get s w name r s' w' :
  serialized_ok s w → ser_GetPropAreaForName k s w name = Ret (r, s', w') →
  r = ser_home s w name ∧ same_files w w' ∧ ∀ n, ser_home s' w' n = ser_home s w n.
Proof.
  intros (_ & (ns0 & Hns0 & _ & Hok) & _). unfold ser_GetPropAreaForName, ser_home at 1.
  destruct (mmap_base _) as [d|] eqn:Hd; [|done]. cbn [deref cbind].
  destruct (GetPropertyInfoIndexes d name) as [[index ti]| |]; [|done..]. cbn [cbind].
  assert (Hrefl : same_files w w) by by apply same_files_of.
  destruct (_ || _) eqn:Hx; [by intros [= <- <- <-]|].
  destruct (context_nodes_ s) as [ns|] eqn:Hns; [|done]. injection Hns0 as <-. cbn [deref cbind].
  destruct (ns !! Z.to_nat index) as [n|] eqn:Hn; [|done]. cbn [deref cbind mbind option_bind].
  destruct (cn_pa n) as [p|] eqn:Hp.
  { intros [= <- <- <-]. split_and!; [|done|done]. cbn. rewrite Hn. cbn. unfold node_home. by rewrite Hp. }
  destruct (cn_Open k n w false None) as [[[[ok n'] ff] w1]| |] eqn:Ho; [|done..]. cbn [cbind].
  intros [= <- <- <-]. pose proof (Forall_lookup_1 _ _ _ _ Hok Hn) as [Hl _].
  destruct (cn_Open_home _ _ _ _ _ _ _ Hl Ho) as (Hpa & Hh & Hs).
  split; [cbn; by rewrite Hn|]. split; [done|].
  intros name'. unfold ser_home. cbn [set_nodes property_info_area_file_ num_context_nodes_ context_nodes_].
  rewrite Hd, Hns. destruct (GetPropertyInfoIndexes d name') as [[i ti']| |]; [|done..].
  clear Hx. destruct ((i =? _)%Z || _); [done|]. cbn [mbind option_bind].
  destruct (decide (Z.to_nat index = Z.to_nat i)) as [<-|Hne].
  - rewrite list_lookup_insert_eq by (by eapply lookup_lt_Some). rewrite Hn. exact Hh.
  - rewrite list_lookup_insert_ne by done. destruct (ns !! Z.to_nat i); [|done]. exact (node_home_same _ _ _ Hs).
Qed.

Notation ser_ok := (@ctx_ok k ContextsSerialized _ (Serialized_Laws k)).

Lemma ser_home_spec s w name :
  ser_ok s w → home k (S := ContextsSerialized) s w name = ser_home s w name.
Proof.
  intros Hok. destruct (ctx_get (k := k) s w name Hok) as (r & s' & w' & Hrun & _).
  cbn in Hrun. unfold home. cbn. rewrite Hrun. by destruct (ser_get _ _ _ _ _ _ Hok Hrun).
Qed.

Lemma same_files_dom w w' : same_files w w' → dom (w_files w) ⊆ dom (w_files w').
Proof.
  intros Hs p. rewrite !elem_of_dom. intros [f Hf]. specialize (Hs p). rewrite Hf in Hs.
  by destruct (w_files w' !! p).
Qed.

#[export] Instance Serialized_Stable : ContextsStable k ContextsSerialized.
Proof.
  split.
  - intros s w name r s' w' n Hok Hrun.
    destruct (ctx_get (k := k) s w name Hok) as (r1 & s1 & w1 & Hrun1 & Hok1 & _).
    rewrite Hrun in Hrun1. injection Hrun1 as <- <- <-.
    rewrite !ser_home_spec by done. by apply (ser_get s w name r).
  - intros s w w' n Hok Hs.
    pose proof (ctx_ok_files (k := k) s w w' (same_files_dom _ _ Hs) Hok) as Hok'.
    rewrite !ser_home_spec by done. unfold ser_home. repeat case_match; try done.
    destruct (context_nodes_ s) as [ns|]; [|done]. cbn [mbind option_bind].
    destruct (ns !! _); [|done]. exact (node_home_same _ _ _ Hs).
Qed.

(** ** The split implementation *)

(** The first node with a context. *)
Fixpoint node_of (ns : list ContextNode) (context : cstr) : option ContextNode :=
  match ns with
  | [] => None
  | n :: ns => if decide (cn_context n = context) then Some n else node_of ns context
  end.

Definition nodes_home (ns : list ContextNode) (context : cstr) (w : world) : option cstr :=
  match node_of ns context with Some n => node_home n w | None => None end.

Definition split_home (s : ContextsSplit) (w : world) (name : cstr) : option cstr :=
  match ListFind (prefixes_ s) (prefix_matches name) with
  | Some e => nodes_home (contexts_ s) (prefix_context e) w
  | None => None
  end.

Lemma nodes_home_same ns c w w' : same_files w w' → nodes_home ns c w' = nodes_home ns c w.
Proof. intros Hs. unfold nodes_home. destruct (node_of ns c); [|done]. by apply node_home_same. Qed.

Lemma nodes_home_cons n ns c w :
  nodes_home (n :: ns) c w = if decide (cn_context n = c) then node_home n w else nodes_home ns c w.
Proof. unfold nodes_home. cbn [node_of]. by case_decide. Qed.

Lemma open_home n w n' w' :
  node_ok n w → open_if_unmapped k w n = Ret (n', w') →
  cn_pa n' = node_home n w ∧ node_home n' w' = node_home n w ∧ same_files w w' ∧
  cn_context n' = cn_context n.
Proof.
  intros Hn. pose proof Hn as [Hl _]. unfold open_if_unmapped. destruct (cn_pa n) as [p|] eqn:Hp.
  - intros [= <- <-]. unfold node_home. rewrite Hp. split_and!; [done..|by apply same_files_of|done].
  - destruct (cn_Open_ro k n w None Hn) as (ok & n1 & w1 & Ho & _ & _ & _ & _ & _ & Hc & _).
    rewrite Ho. cbn [cbind]. intros [= <- <-].
    destruct (cn_Open_home _ _ _ _ _ _ _ Hl Ho) as (? & ? & ?). by split_and!.
Qed.

Lemma with_node_home ns c w pa ns' w' :
  Forall (λ n, node_ok n w) ns → with_node ns c (open_if_unmapped k w) w = Ret (pa, ns', w') →
  pa = nodes_home ns c w ∧ same_files w w' ∧ ∀ c', nodes_home ns' c' w' = nodes_home ns c' w.
Proof.
  intros Hok. revert pa ns'. induction Hok as [|n ns Hn Hok IH]; [done|]. intros pa ns'. cbn [with_node].
  rewrite nodes_home_cons. destruct (decide (cn_context n = c)) as [Hc|Hc].
  - destruct (open_if_unmapped k w n) as [[n1 w1]| |] eqn:Ho; [|done..]. cbn [cbind]. intros [= <- <- <-].
    destruct (open_home _ _ _ _ Hn Ho) as (Hp & Hh & Hs & Hcn). split; [done|]. split; [done|].
    intros c'. rewrite !nodes_home_cons, Hcn. case_decide; [done|]. by apply nodes_home_same.
  - destruct (with_node ns c _ w) as [[[pa1 ns1] w1]| |]; [|done..]. cbn [cbind]. intros [= <- <- <-].
    destruct (IH _ _ eq_refl) as (-> & Hs & Hh). split; [done|]. split; [done|].
    intros c'. rewrite !nodes_home_cons, Hh. case_decide; [|done]. by apply node_home_same.
Qed.

Notation split_ctx_ok := (@ctx_ok k ContextsSplit _ (Split_Laws k)).

Lemma split_get s w name r s' w' :
  split_ok s w → get_prop_area k s w name = Ret (r, s', w') →
  r = split_home s w name ∧ same_files w w' ∧ ∀ n, split_home s' w' n = split_home s w n.
Proof.
  intros (_ & Hok & _). unfold get_prop_area, split_home at 1.
  destruct (ListFind _ _) as [e|].
  2:{ intros [= <- <- <-]. split_and!; [done|by apply same_files_of|done]. }
  destruct (with_node _ _ _ _) as [[[pa ns'] w1]| |] eqn:Hw; [|done..]. cbn [cbind]. intros [= <- <- <-].
  destruct (with_node_home _ _ _ _ _ _ Hok Hw) as (-> & Hs & Hh). split; [done|]. split; [done|].
  intros n. unfold split_home. cbn [with_lists prefixes_ contexts_]. by destruct (ListFind _ _).
Qed.

Lemma split_home_spec s w name :
  split_ctx_ok s w → home k (S := ContextsSplit) s w name = split_home s w name.
Proof.
  intros Hok. destruct (ctx_get (k := k) s w name Hok) as (r & s' & w' & Hrun & _).
  cbn in Hrun. unfold home. cbn. rewrite Hrun. by destruct (split_get _ _ _ _ _ _ Hok Hrun).
Qed.

#[export] Instance Split_Stable : ContextsStable k ContextsSplit.
Proof.
  split.
  - intros s w name r s' w' n Hok Hrun.
    destruct (ctx_get (k := k) s w name Hok) as (r1 & s1 & w1 & Hrun1 & Hok1 & _).
    rewrite Hrun in Hrun1. injection Hrun1 as <- <- <-.
    rewrite !split_home_spec by done. by apply (split_get s w name r).
  - intros s w w' n Hok Hs.
    pose proof (ctx_ok_files (k := k) s w w' (same_files_dom _ _ Hs) Hok) as Hok'.
    rewrite !split_home_spec by done. unfold split_home. destruct (ListFind _ _); [|done].
    by apply nodes_home_same.
Qed.

(** ** Dispatch *)

#[export] Instance Any_Stable : ContextsStable k AnyContexts.
Proof.
  assert (Hd : ∀ (c : AnyContexts) w n, home k c w n =
    match c with
    | ASerialized s => home k s w n | ASplit s => home k s w n | APreSplit s => home k s w n
    end).
  { intros [s|s|s] w n; unfold home; cbn [GetPropAreaForName Any_Contexts];
      by destruct (GetPropAreaForName s w n) as [[[? ?] ?]| |]. }
  split.
  - intros [s|s|s] w name r s' w' n Hok; cbn [GetPropAreaForName Any_Contexts];
      destruct (GetPropAreaForName s w name) as [[[r1 s1] w1]| |] eqn:Hrun; try done;
      cbn [cmap3 cbind]; intros [= <- <- <-]; rewrite !Hd; by eapply home_lookup.
  - intros [s|s|s] w w' n Hok Hs; rewrite !Hd; by apply home_files.
Qed.
End nodes.
