(* ===== verification/ContextsEnumerate.v ===== *)
(** The areas that [ForEach] of an implementation of [Contexts] goes through:
    those of the nodes that can be opened, each with the records of its trie
    (contexts_serialized.cpp, contexts_split.cpp, contexts_pre_split.h).  A
    lookup opens a node without the access check that an enumeration makes
    first, so the two agree only when the check does not refuse what [open]
    allows: [ctx_agrees]. *)

From Stdlib Require Import ZArith Lia Ascii.
From stdpp Require Import base numbers strings gmap list.
From S2P Require Import Prelude CString PropInfo PropArea PropertyInfoParser Contexts.
From S2P Require Import ContextsSplit ContextsSerialized SystemProperties.
From S2P Require Import SystemPropertiesSpec.
From S2P Require Import ResetPropSpec ContextsHome.

(** The areas one after the other. *)
Fixpoint visit_areas {C} (w : world) (ps : list cstr) (propfn : cstr * Z → C → C) (cookie : C) : cres C :=
  match ps with
  | [] => Ret cookie
  | p :: ps => let! cookie := area_foreach w p propfn cookie in visit_areas w ps propfn cookie
  end.

Lemma area_foreach_same {C} w w' p (propfn : cstr * Z → C → C) cookie :
  w_files w' = w_files w → w_pa_data_size w' = w_pa_data_size w →
  area_foreach w' p propfn cookie = area_foreach w p propfn cookie.
Proof. intros Hf Hs. unfold area_foreach, get_area. by rewrite Hf, Hs. Qed.

Lemma visit_areas_same {C} w w' ps (propfn : cstr * Z → C → C) cookie :
  w_files w' = w_files w → w_pa_data_size w' = w_pa_data_size w →
  visit_areas w' ps propfn cookie = visit_areas w ps propfn cookie.
Proof.
  intros Hf Hs. revert cookie. induction ps as [|p ps IH]; intros cookie; cbn [visit_areas]; [done|].
  rewrite (area_foreach_same w w') by done. by destruct (area_foreach _ _ _ _); cbn [cbind].
Qed.

(** The law, on top of those of [ContextsStable]. *)
Class ContextsEnumerable (k : kernel) (S : Type) `{ContextsStable k S} := {
  ctx_areas : S → world → list cstr;
  ctx_agrees : S → world → Prop;
  areas_files : ∀ s w w', same_files w w' →
    ctx_areas s w' = ctx_areas s w ∧ (ctx_agrees s w → ctx_agrees s w');
  areas_lookup : ∀ s w name r s' w', ctx_ok s w →
    GetPropAreaForName (k := k) s w name = Ret (r, s', w') →
    ctx_areas s' w' = ctx_areas s w ∧ (ctx_agrees s w → ctx_agrees s' w');
  areas_known : ∀ s w p, ctx_ok s w → p ∈ ctx_areas s w → is_Some (w_files w !! p);
  areas_home : ∀ s w name p, ctx_ok s w → home k s w name = Some p → p ∈ ctx_areas s w;
  areas_foreach : ∀ s w, world_ok w → ctx_ok s w → ctx_agrees s w →
    ∃ s' w', (∀ (C : Type) (propfn : cstr * Z → C → C) (cookie : C),
        ForEach (k := k) s w propfn cookie =
          let! c := visit_areas w (ctx_areas s w) propfn cookie in Ret (c, s', w')) ∧
      ctx_ok s' w' ∧ world_ok w' ∧ w_files w' = w_files w ∧
      GetSerialPropArea (k := k) s' = GetSerialPropArea (k := k) s ∧
      ctx_areas s' w' = ctx_areas s w ∧ ctx_agrees s' w' ∧ ∀ n, home k s' w' n = home k s w n
}.

(** * Nodes *)

Section nodes.
Context (k : kernel).

(** A node that could be opened is mapped already or passes the check. *)
Definition node_agrees (n : ContextNode) (w : world) : Prop :=
  is_Some (node_home k n w) → is_Some (cn_pa n) ∨ cn_no_access n = false ∧ cn_CheckAccess k n = true.

(** What using a node may do to it. *)
Record node_step (w w' : world) (n n' : ContextNode) : Prop := {
  ns_home : node_home k n' w' = node_home k n w;
  ns_context : cn_context n' = cn_context n;
  ns_agrees : node_agrees n w → node_agrees n' w'
}.

Lemma node_step_same w w' n : same_files w w' → node_step w w' n n.
Proof.
  intros Hs. pose proof (node_home_same k n w w' Hs) as Hh. split; [done|done|].
  unfold node_agrees. by rewrite Hh.
Qed.

Lemma nodes_step_same w w' ns : same_files w w' → Forall2 (node_step w w') ns ns.
Proof. intros Hs. induction ns; constructor; auto using node_step_same. Qed.

Lemma open_step n w ff ok n' ff' w' :
  node_ok n w → cn_Open k n w false ff = Ret (ok, n', ff', w') → node_step w w' n n'.
Proof.
  intros Hn Ho. pose proof Hn as [Hl _]. destruct (cn_Open_home k _ _ _ _ _ _ _ Hl Ho) as (Hp & Hh & _).
  destruct (cn_Open_ro k n w ff Hn) as (ok1 & n1 & w1 & Ho1 & _ & _ & _ & _ & _ & Hc & _).
  rewrite Ho in Ho1. injection Ho1 as _ <- _ _. split; [done|done|].
  intros _. unfold node_agrees. rewrite Hh, <- Hp. by left.
Qed.

Definition node_areas (ns : list ContextNode) (w : world) : list cstr := omap (λ n, node_home k n w) ns.

Lemma node_areas_step w w' ns ns' : Forall2 (node_step w w') ns ns' → node_areas ns' w' = node_areas ns w.
Proof.
  unfold node_areas. induction 1 as [|n n' ns ns' Hn _ IH]; [done|]. cbn. rewrite (ns_home _ _ _ _ Hn).
  destruct (node_home k n w); [|exact IH]. f_equal. exact IH.
Qed.

Lemma node_agrees_step w w' ns ns' :
  Forall2 (node_step w w') ns ns' → Forall (λ n, node_agrees n w) ns → Forall (λ n, node_agrees n w') ns'.
Proof.
  induction 1 as [|n n' ns ns' Hn _ IH]; [done|]. rewrite !Forall_cons.
  intros [H1 H2]. split; [by apply Hn|by apply IH].
Qed.

Lemma node_home_known n w p : node_ok n w → node_home k n w = Some p → is_Some (w_files w !! p).
Proof.
  intros [_ Hp]. unfold node_home. destruct (cn_pa n) as [q|]; [intros [= <-]; by apply Hp|].
  destruct (format_path _ _) as [filename|]; [|done].
  destruct (map_prop_area k w filename) as [pa w'] eqn:Hm. cbn [fst]. intros ->.
  destruct (map_prop_area_spec k _ _ _ _ Hm) as (_ & _ & H). by destruct (H p eq_refl) as [-> ?].
Qed.

Lemma node_areas_known ns w p :
  Forall (λ n, node_ok n w) ns → p ∈ node_areas ns w → is_Some (w_files w !! p).
Proof.
  unfold node_areas. rewrite list_elem_of_omap. rewrite Forall_forall. intros Hok (n & Hn & Hp).
  apply (node_home_known n); auto.
Qed.

(** [CheckAccessAndOpen] of a node that agrees maps it when it can. *)
Lemma check_open n w :
  node_ok n w → node_agrees n w → ∃ n' w',
    cn_CheckAccessAndOpen k n w = Ret (bool_decide (is_Some (node_home k n w)), n', w') ∧
    cn_pa n' = node_home k n w ∧ node_ok n' w' ∧ node_step w w' n n' ∧ w_files w' = w_files w ∧ size_step w w'.
Proof.
  intros Hn Hag. pose proof (same_files_of w w eq_refl) as Hrefl. unfold node_agrees in Hag.
  unfold cn_CheckAccessAndOpen. destruct (cn_pa n) as [p|] eqn:Hp.
  - assert (Hh : node_home k n w = Some p) by (unfold node_home; by rewrite Hp).
    rewrite (bool_decide_true (is_Some (Some p))) by eauto. cbn [negb andb cbind].
    exists n, w. rewrite Hp, Hh. split_and!; auto using node_step_same, size_step_refl.
  - rewrite bool_decide_false by (intros [? [=]]). cbn [negb andb].
    destruct (cn_no_access n) eqn:Hna; cbn [negb cbind].
    { assert (Hh : node_home k n w = None).
      { destruct (node_home k n w); [|done]. destruct Hag as [[? [=]]|[[=] _]]; eauto. }
      exists n, w. rewrite Hp, Hh. split_and!; auto using node_step_same, size_step_refl. }
    destruct (cn_CheckAccess k n) eqn:Hca; cbn [negb cbind].
    2:{ assert (Hh : node_home k n w = None).
        { destruct (node_home k n w); [|done]. destruct Hag as [[? [=]]|[_ [=]]]; eauto. }
        assert (Hh' : node_home k (set_no_access n true) w = None) by exact Hh.
        exists (set_no_access n true), w. change (cn_pa (set_no_access n true)) with (cn_pa n).
        rewrite Hp, Hh. split_and!; auto using size_step_refl.
        split; [by rewrite Hh'|done|]. unfold node_agrees. rewrite Hh'. intros _ [? [=]]. }
    destruct (cn_Open_ro k n w None Hn) as (ok & n1 & w1 & Ho & Hn1 & Hf & Hsz & -> & _).
    rewrite Ho. cbn [cbind]. pose proof (open_step _ _ _ _ _ _ _ Hn Ho) as Hst. pose proof Hn as [Hl _].
    destruct (cn_Open_home k _ _ _ _ _ _ _ Hl Ho) as (Hpa & Hh & _). rewrite <- Hpa.
    destruct (bool_decide (is_Some (cn_pa n1))) eqn:E; cbn [cbind].
    + exists n1, w1. rewrite E. by split_and!.
    + exists (set_no_access n1 true), w1. change (cn_pa (set_no_access n1 true)) with (cn_pa n1). rewrite E.
      split_and!; try done. destruct Hst as [H1 H2 _]. split; [exact H1|exact H2|].
      apply bool_decide_eq_false in E. unfold node_agrees.
      assert (Hx : node_home k (set_no_access n1 true) w1 = node_home k n1 w1) by done.
      rewrite Hx, Hh, <- Hpa. by intros _ ?.
Qed.

Lemma world_ok_step w w' : world_ok w → w_files w' = w_files w → size_step w w' → world_ok w'.
Proof.
  intros [Hs Hf] He [E|((p & f) & Hin & E)]; (split; [|by rewrite He]); rewrite E; [done|].
  apply elem_of_map_to_list in Hin. cbn [snd]. by rewrite (proj1 (Hf p f Hin)).
Qed.

Lemma foreach_nodes_visits ns w :
  world_ok w → Forall (λ n, node_ok n w) ns → Forall (λ n, node_agrees n w) ns → ∃ ns' w',
    (∀ (C : Type) (propfn : cstr * Z → C → C) (cookie : C),
      foreach_nodes k ns w propfn cookie =
        let! c := visit_areas w (node_areas ns w) propfn cookie in Ret (c, ns', w')) ∧
    Forall2 (node_step w w') ns ns' ∧ Forall (λ n, node_ok n w') ns' ∧ w_files w' = w_files w ∧ world_ok w'.
Proof.
  revert w. induction ns as [|n ns IH]; intros w Hw Hok Hag.
  { exists [], w. split; [done|]. by split_and!. }
  apply Forall_cons in Hok as [Hn Hok]. apply Forall_cons in Hag as [Hna Hag].
  destruct (check_open n w Hn Hna) as (n1 & w1 & Hrun & Hpa & Hn1 & Hst & Hf & Hsz).
  pose proof (world_ok_step w w1 Hw Hf Hsz) as Hw1. pose proof (same_files_of w w1 Hf) as Hs1.
  assert (Hsteps : Forall2 (node_step w w1) ns ns) by by apply nodes_step_same.
  destruct (IH w1 Hw1) as (ns' & w' & Hfe & Hst' & Hok' & Hf' & Hw').
  { eapply Forall_impl; [exact Hok|]. intros x. apply node_ok_files. by rewrite Hf. }
  { by eapply node_agrees_step. }
  pose proof (same_files_of w1 w' Hf') as Hs2. exists (n1 :: ns'), w'. split; [|split_and!; [| |congruence|done]].
  - intros C propfn cookie. cbn [foreach_nodes]. rewrite Hrun. cbn [cbind].
    assert (Hrest : ∀ c, foreach_nodes k ns w1 propfn c =
      let! c := visit_areas w1 (node_areas ns w) propfn c in Ret (c, ns', w')).
    { intros c. by rewrite <- (node_areas_step w w1 ns ns Hsteps). }
    unfold node_areas at 1. cbn [omap list_omap]. fold (node_areas ns w). rewrite Hpa.
    assert (Hsize : w_pa_data_size w1 = w_pa_data_size w) by by rewrite (wo_size _ Hw), (wo_size _ Hw1).
    destruct (node_home k n w) as [p|]; cbn [visit_areas].
    + rewrite bool_decide_true by eauto. cbn [deref cbind]. rewrite (area_foreach_same w w1) by done.
      destruct (area_foreach w p propfn cookie); cbn [cbind]; [|done..].
      rewrite Hrest, (visit_areas_same w w1) by done. by destruct (visit_areas _ _ _ _).
    + rewrite bool_decide_false by (intros [? [=]]). cbn [cbind]. rewrite Hrest, (visit_areas_same w w1) by done.
      by destruct (visit_areas _ _ _ _).
  - constructor.
    + destruct Hst as [H1 H2 H3]. destruct (node_step_same w1 w' n1 Hs2) as [H4 H5 H6].
      split; [congruence|congruence|auto].
    + clear -Hst' Hs1. induction Hst' as [|m m' ms ms' [H1 H2 H3] _ IHs]; constructor; [|exact IHs].
      destruct (node_step_same w w1 m Hs1) as [H4 H5 H6]. split; [congruence|congruence|auto].
  - apply Forall_cons. split; [|done]. eapply node_ok_files; [|exact Hn1]. by rewrite Hf'.
Qed.
End nodes.

(** * The implementations *)

Section instances.
Context (k : kernel).

(** The conclusions about a list of nodes that has been used. *)
Lemma steps_areas w w' ns ns' :
  Forall2 (node_step k w w') ns ns' →
  node_areas k ns' w' = node_areas k ns w ∧
  (Forall (λ n, node_agrees k n w) ns → Forall (λ n, node_agrees k n w') ns').
Proof. intros H. split; [by apply node_areas_step|by apply node_agrees_step]. Qed.

(** ** One area for everything *)

#[export] Instance PreSplit_Enumerable : ContextsEnumerable k ContextsPreSplit.
Proof.
  refine {| ctx_areas s _ := option_list (pre_split_prop_area s);
            ctx_agrees s _ := is_Some (pre_split_prop_area s) |}.
  - done.
  - intros s w name r s' w' _ [= <- <- <-]. done.
  - intros [[q|]] w p Hok Hp; [|by apply elem_of_nil in Hp].
    apply list_elem_of_singleton in Hp as ->. by apply (Hok q).
  - intros [[q|]] w name p _ Hh; [|done]. injection Hh as ->. by apply list_elem_of_singleton.
  - intros s w Hw Hok [p Hp]. exists s, w. split; [|by split_and!].
    intros C propfn cookie. cbn [ForEach PreSplit_Contexts]. rewrite Hp. cbn [deref cbind].
    change (visit_areas w (option_list (Some p)) propfn cookie)
      with (let! c := area_foreach w p propfn cookie in Ret c).
    by destruct (area_foreach w p propfn cookie).
Defined.

(** ** The serialized implementation *)

Definition ser_nodes (s : ContextsSerialized) : list ContextNode := default [] (context_nodes_ s).

Lemma ser_get_steps s w name r s' w' :
  serialized_ok s w → ser_GetPropAreaForName k s w name = Ret (r, s', w') →
  Forall2 (node_step k w w') (ser_nodes s) (ser_nodes s').
Proof.
  intros (_ & (ns0 & Hns0 & _ & Hok) & _). unfold ser_GetPropAreaForName, ser_nodes.
  assert (Hrefl : ∀ ns, Forall2 (node_step k w w) ns ns) by (intros; by apply nodes_step_same, same_files_of).
  destruct (mmap_base _) as [d|]; [|done]. cbn [deref cbind].
  destruct (GetPropertyInfoIndexes d name) as [[index ti]| |]; [|done..]. cbn [cbind].
  destruct (_ || _); [by intros [= <- <- <-]|]. rewrite Hns0. cbn [deref cbind].
  destruct (ns0 !! Z.to_nat index) as [n|] eqn:Hn; [|done]. cbn [deref cbind].
  destruct (cn_pa n) as [p|] eqn:Hp; [intros [= <- <- <-]; by rewrite Hns0|].
  pose proof (Forall_lookup_1 _ _ _ _ Hok Hn) as Hnok.
  destruct (cn_Open_ro k n w None Hnok) as (ok & n' & w1 & Ho & _ & Hf & _). rewrite Ho. cbn [cbind].
  intros [= <- <- <-]. cbn [set_nodes context_nodes_ default].
  rewrite <- (list_insert_id ns0 _ _ Hn) at 1.
  apply Forall2_insert; [by apply nodes_step_same, same_files_of|by eapply open_step].
Qed.

Lemma ser_foreach_nodes {C} ns w (propfn : cstr * Z → C → C) cookie :
  ser_foreach k ns w propfn cookie = foreach_nodes k ns w propfn cookie.
Proof.
  revert w cookie. induction ns as [|n ns IH]; intros w cookie; [done|]. cbn [ser_foreach foreach_nodes].
  destruct (cn_CheckAccessAndOpen k n w) as [[[ok n1] w1]| |]; cbn [cbind]; [|done..].
  destruct (if ok then _ else _) as [c| |]; cbn [cbind]; [|done..]. by rewrite IH.
Qed.

Lemma ser_home_area s w name p :
  ser_home k s w name = Some p → p ∈ node_areas k (ser_nodes s) w.
Proof.
  unfold ser_home, node_areas, ser_nodes. destruct (mmap_base _); [|done].
  destruct (GetPropertyInfoIndexes _ _) as [[index ti]| |]; [|done..]. destruct (_ || _); [done|].
  destruct (context_nodes_ s) as [ns|]; [|done]. cbn.
  destruct (ns !! Z.to_nat index) as [n|] eqn:Hn; [|done]. cbn. intros Hp.
  apply list_elem_of_omap. exists n. split; [by eapply list_elem_of_lookup_2|done].
Qed.

#[export] Instance Serialized_Enumerable : ContextsEnumerable k ContextsSerialized.
Proof.
  refine {| ctx_areas s w := node_areas k (ser_nodes s) w;
            ctx_agrees s w := Forall (λ n, node_agrees k n w) (ser_nodes s) |}.
  - intros s w w' Hs. by apply steps_areas, nodes_step_same.
  - intros s w name r s' w' Hok Hrun. by apply steps_areas, (ser_get_steps s w name r).
  - intros s w p (_ & (ns & Hns & _ & Hok) & _). unfold ser_nodes. rewrite Hns. by apply node_areas_known.
  - intros s w name p Hok. rewrite ser_home_spec by done. apply ser_home_area.
  - intros s w Hw Hok Hag. pose proof Hok as (Hd & (ns & Hns & Hl & Hnok) & Hser).
    unfold ser_nodes in *. rewrite Hns in Hag |- *. cbn [default] in Hag |- *.
    destruct (foreach_nodes_visits k ns w Hw Hnok Hag) as (ns' & w' & Hfe & Hst & Hnok' & Hf & Hw').
    exists (set_nodes s ns'), w'. destruct (steps_areas w w' ns ns' Hst) as [Ha Hg].
    assert (Hok' : @ctx_ok k ContextsSerialized _ (Serialized_Laws k) (set_nodes s ns') w').
    { split; [exact Hd|]. split; [|cbn; by rewrite Hf]. exists ns'. split; [done|]. split; [|done].
      cbn [set_nodes num_context_nodes_]. by rewrite Hl, (Forall2_length _ _ _ Hst). }
    split; [|split_and!; auto].
    + intros C propfn cookie. cbn [ForEach Serialized_Contexts]. rewrite Hns, ser_foreach_nodes, Hfe.
      by destruct (visit_areas _ _ _ _).
    + intros name. rewrite !ser_home_spec by done. unfold ser_home. rewrite Hns.
      cbn [set_nodes property_info_area_file_ num_context_nodes_ context_nodes_].
      destruct (mmap_base _); [|done]. destruct (GetPropertyInfoIndexes _ _) as [[index ti]| |]; [|done..].
      destruct (_ || _); [done|]. cbn [mbind option_bind].
      destruct (proj1 (Forall2_lookup _ _ _) Hst (Z.to_nat index)) as [n n' Hn|]; [by apply Hn|done].
Defined.

(** ** The split implementation *)

Lemma open_if_unmapped_step n w n' w' :
  node_ok n w → open_if_unmapped k w n = Ret (n', w') → node_step k w w' n n'.
Proof.
  intros Hn. unfold open_if_unmapped. destruct (cn_pa n); [intros [= <- <-]; by apply node_step_same, same_files_of|].
  destruct (cn_Open k n w false None) as [[[[ok n1] ff] w1]| |] eqn:Ho; [|done..]. cbn [cbind].
  intros [= <- <-]. by eapply open_step.
Qed.

Lemma with_node_steps ns c w pa ns' w' :
  Forall (λ n, node_ok n w) ns → with_node ns c (open_if_unmapped k w) w = Ret (pa, ns', w') →
  Forall2 (node_step k w w') ns ns'.
Proof.
  intros Hok. revert pa ns'. induction Hok as [|n ns Hn Hok IH]; [done|]. intros pa ns'. cbn [with_node].
  destruct (decide (cn_context n = c)) as [Hc|Hc].
  - destruct (open_if_unmapped k w n) as [[n1 w1]| |] eqn:Ho; [|done..]. cbn [cbind]. intros [= <- <- <-].
    constructor; [by apply open_if_unmapped_step|]. apply nodes_step_same. by destruct (open_home k _ _ _ _ Hn Ho) as (_ & _ & ? & _).
  - destruct (with_node ns c _ w) as [[[pa1 ns1] w1]| |] eqn:Hw; [|done..]. cbn [cbind]. intros [= <- <- <-].
    constructor; [|by eapply IH]. apply node_step_same. by destruct (with_node_home k _ _ _ _ _ _ Hok Hw) as (_ & ? & _).
Qed.

Lemma split_get_steps s w name r s' w' :
  split_ok s w → get_prop_area k s w name = Ret (r, s', w') →
  Forall2 (node_step k w w') (contexts_ s) (contexts_ s').
Proof.
  intros (_ & Hok & _). unfold get_prop_area. destruct (ListFind _ _) as [e|].
  2:{ intros [= <- <- <-]. by apply nodes_step_same, same_files_of. }
  destruct (with_node _ _ _ _) as [[[pa ns'] w1]| |] eqn:Hw; [|done..]. cbn [cbind]. intros [= <- <- <-].
  by eapply with_node_steps.
Qed.

Lemma node_of_elem ns c n : node_of ns c = Some n → n ∈ ns ∧ cn_context n = c.
Proof.
  induction ns as [|m ns IH]; [done|]. cbn [node_of]. case_decide.
  - intros [= ->]. split; [by left|done].
  - intros Hn. destruct (IH Hn). split; [by right|done].
Qed.

Lemma nodes_home_step ns ns' c w w' :
  Forall2 (node_step k w w') ns ns' → nodes_home k ns' c w' = nodes_home k ns c w.
Proof.
  induction 1 as [|n n' ns ns' [Hh Hc _] _ IH]; [done|]. rewrite !nodes_home_cons, Hc. by case_decide.
Qed.

Lemma split_home_area s w name p : split_home k s w name = Some p → p ∈ node_areas k (contexts_ s) w.
Proof.
  unfold split_home, nodes_home, node_areas. destruct (ListFind _ _) as [e|]; [|done].
  destruct (node_of _ _) as [n|] eqn:Hn; [|done]. intros Hp. apply list_elem_of_omap. exists n.
  by destruct (node_of_elem _ _ _ Hn).
Qed.

Lemma split_ok_step s ns' w w' :
  Forall2 (node_step k w w') (contexts_ s) ns' → Forall (λ n, node_ok n w') ns' → w_files w' = w_files w →
  split_ok s w → split_ok (with_lists s (prefixes_ s) ns') w'.
Proof.
  intros Hst Hok Hf (H1 & _ & H3).
  split_and!; cbn [with_lists contexts_ prefixes_ serial_prop_area_]; [by rewrite Hf|done|].
  eapply Forall_impl; [exact H3|]. intros e (n & Hn & Hc).
  apply list_elem_of_lookup_1 in Hn as (i & Hi). destruct (Forall2_lookup_l _ _ _ _ _ Hst Hi) as (n' & Hi' & [_ Hc' _]).
  exists n'. split; [by eapply list_elem_of_lookup_2|congruence].
Qed.

#[export] Instance Split_Enumerable : ContextsEnumerable k ContextsSplit.
Proof.
  refine {| ctx_areas s w := node_areas k (contexts_ s) w;
            ctx_agrees s w := Forall (λ n, node_agrees k n w) (contexts_ s) |}.
  - intros s w w' Hs. by apply steps_areas, nodes_step_same.
  - intros s w name r s' w' Hok Hrun. by apply steps_areas, (split_get_steps s w name r).
  - intros s w p (_ & Hok & _). by apply node_areas_known.
  - intros s w name p Hok. rewrite split_home_spec by done. apply split_home_area.
  - intros s w Hw Hok Hag. pose proof Hok as (_ & Hnok & _).
    destruct (foreach_nodes_visits k _ w Hw Hnok Hag) as (ns' & w' & Hfe & Hst & Hnok' & Hf & Hw').
    exists (with_lists s (prefixes_ s) ns'), w'. destruct (steps_areas w w' _ ns' Hst) as [Ha Hg].
    assert (Hok' : @ctx_ok k ContextsSplit _ (Split_Laws k) (with_lists s (prefixes_ s) ns') w')
      by by apply (split_ok_step s ns' w w').
    split; [|split_and!; auto].
    + intros C propfn cookie. cbn [ForEach Split_Contexts]. rewrite Hfe. by destruct (visit_areas _ _ _ _).
    + intros name. rewrite !split_home_spec by done. unfold split_home. cbn [with_lists prefixes_ contexts_].
      destruct (ListFind _ _); [|done]. by apply nodes_home_step.
Defined.

(** ** Dispatch *)

Lemma Any_home (c : AnyContexts) w n : home k c w n =
  match c with ASerialized s => home k s w n | ASplit s => home k s w n | APreSplit s => home k s w n end.
Proof.
  destruct c as [s|s|s]; unfold home; cbn [GetPropAreaForName Any_Contexts];
    by destruct (GetPropAreaForName s w n) as [[[? ?] ?]| |].
Qed.

#[export] Instance Any_Enumerable : ContextsEnumerable k AnyContexts.
Proof.
  refine {| ctx_areas c w := match c with
              | ASerialized s => ctx_areas s w | ASplit s => ctx_areas s w | APreSplit s => ctx_areas s w end;
            ctx_agrees c w := match c with
              | ASerialized s => ctx_agrees s w | ASplit s => ctx_agrees s w | APreSplit s => ctx_agrees s w end |}.
  - intros [s|s|s] w w' Hs; by apply areas_files.
  - intros [s|s|s] w name r s' w' Hok; cbn [GetPropAreaForName Any_Contexts];
      destruct (GetPropAreaForName s w name) as [[[r1 s1] w1]| |] eqn:Hrun; try done;
      cbn [cmap3 cbind]; intros [= <- <- <-]; by eapply areas_lookup.
  - intros [s|s|s] w p Hok; by apply areas_known.
  - intros [s|s|s] w name p Hok; rewrite Any_home; by apply areas_home.
  - intros [s|s|s] w Hw Hok Hag;
      destruct (areas_foreach s w Hw Hok Hag) as (s' & w' & Hfe & H1 & H2 & H3 & H4 & H5 & H6 & H7).
    + exists (ASerialized s'), w'. split; [|split_and!; auto; intros n; by rewrite !Any_home].
      intros C propfn cookie. cbn [ForEach Any_Contexts]. rewrite Hfe. by destruct (visit_areas _ _ _ _).
    + exists (ASplit s'), w'. split; [|split_and!; auto; intros n; by rewrite !Any_home].
      intros C propfn cookie. cbn [ForEach Any_Contexts]. rewrite Hfe. by destruct (visit_areas _ _ _ _).
    + exists (APreSplit s'), w'. split; [|split_and!; auto; intros n; by rewrite !Any_home].
      intros C propfn cookie. cbn [ForEach Any_Contexts]. rewrite Hfe. by destruct (visit_areas _ _ _ _).
Defined.
End instances.
