(* ===== verification/SystemPropertiesMap.v ===== *)
(** The properties of the whole system as one map: names are spread over the
    areas of their contexts, but for the methods of [SystemProperties] that
    does not show (system_properties.cpp).  [shows] relates an initialised
    object and the files it maps to a map from names to values; each operation
    is shown to keep the relation. *)

From Stdlib Require Import ZArith Lia Ascii.
From stdpp Require Import base numbers strings gmap list relations.
From S2P Require Import Prelude CString PropInfo PropArea PropTrie PropAreaProofs.
From S2P Require Import PropAreaSpec PropAreaForeach.
From S2P Require Import PropAreaSteps PropertyInfoParser Contexts ContextsSplit.
From S2P Require Import ContextsSerialized.
From S2P Require Import SystemProperties SystemPropertiesSpec ResetPropSpec ContextsHome.
From S2P Require Import ContextsEnumerate.

(** * Records *)

(** After [n] updates in all: the counter of a short record, in the low bits of
    its serial, is far from the bit that marks long ones; a long record holds
    the text that readers of short values are to get. *)
Definition rec_inv (n : Z) (r : prop_info) : Prop :=
  if is_long r then c_str_of (pi_value r) = kLongLegacyError
  else (pi_serial r `mod` 2 ^ 24 ≤ 2 * n)%Z.

Definition area_recs (n : Z) (a : prop_area) : Prop :=
  ∀ o r, data a !! o = Some (OInfo r) → rec_inv n r.

Definition MAX_UPDATES : Z := 2 ^ 15.

Lemma rec_inv_mono n n' r : (n ≤ n')%Z → rec_inv n r → rec_inv n' r.
Proof. unfold rec_inv. destruct (is_long r); [done|lia]. Qed.

Lemma area_recs_mono n n' a : (n ≤ n')%Z → area_recs n a → area_recs n' a.
Proof. intros Hn Ha o r Ho. eapply rec_inv_mono; [exact Hn|by eapply Ha]. Qed.

Lemma short_rec_inv n nm nl v :
  (0 ≤ n)%Z → (Z.of_nat (length v) < PROP_VALUE_MAX)%Z →
  rec_inv n (prop_info_short nm nl v (Z.of_nat (length v))).
Proof.
  unfold PROP_VALUE_MAX. intros Hn Hv. unfold rec_inv. rewrite short_not_long by lia.
  cbn [prop_info_short pi_serial]. rewrite Z.shiftl_mul_pow2, u32_small by lia.
  rewrite Z.mod_mul by lia. lia.
Qed.

Lemma long_rec_inv n nm nl off : rec_inv n (prop_info_long nm nl off).
Proof.
  unfold rec_inv. rewrite long_is_long. cbn [prop_info_long pi_value].
  unfold buf_write. cbn [take app]. vm_compute. reflexivity.
Qed.

(** A short record that has been updated less than 2^15 times stays short. *)
Lemma updated_short n r value name :
  rec_ok name r → rec_inv n r → is_long r = false → (n + 1 < MAX_UPDATES)%Z → no_nul value →
  (Z.of_nat (length value) < PROP_VALUE_MAX)%Z →
  is_long (updated r value) = false ∧ rec_inv (n + 1) (updated r value).
Proof.
  unfold rec_inv, MAX_UPDATES. intros Hro Hinv Hlong Hn Hnul Hv. rewrite Hlong in Hinv.
  destruct (updated_ok r value name Hro Hnul Hv) as (_ & _ & Hser). unfold PROP_VALUE_MAX in Hv.
  assert (Hm : ((pi_serial r + 2) `mod` 2 ^ 24 = pi_serial r `mod` 2 ^ 24 + 2)%Z).
  { rewrite <-Zplus_mod_idemp_l. apply Z.mod_small. pose proof (Z.mod_pos_bound (pi_serial r) (2 ^ 24)). lia. }
  assert (Hpos := Z.mod_pos_bound (pi_serial r) (2 ^ 24) ltac:(lia)).
  rewrite Hm in Hser.
  assert (Hl : is_long (updated r value) = false).
  { unfold is_long. apply negb_false_iff, Z.eqb_eq. rewrite Hser.
    apply Z.bits_inj'. intros i Hi. rewrite Z.bits_0, Z.land_spec. unfold kLongFlag.
    destruct (decide (i = 16)%Z) as [->|Hne].
    - replace (Z.testbit _ 16) with false; [done|]. symmetry. apply Z.testbit_false; [lia|].
      replace (Z.of_nat (length value) * 2 ^ 24)%Z
        with (Z.of_nat (length value) * 2 ^ 7 * 2 * 2 ^ 16)%Z by lia.
      rewrite Z.div_add_l by lia. rewrite (Z.div_small (_ + 2)) by lia.
      rewrite Z.add_0_r. by apply Z.mod_mul.
    - rewrite Z.shiftl_1_l, Z.pow2_bits_false by lia. apply andb_false_r. }
  split; [done|]. rewrite Hl, Hser. rewrite Z.add_comm, Z.mod_add by lia.
  rewrite Z.mod_small by lia. lia.
Qed.

(** Changes of nodes and of the header leave the records alone. *)
Lemma area_recs_sub n a a' :
  (∀ o r, data a' !! o = Some (OInfo r) → data a !! o = Some (OInfo r)) → area_recs n a → area_recs n a'.
Proof. intros H Ha o r Ho. by eapply Ha, H. Qed.

Lemma area_recs_store_bt n a o b : area_recs n a → area_recs n (store a o (OBt b)).
Proof.
  apply area_recs_sub. intros k r. cbn [store set_data data]. rewrite lookup_insert_Some. naive_solver.
Qed.

Lemma area_recs_store_long n a o bytes : area_recs n a → area_recs n (store a o (OLong bytes)).
Proof.
  apply area_recs_sub. intros k r. cbn [store set_data data]. rewrite lookup_insert_Some. naive_solver.
Qed.

Lemma area_recs_store_info n a o r :
  rec_inv n r → area_recs n a → area_recs n (store a o (OInfo r)).
Proof.
  intros Hr Ha k r'. cbn [store set_data data]. rewrite lookup_insert_Some.
  intros [[_ [= <-]]|[_ Hk]]; [done|by eapply Ha].
Qed.

Lemma area_recs_allocate n pads a size o a' :
  allocate_obj pads a size = Some (o, a') → area_recs n a → area_recs n a'.
Proof. unfold allocate_obj. case_match; [done|]. by intros [= <- <-]. Qed.

Create HintDb recs.
#[export] Hint Resolve area_recs_store_bt area_recs_store_long area_recs_store_info area_recs_allocate
  long_rec_inv short_rec_inv : recs.

Lemma update_bt_recs n a o f a' : update_bt a o f = Ret a' → area_recs n a → area_recs n a'.
Proof.
  unfold update_bt. intros H. destruct (load_bt a o); [|done..]. injection H as <-. auto with recs.
Qed.

Lemma new_prop_info_recs n pads a name nl v r a' :
  (0 ≤ n)%Z → new_prop_info pads a name nl v (Z.of_nat (length v)) = (r, a') →
  area_recs n a → area_recs n a'.
Proof.
  intros Hn. unfold new_prop_info. destruct (allocate_obj pads a _) as [[o a1]|] eqn:E; [|by intros [= <- <-]].
  destruct (Z.geb_spec (Z.of_nat (length v)) PROP_VALUE_MAX) as [Hl|Hl].
  - destruct (allocate_obj pads a1 _) as [[o2 a2]|] eqn:E2; intros [= <- <-]; eauto with recs.
  - intros [= <- <-]. eauto with recs.
Qed.

Lemma make_recs n pads q a f s r a' :
  (0 ≤ n)%Z → make pads q a f s = (r, a') → area_recs n a → area_recs n a'.
Proof.
  intros Hn. assert (Hbt : ∀ r0, match new_prop_bt pads a s (substr_size s) with
    | Some (o, a) => (Some o, a) | None => (None, a) end = (r0, a') → area_recs n a → area_recs n a').
  { intros r0. unfold new_prop_bt. destruct (allocate_obj _ _ _) as [[o a1]|] eqn:E; intros [= <- <-]; eauto with recs. }
  destruct f; [apply Hbt|apply Hbt|apply Hbt|by apply new_prop_info_recs].
Qed.

Lemma pstep_recs n pads q a p p' a' :
  (0 ≤ n)%Z → pstep pads q a p = Ret (p', a') → area_recs n a → area_recs n a'.
Proof.
  intros Hn.
  assert (Hfollow : ∀ f o s, follow pads q a f o s = Ret (p', a') → area_recs n a → area_recs n a').
  { intros f o s. unfold follow. destruct (load_bt a o) as [b| |]; [|done..]. cbn [cbind].
    destruct (negb _); [by intros [= <- <-]|]. destruct (negb _); [by intros [= <- <-]|].
    destruct (make _ _ _ _ _) as [r a1] eqn:E. intros H Ha. pose proof (make_recs _ _ _ _ _ _ _ _ Hn E Ha).
    destruct r; injection H as <- <-; done. }
  destruct p as [o s|f o s|[o|] s|f o s v|o|r]; cbn [pstep].
  - destruct (_ =? 0)%Z; [by intros [= <- <-]|]. apply Hfollow.
  - destruct (load_bt a o); [|done..]. by intros [= <- <-].
  - destruct (load_bt a o); [|done..]. cbn [cbind]. destruct (cmp_prop_name _ _ _ _); [by intros [= <- <-]|apply Hfollow|apply Hfollow].
  - by intros [= <- <-].
  - destruct (update_bt a o _) as [a1| |] eqn:E; [|done..]. intros [= <- <-]. by eapply update_bt_recs.
  - apply Hfollow.
  - by intros [= <- <-].
Qed.

Lemma runs_recs n pads q p a p' a' :
  (0 ≤ n)%Z → runs pads q (p, a) (p', a') → area_recs n a → area_recs n a'.
Proof.
  intros Hn H. change (area_recs n (p, a).2 → area_recs n (p', a').2).
  induction H as [|s1 [p2 a2] s3 H1 _ IH]; [done|]. intros Ha. apply IH. destruct s1 as [p1 a1].
  by eapply pstep_recs.
Qed.

Lemma add_recs n pads a name value ok a' :
  (0 ≤ n)%Z → add pads a name (Z.of_nat (length name)) value (Z.of_nat (length value)) = Ret (ok, a') →
  area_recs n a → area_recs n a'.
Proof.
  intros Hn. unfold add. destruct (find_property _ _ _ _ _ _ _ _) as [[r a1]| |] eqn:E; [|done..].
  intros [= <- <-]. apply (find_property_runs _ (add_call name value)) in E. by eapply runs_recs.
Qed.

(** [del] changes at most one node. *)
Lemma del_frame pads a m name ok a' :
  (pads < 2 ^ 32)%Z → represents pads a m → name_ok name → del pads a name = Ret (ok, a') →
  a' = a ∨ ∃ o b, a' = store a o (OBt b).
Proof.
  intros Hpads (c & Ht & _) Hn. unfold del. rewrite (find_prop_bt_search _ a c name Ht Hn). cbn [cbind].
  destruct (link <$> _) as [o|]; [|intros [= <- <-]; by left].
  unfold update_bt. destruct (load_bt a o) as [b| |]; [|done..]. intros [= <- <-]. right. by eexists _, _.
Qed.

(** What a lookup does, a call that may create does as well, as long as
    nothing is missing. *)
Lemma pstep_alloc pads q q' a p p' a' :
  q_alloc q = false → reading p → pstep pads q a p = Ret (p', a') →
  a' = a ∧ reading p' ∧ (p' ≠ PRet None → pstep pads q' a p = Ret (p', a)).
Proof.
  intros Hq Hr.
  assert (Hfollow : ∀ f o s, follow pads q a f o s = Ret (p', a') →
    a' = a ∧ reading p' ∧ (p' ≠ PRet None → follow pads q' a f o s = Ret (p', a))).
  { intros f o s. unfold follow. rewrite Hq. destruct (load_bt a o) as [b| |]; [|done..]. cbn [cbind negb].
    destruct (negb _); intros [= <- <-]; by split_and!. }
  destruct p as [o s|f o s|[o|] s|f o s v|o|r]; cbn [pstep]; try done.
  - destruct (_ =? 0)%Z; [intros [= <- <-]; by split_and!|apply Hfollow].
  - destruct (load_bt a o); [|done..]. cbn [cbind]. intros [= <- <-]. split_and!; [done|by destruct f|done].
  - destruct (load_bt a o); [|done..]. cbn [cbind].
    destruct (cmp_prop_name _ _ _ _); [|apply Hfollow|apply Hfollow].
    intros [= <- <-]. split_and!; [done|unfold found; by destruct (strchr s _)|done].
  - intros [= <- <-]. by split_and!.
  - apply Hfollow.
  - intros [= <- <-]. by split_and!.
Qed.

Lemma runs_alloc pads q q' p a p' a' :
  q_alloc q = false → reading p → runs pads q (p, a) (p', a') →
  a' = a ∧ (p' ≠ PRet None → runs pads q' (p, a) (p', a)).
Proof.
  intros Hq Hr H. remember (p, a) as s eqn:E. remember (p', a') as s' eqn:E'.
  revert p E Hr. induction H as [s|s [p1 a1] s2 H1 H2 IH]; intros p -> Hr.
  - injection E' as -> ->. split; [done|]. intros. constructor.
  - unfold pnext in H1. cbn in H1. destruct (pstep_alloc pads q q' a p p1 a1 Hq Hr H1) as (-> & Hr1 & Hs).
    destruct (IH E' p1 eq_refl Hr1) as (-> & Hruns). split; [done|]. intros Hne.
    eapply runs_step; [|by apply Hruns]. apply Hs. intros ->. apply runs_PRet in H2. congruence.
Qed.

(** [add] of a name that is there finds it. *)
Lemma add_existing pads a name value o ok a' :
  find pads a name = Ret (Some o) →
  add pads a name (Z.of_nat (length name)) value (Z.of_nat (length value)) = Ret (ok, a') → ok = true ∧ a' = a.
Proof.
  unfold find, add. intros Hf Ha.
  destruct (find_property _ _ _ _ _ _ _ false) as [[r a1]| |] eqn:E1; [|done..]. injection Hf as ->.
  destruct (find_property _ _ _ _ _ _ _ true) as [[r2 a2]| |] eqn:E2; [|done..]. injection Ha as <- <-.
  apply (find_property_runs _ (find_call name)) in E1. apply (find_property_runs _ (add_call name value)) in E2.
  destruct (runs_alloc pads (find_call name) (add_call name value) _ _ _ _ eq_refl (reading_start _ _) E1) as [_ H].
  specialize (H ltac:(done)). apply (runs_join _ _ _ _ _ _ H), runs_PRet in E2. injection E2 as -> ->. done.
Qed.

(** An area represents one map. *)
Lemma rep_inj pads d t t' : rep pads d t → rep pads d t' → link t = link t' → t = t'.
Proof.
  revert t'. induction t as [|o n p l IHl r IHr c IHc]; intros [|o' n' p' l' r' c']; cbn [rep link]; [done|lia|lia|].
  intros (_ & Hd & Hl & Hr & Hc) (_ & Hd' & Hl' & Hr' & Hc') <-. rewrite Hd in Hd'.
  injection Hd' as _ <- El Er Ec <-. f_equal; auto.
Qed.

Lemma represents_inj pads a m m' : represents pads a m → represents pads a m' → m = m'.
Proof.
  intros (c & Hc & Hm) (c' & Hc' & Hm'). assert (c = c') as <-.
  { apply (rep_inj pads (data a)); [apply Hc|apply Hc'|]. pose proof (at_root _ _ _ Hc) as Hr.
    rewrite (at_root _ _ _ Hc') in Hr. by injection Hr. }
  apply map_eq. intros name. apply option_eq. intros v. by rewrite (Hm name v), (Hm' name v).
Qed.

(** * The map of all areas *)

Definition world_recs (n : Z) (w : world) : Prop :=
  ∀ p f, w_files w !! p = Some f → area_recs n (af_area f).

Definition short (v : cstr) : Prop := (Z.of_nat (length v) < PROP_VALUE_MAX)%Z.

#[export] Instance short_dec v : Decision (short v).
Proof. unfold short. apply _. Defined.

(** What a client may know of the areas: those that [ForEach] goes through,
    where each name lives, and the files they are in (but for their contents). *)
Record listing := mkListing {
  l_areas : list cstr;
  l_home : cstr → option cstr;
  l_world : world
}.

Section shows.
Context (k : kernel) {S : Type} `{!Contexts k S} `{!ContextsLaws k S} `{!ContextsStable k S}
  `{!ContextsEnumerable k S}.

(** The names that may have long values, and what is known of the areas, when
    that is of interest. *)
Context (long_names : gset cstr) (listed : option listing).

(** The value of a name is the one in the area the name lives in. *)
Definition map_of (c : S) (w : world) (m : gmap cstr cstr) : Prop :=
  ∀ name, name_ok name →
    match home k c w name with
    | Some p => ∃ mp, stores w p mp ∧ m !! name = mp !! name
    | None => m !! name = None
    end.

(** [ForEach] goes through the areas of the listing, each once, and every name
    in one of them lives there. *)
Record lists_areas (c : S) (w : world) (l : listing) : Prop := {
  la_areas : ctx_areas (k := k) c w = l_areas l;
  la_nodup : NoDup (l_areas l);
  la_agrees : ctx_agrees (k := k) c w;
  la_home : ∀ name, home k c w name = l_home l name;
  la_same : same_files (l_world l) w;
  la_names : ∀ p mp name, p ∈ l_areas l → stores w p mp → is_Some (mp !! name) →
    name_ok name ∧ home k c w name = Some p
}.

Definition listed_ok (c : S) (w : world) : Prop := ∀ l, listed = Some l → lists_areas c w l.

(** The object [sp] over the world [w] shows the map [m], after [n] updates;
    only read-only properties may have long values. *)
Record shows (sp : SystemProperties S) (w : world) (n : Z) (m : gmap cstr cstr) : Prop := {
  sh_ok : sp_ok k sp w;
  sh_recs : world_recs n w;
  sh_map : ∃ c, sp_contexts sp = Some c ∧ map_of c w m ∧ listed_ok c w;
  sh_names : ∀ name, is_Some (m !! name) → name_ok name;
  sh_long : ∀ name v, m !! name = Some v → ¬ short v → is_read_only name = true ∧ name ∈ long_names
}.

Lemma shows_mono sp w n n' m : (n ≤ n')%Z → shows sp w n m → shows sp w n' m.
Proof.
  intros Hn [H1 H2 H3 H4 H5]. split; [done| |done|done|done]. intros p f Hf.
  eapply area_recs_mono; [exact Hn|by eapply H2].
Qed.

Lemma stores_inj w p mp mp' : stores w p mp → stores w p mp' → mp = mp'.
Proof.
  intros (f & Hf & Hm) (f' & Hf' & Hm'). rewrite Hf in Hf'. injection Hf' as <-. by eapply represents_inj.
Qed.

Lemma listed_ok_same c w c' w' :
  w_files w' = w_files w → ctx_areas (k := k) c' w' = ctx_areas (k := k) c w →
  (ctx_agrees (k := k) c w → ctx_agrees (k := k) c' w') → (∀ n, home k c' w' n = home k c w n) →
  listed_ok c w → listed_ok c' w'.
Proof.
  intros Hf Ha Hg Hh Hlist l Hl. destruct (Hlist l Hl) as [H1 H2 H3 H4 H5 H6].
  split; [congruence|done|auto|by intros; rewrite Hh|etrans; [exact H5|by apply same_files_of]|].
  intros p mp name Hp Hs. rewrite Hh. apply H6; [done|by apply (stores_files w')].
Qed.

(** Where a name lives: the object keeps it in mind, and nothing else changes. *)
Lemma get_home sp w n m c name :
  shows sp w n m → sp_contexts sp = Some c →
  ∃ c' w', GetPropAreaForName (k := k) c w name = Ret (home k c w name, c', w') ∧
    shows (set_ctx sp c') w' n m ∧ w_files w' = w_files w ∧
    GetSerialPropArea (k := k) c' = GetSerialPropArea (k := k) c ∧ home k c' w' name = home k c w name ∧
    ∀ p, home k c w name = Some p → area_of k (set_ctx sp c') w' name p.
Proof.
  intros [Hok Hrecs (c0 & Hc0 & Hmap & Hlist) Hnames Hlong] Hc. rewrite Hc in Hc0. injection Hc0 as <-.
  destruct (get_spec k sp w name c Hok Hc) as (r & c' & w' & Hrun & Hok' & Hf & Hser & Ha).
  assert (Hctx : ctx_ok (k := k) c w).
  { destruct Hok as [_ _ (c1 & Hc1 & H & _)]. congruence. }
  assert (Hr : home k c w name = r) by (unfold home; by rewrite Hrun). rewrite Hr.
  assert (Hhome : ∀ nm, home k c' w' nm = home k c w nm) by (intros nm; by eapply home_lookup).
  exists c', w'. split; [done|]. split; [|split_and!; auto; by rewrite Hhome].
  split; [done| | |done|done].
  - intros p f. rewrite Hf. apply Hrecs.
  - exists c'. split; [done|]. split.
    + intros nm Hnm. rewrite Hhome. specialize (Hmap nm Hnm).
      destruct (home k c w nm); [|done]. destruct Hmap as (mp & Hs & He). exists mp.
      split; [by eapply stores_files|done].
    + destruct (areas_lookup _ _ _ _ _ _ Hctx Hrun) as [H1 H2].
      by apply (listed_ok_same c w).
Qed.

(** ** Changing one area *)

Lemma same_files_put w p f a :
  w_files w !! p = Some f → magic a = magic (af_area f) → version a = version (af_area f) →
  same_files w (put_area w p a).
Proof.
  intros Hf Hm Hv q. unfold put_area. rewrite Hf. cbn [set_files w_files].
  destruct (decide (p = q)) as [<-|Hne].
  - rewrite Hf, lookup_insert_eq. by split_and!.
  - rewrite lookup_insert_ne by done. by destruct (w_files w !! q).
Qed.

(** A change of the area [p] to one that stores [mp] adds no name that does
    not live there. *)
Definition no_strays (c : S) (w : world) (p : cstr) (mp : gmap cstr cstr) : Prop :=
  ∀ name, is_Some (mp !! name) →
    (∃ mq, stores w p mq ∧ is_Some (mq !! name)) ∨ name_ok name ∧ home k c w name = Some p.

Lemma no_strays_same c w p mp : stores w p mp → no_strays c w p mp.
Proof. intros Hs name Hn. left. by exists mp. Qed.

Lemma no_strays_insert c w p mp name v :
  stores w p mp → name_ok name → home k c w name = Some p → no_strays c w p (<[name := v]> mp).
Proof.
  intros Hs Hn Hh nm. destruct (decide (nm = name)) as [->|Hne]; [by right|].
  rewrite lookup_insert_ne by done. intros Hx. left. by exists mp.
Qed.

Lemma no_strays_delete c w p mp name : stores w p mp → no_strays c w p (delete name mp).
Proof.
  intros Hs nm [v Hv]. apply lookup_delete_Some in Hv as [_ Hv]. left. exists mp. by split.
Qed.

Lemma put_listed c w p f a mp :
  ctx_ok (k := k) c w → w_files w !! p = Some f → magic a = magic (af_area f) → version a = version (af_area f) →
  represents PA_DATA_SIZE a mp → no_strays c w p mp → listed_ok c w → listed_ok c (put_area w p a).
Proof.
  intros Hctx Hf Hmg Hvs Hrep Hstr Hlist l Hl. destruct (Hlist l Hl) as [H1 H2 H3 H0 H00 H4].
  pose proof (same_files_put w p f a Hf Hmg Hvs) as Hsame.
  destruct (areas_files (k := k) c _ _ Hsame) as [H5 H6].
  split; [congruence|done|auto|by intros; rewrite (home_files c w)|by etrans|].
  intros q mq name Hq Hs Hin. rewrite (home_files c w) by done.
  destruct (decide (p = q)) as [<-|Hne].
  - assert (mq = mp) as ->.
    { apply (stores_inj (put_area w p a) p); [done|]. by apply put_area_eq; [eexists|]. }
    destruct (Hstr name Hin) as [(mp0 & Hs0 & Hin0)|?]; [by apply (H4 p mp0)|done].
  - apply (H4 q mq); [done| |done]. destruct Hs as (g & Hg & Hr). exists g. split; [|done].
    unfold put_area in Hg. rewrite Hf in Hg. cbn [set_files w_files] in Hg. by rewrite lookup_insert_ne in Hg.
Qed.

Lemma put_shows sp w n n' m m' c p f a mp :
  shows sp w n m → sp_contexts sp = Some c → (n ≤ n')%Z →
  w_files w !! p = Some f → magic a = magic (af_area f) → version a = version (af_area f) →
  represents PA_DATA_SIZE a mp → area_recs n' a → no_strays c w p mp →
  (∀ name, name_ok name → m' !! name = if decide (home k c w name = Some p) then mp !! name else m !! name) →
  (∀ name, is_Some (m' !! name) → name_ok name) →
  (∀ name v, m' !! name = Some v → ¬ short v → is_read_only name = true ∧ name ∈ long_names) →
  shows sp (put_area w p a) n' m'.
Proof.
  intros [Hok Hrecs (c0 & Hc0 & Hmap & Hlist) _ Hlong] Hc Hn Hf Hmg Hvs Hrep Har Hstr Hm' Hnames' Hlong'.
  rewrite Hc in Hc0. injection Hc0 as <-.
  pose proof (same_files_put w p f a Hf Hmg Hvs) as Hsame.
  assert (Hctx : ctx_ok (k := k) c w) by (destruct Hok as [_ _ (c1 & Hc1 & H & _)]; congruence).
  split; [| | |done|done].
  - apply (sp_ok_world k sp w); [apply put_area_dom| |done].
    eapply put_area_ok; [apply (so_world _ _ _ Hok)|exact Hrep].
  - intros q g. unfold put_area. rewrite Hf. cbn [set_files w_files]. rewrite lookup_insert_Some.
    intros [[<- <-]|[_ Hg]]; [done|]. eapply area_recs_mono; [exact Hn|by eapply Hrecs].
  - exists c. split; [done|]. split; [|by eapply put_listed].
    intros name Hname. rewrite (home_files c w) by done.
    specialize (Hmap name Hname). rewrite (Hm' name Hname).
    destruct (home k c w name) as [q|]; [|by rewrite decide_False].
    destruct (decide (Some q = Some p)) as [[= ->]|Hne].
    + exists mp. split; [|done]. apply put_area_eq; [by eexists|done].
    + destruct Hmap as (mq & Hq & He). exists mq. split; [|done]. apply put_area_ne; [congruence|done].
Qed.

Lemma bump_shows sp w n m spa :
  shows sp w n m → is_Some (w_files w !! spa) →
  ∃ w', bump_serial w spa = Ret w' ∧ shows sp w' n m.
Proof.
  intros Hsh [f Hf]. pose proof Hsh as [Hok Hrecs (c & Hc & Hmap & _) Hnames Hlong].
  unfold bump_serial, get_area. rewrite Hf. cbn [deref cbind]. eexists. split; [reflexivity|].
  destruct (wo_files _ (so_world _ _ _ Hok) _ _ Hf) as (_ & mp & Hmp).
  eapply (put_shows sp w n n m m c spa f _ mp);
    [exact Hsh|exact Hc|lia|exact Hf|done|done| | | | |exact Hnames|exact Hlong].
  - by apply (represents_same _ (af_area f)).
  - intros o r Ho. by apply (Hrecs _ _ Hf o r).
  - apply no_strays_same. by exists f.
  - intros name Hname. destruct (decide (home k c w name = Some spa)) as [Hh|]; [|done].
    specialize (Hmap name Hname). rewrite Hh in Hmap. destruct Hmap as (mq & Hq & ->).
    by rewrite (stores_inj w spa mq mp) by (done || by exists f).
Qed.
(** ** Looking up and reading *)

(** The record of a name that has the value [v]. *)
Record record_of (w : world) (n : Z) (name : cstr) (p : cstr) (o : Z) (v : cstr) (a : prop_area)
    (pi : prop_info) : Prop := {
  rf_area : get_area w p = Ret a;
  rf_data : data a !! o = Some (OInfo pi);
  rf_ok : rec_ok name pi;
  rf_value : has_value a o v;
  rf_inv : rec_inv n pi
}.

Lemma record_of_long w n name p o v a pi :
  record_of w n name p o v a pi → is_long pi = negb (bool_decide (short v)).
Proof.
  intros [_ Hd (_ & _ & _ & _ & Hmax & Hvl) [Hv Hl] _]. unfold short. case_bool_decide as Hs; cbn [negb].
  - destruct (is_long pi) eqn:E; [|done]. specialize (Hl pi Hd E). lia.
  - destruct (is_long pi) eqn:E; [done|]. unfold prop_value in Hv. rewrite (load_info_data _ _ _ Hd) in Hv.
    cbn [cbind] in Hv. rewrite E in Hv. injection Hv as Hv. rewrite Hv in Hvl. lia.
Qed.

Lemma Find_shows sp w n m name :
  shows sp w n m → name_ok name →
  ∃ r sp' w', Find k sp w name = Ret (r, sp', w') ∧ shows sp' w' n m ∧
    match r with
    | None => m !! name = None
    | Some (p, o) => area_of k sp' w' name p ∧
        ∃ v a pi, m !! name = Some v ∧ record_of w' n name p o v a pi ∧ find PA_DATA_SIZE a name = Ret (Some o)
    end.
Proof.
  intros Hsh Hn. pose proof Hsh as [Hok Hrecs (c & Hc & Hmap & _) _ Hlong].
  destruct (get_home sp w n m c name Hsh Hc) as (c' & w' & Hrun & Hsh' & Hf & _ & Hhome & Ha).
  unfold Find. rewrite (so_init _ _ _ Hok), Hc. cbn [negb deref cbind]. rewrite Hrun. cbn [cbind].
  specialize (Hmap name Hn). destruct (home k c w name) as [p|]; [|by eexists _, _, _].
  destruct Hmap as (mp & Hs & He). apply (stores_files w w') in Hs; [|done].
  destruct (stores_get _ _ _ Hs) as (a & Hga & Hrep). rewrite Hga. cbn [cbind].
  rewrite (wo_size _ (so_world _ _ _ (sh_ok _ _ _ _ Hsh'))).
  destruct (find_result_ok _ a mp name Hrep Hn) as (r & Hfind & Hres). rewrite Hfind. cbn [cbind].
  eexists _, _, _. split; [reflexivity|]. split; [done|]. destruct r as [o|]; cbn in Hres |- *; [|congruence].
  split; [by apply Ha|]. destruct Hres as (v & pi & Hv & Hpi & Hro & Hval). exists v, a, pi.
  split; [congruence|]. split; [|done]. split; try done.
  unfold get_area in Hga. destruct (w_files w' !! p) as [f|] eqn:Hfp; [|done]. injection Hga as <-.
  rewrite Hf in Hfp. by eapply Hrecs.
Qed.

(** What [Get] gives of a value: a long one is replaced by a message. *)
Definition get_value (v : cstr) : cstr := if decide (short v) then v else kLongLegacyError.

Lemma Read_record w n name p o v a pi :
  record_of w n name p o v a pi → (¬ short v → is_read_only name = true) →
  ∃ bytes nm, Read w (p, o) = Ret (Z.of_nat (length (get_value v)), bytes, nm) ∧ c_str_of bytes = get_value v.
Proof.
  intros Hrec Hlong. pose proof (record_of_long _ _ _ _ _ _ _ _ Hrec) as Hl.
  pose proof Hrec as [Ha Hr Hro [Hv _] Hinv]. unfold get_value.
  destruct (decide (short v)) as [Hs|Hs].
  - apply (Read_short w p o a pi v name Ha Hr Hro (rf_value _ _ _ _ _ _ _ _ Hrec) Hs).
  - rewrite bool_decide_false in Hl by done. cbn [negb] in Hl. unfold rec_inv in Hinv. rewrite Hl in Hinv.
    destruct Hro as (Hnm & Hlen & _ & Hd & Hmax & Hvl). rewrite Hinv in Hvl.
    unfold Read, Serial. rewrite (load_pi_data _ _ _ _ _ Ha Hr). cbn [cbind]. rewrite Hd. cbn [cbind].
    rewrite Hvl. unfold copy_value. rewrite Hlen.
    destruct (Z.gtb_spec (Z.of_nat (length kLongLegacyError) + 1) (Z.of_nat 92)) as [H|_];
      [vm_compute in H; discriminate|]. cbn [cbind].
    rewrite Hl, Hnm, (Hlong Hs). cbn [andb fst snd]. rewrite Ha. cbn [cbind].
    unfold prop_value in Hv. rewrite (load_info_data _ _ _ Hr) in Hv. cbn [cbind] in Hv. rewrite Hl in Hv.
    rewrite Hv. cbn [cbind]. eexists _, _. split; [done|].
    rewrite <-Hinv. apply c_str_of_take. rewrite Hinv. lia.
Qed.

Lemma ReadCallback_record w n name p o v a pi :
  record_of w n name p o v a pi → (¬ short v → is_read_only name = true) →
  ReadCallback w (p, o) = Ret (name, v, pi_serial pi).
Proof.
  intros Hrec Hlong. pose proof (record_of_long _ _ _ _ _ _ _ _ Hrec) as Hl.
  pose proof Hrec as [Ha Hr Hro Hval _].
  destruct (decide (short v)) as [Hs|Hs]; [by apply (ReadCallback_known w p o a pi v name)|].
  rewrite bool_decide_false in Hl by done. destruct Hro as (Hnm & _ & _ & Hd & _). destruct Hval as [Hv _].
  unfold ReadCallback, Serial. rewrite (load_pi_data _ _ _ _ _ Ha Hr). cbn [cbind].
  rewrite Hd, Hnm, (Hlong Hs), Hl. cbn [negb cbind fst snd]. rewrite Ha. cbn [cbind].
  unfold prop_value in Hv. rewrite (load_info_data _ _ _ Hr) in Hv. cbn [cbind] in Hv. rewrite Hl in Hv.
  cbn [negb] in Hv. rewrite Hv. done.
Qed.
(** ** Adding, updating, deleting *)

(** What [Add] refuses whatever the areas hold. *)
Definition add_refused (name value : cstr) : Prop :=
  name = [] ∨ (¬ short value ∧ is_read_only name = false).

(** Changing the area of a name and bumping the serial. *)
Lemma change_shows sp w n n' m m' c p a a' mp mp' spa :
  shows sp w n m → sp_contexts sp = Some c → (n ≤ n')%Z → GetSerialPropArea (k := k) c = Some spa →
  get_area w p = Ret a → represents PA_DATA_SIZE a mp → magic a' = magic a → version a' = version a →
  represents PA_DATA_SIZE a' mp' → area_recs n' a' → no_strays c w p mp' →
  (∀ name, name_ok name → m' !! name = if decide (home k c w name = Some p) then mp' !! name else m !! name) →
  (∀ name, is_Some (m' !! name) → name_ok name) →
  (∀ name v, m' !! name = Some v → ¬ short v → is_read_only name = true ∧ name ∈ long_names) →
  shows sp (put_area w p a') n' m' ∧
  ∃ w', bump_serial (put_area w p a') spa = Ret w' ∧ shows sp w' n' m'.
Proof.
  intros Hsh Hc Hn Hspa Ha _ Hmg Hvs Hrep Hrecs Hstr Hm' Hnames' Hlong.
  unfold get_area in Ha. destruct (w_files w !! p) as [f|] eqn:Hf; [|done]. injection Ha as <-.
  assert (Hput : shows sp (put_area w p a') n' m') by by eapply put_shows.
  split; [done|]. apply bump_shows; [done|]. apply elem_of_dom. rewrite put_area_dom. apply elem_of_dom.
  apply (ctx_serial (k := k) c w); [|done].
  destruct (sh_ok _ _ _ _ Hsh) as [_ _ (c1 & Hc1 & H & _)]. congruence.
Qed.

Lemma area_recs_of sp w n m p a : shows sp w n m → get_area w p = Ret a → area_recs n a.
Proof.
  intros Hsh. unfold get_area. destruct (w_files w !! p) as [f|] eqn:Hf; [|done]. intros [= <-].
  by apply (sh_recs _ _ _ _ Hsh p).
Qed.

(** The map after one name changes in its area. *)
Lemma insert_map (c : S) (w : world) (p : cstr) (mp m m2 mp2 : gmap cstr cstr) (name : cstr) :
  map_of c w m → stores w p mp → home k c w name = Some p → name_ok name →
  (∀ nm, nm ≠ name → m2 !! nm = m !! nm) → (∀ nm, nm ≠ name → mp2 !! nm = mp !! nm) →
  m2 !! name = mp2 !! name →
  ∀ nm, name_ok nm → m2 !! nm = if decide (home k c w nm = Some p) then mp2 !! nm else m !! nm.
Proof.
  intros Hmap Hs Hh Hn Hm Hmp He nm Hnm. destruct (decide (nm = name)) as [->|Hne].
  - by rewrite decide_True.
  - rewrite Hm, Hmp by done. destruct (decide (home k c w nm = Some p)) as [Hh2|]; [|done].
    specialize (Hmap nm Hnm). rewrite Hh2 in Hmap. destruct Hmap as (mq & Hq & ->).
    by rewrite (stores_inj w p mp mq).
Qed.

Lemma insert_names (m : gmap cstr cstr) name v :
  (∀ nm, is_Some (m !! nm) → name_ok nm) → name_ok name →
  ∀ nm, is_Some (<[name := v]> m !! nm) → name_ok nm.
Proof. intros Hm Hn nm [u Hu]. apply lookup_insert_Some in Hu as [[<- _]|[_ Hu]]; eauto. Qed.

(** The first two tests of [Add]. *)
Lemma add_guards name value :
  ¬ add_refused name value →
  ((Z.of_nat (length value) >=? PROP_VALUE_MAX)%Z && negb (is_read_only name)) = false ∧
  (Z.of_nat (length name) <? 1)%Z = false.
Proof.
  intros Hnref. split.
  - apply not_true_iff_false. rewrite andb_true_iff, Z.geb_le, negb_true_iff. intros [E1 E2].
    apply Hnref. right. split; [unfold short; lia|done].
  - apply Z.ltb_ge. destruct name; [by destruct Hnref; left|cbn [length]; lia].
Qed.

(** What [Add] does with arguments it does not refuse. *)
Lemma Add_admitted sp w n m name value :
  shows sp w n m → (0 ≤ n)%Z → name_ok name → no_nul value → (¬ short value → name ∈ long_names) →
  ¬ add_refused name value → ∃ r sp' w',
    Add k sp w name (Z.of_nat (length name)) value (Z.of_nat (length value)) = Ret (r, sp', w') ∧
    ((r = 0%Z ∧ shows sp' w' n (<[name := default value (m !! name)]> m)) ∨
     (r = (-1)%Z ∧ m !! name = None ∧ shows sp' w' n m)).
Proof.
  intros Hsh Hn0 Hn Hv Hln Hnref. pose proof Hsh as [Hok Hrecs (c & Hc & Hmap & _) Hnames Hlong]. unfold Add.
  destruct (add_guards name value Hnref) as [-> ->].
  rewrite (so_init _ _ _ Hok), Hc. cbn [negb deref cbind].
  assert (Hser : is_Some (GetSerialPropArea (k := k) c)).
  { destruct Hok as [_ _ (c1 & Hc1 & _ & H)]. congruence. }
  destruct Hser as [spa Hspa]. rewrite Hspa.
  destruct (get_home sp w n m c name Hsh Hc) as (c' & w1 & Hrun & Hsh1 & Hf & Hser1 & Hhome & _).
  rewrite Hrun. cbn [cbind]. pose proof (Hmap name Hn) as Hname.
  destruct (home k c w name) as [p|] eqn:Hp.
  2:{ eexists _, _, _. split; [done|]. right. auto. }
  destruct Hname as (mp & Hs & He). apply (stores_files w w1) in Hs; [|done].
  destruct (stores_get _ _ _ Hs) as (a & Hga & Hrep). rewrite Hga. cbn [cbind].
  rewrite (wo_size _ (so_world _ _ _ (sh_ok _ _ _ _ Hsh1))).
  destruct (add_result_ok _ PA_DATA_SIZE_u32 a mp name value Hrep Hn Hv)
    as (ok & a' & Hadd & Hrep' & _ & _ & _ & _ & Hmg & Hvs). rewrite Hadd. cbn [cbind].
  pose proof (add_recs n _ _ _ _ _ _ Hn0 Hadd (area_recs_of _ _ _ _ _ _ Hsh1 Hga)) as Hrecs'.
  assert (Hmap1 : map_of c' w1 m) by (by destruct (sh_map _ _ _ _ Hsh1) as (c1 & [= <-] & H & _)).
  destruct ok; cbn [negb].
  - destruct (change_shows (set_ctx sp c') w1 n n m (<[name := default value (m !! name)]> m) c' p a a' mp
      (<[name := default value (mp !! name)]> mp) spa Hsh1 eq_refl) as (_ & w2 & -> & Hsh2); try done.
    + congruence.
    + apply no_strays_insert; [done|done|congruence].
    + apply (insert_map c' w1 p mp m _ _ name); try done.
      * intros nm Hnm. by rewrite lookup_insert_ne.
      * intros nm Hnm. by rewrite lookup_insert_ne.
      * by rewrite !lookup_insert_eq, He.
    + by apply insert_names.
    + intros nm v. rewrite lookup_insert_Some. intros [[<- <-]|[_ Hnm]]; [|by eapply Hlong].
      destruct (m !! name) as [u|] eqn:Hu; cbn [default]; [by eapply Hlong|].
      intros Hns. split; [|auto]. destruct (is_read_only name) eqn:Hro; [done|]. by destruct Hnref; right.
    + cbn [cbind]. eexists _, _, _. split; [done|]. left. done.
  - destruct (change_shows (set_ctx sp c') w1 n n m m c' p a a' mp mp spa Hsh1 eq_refl) as (Hsh2 & _); try done.
    + congruence.
    + by apply no_strays_same.
    + intros nm Hnm. destruct (decide _) as [Hh|]; [|done]. specialize (Hmap1 nm Hnm). rewrite Hh in Hmap1.
      destruct Hmap1 as (mq & Hq & ->). by rewrite (stores_inj w1 p mq mp).
    + eexists _, _, _. split; [done|]. right. split; [done|]. split; [|done].
      destruct (find_result_ok _ a mp name Hrep Hn) as ([o|] & Hfd & Hres); [|cbn in Hres; congruence].
      by destruct (add_existing _ _ _ _ _ _ _ Hfd Hadd).
Qed.
Lemma Add_shows sp w n m name value :
  shows sp w n m → (0 ≤ n)%Z → name_ok name → no_nul value → (¬ short value → name ∈ long_names) →
  ∃ r sp' w', Add k sp w name (Z.of_nat (length name)) value (Z.of_nat (length value)) = Ret (r, sp', w') ∧
    ((r = 0%Z ∧ ¬ add_refused name value ∧ shows sp' w' n (<[name := default value (m !! name)]> m)) ∨
     (r = (-1)%Z ∧ (add_refused name value ∨ m !! name = None) ∧ shows sp' w' n m)).
Proof.
  intros Hsh Hn0 Hn Hv Hln. destruct (decide (name = [] ∨ (¬ short value ∧ is_read_only name = false))) as [Href|Hnref].
  - eexists _, sp, w. split; [|right; split; [reflexivity|by split; [left|]]]. unfold Add.
    destruct (andb _ _) eqn:E1; [done|]. destruct Href as [->|[Hs Hro]]; [done|].
    rewrite Hro, andb_true_r, Z.geb_leb in E1. apply Z.leb_gt in E1. by destruct Hs.
  - destruct (Add_admitted sp w n m name value) as (r & sp' & w' & HA & H); try done.
    eexists _, _, _. split; [exact HA|]. destruct H as [[-> H]|(-> & Hm & H)]; [left|right]; auto.
Qed.

(** [Update] of the record that [Find] returned. *)
Lemma Update_shows sp w n m name p o v a pi value :
  shows sp w n m → (0 ≤ n)%Z → (n + 1 < MAX_UPDATES)%Z → name_ok name → no_nul value →
  area_of k sp w name p → m !! name = Some v → record_of w n name p o v a pi →
  find PA_DATA_SIZE a name = Ret (Some o) → short v →
  ∃ r w', Update k sp w (p, o) value (Z.of_nat (length value)) = Ret (r, w') ∧
    if decide (short value) then r = 0%Z ∧ shows sp w' (n + 1) (<[name := value]> m)
    else r = (-1)%Z ∧ shows sp w' n m.
Proof.
  intros Hsh Hn0 Hmax Hn Hnul Harea Hv Hrec Hfind Hshort. pose proof Hsh as [Hok Hrecs (c & Hc & Hmap & _) Hnames Hlong].
  destruct (decide (short value)) as [Hs|Hs].
  2:{ unfold Update. unfold short in Hs. rewrite Z.geb_leb, (proj2 (Z.leb_le _ _)) by lia. by eexists _, _. }
  pose proof (record_of_long _ _ _ _ _ _ _ _ Hrec) as Hl. rewrite bool_decide_true in Hl by done. cbn [negb] in Hl.
  destruct Hrec as [Ha Hd Hro Hval Hinv].
  destruct (updated_short n pi value name Hro Hinv Hl Hmax Hnul Hs) as [Hul Huinv].
  assert (Hser : is_Some (GetSerialPropArea (k := k) c)).
  { destruct Hok as [_ _ (c1 & Hc1 & _ & H)]. congruence. }
  destruct Hser as [spa Hspa].
  rewrite (Update_run k sp w p o a pi value spa c (so_init _ _ _ Hok) Hc Hspa Ha Hd Hs).
  assert (Hh : home k c w name = Some p).
  { destruct (ao_get _ _ _ _ _ Harea w) as (c1 & Hc1 & Hrun). rewrite Hc in Hc1. injection Hc1 as <-.
    unfold home. by rewrite Hrun. }
  pose proof (Hmap name Hn) as Hname. rewrite Hh in Hname. destruct Hname as (mp & Hst & He).
  assert (Hrep : represents PA_DATA_SIZE a mp).
  { destruct (stores_get _ _ _ Hst) as (a1 & Ha1 & ?). congruence. }
  pose proof (represents_updated a mp name o pi v value Hrep Hn Hfind Hd Hro Hnul Hs Hul ltac:(congruence)) as Hrep'.
  destruct (change_shows sp w n (n + 1) m (<[name := value]> m) c p a (store a o (OInfo (updated pi value))) mp
    (<[name := value]> mp) spa Hsh Hc ltac:(lia) Hspa Ha Hrep) as (_ & w' & -> & Hsh'); try done.
  - apply area_recs_store_info; [done|]. eapply area_recs_mono; [|by eapply area_recs_of]. lia.
  - by apply no_strays_insert.
  - apply (insert_map c w p mp m _ _ name); try done.
    + intros nm Hnm. by rewrite lookup_insert_ne.
    + intros nm Hnm. by rewrite lookup_insert_ne.
    + by rewrite !lookup_insert_eq.
  - by apply insert_names.
  - intros nm u. rewrite lookup_insert_Some. intros [[<- <-]|[_ Hnm]]; [done|by eapply Hlong].
  - cbn [cbind]. by eexists _, _.
Qed.

Lemma Delete_shows sp w n m name :
  shows sp w n m → (0 ≤ n)%Z → name_ok name →
  ∃ r sp' w', Delete k sp w name = Ret (r, sp', w') ∧ shows sp' w' n (delete name m) ∧
    (r = 0%Z ∨ r = (-1)%Z ∧ m !! name = None).
Proof.
  intros Hsh Hn0 Hn. pose proof Hsh as [Hok Hrecs (c & Hc & Hmap & _) Hnames Hlong]. unfold Delete.
  rewrite (so_init _ _ _ Hok), Hc. cbn [negb deref cbind].
  assert (Hser : is_Some (GetSerialPropArea (k := k) c)).
  { destruct Hok as [_ _ (c1 & Hc1 & _ & H)]. congruence. }
  destruct Hser as [spa Hspa]. rewrite Hspa.
  destruct (get_home sp w n m c name Hsh Hc) as (c' & w1 & Hrun & Hsh1 & Hf & Hser1 & Hhome & _).
  rewrite Hrun. cbn [cbind]. pose proof (Hmap name Hn) as Hname.
  destruct (home k c w name) as [p|] eqn:Hp.
  2:{ eexists _, _, _. split; [done|]. split; [by rewrite delete_id|]. by right. }
  destruct Hname as (mp & Hs & He). apply (stores_files w w1) in Hs; [|done].
  destruct (stores_get _ _ _ Hs) as (a & Hga & Hrep). rewrite Hga. cbn [cbind].
  rewrite (wo_size _ (so_world _ _ _ (sh_ok _ _ _ _ Hsh1))).
  destruct (del_result_ok _ PA_DATA_SIZE_u32 a mp name Hrep Hn)
    as (ok & a' & Hdel & Hrep' & Hin & Hid & _). rewrite Hdel. cbn [cbind].
  pose proof (area_recs_of _ _ _ _ _ _ Hsh1 Hga) as Ha.
  assert (Hfr : area_recs n a' ∧ magic a' = magic a ∧ version a' = version a).
  { destruct (del_frame _ _ _ _ _ _ PA_DATA_SIZE_u32 Hrep Hn Hdel) as [->|(o & b & ->)]; [done|].
    split_and!; [by apply area_recs_store_bt|done|done]. }
  destruct Hfr as (Hrecs' & Hmg & Hvs).
  assert (Hmap1 : map_of c' w1 m) by (by destruct (sh_map _ _ _ _ Hsh1) as (c1 & [= <-] & H & _)).
  destruct (change_shows (set_ctx sp c') w1 n n m (delete name m) c' p a a' mp
    (delete name mp) spa Hsh1 eq_refl) as (Hsh2 & w2 & Hb & Hsh3); try done.
  - congruence.
  - by apply no_strays_delete.
  - apply (insert_map c' w1 p mp m _ _ name); try done.
    + intros nm Hnm. by rewrite lookup_delete_ne.
    + intros nm Hnm. by rewrite lookup_delete_ne.
    + by rewrite !lookup_delete_eq.
  - intros nm [v Hv]. apply lookup_delete_Some in Hv as [_ Hv]. eauto.
  - intros nm v. rewrite lookup_delete_Some. intros [_ Hnm]. by eapply Hlong.
  - destruct ok; cbn [negb].
    + rewrite Hb. cbn [cbind]. eexists _, _, _. split; [done|]. split; [done|]. by left.
    + eexists _, _, _. split; [done|]. split; [done|]. right. split; [done|].
      rewrite He. destruct (mp !! name) eqn:E; [|done]. by discriminate Hin.
Qed.
End shows.
