(* ===== verification/SystemPropertiesForeach.v ===== *)
(** [SystemProperties::Foreach] goes through the properties of the whole
    system: over any implementation of [Contexts], when the areas it goes
    through are listed, its callback gets the record of every name of the map,
    each exactly once (system_properties.cpp). *)

From Stdlib Require Import ZArith Lia Ascii.
From stdpp Require Import base numbers strings gmap list.
From S2P Require Import Prelude CString PropInfo PropArea PropTrie PropAreaProofs.
From S2P Require Import PropAreaSpec PropAreaForeach.
From S2P Require Import PropertyInfoParser Contexts ContextsSplit ContextsSerialized.
From S2P Require Import SystemProperties SystemPropertiesSpec ResetPropSpec ContextsHome.
From S2P Require Import ContextsEnumerate SystemPropertiesMap.

(** The entries of several maps. *)
Definition all_entries (mps : list (gmap cstr cstr)) : list (cstr * cstr) := mps ≫= map_to_list.

Lemma elem_of_all_entries mps name v : (name, v) ∈ all_entries mps ↔ ∃ mp, mp ∈ mps ∧ mp !! name = Some v.
Proof.
  unfold all_entries. rewrite list_elem_of_bind. setoid_rewrite elem_of_map_to_list. naive_solver.
Qed.

(** Maps with no name in common. *)
Lemma all_entries_NoDup (home_of : cstr → option cstr) ps mps :
  NoDup ps → Forall2 (λ p mp, ∀ name, is_Some (mp !! name) → home_of name = Some p) ps mps →
  NoDup (all_entries mps).
Proof.
  intros Hnd Hall. induction Hall as [|p mp ps mps Hp Hall IH]; [constructor|].
  apply NoDup_cons in Hnd as [Hnot Hnd]. cbn. apply NoDup_app. split; [apply NoDup_map_to_list|].
  split; [|by apply IH]. intros [name v] Hin Hin'. apply elem_of_map_to_list in Hin.
  apply elem_of_all_entries in Hin' as (mp' & Hmp & Hv).
  apply list_elem_of_lookup_1 in Hmp as (i & Hi). destruct (Forall2_lookup_r _ _ _ _ _ Hall Hi) as (q & Hq & Hhome).
  pose proof (Hhome name ltac:(eauto)) as Hh. rewrite (Hp name) in Hh by eauto. injection Hh as <-.
  apply Hnot. by eapply list_elem_of_lookup_2.
Qed.

(** The record [pi] holds an entry of a map. *)
Definition entry_of (w : world) (n : Z) (pi : prop_ptr) (kv : cstr * cstr) : Prop :=
  ∃ a r, record_of w n kv.1 pi.1 pi.2 kv.2 a r.

(** A callback that reads the records it is given, folded over them. *)
Lemma fold_entries {C} w n (f : cstr → cstr → C → cres C) pis kvs c :
  Forall2 (entry_of w n) pis kvs → (∀ name v, (name, v) ∈ kvs → ¬ short v → is_read_only name = true) →
  fold_left (λ c pi, let! c := c in let! (name, v, _) := ReadCallback w pi in f name v c) pis c =
  fold_left (λ c kv, let! c := c in f kv.1 kv.2 c) kvs c.
Proof.
  intros Hall. revert c. induction Hall as [|[p o] [name v] pis kvs (a & r & Hrec) _ IH]; intros c Hlong; [done|].
  cbn [fold_left]. rewrite (ReadCallback_record w n name p o v a r Hrec) by (apply Hlong; by left).
  rewrite IH; [done|]. intros name' v' Hin. apply Hlong. by right.
Qed.

Lemma area_foreach_entries w n p mp :
  w_pa_data_size w = PA_DATA_SIZE → world_recs n w → stores w p mp → ∃ pis kvs,
    kvs ≡ₚ map_to_list mp ∧ Forall2 (entry_of w n) pis kvs ∧
    ∀ (C : Type) (propfn : prop_ptr → C → C) cookie,
      area_foreach w p propfn cookie = Ret (fold_left (λ c pi, propfn pi c) pis cookie).
Proof.
  intros Hsz Hrecs Hst. pose proof Hst as (f & Hf & _).
  destruct (stores_get _ _ _ Hst) as (a & Ha & Hrep).
  destruct (foreach_visits_map _ PA_DATA_SIZE_u32 a mp Hrep) as (os & (kvs & Hperm & Hall) & Hrun).
  exists ((λ o, (p, o)) <$> os), kvs. split; [done|]. split.
  - apply Forall2_fmap_l. eapply Forall2_impl; [exact Hall|]. intros o kv (pi & Hd & Hro & Hv).
    exists a, pi. split; try done. unfold get_area in Ha. rewrite Hf in Ha. injection Ha as <-. by apply (Hrecs _ _ Hf o).
  - intros C propfn cookie. unfold area_foreach. rewrite Ha. cbn [cbind]. rewrite Hsz, Hrun. cbn [cbind].
    f_equal. unfold visit_all. revert cookie. clear. induction os as [|o os IH]; intros cookie; [done|apply IH].
Qed.

Lemma visit_areas_entries w n ps mps :
  w_pa_data_size w = PA_DATA_SIZE → world_recs n w → Forall2 (stores w) ps mps → ∃ pis kvs,
    kvs ≡ₚ all_entries mps ∧ Forall2 (entry_of w n) pis kvs ∧
    ∀ (C : Type) (propfn : prop_ptr → C → C) cookie,
      visit_areas w ps propfn cookie = Ret (fold_left (λ c pi, propfn pi c) pis cookie).
Proof.
  intros Hsz Hrecs Hall. induction Hall as [|p mp ps mps Hp _ (pis & kvs & Hperm & Hent & Hrun)].
  { exists [], []. split_and!; [done|constructor|done]. }
  destruct (area_foreach_entries w n p mp Hsz Hrecs Hp) as (pis1 & kvs1 & Hperm1 & Hent1 & Hrun1).
  exists (pis1 ++ pis), (kvs1 ++ kvs). split; [|split].
  - cbn. by apply Permutation_app.
  - by apply Forall2_app.
  - intros C propfn cookie. cbn [visit_areas]. rewrite Hrun1. cbn [cbind]. by rewrite Hrun, fold_left_app.
Qed.

Section foreach.
Context (k : kernel) {S : Type} `{!Contexts k S} `{!ContextsLaws k S} `{!ContextsStable k S}
  `{!ContextsEnumerable k S}.
Context (long_names : gset cstr) (l : listing).

Notation shows := (shows k long_names (Some l)).

(** The listed areas hold the map between them. *)
Lemma areas_hold sp w n m c mps :
  shows sp w n m → sp_contexts sp = Some c → Forall2 (stores w) (l_areas l) mps → all_entries mps ≡ₚ map_to_list m.
Proof.
  intros [Hok _ (c0 & Hc0 & Hmap & Hlist) Hnames _] Hc Hall. rewrite Hc in Hc0. injection Hc0 as <-.
  destruct (Hlist l eq_refl) as [Hareas Hnd _ _ _ Hla].
  assert (Hctx : ctx_ok (k := k) c w) by (destruct Hok as [_ _ (c1 & Hc1 & H & _)]; congruence).
  assert (Hhome : ∀ p mp, p ∈ l_areas l → stores w p mp → ∀ name, is_Some (mp !! name) → home k c w name = Some p).
  { intros p mp Hp Hs name Hin. by apply (Hla p mp). }
  apply NoDup_Permutation; [|apply NoDup_map_to_list|].
  - apply (all_entries_NoDup (home k c w) (l_areas l)); [done|]. apply Forall2_same_length_lookup.
    split; [by eapply Forall2_length|]. intros i p mp Hp Hmp.
    apply (Hhome p mp); [by eapply list_elem_of_lookup_2|by eapply Forall2_lookup_lr].
  - intros [name v]. rewrite elem_of_all_entries, elem_of_map_to_list. split.
    + intros (mp & Hmp & Hv). apply list_elem_of_lookup_1 in Hmp as (i & Hi).
      destruct (Forall2_lookup_r _ _ _ _ _ Hall Hi) as (p & Hp & Hs). apply list_elem_of_lookup_2 in Hp.
      destruct (Hla p mp name Hp Hs ltac:(eauto)) as [Hn Hh]. specialize (Hmap name Hn). rewrite Hh in Hmap.
      destruct Hmap as (mp' & Hs' & ->). by rewrite (stores_inj w p mp' mp).
    + intros Hv. specialize (Hmap name (Hnames name ltac:(eauto))).
      destruct (home k c w name) as [p|] eqn:Hh; [|congruence]. destruct Hmap as (mp & Hs & He).
      pose proof (areas_home c w name p Hctx Hh) as Hp. rewrite Hareas in Hp.
      apply list_elem_of_lookup_1 in Hp as (i & Hi). destruct (Forall2_lookup_l _ _ _ _ _ Hall Hi) as (mp' & Hmp' & Hs').
      rewrite (stores_inj w p mp mp') in He by done. exists mp'. split; [by eapply list_elem_of_lookup_2|congruence].
Qed.

(** The areas are there. *)
Lemma areas_stored sp w n m c :
  shows sp w n m → sp_contexts sp = Some c → ∃ mps, Forall2 (stores w) (l_areas l) mps.
Proof.
  intros [Hok _ (c0 & Hc0 & _ & Hlist) _ _] Hc. rewrite Hc in Hc0. injection Hc0 as <-.
  destruct (Hlist l eq_refl) as [Hareas _ _ _ _ _]. pose proof (so_world _ _ _ Hok) as Hw.
  assert (Hctx : ctx_ok (k := k) c w) by (destruct Hok as [_ _ (c1 & Hc1 & H & _)]; congruence).
  assert (Hsome : ∀ p, p ∈ l_areas l → is_Some (w_files w !! p)).
  { intros p Hp. apply (areas_known c w); [done|by rewrite Hareas]. }
  clear Hareas Hlist. induction (l_areas l) as [|p ps' IH]; [by exists []|].
  destruct IH as (mps & Hmps). { intros q Hq. apply Hsome. by right. }
  destruct (world_ok_stores w p Hw (Hsome p ltac:(by left))) as (mp & Hmp). exists (mp :: mps). by constructor.
Qed.

Lemma Foreach_shows sp w n m :
  shows sp w n m → ∃ pis kvs sp' w', kvs ≡ₚ map_to_list m ∧ Forall2 (entry_of w n) pis kvs ∧
    shows sp' w' n m ∧ w_files w' = w_files w ∧
    ∀ (C : Type) (propfn : prop_ptr → C → C) (cookie : C),
      Foreach k sp w propfn cookie = Ret (0%Z, fold_left (λ c pi, propfn pi c) pis cookie, sp', w').
Proof.
  intros Hsh. pose proof Hsh as [Hok Hrecs (c & Hc & Hmap & Hlist) Hnames Hlong].
  destruct (areas_stored sp w n m c Hsh Hc) as (mps & Hmps).
  pose proof (areas_hold sp w n m c mps Hsh Hc Hmps) as Hperm.
  pose proof (so_world _ _ _ Hok) as Hw. destruct (Hlist l eq_refl) as [Hareas Hnd Hag _ _ Hla].
  assert (Hctx : ctx_ok (k := k) c w) by (destruct Hok as [_ _ (c1 & Hc1 & H & _)]; congruence).
  destruct (areas_foreach c w Hw Hctx Hag) as (c' & w' & Hrun & Hctx' & Hw' & Hf & Hser & Hareas' & Hag' & Hhome).
  destruct (visit_areas_entries w n (l_areas l) mps (wo_size _ Hw) Hrecs Hmps) as (pis & kvs & Hkvs & Hent & Hvisit).
  exists pis, kvs, (set_ctx sp c'), w'. split; [by rewrite Hkvs|]. split; [done|]. split; [|split; [done|]].
  - split; [| | |done|done].
    + split; [done|apply Hok|]. exists c'. split; [done|]. split; [done|]. rewrite Hser.
      destruct Hok as [_ _ (c1 & Hc1 & _ & H)]. congruence.
    + intros p f. rewrite Hf. apply Hrecs.
    + exists c'. split; [done|]. split; [|by apply (listed_ok_same k (Some l) c w)].
      intros name Hn. rewrite Hhome. specialize (Hmap name Hn). destruct (home k c w name) as [p|]; [|done].
      destruct Hmap as (mp & Hs & He). exists mp. split; [by apply (stores_files w)|done].
  - intros C propfn cookie. unfold Foreach. rewrite (so_init _ _ _ Hok), Hc. cbn [negb deref cbind].
    rewrite Hrun, Hareas, Hvisit. done.
Qed.
End foreach.
