(* ===== verification/ProcessStart.v ===== *)
(** What a process that starts finds (SystemProperties::Init of
    system_properties.cpp): nothing of the object depends on what the areas
    hold, so each process maps the same areas and sees the map that the
    processes before it left. *)

From Stdlib Require Import ZArith Lia Ascii.
From stdpp Require Import base numbers strings gmap list.
From S2P Require Import Prelude CString PropInfo PropArea PropertyInfoParser Contexts.
From S2P Require Import ContextsSplit ContextsSerialized SystemProperties.
From S2P Require Import SystemPropertiesSpec.
From S2P Require Import ResetProp ResetPropSpec ContextsHome ContextsEnumerate.
From S2P Require Import SystemPropertiesMap.

(** The memory of a process that starts: the files are shared, the statics
    [pa_size_] and [pa_data_size_] are zero. *)
Definition fresh_world (w : world) : world := mkWorld (w_files w) 0 0.

(** The statics after one of the files has been mapped. *)
Definition size_of_file (w : world) : Prop :=
  ∃ p f, w_files w !! p = Some f ∧ w_pa_data_size w = (st_size (af_stat f) - sizeof_prop_area)%Z.

Section init.
Context (k : kernel).

Lemma map_prop_area_again w1 w2 filename pa w1' :
  same_files w1 w2 → map_prop_area k w1 filename = (pa, w1') →
  ∃ w2', map_prop_area k w2 filename = (pa, w2') ∧ w_files w2' = w_files w2 ∧ (is_Some pa → size_of_file w2').
Proof.
  intros Hs Hm. pose proof (map_prop_area_same k w1 w2 filename Hs) as He. rewrite Hm in He.
  destruct (map_prop_area k w2 filename) as [pa2 w2'] eqn:Hm2. cbn [fst] in He. subst pa2.
  exists w2'. split; [done|]. split; [by destruct (map_prop_area_spec k _ _ _ _ Hm2)|]. intros [p ->].
  unfold map_prop_area in Hm2. destruct (w_files w2 !! filename) as [f|] eqn:Hf; [|done].
  destruct (k_open k filename); [|done]. unfold map_fd_rw in Hm2.
  destruct (_ || _); [done|]. destruct (negb (k_mmap k filename)); [done|]. destruct (_ || _); [done|].
  injection Hm2 as _ <-. by exists filename, f.
Qed.

Lemma serial_again w1 w2 filename pa ff w1' :
  same_files w1 w2 → MapSerialPropertyArea k w1 filename false None = Ret (pa, ff, w1') →
  ∃ w2', MapSerialPropertyArea k w2 filename false None = Ret (pa, ff, w2') ∧
    w_files w2' = w_files w2 ∧ (is_Some pa → size_of_file w2').
Proof.
  intros Hs. unfold MapSerialPropertyArea. destruct (format_path _ _) as [path|].
  - destruct (map_prop_area k w1 path) as [pa1 w'] eqn:Hm. intros [= <- <- <-].
    destruct (map_prop_area_again _ _ _ _ _ Hs Hm) as (w2' & -> & Hf & Hsz). by exists w2'.
  - intros [= <- <- <-]. exists w2. split; [done|]. split; [done|]. by intros [? [=]].
Qed.

(** The read-only initialisation of an implementation. *)
Definition starts_again (S : Type) `{!Contexts k S} : Prop :=
  ∀ w1 w2 filename s ff w1', same_files w1 w2 →
    Initialize (k := k) (S := S) w1 false filename None = Ret (true, s, ff, w1') →
    ∃ ff' w2', Initialize (k := k) (S := S) w2 false filename None = Ret (true, s, ff', w2') ∧
      w_files w2' = w_files w2 ∧ size_of_file w2'.

Lemma PreSplit_again : starts_again ContextsPreSplit.
Proof.
  intros w1 w2 filename s ff w1' Hs. cbn [Initialize PreSplit_Contexts].
  destruct (map_prop_area k w1 filename) as [pa w'] eqn:Hm.
  destruct (map_prop_area_again _ _ _ _ _ Hs Hm) as (w2' & -> & Hf & Hsz).
  intros [= Hpa <- <- <-]. apply bool_decide_eq_true in Hpa. exists None, w2'.
  rewrite bool_decide_true by done. auto.
Qed.

Lemma Serialized_again : starts_again ContextsSerialized.
Proof.
  intros w1 w2 filename s ff w1' Hs. cbn [Initialize Serialized_Contexts]. unfold ser_Initialize.
  destruct (ser_InitializeProperties k _) as [[ok s0]| |]; [|done..]. cbn [cbind].
  destruct ok; cbn [negb]; [|done].
  destruct (MapSerialPropertyArea k w1 filename false None) as [[[pa ff1] w']| |] eqn:Hm; [|done..].
  destruct (serial_again _ _ _ _ _ _ Hs Hm) as (w2' & -> & Hf & Hsz). cbn [cbind].
  destruct pa as [p|]; [|done]. intros [= <- <- <-]. exists None, w2'. eauto.
Qed.

Lemma Split_again : starts_again ContextsSplit.
Proof.
  intros w1 w2 filename s ff w1' Hs. cbn [Initialize Split_Contexts]. unfold initialize.
  destruct (InitializeProperties k _) as [[ok s0]| |]; [|done..]. cbn [cbind].
  destruct ok; cbn [negb]; [|done].
  destruct (MapSerialPropertyArea k w1 filename false None) as [[[pa ff1] w']| |] eqn:Hm; [|done..].
  destruct (serial_again _ _ _ _ _ _ Hs Hm) as (w2' & -> & Hf & Hsz). cbn [cbind].
  destruct pa as [p|]; [|done]. intros [= <- <- <-]. exists None, w2'. eauto.
Qed.

(** A process that starts later gets the same object. *)
Lemma Init_again w1 w2 filename sp w1' :
  same_files w1 w2 → Init k zero_properties w1 filename = Ret (true, sp, w1') →
  ∃ w2', Init k zero_properties w2 filename = Ret (true, sp, w2') ∧
    w_files w2' = w_files w2 ∧ size_of_file w2'.
Proof.
  intros Hs. unfold Init, zero_properties. cbn [initialized_].
  destruct (_ >=? _)%Z; [done|]. destruct (k_is_dir k filename); [destruct (k_access k _)|].
  - destruct (Initialize w1 false filename None) as [[[[ok s] ff] w']| |] eqn:Hi; [|done..]. cbn [cbind].
    intros [= -> <- <-]. destruct (Serialized_again _ _ _ _ _ _ Hs Hi) as (ff' & w2' & -> & H). by exists w2'.
  - destruct (Initialize w1 false filename None) as [[[[ok s] ff] w']| |] eqn:Hi; [|done..]. cbn [cbind].
    intros [= -> <- <-]. destruct (Split_again _ _ _ _ _ _ Hs Hi) as (ff' & w2' & -> & H). by exists w2'.
  - destruct (Initialize w1 false filename None) as [[[[ok s] ff] w']| |] eqn:Hi; [|done..]. cbn [cbind].
    intros [= -> <- <-]. destruct (PreSplit_again _ _ _ _ _ _ Hs Hi) as (ff' & w2' & -> & H). by exists w2'.
Qed.

Lemma Init_files w filename sp w' :
  Init k zero_properties w filename = Ret (true, sp, w') → w_files w' = w_files w.
Proof.
  intros Hi. destruct (Init_again w w filename sp w') as (w2 & Hi2 & Hf & _); [done|done|]. congruence.
Qed.

(** ** The map another process left *)

Context (long_names : gset cstr) (l : listing).

Notation shows := (shows k long_names (Some l)).

(** The files of [w] show the map [m]. *)
Definition files_show (w : world) (n : Z) (m : gmap cstr cstr) : Prop :=
  ∃ (sp : SystemProperties AnyContexts) w', w_files w' = w_files w ∧ shows sp w' n m.

Lemma shows_files_show sp w n m : shows sp w n m → files_show w n m.
Proof. by exists sp, w. Qed.

Lemma files_show_same w n m : files_show w n m → same_files (l_world l) w.
Proof.
  intros (sp & w' & Hf & Hsh). destruct (sh_map _ _ _ _ _ _ _ Hsh) as (c & _ & _ & Hl).
  etrans; [apply (la_same _ _ _ _ (Hl l eq_refl))|]. by apply same_files_of.
Qed.

(** An object of the first process over the files as they are now. *)
Lemma shows_again (sp0 : SystemProperties AnyContexts) w0 n0 m0 w n m w' :
  shows sp0 w0 n0 m0 → files_show w n m → w_files w' = w_files w → size_of_file w' → shows sp0 w' n m.
Proof.
  intros [Hok0 _ (c0 & Hc0 & _ & Hl0) _ _] (sp & wx & Hfx & Hsh) Hf (p0 & f0 & Hp0 & Hsz).
  destruct Hsh as [Hok Hrecs (c & Hc & Hmap & Hl) Hnames Hlong].
  assert (Hfw : w_files w' = w_files wx) by congruence.
  destruct (Hl0 l eq_refl) as [A1 A2 A3 A4 A5 A6]. destruct (Hl l eq_refl) as [B1 B2 B3 B4 B5 B6].
  assert (Hs : same_files w0 w').
  { etrans; [symmetry; exact A5|]. etrans; [exact B5|]. by apply same_files_of. }
  destruct Hok0 as [Hw0 Hi0 (c1 & Hc1 & Hctx0 & Hser0)]. rewrite Hc0 in Hc1. injection Hc1 as <-.
  assert (Hhome : ∀ name, home k c0 w' name = home k c wx name).
  { intros name. rewrite (home_files c0 w0) by done. by rewrite A4, B4. }
  split; [| | |done|done].
  - split; [|done|].
    + destruct (so_world _ _ _ Hok) as [_ Hwf]. rewrite <- Hfw in Hwf. split; [|done].
      rewrite Hsz. by destruct (Hwf _ _ Hp0) as [-> _].
    + exists c0. split; [done|]. split; [|done]. apply (ctx_ok_files (k := k) c0 w0); [by apply same_files_dom|done].
  - intros p f. rewrite Hfw. apply Hrecs.
  - exists c0. split; [done|]. split.
    + intros name Hn. rewrite Hhome. specialize (Hmap name Hn). destruct (home k c wx name) as [p|]; [|done].
      destruct Hmap as (mp & Hst & He). exists mp. split; [by apply (stores_files wx)|done].
    + intros l' [= <-]. destruct (areas_files (k := k) c0 _ _ Hs) as [C1 C2].
      split; [congruence|done|auto|intros name; by rewrite Hhome, B4| |]; [by rewrite A5|].
      intros p mp name Hp Hst. rewrite Hhome. apply (B6 p mp); [congruence|]. by apply (stores_files w').
Qed.

(** A process that starts sees the map. *)
Lemma start_shows w1 sp0 w0 n0 m0 w n m :
  Init k zero_properties w1 PROP_FILENAME = Ret (true, sp0, w0) → shows sp0 w0 n0 m0 → files_show w n m →
  ∃ w', Init k zero_properties (fresh_world w) PROP_FILENAME = Ret (true, sp0, w') ∧
    w_files w' = w_files w ∧ shows sp0 w' n m.
Proof.
  intros Hinit Hsh0 Hfs. assert (Hsame : same_files w1 (l_world l)).
  { symmetry. apply (files_show_same w1 n0 m0). exists sp0, w0. split; [by eapply Init_files|done]. }
  destruct (Init_again w1 (fresh_world w) PROP_FILENAME sp0 w0) as (w' & Hrun & Hf & Hsz); [|done|].
  - etrans; [exact Hsame|]. etrans; [by eapply files_show_same|]. by apply same_files_of.
  - exists w'. split; [done|]. split; [done|]. by eapply shows_again.
Qed.
End init.
