(* ===== verification/ResetPropList.v ===== *)
(** The lists of properties that resetprop collects in a vector, sorts and
    prints (collect_props, collect_unique_props and print_props of
    resetprop.c), the accesses outside the storage of the vector included. *)

From Stdlib Require Import ZArith Lia Ascii Sorted.
From stdpp Require Import base numbers sorting strings gmap list.
From S2P Require Import Prelude CString PropInfo SystemPropertiesMap Vector ResetProp.

(** * Collecting and printing *)

Definition prop_of (kv : cstr * cstr) : prop_t := mkProp kv.1 kv.2.

(** The numbers of elements that fill a vector that only grew. *)
Definition full_size (n : Z) : Prop := n = (2 ^ Z.log2 n)%Z.

#[export] Instance full_size_dec n : Decision (full_size n).
Proof. unfold full_size. apply _. Defined.

(** The capacity is the least power of two that holds the elements. *)
Definition grown (v : vector prop_t) : Prop :=
  ∃ j, (0 ≤ j)%Z ∧ vec_cap v = (2 ^ j)%Z ∧ (j = 0 ∨ vec_cap v < 2 * vec_size v)%Z.

Lemma grown_full v : vec_ok v → grown v → (0 < vec_size v)%Z → vec_size v = vec_cap v ↔ full_size (vec_size v).
Proof.
  intros [_ Hs Hc] (j & Hj & Hcap & Hlt) Hpos. unfold full_size. split.
  - intros E. by rewrite E, Hcap, Z.log2_pow2.
  - intros E. destruct Hlt as [->|Hlt]; [lia|]. rewrite Hcap, E in Hlt |- *.
    assert (Hl := Z.log2_nonneg (vec_size v)).
    assert (j < Z.log2 (vec_size v) + 1)%Z.
    { apply (Z.pow_lt_mono_r_iff 2); [lia..|]. rewrite Z.pow_add_r by lia. lia. }
    assert (Z.log2 (vec_size v) ≤ j)%Z.
    { apply (Z.pow_le_mono_r_iff 2); [lia..|]. rewrite <- E, <- Hcap. lia. }
    f_equal. lia.
Qed.

Lemma vec_init_grown : grown vec_init.
Proof. exists 0%Z. split; [lia|]. split; [done|]. by left. Qed.

Lemma collect_props_grows v name value :
  vec_ok v → grown v → (Z.of_nat (length value) < PROP_VALUE_MAX)%Z → (vec_size v < 2 ^ 29)%Z →
  ∃ v', collect_props name value v = Ret v' ∧ vec_ok v' ∧ grown v' ∧
    contents v' = contents v ++ [Elem (prop_of (name, value))].
Proof.
  intros Hv (j & Hj & Hcap & Hlt) Hval Hsz. unfold collect_props, strcpy_value.
  rewrite Z.geb_leb, (proj2 (Z.leb_gt _ _)) by done. cbn [cbind].
  assert (Hc30 : (vec_cap v < 2 ^ 30)%Z) by (destruct Hlt as [->|]; lia).
  destruct (vec_push_back_appends v (Elem (mkProp name value)) Hv Hc30) as (v' & -> & Hv' & Hct & Hcap').
  exists v'. split_and!; try done.
  assert (Hs' : vec_size v' = (vec_size v + 1)%Z).
  { rewrite <- (length_contents v' Hv'), Hct, length_app, Nat2Z.inj_add, (length_contents v Hv). done. }
  unfold grown. rewrite Hcap', Hs'. pose proof (vo_size _ Hv). case_decide as E.
  - exists (j + 1)%Z. split; [lia|]. split; [|right; lia]. rewrite Hcap, Z.pow_add_r by lia. lia.
  - exists j. split; [done|]. split; [done|]. destruct Hlt; [by left|right; lia].
Qed.

Lemma collect_all kvs v :
  vec_ok v → grown v → Forall (λ kv, short kv.2) kvs →
  (vec_size v + Z.of_nat (length kvs) ≤ 2 ^ 29)%Z →
  ∃ v', fold_left (λ c kv, let! c := c in collect_props kv.1 kv.2 c) kvs (Ret v) = Ret v' ∧
    vec_ok v' ∧ grown v' ∧ contents v' = contents v ++ (Elem ∘ prop_of <$> kvs).
Proof.
  revert v. induction kvs as [|[n x] kvs IH]; intros v Hv Hg Hs Hlen; cbn [fold_left].
  - exists v. split_and!; try done. by rewrite app_nil_r.
  - apply Forall_cons in Hs as [Hx Hs]. cbn [length] in Hlen. cbn [cbind fst snd].
    destruct (collect_props_grows v n x Hv Hg Hx ltac:(lia)) as (v1 & -> & Hv1 & Hg1 & Hct1).
    destruct (IH v1 Hv1 Hg1 Hs) as (v' & -> & Hv' & Hg' & Hct').
    { rewrite <- (length_contents v1 Hv1), Hct1, length_app, Nat2Z.inj_add, (length_contents v Hv). cbn. lia. }
    exists v'. split_and!; try done. by rewrite Hct', Hct1, <- app_assoc.
Qed.

(** ** The order of the names *)

Definition by_name (x y : cstr * cstr) : Prop := strcmp x.1 y.1 ≠ Gt.

Lemma prop_cmp_total : Total (comp_le (Some prop_cmp)).
Proof.
  intros [| |x] [| |y]; unfold comp_le; cbn; try (left; discriminate); try (right; discriminate).
  unfold prop_cmp. rewrite (strcmp_antisym (p_name x) (p_name y)). destruct (strcmp _ _); [left|left|right]; done.
Qed.

Lemma prop_cmp_trans : Transitive (comp_le (Some prop_cmp)).
Proof.
  intros [| |x] [| |y] [| |z]; unfold comp_le; cbn; try done. unfold prop_cmp. intros H1 H2.
  destruct (strcmp (p_name x) (p_name y)) eqn:E1; [|clear H1|done].
  - apply strcmp_eq in E1. by rewrite E1.
  - destruct (strcmp (p_name y) (p_name z)) eqn:E2; [|clear H2|done].
    + apply strcmp_eq in E2. by rewrite <- E2, E1.
    + by rewrite (strcmp_lt_trans _ _ _ E1 E2).
Qed.

(** A permutation of a list of elements is the image of one of the entries. *)
Lemma elems_permutation (l : list (slot prop_t)) kvs :
  l ≡ₚ (Elem ∘ prop_of <$> kvs) → ∃ kvs', l = (Elem ∘ prop_of <$> kvs') ∧ kvs' ≡ₚ kvs.
Proof.
  intros H. apply Permutation_map_inv in H as (kvs' & -> & Hp). by exists kvs'.
Qed.

Lemma sorted_by_name kvs :
  StronglySorted (comp_le (Some prop_cmp)) (Elem ∘ prop_of <$> kvs) → StronglySorted by_name kvs.
Proof.
  induction kvs as [|x kvs IH]; [constructor|]. cbn. intros Hs. apply StronglySorted_inv in Hs as [Hs Hx].
  constructor; [by apply IH|]. rewrite Forall_fmap in Hx. exact Hx.
Qed.

(** What is printed of an entry. *)
Definition line_of (kv : cstr * cstr) : cstr := cs "[" ++ kv.1 ++ cs "]: [" ++ kv.2 ++ cs "]".

Definition add_out (t : tool) (ls : list cstr) : tool :=
  mkTool (t_sp t) (t_w t) (t_ps t) (t_verbose t) (t_out t ++ ls).

Lemma print_slots_lines t kvs :
  print_slots t (Elem ∘ prop_of <$> kvs) = Ret (add_out t (line_of <$> kvs)).
Proof.
  revert t. induction kvs as [|[n v] kvs IH]; intros t; cbn [fmap list_fmap print_slots].
  - unfold add_out. rewrite app_nil_r. by destruct t.
  - cbn [prop_of p_name p_value compose]. rewrite IH. unfold add_out, print. cbn [t_sp t_w t_ps t_verbose t_out].
    by rewrite <- app_assoc.
Qed.

Lemma fold_append {A} (l acc : list A) : fold_left (λ c e, c ++ [e]) l acc = acc ++ l.
Proof.
  revert acc. induction l as [|x l IH]; intros acc; cbn; [by rewrite app_nil_r|]. by rewrite IH, <- app_assoc.
Qed.

(** The sorted listing of a vector that was collected. *)
Lemma print_collected t v kvs :
  vec_ok v → grown v → contents v = (Elem ∘ prop_of <$> kvs) → ∃ kvs',
    kvs' ≡ₚ kvs ∧ StronglySorted by_name kvs' ∧
    (let! v := vec_sort v (Some prop_cmp) in
     let! l := vec_for_each v (λ e l, (false, l ++ [e])) [] in print_slots t l) =
      if decide (full_size (Z.of_nat (length kvs))) then Fault
      else Ret (add_out t (line_of <$> kvs')).
Proof.
  intros Hv Hg Hct. pose proof (length_contents v Hv) as Hlen. rewrite Hct, length_fmap in Hlen.
  destruct (decide (kvs = [])) as [->|Hne].
  - exists []. split; [done|]. split; [constructor|]. rewrite decide_False by done.
    destruct Hv as [(d & Hd & Hld) Hs Hc]. cbn in Hlen. unfold vec_sort. rewrite Hd. cbn [deref cbind].
    rewrite <- Hlen. cbn [Z.to_nat Nat.ltb Nat.leb take drop app merge_sort]. change (length d <? 0)%nat with false.
    cbv beta iota. cbn [merge_sort app drop take].
    unfold vec_for_each_r. cbn [vec_size Z.gtb Z.compare cbind Z.to_nat for_each_r_loop Z.sub Z.geb Z.add Z.opp].
    unfold vec_for_each, vec_at. cbn [vec_size vec_entry deref cbind Z.ltb Z.compare Z.to_nat].
    destruct d as [|x d]; [cbn in Hld; lia|]. exact (print_slots_lines t []).
  - assert (Hpos : (0 < vec_size v)%Z) by (destruct kvs; [done|cbn in Hlen; lia]).
    destruct (vec_sort_sorts v prop_cmp Hv) as (v' & -> & Hv' & Hperm & Hsort & Hcap').
    { rewrite Hct. apply Forall_fmap, Forall_true. done. }
    { rewrite Hct. destruct kvs; [done|]. by left. }
    { apply prop_cmp_total. }
    { apply prop_cmp_trans. }
    rewrite Hct in Hperm. pose proof (filter_elems (Elem ∘ prop_of <$> kvs) 0) as Hfl. cbn [replicate] in Hfl.
    rewrite app_nil_r in Hfl. rewrite Hfl in Hperm by (apply Forall_fmap, Forall_true; done).
    destruct (elems_permutation _ _ Hperm) as (kvs' & Hct' & Hp). exists kvs'. split; [done|].
    rewrite Hct' in Hsort. split; [by apply sorted_by_name|]. cbn [cbind].
    rewrite (vec_for_each_visits (λ e l, l ++ [e]) v' []) by done. rewrite fold_append, Hct'. cbn [app].
    assert (Hs' : vec_size v' = vec_size v).
    { by rewrite <- (length_contents v' Hv'), Hct', length_fmap, Hp. }
    rewrite Hs', Hcap', Hlen. pose proof (grown_full v Hv Hg Hpos) as Hfull. pose proof (vo_size _ Hv).
    destruct (decide (full_size (vec_size v))) as [Hf|Hf].
    + rewrite decide_False by (apply Hfull in Hf; lia). done.
    + rewrite decide_True by (assert (vec_size v ≠ vec_cap v) by (by rewrite Hfull); lia). cbn [cbind].
      apply print_slots_lines.
Qed.

(** * Collecting the names that are not there yet *)

(** The list after the entries of [l] whose names it does not have. *)
Fixpoint add_unique (kvs l : list (cstr * cstr)) : list (cstr * cstr) :=
  match l with
  | [] => kvs
  | kv :: l => add_unique (if decide (kv.1 ∈ kvs.*1) then kvs else kvs ++ [kv]) l
  end.

Lemma add_unique_length kvs l : (length kvs ≤ length (add_unique kvs l) ≤ length kvs + length l)%nat.
Proof.
  revert kvs. induction l as [|kv l IH]; intros kvs; cbn [add_unique length]; [lia|].
  specialize (IH (if decide (kv.1 ∈ kvs.*1) then kvs else kvs ++ [kv])). case_decide; [lia|].
  rewrite length_app in IH. cbn in IH. lia.
Qed.

(** As maps: the entries that were there come first. *)
Lemma add_unique_map kvs l :
  NoDup kvs.*1 →
  NoDup (add_unique kvs l).*1 ∧
  (list_to_map (add_unique kvs l) : gmap cstr cstr) = list_to_map kvs ∪ list_to_map l.
Proof.
  revert kvs. induction l as [|[n v] l IH]; intros kvs Hnd; cbn [add_unique list_to_map foldr fst].
  - by rewrite (right_id_L ∅ (∪)).
  - case_decide as Hin.
    + destruct (IH kvs Hnd) as [Hnd' ->]. split; [done|]. apply map_eq. intros x. rewrite !lookup_union.
      destruct (decide (x = n)) as [->|Hne]; [|by rewrite lookup_insert_ne].
      destruct ((list_to_map kvs : gmap cstr cstr) !! n) eqn:E; [by rewrite !union_Some_l|].
      by apply not_elem_of_list_to_map_2 in E.
    + destruct (IH (kvs ++ [(n, v)])) as [Hnd' ->].
      { rewrite fmap_app. apply NoDup_app. split_and!; [done| |apply NoDup_singleton].
        intros x Hx ->%list_elem_of_singleton. done. }
      split; [done|]. rewrite list_to_map_app. cbn. rewrite <- (assoc_L (∪)). f_equal.
      by rewrite <- insert_union_l, (left_id_L ∅ (∪)).
Qed.

Lemma add_unique_union kvs l m :
  kvs ≡ₚ map_to_list m → add_unique kvs l ≡ₚ map_to_list (m ∪ list_to_map l).
Proof.
  intros Hp. assert (Hnd : NoDup kvs.*1) by (rewrite Hp; apply NoDup_fst_map_to_list).
  destruct (add_unique_map kvs l Hnd) as [Hnd' Hm]. rewrite <- (map_to_list_to_map _ Hnd'), Hm.
  by rewrite (list_to_map_proper kvs _ Hnd Hp), list_to_map_to_list.
Qed.

(** A vector with a spare slot. *)
Lemma spare_slot v kvs :
  vec_ok v → grown v → contents v = (Elem ∘ prop_of <$> kvs) →
  (vec_size v <? vec_cap v)%Z = negb (bool_decide (full_size (Z.of_nat (length kvs)))).
Proof.
  intros Hv Hg Hct. pose proof (length_contents v Hv) as Hlen. rewrite Hct, length_fmap in Hlen. rewrite Hlen.
  pose proof Hv as [_ Hs Hc]. destruct (decide (0 < vec_size v)%Z) as [Hpos|Hpos].
  - pose proof (grown_full v Hv Hg Hpos) as Hfull. destruct (Z.ltb_spec (vec_size v) (vec_cap v)); case_bool_decide; naive_solver lia.
  - replace (vec_size v) with 0%Z in * by lia. rewrite (proj2 (Z.ltb_lt _ _)) by lia. done.
Qed.

Lemma scan_names name kvs :
  scan (λ e uniq, match e with
                  | Elem p => if streq name (p_name p) then (true, Ret false) else (false, uniq)
                  | _ => (true, Fault)
                  end) (Elem ∘ prop_of <$> kvs) (Ret true) =
    if decide (name ∈ kvs.*1) then (true, Ret false) else (false, Ret true).
Proof.
  induction kvs as [|[n v] kvs IH]; cbn [fmap list_fmap scan]; [done|].
  cbn [compose prop_of p_name fst]. destruct (streq name n) eqn:E.
  - apply streq_spec in E as ->. by rewrite decide_True by left.
  - assert (name ≠ n) by (intros ->; rewrite (proj2 (streq_spec n n) eq_refl) in E; done).
    rewrite IH. destruct (decide (name ∈ kvs.*1)) as [H1|H1].
    + by rewrite decide_True by by right.
    + rewrite decide_False; [done|]. by intros [->|?]%elem_of_cons.
Qed.

Lemma collect_unique_run v kvs name value :
  vec_ok v → grown v → contents v = (Elem ∘ prop_of <$> kvs) →
  collect_unique_props name value v =
    if decide (name ∈ kvs.*1) then Ret v
    else if decide (full_size (Z.of_nat (length kvs))) then Fault else collect_props name value v.
Proof.
  intros Hv Hg Hct. unfold collect_unique_props. rewrite vec_for_each_scan, Hct, scan_names by done.
  destruct (decide (name ∈ kvs.*1)); [done|]. cbn [orb]. rewrite (spare_slot v kvs) by done.
  destruct (decide (full_size _)); [by rewrite bool_decide_true|by rewrite bool_decide_false].
Qed.

(** Some length from [a] on and below [b] fills the vector. *)
Definition passes_full (a b : Z) : Prop := ∃ n, (a ≤ n < b)%Z ∧ full_size n.

Lemma passes_full_none a : ¬ passes_full a a.
Proof. intros (n & Hn & _). lia. Qed.

Lemma passes_full_step a b : (a < b)%Z → passes_full a b ↔ full_size a ∨ passes_full (a + 1) b.
Proof.
  intros Hab. split.
  - intros (n & Hn & Hf). destruct (decide (n = a)) as [->|]; [by left|]. right. exists n. split; [lia|done].
  - intros [Hf|(n & Hn & Hf)]; [exists a|exists n]; (split; [lia|done]).
Qed.

Lemma passes_full_last a b : (a ≤ b)%Z → passes_full a (b + 1) ↔ passes_full a b ∨ full_size b.
Proof.
  intros Hab. split.
  - intros (n & Hn & Hf). destruct (decide (n = b)) as [->|]; [by right|]. left. exists n. split; [lia|done].
  - intros [(n & Hn & Hf)|Hf]; [exists n|exists b]; (split; [lia|done]).
Qed.

(** The records of the persistent storage join the list. *)
Lemma collect_uniques l v kvs :
  vec_ok v → grown v → contents v = (Elem ∘ prop_of <$> kvs) → Forall (λ kv, short kv.2) l →
  (Z.of_nat (length kvs + length l) ≤ 2 ^ 29)%Z →
  let b := Z.of_nat (length (add_unique kvs l)) in
  (passes_full (Z.of_nat (length kvs)) b ∧ fold_records collect_unique_props l v = Fault) ∨
  (¬ passes_full (Z.of_nat (length kvs)) b ∧ ∃ v', fold_records collect_unique_props l v = Ret v' ∧
    vec_ok v' ∧ grown v' ∧ contents v' = (Elem ∘ prop_of <$> add_unique kvs l)).
Proof.
  revert v kvs. induction l as [|[n x] l IH]; intros v kvs Hv Hg Hct Hs Hlen; cbn [add_unique fold_records].
  { right. split; [apply passes_full_none|]. by exists v. }
  apply Forall_cons in Hs as [Hx Hs]. cbn [length fst snd] in *. rewrite (collect_unique_run v kvs) by done.
  case_decide as Hin; cbn [cbind]; [apply IH; try done; lia|].
  pose proof (add_unique_length (kvs ++ [(n, x)]) l) as Hal. rewrite length_app in Hal. cbn [length] in Hal.
  pose proof (length_contents v Hv) as Hsz. rewrite Hct, length_fmap in Hsz.
  pose proof (passes_full_step (Z.of_nat (length kvs)) (Z.of_nat (length (add_unique (kvs ++ [(n, x)]) l))) ltac:(lia)) as Hpf.
  case_decide as Hfull; cbn [cbind]; [left; split; [by apply Hpf; left|done]|].
  destruct (collect_props_grows v n x Hv Hg Hx ltac:(lia)) as (v1 & -> & Hv1 & Hg1 & Hct1). cbn [cbind].
  assert (Hlen1 : Z.of_nat (length (kvs ++ [(n, x)])) = (Z.of_nat (length kvs) + 1)%Z) by (rewrite length_app; cbn; lia).
  destruct (IH v1 (kvs ++ [(n, x)]) Hv1 Hg1) as [[Hp ->]|[Hp Hres]].
  - by rewrite Hct1, Hct, fmap_app.
  - done.
  - rewrite length_app. cbn. lia.
  - left. split; [|done]. apply Hpf. right. by rewrite <- Hlen1.
  - right. split; [|done]. intros [?|H]%Hpf; [done|]. apply Hp. by rewrite Hlen1.
Qed.
