(* ===== verification/ResetPropStore.v ===== *)
(** The persistent storage of resetprop as a map (persist_properties.c): the
    records of the protocol-buffer file, or one file for each property.  What
    the callers of [persist_getprop], [persist_getprop_all] and
    [persist_deleteprop] get is what they get of the map [stored]. *)

From Stdlib Require Import ZArith Lia Ascii.
From stdpp Require Import base numbers strings gmap list.
From S2P Require Import Prelude CString PropInfo SystemPropertiesMap Vector ResetProp.
From S2P Require Import ResetPropList.

(** * The two forms of the storage *)

Inductive store :=
  | Records (l : list (cstr * cstr))
  | Files (fs : gmap cstr (list ascii)).

(** What is read of a file: four bytes. *)
Definition file_value (bytes : list ascii) : cstr := c_str_of (take sizeof_int bytes).

Definition entries (s : store) : list (cstr * cstr) :=
  match s with Records l => l | Files fs => prod_map id file_value <$> map_to_list fs end.

(** The first record of a name is the one that counts. *)
Definition stored (s : store) : gmap cstr cstr := list_to_map (entries s).

(** Records a protocol-buffer file can hold. *)
Definition entry_ok (kv : cstr * cstr) : Prop := no_nul kv.1 ∧ no_nul kv.2 ∧ short kv.2.

#[export] Instance entry_ok_dec kv : Decision (entry_ok kv).
Proof. unfold entry_ok. apply _. Defined.

(** Taking a property out of the storage: whether it was done. *)
Inductive forget (name : cstr) : store → bool → store → Prop :=
  | forget_none s : stored s !! name = None → forget name s false s
  | forget_record l1 v l2 : name ∉ l1.*1 →
    forget name (Records (l1 ++ (name, v) :: l2)) true (Records (l1 ++ l2))
  | forget_failed l : is_Some (stored (Records l) !! name) → forget name (Records l) false (Records l)
  | forget_file fs : is_Some (fs !! name) → forget name (Files fs) true (Files (delete name fs)).

(** What init does to the storage when it sets a property whose name starts with
    "persist.": it writes the record, or the file, of that name, or nothing
    while it does not keep persistent properties yet. *)
Inductive recorded (name value : cstr) : store → store → Prop :=
  | recorded_not s : recorded name value s s
  | recorded_record l l' :
    stored (Records l') = <[name := value]> (stored (Records l)) → (length l' ≤ S (length l))%nat →
    recorded name value (Records l) (Records l')
  | recorded_file fs : recorded name value (Files fs) (Files (<[name := value]> fs)).

(** The vector of the records is read past its end. *)
Definition overread (s : store) : Prop :=
  match s with Records l => full_size (Z.of_nat (length l)) | Files _ => False end.

#[export] Instance overread_dec s : Decision (overread s).
Proof. destruct s; cbn; apply _. Defined.

Lemma forget_length name s b s' : forget name s b s' → (length (entries s') ≤ length (entries s))%nat.
Proof.
  destruct 1 as [| | |fs [x Hx]]; cbn [entries]; [done| |done|].
  - rewrite !length_app. cbn. lia.
  - rewrite !length_fmap, !length_map_to_list, map_size_delete, Hx. cbn. lia.
Qed.

Lemma recorded_length name value s s' :
  recorded name value s s' → (length (entries s') ≤ S (length (entries s)))%nat.
Proof.
  destruct 1 as [| |fs]; cbn [entries]; [lia|done|]. rewrite !length_fmap, !length_map_to_list.
  destruct (fs !! name) eqn:E; [rewrite map_size_insert_Some by eauto|rewrite map_size_insert_None by done]; lia.
Qed.

Lemma c_str_of_length bytes : (length (c_str_of bytes) ≤ length bytes)%nat.
Proof. induction bytes as [|x bytes IH]; cbn; [done|]. case_decide; cbn; lia. Qed.

Lemma stored_files fs name : stored (Files fs) !! name = file_value <$> fs !! name.
Proof.
  unfold stored. cbn [entries]. rewrite list_to_map_fmap, list_to_map_to_list. apply lookup_fmap.
Qed.

(** * Lists of records *)

Lemma omap_fmap {A B} (f : A → option B) (g : A → B) (l : list A) :
  (∀ x, x ∈ l → f x = Some (g x)) → omap f l = g <$> l.
Proof.
  induction l as [|x l IH]; intros H; [done|]. cbn. rewrite H by by left. cbn. f_equal. apply IH. intros y Hy.
  apply H. by right.
Qed.

Lemma fold_left_records {C} (f : cstr → cstr → C → cres C) l m :
  fold_left (λ c kv, let! c := c in f kv.1 kv.2 c) l m = let! c := m in fold_records f l c.
Proof.
  revert m. induction l as [|[n v] l IH]; intros m; cbn [fold_left fold_records fst snd]; [by destruct m|].
  rewrite IH. by destruct m.
Qed.

(** The position of the first record of a name. *)
Definition find_name (name : cstr) (l : list (cstr * cstr)) : option (nat * (cstr * cstr)) :=
  list_find (λ kv, kv.1 = name) l.

Lemma find_name_Some name l i kv :
  find_name name l = Some (i, kv) → l = take i l ++ (name, kv.2) :: drop (S i) l ∧ name ∉ (take i l).*1.
Proof.
  intros (Hi & Hn & Hlt)%list_find_Some. split.
  - rewrite <- (take_drop_middle l i kv Hi) at 1. destruct kv; cbn in *. congruence.
  - intros ((n & v) & Hnv & Hin)%list_elem_of_fmap. cbn in Hnv. subst n.
    apply list_elem_of_lookup in Hin as (j & Hj). apply lookup_take_Some in Hj as [Hj Hji].
    by apply (Hlt j (name, v) Hj).
Qed.

Lemma find_name_None name l : find_name name l = None → stored (Records l) !! name = None.
Proof.
  intros H%list_find_None. apply not_elem_of_list_to_map_1. intros (kv & Hkv & Hin)%list_elem_of_fmap.
  rewrite Forall_forall in H. by apply (H kv).
Qed.

Section store.
Context (pb_decode : list ascii → list (cstr * cstr)).
Context (pb_encode : list (cstr * cstr) → option (list ascii)).

(** What is expected of the protocol-buffer library: the values it decodes fit
    into the field, and it decodes what it encoded. *)
Record codec_ok : Prop := {
  co_fits : ∀ bytes, Forall entry_ok (pb_decode bytes);
  co_back : ∀ l bytes, Forall entry_ok l → pb_encode l = Some bytes → pb_decode bytes = l
}.

Definition view (ps : pstore) : store :=
  match ps_pb ps with Some bytes => Records (pb_decode bytes) | None => Files (ps_files ps) end.

Lemma persist_getprop_all_entries {C} ps (f : cstr → cstr → C → cres C) (c : C) :
  persist_getprop_all pb_decode ps f c = fold_records f (entries (view ps)) c.
Proof.
  unfold persist_getprop_all, view. destruct (ps_pb ps) as [b|]; [done|]. cbn [entries]. f_equal.
  apply omap_fmap. intros [n bytes] Hin%elem_of_map_to_list. unfold read_prop_of_file. cbn [fst]. by rewrite Hin.
Qed.

Lemma pb_getprop_done l v : fold_records pb_getprop_cb l (None, v) = Ret (None, v).
Proof. induction l as [|[n x] l IH]; [done|]. exact IH. Qed.

Lemma pb_getprop_fold name l x :
  Forall entry_ok l →
  fold_records pb_getprop_cb l (Some name, x) =
    Ret (match stored (Records l) !! name with Some v => (None, v) | None => (Some name, x) end).
Proof.
  intros Hl. induction Hl as [|[n v] l (_ & _ & Hv) Hl IH]; [done|]. cbn [fst snd fold_records] in *.
  unfold pb_getprop_cb at 1. cbn [fst]. unfold stored in *. cbn [entries list_to_map foldr fst snd] in *.
  destruct (streq n name) eqn:E.
  - apply streq_spec in E as ->. rewrite lookup_insert_eq. unfold strcpy_value.
    rewrite Z.geb_leb, (proj2 (Z.leb_gt _ _)) by done. cbn [cbind]. apply pb_getprop_done.
  - assert (name ≠ n) by (intros ->; by rewrite (proj2 (streq_spec n n) eq_refl) in E).
    cbn [cbind]. by rewrite IH, lookup_insert_ne by done.
Qed.

Lemma persist_getprop_stored ps name :
  codec_ok → persist_getprop pb_decode ps name = Ret (stored (view ps) !! name).
Proof.
  intros Hco. unfold persist_getprop. pose proof (persist_getprop_all_entries ps pb_getprop_cb (Some name, [])) as Hall.
  unfold view in *. destruct (ps_pb ps) as [b|] eqn:Hb.
  - rewrite Hall. cbn [entries]. rewrite pb_getprop_fold by apply (co_fits Hco). cbn [cbind].
    by destruct (stored _ !! name).
  - unfold read_prop_of_file. rewrite stored_files. by destruct (ps_files ps !! name).
Qed.

(** Every stored value fits into the buffers. *)
Lemma entries_short ps : codec_ok → Forall (λ kv, short kv.2) (entries (view ps)).
Proof.
  intros Hco. unfold view. destruct (ps_pb ps) as [b|]; cbn [entries].
  - eapply Forall_impl; [apply (co_fits Hco)|]. by intros kv (_ & _ & ?).
  - apply Forall_fmap, Forall_true. intros [n bytes]. unfold short, file_value. cbn.
    pose proof (c_str_of_length (take sizeof_int bytes)). rewrite length_take in *. unfold sizeof_int, PROP_VALUE_MAX in *. lia.
Qed.

(** ** Deleting *)

Lemma scan_find name kvs z :
  scan (λ e (s : cres (option Z) * Z),
    match e with
    | Elem p => if streq (p_name p) name then (true, (Ret (Some s.2), s.2)) else (false, (s.1, (s.2 + 1)%Z))
    | _ => (true, (Fault, s.2))
    end) (Elem ∘ prop_of <$> kvs) (Ret None, z) =
    match find_name name kvs with
    | Some (i, _) => (true, (Ret (Some (z + Z.of_nat i)%Z), (z + Z.of_nat i)%Z))
    | None => (false, (Ret None, (z + Z.of_nat (length kvs))%Z))
    end.
Proof.
  unfold find_name. revert z. induction kvs as [|[n v] kvs IH]; intros z; cbn [fmap list_fmap scan list_find].
  - cbn. by rewrite Z.add_0_r.
  - cbn [compose prop_of p_name fst snd]. case_decide as Hn.
    + rewrite (proj2 (streq_spec n name) Hn). by rewrite Z.add_0_r.
    + destruct (streq n name) eqn:E; [by apply streq_spec in E|]. rewrite IH.
      destruct (list_find _ kvs) as [[i kv]|]; cbn [length].
      * by replace (z + 1 + Z.of_nat i)%Z with (z + Z.of_nat (S i))%Z by lia.
      * by replace (z + 1 + Z.of_nat (length kvs))%Z with (z + Z.of_nat (S (length kvs)))%Z by lia.
Qed.

Lemma vec_set_contents (v : vector prop_t) i x :
  vec_ok v → (Z.of_nat i < vec_size v)%Z → ∃ v', vec_set v (Z.of_nat i) x = Ret v' ∧ vec_ok v' ∧
    vec_size v' = vec_size v ∧ vec_cap v' = vec_cap v ∧ contents v' = <[i := x]> (contents v).
Proof.
  intros [(d & Hd & Hlen) Hs Hc] Hi. unfold vec_set. rewrite Hd. cbn [deref cbind].
  rewrite (proj2 (Z.ltb_ge _ _)), Z.geb_leb, (proj2 (Z.leb_gt _ _)), Nat2Z.id by lia. cbn [orb].
  eexists. split; [done|]. split; [split; cbn; [|lia|lia]|].
  - eexists. split; [done|]. by rewrite length_insert.
  - split; [done|]. split; [done|]. unfold contents. cbn. rewrite Hd. cbn. apply take_insert_lt. lia.
Qed.

Definition keep (e : slot prop_t) (l : list (cstr * cstr)) : list (cstr * cstr) :=
  match e with Elem p => l ++ [(p_name p, p_value p)] | _ => l end.

Lemma remaining_visits v :
  vec_ok v → remaining v =
    if decide (vec_size v < vec_cap v)%Z then Ret (fold_left (λ l e, keep e l) (contents v) []) else Fault.
Proof. exact (vec_for_each_visits keep v []). Qed.

Lemma fold_keep kvs acc :
  fold_left (λ l e, keep e l) (Elem ∘ prop_of <$> kvs) acc = acc ++ kvs.
Proof.
  revert acc. induction kvs as [|[n v] kvs IH]; intros acc; cbn; [by rewrite app_nil_r|]. by rewrite IH, <- app_assoc.
Qed.

(** A vector that holds the records [l]. *)
Definition collected (v : vector prop_t) (l : list (cstr * cstr)) : Prop :=
  vec_ok v ∧ grown v ∧ contents v = (Elem ∘ prop_of <$> l).

Lemma find_prop_run v l name :
  collected v l → find_prop v name =
    match find_name name l with
    | Some (i, _) => Ret (Some (Z.of_nat i))
    | None => if decide (full_size (Z.of_nat (length l))) then Fault else Ret None
    end.
Proof.
  intros (Hv & Hg & Hct). unfold find_prop. rewrite vec_for_each_scan, Hct, scan_find by done.
  destruct (find_name name l) as [[i kv]|]; cbn [orb cbind fst]; [by rewrite Z.add_0_l|].
  rewrite (spare_slot v l) by done. destruct (decide (full_size _)).
  - by rewrite bool_decide_true.
  - by rewrite bool_decide_false.
Qed.

(** The records that are left once one of the elements is null. *)
Lemma remaining_run v l i :
  collected v l → (i < length l)%nat → ∃ v', vec_set v (Z.of_nat i) Null = Ret v' ∧
    remaining v' = if decide (full_size (Z.of_nat (length l))) then Fault else Ret (take i l ++ drop (S i) l).
Proof.
  intros (Hv & Hg & Hct) Hi. pose proof (length_contents v Hv) as Hsz. rewrite Hct, length_fmap in Hsz.
  destruct (vec_set_contents v i Null Hv ltac:(lia)) as (v' & -> & Hv' & Hs' & Hc' & Hct').
  exists v'. split; [done|]. rewrite remaining_visits, Hs', Hc' by done.
  pose proof (spare_slot v l Hv Hg Hct) as Hspare. case_decide as Hlt; case_decide as Hfull.
  - rewrite bool_decide_true, (proj2 (Z.ltb_lt _ _)) in Hspare by done. done.
  - f_equal. rewrite Hct', Hct, insert_take_drop by by rewrite length_fmap.
    rewrite <- fmap_take, <- fmap_drop, fold_left_app. cbn [fold_left keep]. by rewrite !fold_keep.
  - done.
  - rewrite bool_decide_false, (proj2 (Z.ltb_ge _ _)) in Hspare by (done || lia). done.
Qed.

Lemma collect_records ps bytes :
  codec_ok → ps_pb ps = Some bytes → (Z.of_nat (length (pb_decode bytes)) ≤ 2 ^ 29)%Z →
  ∃ v, persist_getprop_all pb_decode ps collect_props vec_init = Ret v ∧ collected v (pb_decode bytes).
Proof.
  intros Hco Hb Hlen. pose proof (entries_short ps Hco) as Hshort. rewrite persist_getprop_all_entries.
  unfold view in *. rewrite Hb in Hshort |- *. cbn [entries] in *.
  destruct (collect_all (pb_decode bytes) vec_init vec_init_ok vec_init_grown Hshort) as (v & Hrun & Hv & Hg & Hct); [by cbn|].
  rewrite fold_left_records in Hrun. cbn [cbind] in Hrun. by exists v.
Qed.

Lemma delete_record ps bytes name :
  codec_ok → ps_pb ps = Some bytes → (Z.of_nat (length (pb_decode bytes)) ≤ 2 ^ 29)%Z →
  (full_size (Z.of_nat (length (pb_decode bytes))) ∧ persist_deleteprop pb_decode pb_encode ps name = Fault) ∨
  (¬ full_size (Z.of_nat (length (pb_decode bytes))) ∧ ∃ b ps',
    persist_deleteprop pb_decode pb_encode ps name = Ret (b, ps') ∧ forget name (Records (pb_decode bytes)) b (view ps')).
Proof.
  intros Hco Hb Hlen. destruct (collect_records ps bytes Hco Hb Hlen) as (v & Hrun & Hv).
  assert (Hview : view ps = Records (pb_decode bytes)) by (unfold view; by rewrite Hb).
  unfold persist_deleteprop. rewrite Hb, Hrun. cbn [cbind]. rewrite (find_prop_run v _ name Hv).
  pose proof (co_fits Hco bytes) as Hfits. set (l := pb_decode bytes) in *.
  destruct (find_name name l) as [[i kv]|] eqn:Hf; cbn [cbind].
  - pose proof (find_name_Some _ _ _ _ Hf) as [Hl Hnin]. apply list_find_Some in Hf as (Hi & _).
    apply lookup_lt_Some in Hi. destruct (remaining_run v l i Hv Hi) as (v' & -> & Hrem). cbn [cbind]. rewrite Hrem.
    case_decide; [by left|right]. split; [done|]. cbn [cbind]. destruct (pb_encode _) as [bytes'|] eqn:He.
    + eexists true, _. split; [done|]. unfold view. cbn [ps_pb].
      rewrite (co_back Hco _ _ ltac:(apply Forall_app; split; [by apply Forall_take|by apply Forall_drop]) He).
      rewrite Hl at 1. by apply forget_record.
    + exists false, ps. split; [done|]. rewrite Hview. apply forget_failed.
      apply not_eq_None_Some. intros Hno%not_elem_of_list_to_map_2. apply Hno. cbn [entries].
      rewrite Hl, fmap_app. apply elem_of_app. right. by left.
  - case_decide; [by left|right]. split; [done|]. exists false, ps. split; [done|]. rewrite Hview.
    apply forget_none. by apply find_name_None.
Qed.

Lemma persist_deleteprop_forgets ps name :
  codec_ok → (Z.of_nat (length (entries (view ps))) ≤ 2 ^ 29)%Z →
  (overread (view ps) ∧ persist_deleteprop pb_decode pb_encode ps name = Fault) ∨
  (¬ overread (view ps) ∧ ∃ b ps', persist_deleteprop pb_decode pb_encode ps name = Ret (b, ps') ∧
    forget name (view ps) b (view ps')).
Proof.
  intros Hco. destruct (ps_pb ps) as [bytes|] eqn:Hb.
  { assert (Hview : view ps = Records (pb_decode bytes)) by (unfold view; by rewrite Hb).
    rewrite Hview. by apply delete_record. }
  assert (Hview : view ps = Files (ps_files ps)) by (unfold view; by rewrite Hb). rewrite Hview.
  intros _. right. split; [by intros []|]. unfold persist_deleteprop. rewrite Hb.
  destruct (ps_files ps !! name) as [x|] eqn:Hx.
  - eexists true, _. split; [done|]. unfold view. cbn [ps_pb ps_files]. by apply forget_file.
  - exists false, ps. split; [done|]. rewrite Hview. apply forget_none. by rewrite stored_files, Hx.
Qed.
End store.
