(* ===== verification/PersistFormat.v ===== *)
(** The wire format of the persistent properties, for fields shorter than 128
    bytes: the messages of the field tables of persist_properties.c, as a
    protocol-buffer library encodes and decodes them.  It shows that the laws
    [codec_ok], which the library is relied on for, can hold. *)

From Stdlib Require Import ZArith Lia Ascii.
From stdpp Require Import base numbers strings gmap list.
From S2P Require Import Prelude CString PropInfo SystemPropertiesMap ResetPropStore.

(** A length-delimited field: tag, length, bytes. *)
Definition enc_field (tag : Z) (s : list ascii) : option (list ascii) :=
  if (length s <? 128)%nat then Some (chr tag :: chr (Z.of_nat (length s)) :: s) else None.

Definition dec_field (tag : Z) (bytes : list ascii) : option (list ascii * list ascii) :=
  match bytes with
  | t :: n :: rest =>
    if bool_decide (t = chr tag) && (Z.to_nat (ord n) <=? length rest)%nat
    then Some (take (Z.to_nat (ord n)) rest, drop (Z.to_nat (ord n)) rest) else None
  | _ => None
  end.

(** Field 1, the name, and field 2, the value, of a record. *)
Definition enc_record (kv : cstr * cstr) : option (list ascii) :=
  n ← enc_field 0x0a kv.1; v ← enc_field 0x12 kv.2; Some (n ++ v).

Definition dec_record (bytes : list ascii) : option (cstr * cstr) :=
  '(n, rest) ← dec_field 0x0a bytes; '(v, rest) ← dec_field 0x12 rest;
  if bool_decide (rest = [] ∧ entry_ok (n, v)) then Some (n, v) else None.

(** Field 1, repeated: the records. *)
Fixpoint wire_encode (l : list (cstr * cstr)) : option (list ascii) :=
  match l with
  | [] => Some []
  | kv :: l => body ← enc_record kv; f ← enc_field 0x0a body; rest ← wire_encode l; Some (f ++ rest)
  end.

(** Decoding stops at the first record that is not well-formed. *)
Fixpoint dec_records (fuel : nat) (bytes : list ascii) : list (cstr * cstr) :=
  match fuel with
  | O => []
  | S fuel =>
    match dec_field 0x0a bytes with
    | None => []
    | Some (body, rest) =>
      match dec_record body with None => [] | Some kv => kv :: dec_records fuel rest end
    end
  end.

Definition wire_decode (bytes : list ascii) : list (cstr * cstr) := dec_records (length bytes) bytes.

Lemma enc_dec_field tag s bytes rest :
  enc_field tag s = Some bytes → dec_field tag (bytes ++ rest) = Some (s, rest) ∧ bytes ≠ [].
Proof.
  unfold enc_field. destruct (Nat.ltb_spec (length s) 128) as [Hl|Hl]; [|done]. intros [= <-]. split; [|done].
  cbn [app dec_field]. rewrite ord_chr. unfold u8. rewrite Z.mod_small, Nat2Z.id by lia. rewrite bool_decide_true by done. cbn [andb].
  rewrite length_app, (proj2 (Nat.leb_le _ _)) by lia. by rewrite take_app_length, drop_app_length.
Qed.

Lemma enc_dec_record kv bytes : entry_ok kv → enc_record kv = Some bytes → dec_record bytes = Some kv.
Proof.
  intros Hkv. unfold enc_record, dec_record. destruct (enc_field 0x0a kv.1) as [n|] eqn:En; [|done].
  destruct (enc_field 0x12 kv.2) as [v|] eqn:Ev; [|done]. cbn. intros [= <-].
  rewrite (proj1 (enc_dec_field _ _ _ v En)). cbn. pose proof (enc_dec_field _ _ _ [] Ev) as [Hv _].
  rewrite app_nil_r in Hv. rewrite Hv. cbn. destruct kv. by rewrite bool_decide_true.
Qed.

Lemma dec_records_encoded l bytes fuel :
  Forall entry_ok l → wire_encode l = Some bytes → (length bytes ≤ fuel)%nat → dec_records fuel bytes = l.
Proof.
  intros Hl. revert bytes fuel. induction Hl as [|kv l Hkv _ IH]; intros bytes fuel; cbn [wire_encode].
  - intros [= <-] _. by destruct fuel.
  - destruct (enc_record kv) as [body|] eqn:Eb; [|done]. cbn. destruct (enc_field 0x0a body) as [f|] eqn:Ef; [|done]. cbn.
    destruct (wire_encode l) as [rest|]; [|done]. cbn. intros [= <-] Hfuel.
    pose proof (enc_dec_field _ _ _ rest Ef) as [Hd Hne]. destruct fuel as [|fuel].
    + destruct f; [done|cbn in Hfuel; lia].
    + cbn [dec_records]. rewrite Hd, (enc_dec_record kv body) by done. f_equal. apply IH; [done|].
      destruct f; [done|]. rewrite length_app in Hfuel. cbn in Hfuel. lia.
Qed.

Lemma wire_roundtrip l bytes :
  Forall entry_ok l → wire_encode l = Some bytes → wire_decode bytes = l.
Proof. intros Hl He. by apply dec_records_encoded. Qed.

Lemma dec_record_ok bytes kv : dec_record bytes = Some kv → entry_ok kv.
Proof.
  unfold dec_record. destruct (dec_field _ _) as [[n rest]|]; [|done]. cbn.
  destruct (dec_field _ _) as [[v rest']|]; [|done]. cbn. case_bool_decide as H; [|done]. intros [= <-]. apply H.
Qed.

Lemma wire_codec_ok : codec_ok wire_decode wire_encode.
Proof.
  split; [|apply wire_roundtrip]. intros bytes. unfold wire_decode. generalize (length bytes) as fuel.
  intros fuel. revert bytes. induction fuel as [|fuel IH]; intros bytes; cbn [dec_records]; [constructor|].
  destruct (dec_field _ _) as [[body rest]|]; [|constructor].
  destruct (dec_record body) as [kv|] eqn:E; [|constructor]. constructor; [|apply IH].
  exact (dec_record_ok _ _ E).
Qed.
