(* ===== verification/ResetPropMap.v ===== *)
(** The command resetprop as a program over two maps: the one of all areas and
    the one of the persistent storage.  Every command line reads and changes
    them as [tool_spec] says (resetprop.c, persist_properties.c).  Each is a
    process of its own, which maps the areas again; [session] runs one after
    the other over the files they share.  Of the protocol-buffer library and of
    init's service for setting properties [codec_ok] and [service_ok] state
    what is relied on. *)

From Stdlib Require Import ZArith Lia Ascii Sorted.
From stdpp Require Import base numbers sorting strings gmap list.
From S2P Require Import Prelude CString PropInfo PropArea PropTrie PropAreaProofs.
From S2P Require Import PropAreaSpec PropAreaForeach.
From S2P Require Import PropertyInfoParser Contexts ContextsSplit ContextsSerialized.
From S2P Require Import SystemProperties SystemPropertiesSpec Vector ResetProp ResetPropSpec.
From S2P Require Import ContextsHome ContextsEnumerate SystemPropertiesMap.
From S2P Require Import SystemPropertiesForeach.
From S2P Require Import ProcessStart ResetPropList ResetPropStore PersistFormat.

(** * The command over the two maps *)

(** What is left of the map when init refuses a value: properties that are
    only for reading have been deleted by then. *)
Definition refused (m : gmap cstr cstr) (name : cstr) : gmap cstr cstr :=
  if is_read_only name then delete name m else m.

(** The storage when init has set a property. *)
Definition noted (name value : cstr) (s s' : store) : Prop :=
  if is_persist name then recorded name value s s' else s' = s.

(** "resetprop name value", with -n when [trigger] is false.  A property that
    init sets has the value even when its answer is an error or is lost; 0 is
    only given when it is set. *)
Inductive set_spec (trigger : bool) (m : gmap cstr cstr) (s : store) (name value : cstr) :
    Z → gmap cstr cstr → store → Prop :=
  | set_illegal : ¬ legal_name name → set_spec trigger m s name value 1 m s
  | set_done : trigger = false → legal_name name → set_spec trigger m s name value 0 (<[name := value]> m) s
  | set_no_room : trigger = false → legal_name name → m !! name = None → set_spec trigger m s name value (-1) m s
  | set_served r s' : trigger = true → legal_name name → noted name value s s' →
    set_spec trigger m s name value r (<[name := value]> m) s'
  | set_refused r : trigger = true → legal_name name → r ≠ 0%Z →
    set_spec trigger m s name value r (refused m name) s.

(** The lines of a property file. *)
Inductive file_spec (trigger : bool) :
    gmap cstr cstr → store → list (cstr * cstr) → gmap cstr cstr → store → Prop :=
  | file_done m s : file_spec trigger m s [] m s
  | file_line m s name value r m1 s1 nvs m2 s2 :
    set_spec trigger m s name value r m1 s1 → file_spec trigger m1 s1 nvs m2 s2 →
    file_spec trigger m s ((name, value) :: nvs) m2 s2.

(** The pairs a property file sets. *)
Definition file_pairs (f : list ascii) : list (cstr * cstr) := omap parse_prop_line (getlines f).

(** Which names -p looks for in the storage. *)
Definition reaches (fl : flags) (name : cstr) : bool := f_persist fl && is_persist name.

(** The value of a name, and all values. *)
Definition looked_up (m : gmap cstr cstr) (s : store) (fl : flags) (name : cstr) : option cstr :=
  match m !! name with Some v => Some v | None => if reaches fl name then stored s !! name else None end.

Definition shown_entries (s : store) (fl : flags) : list (cstr * cstr) := if f_persist fl then entries s else [].

Definition shown (m : gmap cstr cstr) (s : store) (fl : flags) : gmap cstr cstr :=
  m ∪ list_to_map (shown_entries s fl).

(** The storage keeps the name, or is not asked for it. *)
Definition kept (reach : bool) (name : cstr) (s s' : store) : Prop :=
  if reach then ¬ overread s ∧ forget name s false s' else s' = s.

(** "resetprop --delete name". *)
Inductive delete_spec (m : gmap cstr cstr) (s : store) (reach : bool) (name : cstr) :
    option Z → gmap cstr cstr → store → Prop :=
  | del_overread : reach = true → overread s → delete_spec m s reach name None m s
  | del_forgotten s' : reach = true → ¬ overread s → forget name s true s' →
    delete_spec m s reach name (Some 0%Z) (delete name m) s'
  | del_live s' : kept reach name s s' → delete_spec m s reach name (Some 0%Z) (delete name m) s'
  | del_absent s' : kept reach name s s' → m !! name = None → delete_spec m s reach name (Some 1%Z) m s'.

Definition prints_nothing (r : Z) : Z * list cstr := (r, []).

(** What a command does to the maps: its exit status and what it prints, or
    [None] when it reads outside the storage of its vector. *)
Inductive tool_spec (text : cstr → option (list ascii)) (m : gmap cstr cstr) (s : store) :
    command → option (Z * list cstr) → gmap cstr cstr → store → Prop :=
  | ts_usage : tool_spec text m s CUsage (Some (1%Z, [])) m s
  | ts_get name fl v : legal_name name → looked_up m s fl name = Some v →
    tool_spec text m s (CGet name fl) (Some (0%Z, [v])) m s
  | ts_get_none name fl : ¬ legal_name name ∨ looked_up m s fl name = None →
    tool_spec text m s (CGet name fl) (Some (1%Z, [])) m s
  | ts_set name value fl r m' s' : set_spec (f_trigger fl) m s name value r m' s' →
    tool_spec text m s (CSet name value fl) (Some (r, [])) m' s'
  | ts_delete name fl r m' s' : legal_name name → delete_spec m s (reaches fl name) name r m' s' →
    tool_spec text m s (CDelete name fl) (prints_nothing <$> r) m' s'
  | ts_delete_illegal name fl : ¬ legal_name name → tool_spec text m s (CDelete name fl) (Some (1%Z, [])) m s
  | ts_print fl kvs : kvs ≡ₚ map_to_list (shown m s fl) → StronglySorted by_name kvs →
    ¬ passes_full (Z.of_nat (size m)) (Z.of_nat (size (shown m s fl)) + 1) →
    tool_spec text m s (CPrint fl) (Some (0%Z, line_of <$> kvs)) m s
  | ts_print_full fl : passes_full (Z.of_nat (size m)) (Z.of_nat (size (shown m s fl)) + 1) →
    tool_spec text m s (CPrint fl) None m s
  | ts_file f fl t m' s' : text f = Some t → file_spec (f_trigger fl) m s (file_pairs t) m' s' →
    tool_spec text m s (CFile f fl) (Some (0%Z, [])) m' s'
  | ts_no_file f fl : text f = None → tool_spec text m s (CFile f fl) (Some (1%Z, [])) m s.

Definition pair_ok (nv : cstr * cstr) : Prop := name_ok nv.1 ∧ no_nul nv.2 ∧ short nv.2.

#[export] Instance pair_ok_dec nv : Decision (pair_ok nv).
Proof. unfold pair_ok. apply _. Defined.

(** Names and values that are strings of C, the values short. *)
Definition command_ok (text : cstr → option (list ascii)) (c : command) : Prop :=
  match c with
  | CFile f _ => Forall pair_ok (default [] (file_pairs <$> text f))
  | CSet name value _ => pair_ok (name, value)
  | CDelete name _ | CGet name _ => name_ok name
  | CPrint _ | CUsage => True
  end.

#[export] Instance command_ok_dec text c : Decision (command_ok text c).
Proof. destruct c; cbn; apply _. Defined.

(** How many records it may update. *)
Definition cost (text : cstr → option (list ascii)) (c : command) : Z :=
  match c with
  | CSet _ _ _ => 1
  | CFile f _ => Z.of_nat (length (default [] (file_pairs <$> text f)))
  | _ => 0
  end.

Lemma cost_nonneg text c : (0 ≤ cost text c)%Z.
Proof. destruct c; cbn; lia. Qed.

(** Names of properties that are only for reading are not persistent. *)
Lemma read_only_not_persist name : is_read_only name = true → is_persist name = false.
Proof.
  unfold is_read_only, is_persist. intros (t & ->)%(strneq_prefix_r name (cs "ro.")). done.
Qed.

(** Only what a process has printed and the storage are of interest between
    its calls. *)
Definition same_tool (t t' : tool) : Prop := t_ps t' = t_ps t ∧ t_out t' = t_out t.

Lemma set_sys_idem t sp w sp' w' : set_sys (set_sys t sp w) sp' w' = set_sys t sp' w'.
Proof. done. Qed.

Section tool.
Context (k : kernel).
Context (pb_decode : list ascii → list (cstr * cstr)).
Context (pb_encode : list (cstr * cstr) → option (list ascii)).
Context (property_set : world → pstore → cstr → cstr → cres (Z * world * pstore)).
Context (l : listing).

Notation shows := (shows k ∅ (Some l)).

(** What is relied on of init: asked to set a property it sets it and writes a
    persistent one to the storage, or it gives an error and leaves all as it
    was.  A process that has mapped the areas sees the change. *)
Definition service_ok : Prop := ∀ sp w ps n m name value,
  shows sp w n m → (0 ≤ n)%Z → (n + 1 < MAX_UPDATES)%Z → pair_ok (name, value) → legal_name name →
  ∃ r w' ps' m', property_set w ps name value = Ret (r, w', ps') ∧ shows sp w' (n + 1) m' ∧
    (m' = <[name := value]> m ∧ noted name value (view pb_decode ps) (view pb_decode ps') ∨
     r ≠ 0%Z ∧ m' = m ∧ ps' = ps).

Context (Hservice : service_ok) (Hcodec : codec_ok pb_decode pb_encode).

(** [init_resetprop] succeeds and finds the map [m]. *)
Definition ready (t : tool) (n : Z) (m : gmap cstr cstr) : Prop :=
  ∃ sp w, init_resetprop k t = Ret (true, set_sys t sp w) ∧ w_files w = w_files (t_w t) ∧ shows sp w n m.

Lemma ready_shows t sp w n m : shows sp w n m → ready (set_sys t sp w) n m.
Proof.
  intros Hsh. exists sp, w. split; [|done]. rewrite (init_again k) by (unfold tool_ok; apply (sh_ok _ _ _ _ _ _ _ Hsh)).
  done.
Qed.

Lemma ready_same t t' n m : t_sp t' = t_sp t → t_w t' = t_w t → ready t n m → ready t' n m.
Proof.
  intros Hsp Hw (sp & w & Hi & Hf & Hsh). exists sp, w. rewrite Hw. split; [|done].
  unfold init_resetprop in *. rewrite Hsp, Hw.
  destruct (Init k (t_sp t) (t_w t) PROP_FILENAME) as [[[ok sp'] w']| |]; [|done..]. by injection Hi as -> -> ->.
Qed.

Lemma ready_files t n m : ready t n m → files_show k ∅ l (t_w t) n m.
Proof. intros (sp & w & _ & Hf & Hsh). by exists sp, w. Qed.

Lemma ready_mono t n n' m : (n ≤ n')%Z → ready t n m → ready t n' m.
Proof. intros Hn (sp & w & Hi & Hf & Hsh). exists sp, w. split_and!; try done. by eapply shows_mono. Qed.

(** Every value is short. *)
Lemma all_short sp w n m name v : shows sp w n m → m !! name = Some v → short v.
Proof.
  intros Hsh Hv. destruct (decide (short v)) as [|Hs]; [done|].
  destruct (sh_long _ _ _ _ _ _ _ Hsh name v Hv Hs) as [_ H]. by apply not_elem_of_empty in H.
Qed.

Lemma strcpy_short v : short v → strcpy_value v = Ret v.
Proof. unfold short, strcpy_value. intros H. by rewrite Z.geb_leb, (proj2 (Z.leb_gt _ _)). Qed.

Lemma getprop2_ready t name fl n m :
  ready t n m → name_ok name → ∃ t', ready t' n m ∧ same_tool t t' ∧
    getprop2 k pb_decode t name (f_persist fl) =
      Ret (if decide (legal_name name) then looked_up m (view pb_decode (t_ps t)) fl name else None, t').
Proof.
  intros Hr Hn. unfold getprop2. rewrite legal_property_name_result. cbn [cbind].
  case_decide as Hl; [rewrite bool_decide_true by done|rewrite bool_decide_false by done]; cbn [negb].
  2:{ by exists t. }
  destruct Hr as (sp & w & Hi & Hf & Hsh). rewrite Hi. cbn [cbind negb]. unfold property_find.
  destruct (Find_shows k ∅ (Some l) sp w n m name Hsh Hn) as (r & sp' & w' & Hrun & Hsh' & Hr).
  cbn [set_sys t_sp t_w]. rewrite Hrun. cbn [cbind]. rewrite set_sys_idem.
  exists (set_sys t sp' w'). split; [by apply ready_shows|]. split; [done|]. unfold looked_up.
  destruct r as [[p o]|].
  - destruct Hr as (_ & v & a & pi & Hv & Hrec & _). pose proof (all_short _ _ _ _ _ _ Hsh' Hv) as Hs.
    cbn [set_sys t_w]. rewrite (ReadCallback_record w' n name p o v a pi Hrec) by done.
    cbn [cbind]. unfold callback_wrapper, store_prop_value. rewrite strcpy_short by done. by rewrite Hv.
  - rewrite Hr. fold (reaches fl name). destruct (reaches fl name); [|done].
    cbn [set_sys t_ps]. by rewrite (persist_getprop_stored pb_decode pb_encode).
Qed.

(** Deleting what -p does not look for in the storage. *)
Lemma deleteprop2_live t name persist n m :
  persist && is_persist name = false → ready t n m → (0 ≤ n)%Z → name_ok name → legal_name name →
  ∃ r sp' w', deleteprop2 k pb_decode pb_encode t name persist = Ret (r, set_sys t sp' w') ∧
    shows sp' w' n (delete name m) ∧ (r = 0%Z ∨ r = 1%Z ∧ m !! name = None).
Proof.
  intros Hreach (sp & w & Hi & Hf & Hsh) Hn0 Hn Hl. unfold deleteprop2.
  rewrite legal_property_name_result, bool_decide_true, Hi by done. cbn [cbind negb set_sys t_sp t_w].
  destruct (Delete_shows k ∅ (Some l) sp w n m name Hsh Hn0 Hn) as (r & sp' & w' & Hrun & Hsh' & Hr).
  rewrite Hreach. cbn [cbind set_sys t_sp t_w]. rewrite Hrun, Hreach. cbn [cbind]. rewrite andb_true_r.
  eexists _, sp', w'. split; [done|]. split; [done|]. destruct Hr as [->|[-> ?]]; auto.
Qed.

Lemma deleteprop2_persist t name n m :
  let s := view pb_decode (t_ps t) in
  is_persist name = true → ready t n m → (0 ≤ n)%Z → name_ok name → (Z.of_nat (length (entries s)) ≤ 2 ^ 29)%Z →
  legal_name name →
  (overread s ∧ deleteprop2 k pb_decode pb_encode t name true = Fault) ∨
  (¬ overread s ∧ ∃ b ps r sp' w', forget name s b (view pb_decode ps) ∧
    deleteprop2 k pb_decode pb_encode t name true = Ret (r, set_sys (set_ps t ps) sp' w') ∧
    shows sp' w' n (delete name m) ∧ (r = 0%Z ∨ r = 1%Z ∧ b = false ∧ m !! name = None)).
Proof.
  intros s Hper (sp & w & Hi & Hf & Hsh) Hn0 Hn Hlen Hl. unfold deleteprop2.
  rewrite legal_property_name_result, bool_decide_true, Hi, Hper by done. cbn [cbind negb andb set_sys t_ps].
  destruct (persist_deleteprop_forgets pb_decode pb_encode (t_ps t) name Hcodec Hlen) as [[Ho ->]|(Ho & b & ps & -> & Hfg)];
    [by left|right]. split; [done|].
  destruct (Delete_shows k ∅ (Some l) sp w n m name Hsh Hn0 Hn) as (r & sp' & w' & Hrun & Hsh' & Hr).
  cbn [cbind set_ps set_sys t_sp t_w]. rewrite Hrun, andb_true_r. cbn [cbind]. eexists b, ps, _, sp', w'.
  split; [done|]. split; [done|]. split; [done|]. destruct Hr as [->|[-> ?]]; [by left|]. destruct b; auto.
Qed.

Lemma deleteprop2_ready t name persist n m :
  let s := view pb_decode (t_ps t) in
  ready t n m → (0 ≤ n)%Z → name_ok name → (Z.of_nat (length (entries s)) ≤ 2 ^ 29)%Z → legal_name name →
  ∃ r m' s', delete_spec m s (persist && is_persist name) name r m' s' ∧
    match r with
    | None => deleteprop2 k pb_decode pb_encode t name persist = Fault
    | Some r => ∃ t', deleteprop2 k pb_decode pb_encode t name persist = Ret (r, t') ∧
        ready t' n m' ∧ view pb_decode (t_ps t') = s' ∧ t_out t' = t_out t
    end.
Proof.
  intros s Hr Hn0 Hn Hlen Hl. destruct (persist && is_persist name) eqn:Hreach.
  - apply andb_true_iff in Hreach as [-> Hper].
    destruct (deleteprop2_persist t name n m Hper Hr Hn0 Hn Hlen Hl) as [[Ho Hrun]|(Ho & b & ps & r & sp' & w' & Hf & Hrun & Hsh' & Hres)].
    + exists None, m, s. split; [by apply del_overread|done].
    + assert (Hrd := ready_shows (set_ps t ps) sp' w' n _ Hsh'). destruct Hres as [->|(-> & -> & Hnone)].
      * exists (Some 0%Z), (delete name m), (view pb_decode ps). split; [|by eexists].
        destruct b; [by apply del_forgotten|by apply del_live].
      * rewrite (delete_id m name Hnone) in Hrd. exists (Some 1%Z), m, (view pb_decode ps).
        split; [by apply del_absent|by eexists].
  - destruct (deleteprop2_live t name persist n m Hreach Hr Hn0 Hn Hl) as (r & sp' & w' & Hrun & Hsh' & Hres).
    assert (Hrd := ready_shows t sp' w' n _ Hsh'). destruct Hres as [->|[-> Hnone]].
    + exists (Some 0%Z), (delete name m), s. split; [by apply del_live|by eexists].
    + rewrite (delete_id m name Hnone) in Hrd. exists (Some 1%Z), m, s. split; [by apply del_absent|by eexists].
Qed.

(** Setting through init. *)
Lemma service_ready t name value n m m0 :
  shows (t_sp t) (t_w t) n m → (0 ≤ n)%Z → (n + 1 < MAX_UPDATES)%Z → pair_ok (name, value) → legal_name name →
  m = refused m0 name ∨ m = m0 ∧ m0 !! name = None →
  ∃ r t' m', system_property_set property_set t name value = Ret (r, t') ∧
    set_spec true m0 (view pb_decode (t_ps t)) name value r m' (view pb_decode (t_ps t')) ∧
    ready t' (n + 1) m' ∧ t_out t' = t_out t.
Proof.
  intros Hsh Hn0 Hmax Hp Hl Hm. unfold system_property_set.
  destruct (Hservice _ _ (t_ps t) n m name value Hsh Hn0 Hmax Hp Hl) as (r & w' & ps' & m' & -> & Hsh' & Hr).
  cbn [cbind].
  assert (Href : m = refused m0 name).
  { destruct Hm as [|[-> Hnone]]; [done|]. unfold refused. case_match; [by rewrite delete_id|done]. }
  assert (Hins : <[name := value]> m = <[name := value]> m0).
  { rewrite Href. unfold refused. case_match; [apply insert_delete_eq|done]. }
  eexists r, _, m'. split; [done|]. split; [|split; [by apply (ready_shows (set_ps t ps'))|done]].
  destruct Hr as [[-> Hnt]|(Hr & -> & ->)]; [rewrite Hins; by apply set_served|rewrite Href; by apply set_refused].
Qed.

Lemma setprop2_ready t name value trigger n m :
  ready t n m → (0 ≤ n)%Z → (n + 1 < MAX_UPDATES)%Z → pair_ok (name, value) →
  ∃ r t' m', setprop2 k pb_decode pb_encode property_set t name value trigger = Ret (r, t') ∧
    set_spec trigger m (view pb_decode (t_ps t)) name value r m' (view pb_decode (t_ps t')) ∧
    ready t' (n + 1) m' ∧ t_out t' = t_out t.
Proof.
  intros Hr Hn0 Hmax Hp. pose proof Hp as (Hn & Hnul & Hs). cbn [fst snd] in *. unfold setprop2.
  rewrite legal_property_name_result. cbn [cbind]. case_bool_decide as Hl; cbn [negb].
  2:{ exists 1%Z, t, m. split; [done|]. split; [by constructor|]. split; [|done].
      eapply ready_mono; [|exact Hr]. lia. }
  destruct Hr as (sp & w & Hi & Hf & Hsh). rewrite Hi. cbn [cbind negb]. unfold property_find.
  destruct (Find_shows k ∅ (Some l) sp w n m name Hsh Hn) as (r & sp' & w' & Hrun & Hsh' & Hr).
  cbn [set_sys t_sp t_w]. rewrite Hrun. cbn [cbind]. rewrite set_sys_idem.
  destruct r as [[p o]|], trigger; cbn [set_sys t_sp t_w].
  - change (strneq name (cs "ro.") 3) with (is_read_only name). destruct (is_read_only name) eqn:Hro.
    + assert (Hreach : true && is_persist name = false) by by apply read_only_not_persist.
      destruct (deleteprop2_live (set_sys t sp' w') name true n m Hreach) as (rd & sp2 & w2 & Hdel & Hsh2 & _); try done.
      { by apply ready_shows. }
      unfold deleteprop. rewrite Hdel. cbn [cbind].
      eapply (service_ready (set_sys (set_sys t sp' w') sp2 w2)); try done. left. unfold refused. by rewrite Hro.
    + cbn [cbind]. eapply (service_ready (set_sys t sp' w')); try done. left. unfold refused. by rewrite Hro.
  - destruct Hr as (Harea & v & a & pi & Hv & Hrec & Hfind). pose proof (all_short _ _ _ _ _ _ Hsh' Hv) as Hsv.
    destruct (Update_shows k ∅ (Some l) sp' w' n m name p o v a pi value Hsh' Hn0 Hmax Hn Hnul Harea Hv Hrec Hfind Hsv)
      as (r & w2 & Hupd & Hres). rewrite decide_True in Hres by done. destruct Hres as [-> Hsh2].
    rewrite Hupd. cbn [cbind]. rewrite set_sys_idem.
    eexists _, _, _. split; [done|]. split; [by apply set_done|]. split; [by apply ready_shows|done].
  - eapply (service_ready (set_sys t sp' w')); try done. by right.
  - destruct (Add_shows k ∅ (Some l) sp' w' n m name value Hsh' Hn0 Hn Hnul ltac:(done))
      as (r & sp2 & w2 & Hadd & Hres). rewrite Hadd. cbn [cbind]. rewrite set_sys_idem.
    destruct Hres as [(-> & _ & Hsh2)|(-> & _ & Hsh2)]; eexists _, _, _; (split; [done|]).
    + rewrite Hr in Hsh2. split; [by apply set_done|]. split; [|done]. apply ready_shows. eapply shows_mono; [|done]. lia.
    + split; [by apply set_no_room|]. split; [|done]. apply ready_shows. eapply shows_mono; [|done]. lia.
Qed.

Lemma print_props_ready t fl n m :
  let s := view pb_decode (t_ps t) in
  let M := shown m s fl in
  ready t n m → (Z.of_nat (size m + length (entries s)) ≤ 2 ^ 29)%Z →
  (passes_full (Z.of_nat (size m)) (Z.of_nat (size M) + 1) ∧ print_props k pb_decode t (f_persist fl) = Fault) ∨
  (¬ passes_full (Z.of_nat (size m)) (Z.of_nat (size M) + 1) ∧
   ∃ kvs t', kvs ≡ₚ map_to_list M ∧ StronglySorted by_name kvs ∧
    ready t' n m ∧ t_ps t' = t_ps t ∧ t_out t' = t_out t ++ (line_of <$> kvs) ∧
    print_props k pb_decode t (f_persist fl) = Ret t').
Proof.
  intros s M (sp & w & Hi & Hf & Hsh) Hsz. unfold print_props, getprop_all. rewrite Hi. cbn [cbind negb set_sys t_sp t_w].
  destruct (Foreach_shows k ∅ l sp w n m Hsh) as (pis & kvs & sp' & w' & Hperm & Hent & Hsh' & _ & Hrun).
  rewrite Hrun. cbn [cbind].
  assert (Hshort : ∀ name v, (name, v) ∈ kvs → short v).
  { intros name v. rewrite Hperm, elem_of_map_to_list. by apply (all_short sp w n m). }
  rewrite (fold_entries w n collect_props pis kvs) by (done || (intros name v Hin Hs; by apply Hshort in Hin)).
  assert (Hlen : length kvs = size m) by by rewrite Hperm, length_map_to_list.
  destruct (collect_all kvs vec_init vec_init_ok vec_init_grown) as (v & -> & Hv & Hg & Hct).
  { apply Forall_forall. intros [name x] Hin. by apply (Hshort name). }
  { cbn [vec_init vec_size]. lia. }
  cbn [cbind]. rewrite set_sys_idem. cbn [set_sys t_ps]. cbn [vec_init contents app] in Hct. cbn in Hct.
  set (es := shown_entries s fl). assert (Hadd : add_unique kvs es ≡ₚ map_to_list M) by by apply add_unique_union.
  assert (HM : length (add_unique kvs es) = size M) by by rewrite Hadd, length_map_to_list.
  assert (Hes : (if f_persist fl then persist_getprop_all pb_decode (t_ps t) collect_unique_props v else Ret v) =
    fold_records collect_unique_props es v).
  { unfold es, shown_entries. destruct (f_persist fl); [apply persist_getprop_all_entries|done]. }
  assert (Forall (λ kv, short kv.2) es ∧ (length es ≤ length (entries s))%nat) as [Hess Hles].
  { unfold es, shown_entries. destruct (f_persist fl); [|split; [constructor|cbn; lia]].
    split; [by apply (entries_short pb_decode pb_encode)|done]. }
  rewrite Hes. pose proof (add_unique_length kvs es) as Hal. rewrite Hlen, HM in Hal.
  pose proof (passes_full_last (Z.of_nat (size m)) (Z.of_nat (size M)) (inj_le _ _ (proj1 Hal))) as Hpf.
  destruct (collect_uniques es v kvs Hv Hg Hct) as [[Hp ->]|(Hp & v' & -> & Hv' & Hg' & Hct')]; [done|lia| |];
    rewrite Hlen, HM in Hp; [left; split; [apply Hpf; by left|done]|]. cbn [cbind].
  destruct (print_collected (set_sys t sp' w') v' _ Hv' Hg' Hct') as (kvs' & Hpm & Hsort & Hout).
  rewrite HM in Hout. rewrite Hout. case_decide as Hfull; [left; split; [apply Hpf; by right|done]|right].
  split; [by intros [?|?]%Hpf|]. exists kvs', (add_out (set_sys t sp' w') (line_of <$> kvs')).
  split; [by rewrite Hpm|]. split; [done|]. split; [|done]. by apply (ready_shows (add_out t (line_of <$> kvs'))).
Qed.

Lemma prop_lines_ready t lines trigger n m :
  ready t n m → (0 ≤ n)%Z → (n + Z.of_nat (length (omap parse_prop_line lines)) < MAX_UPDATES)%Z →
  Forall pair_ok (omap parse_prop_line lines) →
  ∃ t' m', prop_lines k pb_decode pb_encode property_set t lines trigger = Ret t' ∧
    file_spec trigger m (view pb_decode (t_ps t)) (omap parse_prop_line lines) m' (view pb_decode (t_ps t')) ∧
    ready t' (n + Z.of_nat (length (omap parse_prop_line lines))) m' ∧ t_out t' = t_out t.
Proof.
  revert t n m. induction lines as [|line lines IH]; intros t n m Hr Hn0 Hmax Hok; cbn [prop_lines].
  - exists t, m. split; [done|]. split; [constructor|]. split; [|done]. by rewrite Z.add_0_r.
  - cbn in Hmax, Hok |- *. destruct (parse_prop_line line) as [[name value]|]; [|by apply IH].
    apply Forall_cons in Hok as [Hp Hok]. cbn [length] in Hmax |- *.
    destruct (setprop2_ready t name value trigger n m Hr Hn0 ltac:(lia) Hp) as (r & t1 & m1 & -> & Hs & Hr1 & Hout).
    cbn [cbind]. destruct (IH t1 (n + 1)%Z m1 Hr1 ltac:(lia) ltac:(lia) Hok) as (t2 & m2 & -> & Hf & Hr2 & Hout2).
    exists t2, m2. split; [done|]. split; [by econstructor|]. split; [|congruence].
    eapply ready_mono; [|exact Hr2]. lia.
Qed.

(** One command line, in a process that can map the areas. *)
Lemma main_ready t args n m :
  let c := parse_args args (mkFlags true false false) in
  let s := view pb_decode (t_ps t) in
  ready t n m → (0 ≤ n)%Z → (n + cost (k_text k) c < MAX_UPDATES)%Z →
  (Z.of_nat (size m + length (entries s)) ≤ 2 ^ 29)%Z → command_ok (k_text k) c →
  ∃ out m' s', tool_spec (k_text k) m s c out m' s' ∧
    match out with
    | None => main k pb_decode pb_encode property_set t args = Fault
    | Some (r, ls) => ∃ t', main k pb_decode pb_encode property_set t args = Ret (r, t') ∧
        ready t' (n + cost (k_text k) c) m' ∧ view pb_decode (t_ps t') = s' ∧ t_out t' = t_out t ++ ls
    end.
Proof.
  intros c s Hr Hn0 Hmax Hsz Hok. unfold main. cbv zeta. fold c.
  assert (Hv : ∀ fl : flags, ∃ t0, t0 = (if f_verbose fl then set_verbose t else t) ∧ ready t0 n m ∧ same_tool t t0 ∧
    view pb_decode (t_ps t0) = s).
  { intros fl. eexists. split; [done|]. destruct (f_verbose fl); [|done]. split; [|done]. by apply (ready_same t). }
  destruct c as [f fl|name fl| |fl|name fl|name value fl]; cbn [cost command_ok] in *; rewrite ?Z.add_0_r in *;
    try (destruct (Hv fl) as (t0 & <- & Hr' & [Hps Hout] & Hs0); clear Hv).
  - unfold read_prop_file. destruct Hr' as (sp & w & Hi & Hf & Hsh).
    rewrite Hi. cbn [cbind negb]. pose proof (ready_shows t0 sp w n m Hsh) as Hr0.
    destruct (k_text k f) as [txt|] eqn:Htxt; cbn [fmap option_fmap option_map default] in *.
    + unfold file_pairs in *. destruct (prop_lines_ready _ (getlines txt) (f_trigger fl) n m Hr0 Hn0 Hmax Hok)
        as (t' & m' & -> & Hspec & Hr2 & Hout2). cbn [cbind]. cbn [set_sys t_ps t_out] in Hspec, Hout2. rewrite Hs0 in Hspec.
      eexists _, m', _. split; [by apply (ts_file _ _ _ f fl txt)|]. exists t'. split; [done|]. split; [done|].
      rewrite Hout2, app_nil_r. done.
    + eexists _, m, s. split; [by apply ts_no_file|]. eexists. split; [done|]. cbn [length]. rewrite Z.add_0_r.
      split; [done|]. by rewrite app_nil_r.
  - destruct (decide (legal_name name)) as [Hl|Hl].
    + pose proof (deleteprop2_ready t0 name (f_persist fl) n m Hr' Hn0 Hok) as Hd. cbv zeta in Hd. rewrite Hs0 in Hd.
      destruct Hd as (r & m' & s' & Hd & Hres); [lia|done|].
      exists (prints_nothing <$> r), m', s'. split; [by apply ts_delete|]. destruct r as [r|]; cbn; [|done].
      destruct Hres as (t' & Hrun & Hr2 & Hs2 & Hout2). exists t'. rewrite app_nil_r. split_and!; congruence.
    + eexists _, m, s. split; [by apply ts_delete_illegal|]. exists t0. unfold deleteprop2.
      rewrite legal_property_name_result, bool_decide_false by done. by rewrite app_nil_r.
  - eexists _, m, s. split; [constructor|]. eexists. rewrite app_nil_r. done.
  - pose proof (print_props_ready t0 fl n m Hr') as Hp. cbv zeta in Hp. rewrite Hs0 in Hp.
    destruct (Hp Hsz) as [[Hpf ->]|(Hpf & kvs & t' & Hperm & Hsort & Hr2 & Hps2 & Hout2 & ->)]; cbn [cbind].
    + exists None, m, s. split; [by constructor|done].
    + eexists _, m, s. split; [by apply (ts_print _ _ _ fl kvs)|]. exists t'. split; [done|]. split; [done|].
      rewrite Hps2, Hs0. split; congruence.
  - destruct (getprop2_ready t0 name fl n m Hr' Hok) as (t' & Hr2 & [Hps2 Hout2] & ->). cbn [cbind]. rewrite Hs0.
    assert (Hs2 : view pb_decode (t_ps t') = s) by by rewrite Hps2.
    destruct (decide (legal_name name)) as [Hl|Hl]; [destruct (looked_up m s fl name) as [v|] eqn:Hm|].
    + eexists _, m, s. split; [by apply (ts_get _ _ _ name fl v)|]. eexists. split; [done|]. cbn [print t_ps t_out].
      split; [by apply (ready_same t')|]. by rewrite Hout2, Hout.
    + eexists _, m, s. split; [apply ts_get_none; by right|]. exists t'. rewrite app_nil_r. split_and!; congruence.
    + eexists _, m, s. split; [apply ts_get_none; by left|]. exists t'. rewrite app_nil_r. split_and!; congruence.
  - destruct (setprop2_ready t0 name value (f_trigger fl) n m Hr' Hn0 Hmax Hok) as (r & t' & m' & -> & Hs & Hr2 & Hout2).
    rewrite Hs0 in Hs. eexists _, m', _. split; [by apply ts_set|]. exists t'. rewrite app_nil_r. split_and!; congruence.
Qed.
End tool.

(** * One command line after the other *)

(** How the program starts. *)
Definition start (w : world) (ps : pstore) : tool := mkTool zero_properties (fresh_world w) ps false [].

Definition command_of (args : list cstr) : command := parse_args args (mkFlags true false false).

Inductive session_spec (text : cstr → option (list ascii)) : gmap cstr cstr → store → list command →
    option (list (Z * list cstr)) → gmap cstr cstr → store → Prop :=
  | ss_nil m s : session_spec text m s [] (Some []) m s
  | ss_crash m s c cs m1 s1 : tool_spec text m s c None m1 s1 → session_spec text m s (c :: cs) None m1 s1
  | ss_cons m s c out m1 s1 cs outs m2 s2 :
    tool_spec text m s c (Some out) m1 s1 → session_spec text m1 s1 cs outs m2 s2 →
    session_spec text m s (c :: cs) (cons out <$> outs) m2 s2.

Definition total_cost (text : cstr → option (list ascii)) (cs : list command) : Z :=
  foldr (λ c n, cost text c + n)%Z 0%Z cs.

Lemma total_cost_nonneg text cs : (0 ≤ total_cost text cs)%Z.
Proof.
  induction cs as [|c cs IH]; cbn; [lia|]. fold (total_cost text cs). pose proof (cost_nonneg text c). lia.
Qed.

(** The map grows by one entry for each record written at most. *)
Lemma size_delete_le (m : gmap cstr cstr) name : (size (delete name m) ≤ size m)%nat.
Proof. rewrite map_size_delete. case_match; cbn; lia. Qed.

Lemma size_insert_le (m : gmap cstr cstr) name value : (size (<[name := value]> m) ≤ S (size m))%nat.
Proof.
  destruct (m !! name) eqn:E.
  - rewrite map_size_insert_Some by eauto. lia.
  - by rewrite map_size_insert_None by done.
Qed.

Definition total_size (m : gmap cstr cstr) (s : store) : Z := Z.of_nat (size m + length (entries s)).

Lemma set_spec_size trigger m s name value r m' s' :
  set_spec trigger m s name value r m' s' → (total_size m' s' ≤ total_size m s + 2)%Z.
Proof.
  unfold total_size. pose proof (size_insert_le m name value). destruct 1 as [| | |r s' _ _ Hnt|]; [lia|lia|lia| |].
  - unfold noted in Hnt. case_match; [apply recorded_length in Hnt; lia|subst; lia].
  - unfold refused. case_match; [pose proof (size_delete_le m name)|]; lia.
Qed.

Lemma file_spec_size trigger m s nvs m' s' :
  file_spec trigger m s nvs m' s' → (total_size m' s' ≤ total_size m s + 2 * Z.of_nat (length nvs))%Z.
Proof.
  induction 1 as [|m s name value r m1 s1 nvs m2 s2 Hs _ IH]; cbn [length]; [lia|]. apply set_spec_size in Hs. lia.
Qed.

Lemma kept_length reach name s s' : kept reach name s s' → (length (entries s') ≤ length (entries s))%nat.
Proof. destruct reach; cbn; [intros [_ H]; by eapply forget_length|by intros ->]. Qed.

Lemma delete_spec_size m s reach name r m' s' :
  delete_spec m s reach name r m' s' → (size m' ≤ size m)%nat ∧ (length (entries s') ≤ length (entries s))%nat.
Proof. destruct 1; eauto using size_delete_le, kept_length, forget_length. Qed.

Lemma tool_spec_size text m s c out m' s' :
  tool_spec text m s c out m' s' → (total_size m' s' ≤ total_size m s + 2 * cost text c)%Z.
Proof.
  destruct 1 as [| | |name value fl r m' s' Hs|name fl r m' s' _ Hd| | | |f fl t m' s' Ht Hf|]; cbn [cost]; try lia.
  - apply set_spec_size in Hs. lia.
  - apply delete_spec_size in Hd. unfold total_size. lia.
  - rewrite Ht. cbn [fmap option_fmap option_map default from_option]. unfold id. apply file_spec_size in Hf. lia.
Qed.

Section session.
Context (k : kernel).
Context (pb_decode : list ascii → list (cstr * cstr)).
Context (pb_encode : list (cstr * cstr) → option (list ascii)).
Context (property_set : world → pstore → cstr → cstr → cres (Z * world * pstore)).

Fixpoint session (w : world) (ps : pstore) (cmds : list (list cstr))
    : cres (list (Z * list cstr) * world * pstore) :=
  match cmds with
  | [] => Ret ([], w, ps)
  | args :: cmds =>
    let! (r, t) := main k pb_decode pb_encode property_set (start w ps) args in
    let! (rs, w, ps) := session (t_w t) (t_ps t) cmds in Ret ((r, t_out t) :: rs, w, ps)
  end.

Context (l : listing).

Notation shows := (shows k ∅ (Some l)).
Notation files_show := (files_show k ∅ l).

(** A process that starts is ready. *)
Lemma start_ready w1 sp0 w0 n0 m0 w ps n m :
  Init k zero_properties w1 PROP_FILENAME = Ret (true, sp0, w0) → shows sp0 w0 n0 m0 → files_show w n m →
  ready k l (start w ps) n m.
Proof.
  intros Hinit Hsh Hfs. destruct (start_shows k ∅ l w1 sp0 w0 n0 m0 w n m Hinit Hsh Hfs) as (w' & Hrun & Hf & Hsh').
  exists sp0, w'. split; [|done]. unfold init_resetprop. cbn [start t_sp t_w]. by rewrite Hrun.
Qed.

Context (Hservice : service_ok k pb_decode property_set l) (Hcodec : codec_ok pb_decode pb_encode).

Lemma session_ready w1 sp0 w0 n0 m0 cmds w ps n m :
  let cs := command_of <$> cmds in
  Init k zero_properties w1 PROP_FILENAME = Ret (true, sp0, w0) → shows sp0 w0 n0 m0 →
  files_show w n m → (0 ≤ n)%Z → (n + total_cost (k_text k) cs < MAX_UPDATES)%Z →
  (total_size m (view pb_decode ps) + 2 * total_cost (k_text k) cs ≤ 2 ^ 29)%Z → Forall (command_ok (k_text k)) cs →
  ∃ outs m' s', session_spec (k_text k) m (view pb_decode ps) cs outs m' s' ∧
    match outs with
    | None => session w ps cmds = Fault
    | Some rs => ∃ w' ps', session w ps cmds = Ret (rs, w', ps') ∧ view pb_decode ps' = s' ∧
        files_show w' (n + total_cost (k_text k) cs) m'
    end.
Proof.
  intros cs Hinit Hsh0. subst cs. revert w ps n m. induction cmds as [|args cmds IH]; intros w ps n m Hfs Hn0 Hmax Hsz Hok.
  - exists (Some []), m, (view pb_decode ps). split; [constructor|]. exists w, ps. split; [done|]. cbn. by rewrite Z.add_0_r.
  - rewrite fmap_cons in Hmax, Hsz, Hok |- *. apply Forall_cons in Hok as [Hc Hok].
    set (cs := command_of <$> cmds) in *. set (c := command_of args) in *. cbn [total_cost foldr] in *.
    fold (total_cost (k_text k) cs) in *. pose proof (total_cost_nonneg (k_text k) cs). pose proof (cost_nonneg (k_text k) c).
    destruct (main_ready k pb_decode pb_encode property_set l Hservice Hcodec (start w ps) args n m
      (start_ready _ _ _ _ _ _ _ _ _ Hinit Hsh0 Hfs) Hn0) as (out & m1 & s1 & Hspec & Hout); [| |done|].
    { fold (command_of args). fold c. lia. }
    { cbn [start t_ps]. fold (total_size m (view pb_decode ps)). lia. }
    cbn [start t_ps] in Hspec. fold (command_of args) in Hspec, Hout. fold c in Hspec, Hout. cbn [session].
    destruct out as [[r ls]|]; [|exists None, m1, s1; split; [by constructor|by rewrite Hout]].
    destruct Hout as (t' & Hrun & Hr & Hs1 & Hls). rewrite Hrun. cbn [cbind]. cbn [start t_out app] in Hls.
    pose proof (tool_spec_size _ _ _ _ _ _ _ Hspec). rewrite <- Hs1 in *.
    destruct (IH (t_w t') (t_ps t') (n + cost (k_text k) c)%Z m1 (ready_files _ _ _ _ _ Hr)) as (outs & m2 & s2 & Hs2 & Hrest);
      [lia|lia|lia|done|]. rewrite Hls.
    exists (cons (r, ls) <$> outs), m2, s2. split; [by econstructor|]. destruct outs as [rs|]; cbn.
    + destruct Hrest as (w' & ps' & -> & Hview & Hfs'). exists w', ps'. cbn [cbind]. split; [done|]. split; [done|]. by rewrite Z.add_assoc.
    + by rewrite Hrest.
Qed.

End session.

(** * A service that keeps its word *)

(** An [init] that sets the property through an object of its own over the
    same files, and then writes a persistent one to the storage. *)
Section init.
Context (k : kernel).
Context (pb_decode : list ascii → list (cstr * cstr)).
Context (pb_encode : list (cstr * cstr) → option (list ascii)).

Definition with_record (name value : cstr) (l : list (cstr * cstr)) : list (cstr * cstr) :=
  (name, value) :: filter (λ kv, kv.1 ≠ name) l.

Definition write_persistent (ps : pstore) (name value : cstr) : pstore :=
  match ps_pb ps with
  | Some bytes =>
    match pb_encode (with_record name value (pb_decode bytes)) with
    | Some bytes => mkPstore (Some bytes) (ps_files ps)
    | None => ps
    end
  | None => mkPstore None (<[name := value]> (ps_files ps))
  end.

Definition init_service (w : world) (ps : pstore) (name value : cstr) : cres (Z * world * pstore) :=
  let! (r, t) := setprop2 k pb_decode pb_encode no_service (start w ps) name value false in
  Ret (r, mkWorld (w_files (t_w t)) (w_pa_size w) (w_pa_data_size w),
       if (r =? 0)%Z && is_persist name then write_persistent ps name value else ps).

Lemma no_service_ok l : service_ok k pb_decode no_service l.
Proof.
  intros sp w ps n m name value Hsh Hn0 _ _ _. exists (-1)%Z, w, ps, m. split; [done|]. split; [|by right].
  eapply shows_mono; [|exact Hsh]. lia.
Qed.

Lemma with_record_stored name value l :
  stored (Records (with_record name value l)) = <[name := value]> (stored (Records l)).
Proof.
  unfold stored, with_record. cbn [entries list_to_map foldr fst snd]. apply map_eq. intros n.
  destruct (decide (n = name)) as [->|Hn]; [by rewrite !lookup_insert_eq|]. rewrite !lookup_insert_ne by done.
  induction l as [|[n' v'] l IH]; [done|]. rewrite filter_cons. cbn [fst]. case_decide as Hn'; cbn [list_to_map foldr fst snd].
  - destruct (decide (n' = n)) as [->|]; [by rewrite !lookup_insert_eq|by rewrite !lookup_insert_ne].
  - destruct (decide (n' = name)) as [->|]; [|done]. by rewrite lookup_insert_ne.
Qed.

Context (Hcodec : codec_ok pb_decode pb_encode).

Lemma write_persistent_recorded ps name value :
  no_nul name → pair_ok (name, value) →
  recorded name value (view pb_decode ps) (view pb_decode (write_persistent ps name value)).
Proof.
  intros Hname (Hn & Hv & Hs). unfold view, write_persistent. cbn [fst snd] in *.
  destruct (ps_pb ps) as [bytes|] eqn:Hb; [|cbn; apply recorded_file].
  destruct (pb_encode _) as [bytes'|] eqn:He; [|rewrite Hb; apply recorded_not]. cbn [ps_pb].
  assert (Hfits : Forall entry_ok (with_record name value (pb_decode bytes))).
  { constructor; [done|]. apply Forall_forall. intros kv [_ Hkv]%list_elem_of_filter.
    by apply (proj1 (Forall_forall _ _) (co_fits _ _ Hcodec bytes)). }
  rewrite (co_back _ _ Hcodec _ _ Hfits He).
  apply recorded_record; [apply with_record_stored|]. cbn. apply le_n_S, length_filter.
Qed.

Lemma init_service_ok l w1 sp0 w0 n0 m0 :
  Init k zero_properties w1 PROP_FILENAME = Ret (true, sp0, w0) → shows k ∅ (Some l) sp0 w0 n0 m0 →
  service_ok k pb_decode init_service l.
Proof.
  intros Hinit Hsh0 sp w ps n m name value Hsh Hn0 Hmax Hp Hl. unfold init_service.
  pose proof (start_ready k l w1 sp0 w0 n0 m0 w ps n m Hinit Hsh0 (shows_files_show k ∅ l sp w n m Hsh)) as Hr.
  destruct (setprop2_ready k pb_decode pb_encode no_service l (no_service_ok l) (start w ps)
    name value false n m Hr Hn0 Hmax Hp) as (r & t' & m' & -> & Hset & Hr' & _).
  cbn [cbind]. eexists r, _, _, m'. split; [done|]. pose proof (ready_files _ _ _ _ _ Hr') as Hfs. split.
  - eapply (shows_again k ∅ l sp w n m (t_w t')); [exact Hsh|exact Hfs|done|].
    destruct (sh_ok _ _ _ _ _ _ _ Hsh) as [Hw _ (c & Hc & Hctx & [spa Hspa])].
    destruct (ctx_serial (k := k) c w spa Hctx Hspa) as [f Hf].
    assert (Hs : same_files w (t_w t')).
    { etrans; [symmetry; eapply files_show_same, shows_files_show, Hsh|by eapply files_show_same]. }
    specialize (Hs spa). rewrite Hf in Hs. destruct (w_files (t_w t') !! spa) as [f'|] eqn:Hf'; [|done].
    exists spa, f'. split; [done|]. cbn [w_pa_data_size]. rewrite (wo_size _ Hw).
    destruct Hfs as (sp2 & w2 & Hf2 & Hsh2). rewrite <- Hf2 in Hf'.
    by destruct (wo_files _ (so_world _ _ _ (sh_ok _ _ _ _ _ _ _ Hsh2)) spa f' Hf') as [-> _].
  - inversion Hset; subst; try done; [left|by right]. split; [done|]. cbn [Z.eqb andb]. unfold noted.
    destruct (is_persist name); [|done]. apply write_persistent_recorded; [by apply legal_name_no_nul|done].
Qed.
End init.

(** * Concrete instances *)

Definition sample_listing : listing :=
  mkListing [sample_path] (λ _, Some sample_path) (sample_world sample_area1).

Definition sample_map : gmap cstr cstr := {[ cs "ro.product" := cs "zeroflte" ]}.

Definition sample_object : SystemProperties AnyContexts := t_sp (sample_tool sample_area1).

Lemma sample_object_shows :
  shows sample_kernel ∅ (Some sample_listing) sample_object (sample_world sample_area1) 0 sample_map.
Proof.
  pose proof sample_area1_represents as Hrep.
  assert (Hst : stores (sample_world sample_area1) sample_path sample_map)
    by (eexists; split; [apply lookup_singleton_eq|exact Hrep]).
  assert (Hname : ∀ name v, sample_map !! name = Some v → name = cs "ro.product" ∧ v = cs "zeroflte")
    by (intros name v Hv; unfold sample_map in Hv; by apply lookup_singleton_Some in Hv as [<- <-]).
  split.
  - by apply (sample_tool_ok _ _ Hrep).
  - intros p f Hf. cbn in Hf. apply lookup_singleton_Some in Hf as [_ <-]. cbn [af_area].
    apply (add_recs 0 PA_DATA_SIZE empty_area (cs "ro.product") (cs "zeroflte") true); [done|vm_compute; reflexivity|].
    intros o r. cbn. rewrite lookup_singleton_Some. by intros [_ [=]].
  - eexists. split; [done|]. split; [intros name Hn; cbn; by eexists|].
    intros l [= <-]. split; [done|apply NoDup_singleton|by eexists|done|done|].
    intros p mp name ->%list_elem_of_singleton Hs [v Hv]. split; [|done].
    rewrite (stores_inj _ _ _ _ Hs Hst) in Hv. apply Hname in Hv as [-> _]. vm_compute. reflexivity.
  - intros name [v Hv]. apply Hname in Hv as [-> _]. vm_compute. reflexivity.
  - intros name v [-> ->]%Hname Hs. destruct Hs. vm_compute. reflexivity.
Qed.

Lemma sample_object_init :
  Init sample_kernel zero_properties (sample_world sample_area1) PROP_FILENAME =
    Ret (true, sample_object, sample_world sample_area1).
Proof. vm_compute. reflexivity. Qed.

(** A storage with two records under one name and one under another. *)
Definition sample_records : list (cstr * cstr) :=
  [(cs "persist.a", cs "1"); (cs "persist.b", cs "2"); (cs "persist.a", cs "3")].

Definition sample_pstore : pstore := mkPstore (wire_encode sample_records) ∅.

Definition sample_commands : list (list cstr) :=
  [[cs "-n"; cs "sys.usb.config"; cs "adb"]; [cs "ro.product"; cs "zerolte"]; [cs "-n"; cs "a.b"; cs "1"];
   [cs "ro.product"]; []; [cs "persist.a"]; [cs "-p"; cs "persist.a"];
   [cs "-p"; cs "--delete"; cs "persist.b"]; [cs "-p"; cs "--delete"; cs "persist.b"]].


(** A listing of two properties reads outside the vector, and so does a
    deletion of the two records that are left. *)
Lemma full_vectors :
  session sample_kernel wire_decode wire_encode (init_service sample_kernel wire_decode wire_encode) (sample_world sample_area1) sample_pstore
    [[cs "-n"; cs "a.b"; cs "1"]; []] = Fault ∧
  session sample_kernel wire_decode wire_encode (init_service sample_kernel wire_decode wire_encode) (sample_world sample_area1) sample_pstore
    sample_commands = Fault.
Proof. vm_compute. split; reflexivity. Qed.

(** A persistent property that init sets is in the storage afterwards. *)
Example init_records_persist :
  match session sample_kernel wire_decode wire_encode (init_service sample_kernel wire_decode wire_encode)
      (sample_world sample_area1) sample_pstore [[cs "persist.a"; cs "7"]; [cs "persist.a"]] with
  | Ret (rs, _, ps) => rs = [(0%Z, []); (0%Z, [cs "7"])] ∧
      view wire_decode ps = Records [(cs "persist.a", cs "7"); (cs "persist.b", cs "2")]
  | _ => False
  end.
Proof. vm_compute. split; reflexivity. Qed.
