(* ===== verification/SystemPropertyApi.v ===== *)
(** The C interface of the properties (system_property_api.cpp): functions on
    the one [SystemProperties] object of the process, and what a client that
    calls them sees.  The client's calls are data; the functions run them on
    the object and the files, [spec] on a map from names to values, and the
    two agree. *)

From Stdlib Require Import ZArith Lia Ascii.
From stdpp Require Import base numbers strings gmap list relations.
From S2P Require Import Prelude CString PropInfo PropArea PropTrie PropAreaProofs.
From S2P Require Import PropAreaSpec.
From S2P Require Import PropertyInfoParser Contexts ContextsSplit ContextsSerialized.
From S2P Require Import SystemProperties.
From S2P Require Import SystemPropertiesSpec ResetProp ResetPropSpec ContextsHome.
From S2P Require Import ContextsEnumerate SystemPropertiesMap SystemPropertiesForeach.

(** * The functions *)

Section init.
Context (k : kernel).

Definition __system_properties_init (sp : SystemProperties AnyContexts) (w : world)
    : cres (Z * SystemProperties AnyContexts * world) :=
  let! (ok, sp, w) := Init k sp w PROP_FILENAME in Ret (if ok then 0%Z else (-1)%Z, sp, w).

Definition __system_property_set_filename (filename : cstr) : Z := -1.

(** [fsetxattr_failed] is a local that starts as false. *)
Definition __system_property_area_init (sp : SystemProperties AnyContexts) (w : world)
    : cres (Z * SystemProperties AnyContexts * world) :=
  let! (ok, sp, failed, w) := AreaInit k sp w PROP_FILENAME (Some false) in
  Ret (if ok && negb (default false failed) then 0%Z else (-1)%Z, sp, w).
End init.

Section api.
Context (k : kernel) {S : Type} `{!Contexts k S}.

Definition __system_property_area_serial (sp : SystemProperties S) (w : world) : cres Z :=
  AreaSerial k sp w.

Definition __system_property_find (sp : SystemProperties S) (w : world) (name : cstr)
    : cres (option prop_ptr * SystemProperties S * world) := Find k sp w name.

Definition __system_property_read (w : world) (pi : prop_ptr) : cres (Z * list ascii * cstr) := Read w pi.

Definition __system_property_read_callback (w : world) (pi : prop_ptr) : cres (cstr * cstr * Z) :=
  ReadCallback w pi.

Definition __system_property_get (sp : SystemProperties S) (w : world) (name : cstr)
    : cres (Z * cstr * SystemProperties S * world) := Get k sp w name.

Definition __system_property_update (sp : SystemProperties S) (w : world) (pi : prop_ptr) (value : cstr)
    (len : Z) : cres (Z * world) := Update k sp w pi value len.

Definition __system_property_add (sp : SystemProperties S) (w : world) (name : cstr) (namelen : Z)
    (value : cstr) (valuelen : Z) : cres (Z * SystemProperties S * world) :=
  Add k sp w name namelen value valuelen.

Definition __system_property_del (sp : SystemProperties S) (w : world) (name : cstr)
    : cres (Z * SystemProperties S * world) := Delete k sp w name.

Definition __system_property_serial (w : world) (pi : prop_ptr) : cres Z := Serial w pi.

Definition __system_property_wait_any (sp : SystemProperties S) (old_serial : Z)
    (env : list (futex_answer * Z)) : cres Z := WaitAny k sp old_serial env.

Definition __system_property_wait (sp : SystemProperties S) (pi : option prop_ptr) (old_serial : Z)
    (env : list (futex_answer * Z)) : cres (bool * option Z) := Wait k sp pi old_serial env.

Definition __system_property_find_nth (sp : SystemProperties S) (w : world) (n : Z)
    : cres (option prop_ptr * SystemProperties S * world) := FindNth k sp w n.

Definition __system_property_foreach {C} (sp : SystemProperties S) (w : world) (propfn : prop_ptr → C → C)
    (cookie : C) : cres (Z * C * SystemProperties S * world) := Foreach k sp w propfn cookie.

(** * A client *)

(** What a client asks for.  [CRead] and [CUpdate] are a find followed by a
    read_callback or an update of the record found; [CForeach] is a foreach
    whose callback reads each record it is given and appends it to a list. *)
Inductive api_call :=
  | CGet (name : cstr)
  | CRead (name : cstr)
  | CAdd (name value : cstr)
  | CUpdate (name value : cstr)
  | CDel (name : cstr)
  | CForeach.

Inductive api_result :=
  | RAbsent                              (** find gave null *)
  | RInt (r : Z)
  | RGet (len : Z) (value : cstr)
  | RRead (name value : cstr)
  | RForeach (r : Z) (l : list (cstr * cstr)).

Definition collect (name value : cstr) (l : list (cstr * cstr)) : cres (list (cstr * cstr)) :=
  Ret (l ++ [(name, value)]).

Definition api (c : api_call) (sp : SystemProperties S) (w : world)
    : cres (api_result * SystemProperties S * world) :=
  match c with
  | CGet name =>
    let! (len, value, sp, w) := __system_property_get sp w name in Ret (RGet len value, sp, w)
  | CRead name =>
    let! (pi, sp, w) := __system_property_find sp w name in
    match pi with
    | Some pi => let! (name, value, _) := __system_property_read_callback w pi in Ret (RRead name value, sp, w)
    | None => Ret (RAbsent, sp, w)
    end
  | CAdd name value =>
    let! (r, sp, w) := __system_property_add sp w name (Z.of_nat (length name)) value
      (Z.of_nat (length value)) in
    Ret (RInt r, sp, w)
  | CUpdate name value =>
    let! (pi, sp, w) := __system_property_find sp w name in
    match pi with
    | Some pi =>
      let! (r, w) := __system_property_update sp w pi value (Z.of_nat (length value)) in Ret (RInt r, sp, w)
    | None => Ret (RAbsent, sp, w)
    end
  | CDel name => let! (r, sp, w) := __system_property_del sp w name in Ret (RInt r, sp, w)
  | CForeach =>
    let! (r, l, sp, w) := __system_property_foreach sp w (λ pi l,
      let! l := l in
      let! (name, value, _) := __system_property_read_callback w pi in collect name value l) (Ret []) in
    let! l := l in Ret (RForeach r l, sp, w)
  end.

Fixpoint api_run (cs : list api_call) (sp : SystemProperties S) (w : world)
    : cres (list api_result * SystemProperties S * world) :=
  match cs with
  | [] => Ret ([], sp, w)
  | c :: cs =>
    let! (r, sp, w) := api c sp w in
    let! (rs, sp, w) := api_run cs sp w in Ret (r :: rs, sp, w)
  end.
End api.

(** * The abstract interface *)

(** One map.  The only freedom is that the addition of a new name may fail
    (its area is missing or full) and that the deletion of a name that is not
    there may be reported either way. *)
Inductive spec (m : gmap cstr cstr) : api_call → api_result → gmap cstr cstr → Prop :=
  | sp_get name v :
    m !! name = Some v → spec m (CGet name) (RGet (Z.of_nat (length (get_value v))) (get_value v)) m
  | sp_get_none name : m !! name = None → spec m (CGet name) (RGet 0 []) m
  | sp_read name v : m !! name = Some v → spec m (CRead name) (RRead name v) m
  | sp_read_none name : m !! name = None → spec m (CRead name) RAbsent m
  | sp_add name value :
    ¬ add_refused name value → spec m (CAdd name value) (RInt 0) (<[name := default value (m !! name)]> m)
  | sp_add_refused name value :
    add_refused name value ∨ m !! name = None → spec m (CAdd name value) (RInt (-1)) m
  | sp_update name value v :
    m !! name = Some v → short value → spec m (CUpdate name value) (RInt 0) (<[name := value]> m)
  | sp_update_long name value v :
    m !! name = Some v → ¬ short value → spec m (CUpdate name value) (RInt (-1)) m
  | sp_update_none name value : m !! name = None → spec m (CUpdate name value) RAbsent m
  | sp_del name : spec m (CDel name) (RInt 0) (delete name m)
  | sp_del_none name : m !! name = None → spec m (CDel name) (RInt (-1)) (delete name m)
  | sp_foreach l : l ≡ₚ map_to_list m → spec m CForeach (RForeach 0 l) m.

Inductive spec_run : gmap cstr cstr → list api_call → list api_result → gmap cstr cstr → Prop :=
  | spec_nil m : spec_run m [] [] m
  | spec_cons m c r m1 cs rs m2 : spec m c r m1 → spec_run m1 cs rs m2 → spec_run m (c :: cs) (r :: rs) m2.

(** Arguments that are strings of C; a client knows which names have long
    values and does not update those; it enumerates when the areas are listed. *)
Definition call_ok (long_names : gset cstr) (listed : option listing) (c : api_call) : Prop :=
  match c with
  | CGet name | CRead name | CDel name => name_ok name
  | CAdd name value => name_ok name ∧ no_nul value ∧ (short value ∨ name ∈ long_names)
  | CUpdate name value => name_ok name ∧ no_nul value ∧ name ∉ long_names
  | CForeach => is_Some listed
  end.

#[export] Instance call_ok_dec long_names listed c : Decision (call_ok long_names listed c).
Proof. destruct c; cbn; apply _. Defined.

Definition updates (c : api_call) : Z := match c with CUpdate _ _ => 1 | _ => 0 end.

Definition total_updates (cs : list api_call) : Z := foldr (λ c n, updates c + n)%Z 0%Z cs.

Lemma total_updates_nonneg cs : (0 ≤ total_updates cs)%Z.
Proof. induction cs as [|c cs IH]; cbn; [lia|]. fold (total_updates cs). destruct c; cbn [updates]; lia. Qed.

Section refinement.
Context (k : kernel) {S : Type} `{!Contexts k S} `{!ContextsLaws k S} `{!ContextsStable k S}
  `{!ContextsEnumerable k S}.
Context (long_names : gset cstr) (listed : option listing).

Lemma kvs_long sp w n m kvs :
  shows k long_names listed sp w n m → kvs ≡ₚ map_to_list m →
  ∀ name v, (name, v) ∈ kvs → ¬ short v → is_read_only name = true.
Proof.
  intros Hsh Hperm name v. rewrite Hperm, elem_of_map_to_list. intros Hv Hs.
  by apply (sh_long _ _ _ _ _ _ _ Hsh name v).
Qed.

Lemma fold_collect kvs l :
  fold_left (λ c kv, let! c := c in collect kv.1 kv.2 c) kvs (Ret l) = Ret (l ++ kvs).
Proof.
  revert l. induction kvs as [|[name v] kvs IH]; intros l; cbn [fold_left cbind]; [by rewrite app_nil_r|].
  unfold collect at 2. cbn [fst snd]. by rewrite IH, <- app_assoc.
Qed.

(** One call. *)
Lemma api_shows c sp w n m :
  shows k long_names listed sp w n m → (0 ≤ n)%Z → (n + updates c < MAX_UPDATES)%Z → call_ok long_names listed c →
  ∃ r sp' w' m', api k c sp w = Ret (r, sp', w') ∧ spec m c r m' ∧ shows k long_names listed sp' w' (n + updates c) m'.
Proof.
  intros Hsh Hn0 Hmax Hok. destruct c as [name|name|name value|name value|name|];
    cbn [api updates call_ok] in *; rewrite ?Z.add_0_r in *.
  - destruct (Find_shows k long_names listed sp w n m name Hsh Hok) as (r & sp' & w' & Hf & Hsh' & Hr).
    unfold __system_property_get, Get. rewrite Hf. cbn [cbind]. destruct r as [[p o]|].
    + destruct Hr as (_ & v & a & pi & Hv & Hrec & _).
      destruct (Read_record w' n name p o v a pi Hrec (λ H, proj1 (sh_long _ _ _ _ _ _ _ Hsh' _ _ Hv H))) as (bytes & nm & -> & Hb).
      cbn [cbind]. rewrite Hb. eexists _, _, _, m. split; [done|]. split; [by constructor|done].
    + eexists _, _, _, m. split; [done|]. split; [by constructor|done].
  - destruct (Find_shows k long_names listed sp w n m name Hsh Hok) as (r & sp' & w' & Hf & Hsh' & Hr).
    unfold __system_property_find, __system_property_read_callback. rewrite Hf. cbn [cbind].
    destruct r as [[p o]|].
    + destruct Hr as (_ & v & a & pi & Hv & Hrec & _).
      rewrite (ReadCallback_record w' n name p o v a pi Hrec (λ H, proj1 (sh_long _ _ _ _ _ _ _ Hsh' _ _ Hv H))).
      cbn [cbind]. eexists _, _, _, m. split; [done|]. split; [by constructor|done].
    + eexists _, _, _, m. split; [done|]. split; [by constructor|done].
  - destruct Hok as (Hn & Hv & Hl).
    assert (Hln : ¬ short value → name ∈ long_names) by (intros; by destruct Hl).
    destruct (Add_shows k long_names listed sp w n m name value Hsh Hn0 Hn Hv Hln)
      as (r & sp' & w' & Hrun & Hr). unfold __system_property_add. rewrite Hrun. cbn [cbind].
    destruct Hr as [(-> & Href & Hsh')|(-> & Href & Hsh')]; eexists _, _, _, _; (split; [done|]);
      (split; [|exact Hsh']); by constructor.
  - destruct Hok as (Hn & Hv & Hro). destruct (Find_shows k long_names listed sp w n m name Hsh Hn) as (r & sp' & w' & Hf & Hsh' & Hr).
    unfold __system_property_find, __system_property_update. rewrite Hf. cbn [cbind].
    destruct r as [[p o]|].
    + destruct Hr as (Harea & v & a & pi & Hmv & Hrec & Hfind).
      assert (Hshort : short v).
      { destruct (decide (short v)) as [|Hs]; [done|]. by destruct (sh_long _ _ _ _ _ _ _ Hsh' _ _ Hmv Hs). }
      destruct (Update_shows k long_names listed sp' w' n m name p o v a pi value Hsh' Hn0 Hmax Hn Hv Harea Hmv Hrec Hfind Hshort)
        as (r & w2 & -> & Hr). cbn [cbind].
      destruct (decide (short value)) as [Hs|Hs]; destruct Hr as [-> Hsh2].
      * eexists _, _, _, _. split; [done|]. split; [by econstructor|done].
      * eexists _, _, _, m. split; [done|]. split; [by econstructor|]. eapply shows_mono; [|exact Hsh2]. lia.
    + eexists _, _, _, m. split; [done|]. split; [by constructor|]. eapply shows_mono; [|exact Hsh']. lia.
  - destruct (Delete_shows k long_names listed sp w n m name Hsh Hn0 Hok) as (r & sp' & w' & Hrun & Hsh' & Hr).
    unfold __system_property_del. rewrite Hrun. cbn [cbind].
    destruct Hr as [->|[-> Hnone]]; eexists _, _, _, _; (split; [done|]); (split; [|exact Hsh']); by constructor.
  - destruct Hok as [l Hl]. pose proof (kvs_long sp w n m) as Hkl. rewrite Hl in Hsh.
    destruct (Foreach_shows k long_names l sp w n m Hsh) as (pis & kvs & sp' & w' & Hperm & Hent & Hsh' & _ & Hrun).
    unfold __system_property_foreach. rewrite Hrun. cbn [cbind]. unfold __system_property_read_callback.
    rewrite (fold_entries w n collect pis kvs) by (done || by eapply Hkl; [rewrite Hl|]).
    rewrite fold_collect. cbn [cbind app]. eexists _, _, _, m. split; [done|].
    split; [by constructor|by rewrite Hl].
Qed.

Lemma api_run_shows cs sp w n m :
  shows k long_names listed sp w n m → (0 ≤ n)%Z → (n + total_updates cs < MAX_UPDATES)%Z → Forall (call_ok long_names listed) cs →
  ∃ rs sp' w' m', api_run k cs sp w = Ret (rs, sp', w') ∧ spec_run m cs rs m' ∧
    shows k long_names listed sp' w' (n + total_updates cs) m'.
Proof.
  intros Hsh Hn0 Hmax Hok. revert sp w n m Hsh Hn0 Hmax. induction Hok as [|c cs Hc Hok IH]; intros sp w n m Hsh Hn0 Hmax.
  - eexists _, _, _, m. split; [done|]. split; [constructor|]. cbn. by rewrite Z.add_0_r.
  - cbn [total_updates foldr] in Hmax |- *. fold (total_updates cs) in *. pose proof (total_updates_nonneg cs).
    destruct (api_shows c sp w n m Hsh Hn0 ltac:(lia) Hc) as (r & sp1 & w1 & m1 & Hrun & Hspec & Hsh1).
    assert (0 ≤ updates c)%Z by (by destruct c).
    destruct (IH sp1 w1 (n + updates c)%Z m1 Hsh1 ltac:(lia) ltac:(lia)) as (rs & sp2 & w2 & m2 & Hrun2 & Hspec2 & Hsh2).
    cbn [api_run]. rewrite Hrun. cbn [cbind]. rewrite Hrun2. cbn [cbind].
    eexists _, _, _, m2. split; [done|]. split; [by econstructor|]. by rewrite Z.add_assoc.
Qed.

(** C5. Calls behave as on one map from names to values: over any implementation of
    [Contexts], from any state that shows a map, the calls return, their results are
    those the map gives, and the state they leave shows the map they lead to.  An
    enumeration gives every entry of the map once.  The calls are those of
    [call_ok]: their strings are strings of C, names whose values may be long are
    not updated, and they enumerate when the areas are listed; the counter of a
    record allows for less than 2^15 updates. *)
Theorem api_refines cs sp w m :
  shows k long_names listed sp w 0 m → (total_updates cs < MAX_UPDATES)%Z → Forall (call_ok long_names listed) cs →
  ∃ rs sp' w' m', api_run k cs sp w = Ret (rs, sp', w') ∧ spec_run m cs rs m' ∧
    shows k long_names listed sp' w' (total_updates cs) m'.
Proof. intros Hsh Hmax Hok. exact (api_run_shows cs sp w 0 m Hsh ltac:(lia) Hmax Hok). Qed.
End refinement.

(** * Concrete instances *)

Definition sample_listing : listing :=
  mkListing [sample_path] (λ _, Some sample_path) (sample_world sample_area1).

Lemma sample_shows :
  shows sample_kernel ∅ (Some sample_listing) sample_sp (sample_world sample_area1) 0 {[ cs "ro.product" := cs "zeroflte" ]}.
Proof.
  pose proof sample_area1_represents as Hrep. split.
  - by apply (sample_sp_ok _ _ Hrep).
  - intros p f Hf. cbn in Hf. apply lookup_singleton_Some in Hf as [_ <-]. cbn [af_area].
    apply (add_recs 0 PA_DATA_SIZE empty_area (cs "ro.product") (cs "zeroflte") true); [done|vm_compute; reflexivity|].
    intros o r. cbn. rewrite lookup_singleton_Some. by intros [_ [=]].
  - assert (Hst : stores (sample_world sample_area1) sample_path {[ cs "ro.product" := cs "zeroflte" ]})
      by (eexists; split; [apply lookup_singleton_eq|exact Hrep]).
    eexists. split; [done|]. split; [intros name Hn; cbn; by eexists|].
    intros l [= <-]. split; [done|apply NoDup_singleton|by eexists|done|done|].
    intros p mp name ->%list_elem_of_singleton Hs Hin. split; [|done].
    rewrite (stores_inj _ _ _ _ Hs Hst) in Hin. destruct Hin as [v Hv].
    apply lookup_singleton_Some in Hv as [<- _]. vm_compute. reflexivity.
  - intros name [v Hv]. apply lookup_singleton_Some in Hv as [<- _]. vm_compute. reflexivity.
  - intros name v [<- <-]%lookup_singleton_Some Hs. destruct Hs. vm_compute. reflexivity.
Qed.

Definition sample_calls : list api_call :=
  [CGet (cs "sys.usb.config"); CAdd (cs "sys.usb.config") (cs "adb"); CUpdate (cs "sys.usb.config") (cs "mtp,adb");
   CRead (cs "sys.usb.config"); CForeach; CDel (cs "ro.product"); CGet (cs "ro.product")].

Lemma api_refines_witness :
  ∃ rs m', rs = [RGet 0 []; RInt 0; RInt 0; RRead (cs "sys.usb.config") (cs "mtp,adb");
           RForeach 0 [(cs "ro.product", cs "zeroflte"); (cs "sys.usb.config", cs "mtp,adb")]; RInt 0; RGet 0 []] ∧
    spec_run {[ cs "ro.product" := cs "zeroflte" ]} sample_calls rs m'.
Proof.
  destruct (api_refines sample_kernel ∅ (Some sample_listing) sample_calls sample_sp (sample_world sample_area1)
    {[ cs "ro.product" := cs "zeroflte" ]} sample_shows) as (rs & sp' & w' & m' & Hrun & Hspec & _).
  - vm_compute. reflexivity.
  - apply (bool_decide_unpack _). vm_compute. exact I.
  - exists rs, m'. split; [|exact Hspec].
    apply (f_equal (λ r, match r with Ret (rs, _, _) => rs | _ => [] end)) in Hrun. vm_compute in Hrun. symmetry. exact Hrun.
Defined.

(** [Update] of a long property writes over the offset of its value: whoever
    reads it then follows the characters of the new value as an offset. *)
Lemma update_long_loses_value :
  let pi := (sample_path, find_off sample_area2 (cs "ro.long")) in
  match Update sample_kernel sample_sp (sample_world sample_area2) pi (replicate 60 "x"%char) 60 with
  | Ret (r, w') => r = 0%Z ∧ ReadCallback w' pi = Fault
  | _ => False
  end.
Proof. vm_compute. split; reflexivity. Qed.
