(* ===== verification/SystemBoot.v ===== *)
(** The properties from the start of the phone on: init creates an empty area
    for every context of the property_info file (SystemProperties::AreaInit,
    ContextsSerialized::Initialize), every process maps them
    (SystemProperties::Init), and the calls of all processes, one process after
    the other, act on one map that is empty in the beginning. *)

From Stdlib Require Import ZArith Lia Ascii.
From stdpp Require Import base numbers strings gmap list.
From S2P Require Import Prelude CString PropInfo PropArea PropTrie PropAreaProofs.
From S2P Require Import PropAreaSpec.
From S2P Require Import PropertyInfoParser Contexts ContextsSplit ContextsSerialized.
From S2P Require Import SystemProperties SystemPropertiesSpec ResetProp ResetPropSpec.
From S2P Require Import ContextsHome ContextsEnumerate SystemPropertiesMap ProcessStart.
From S2P Require Import SystemPropertyApi.

Definition SERIAL : cstr := cs "properties_serial".

(** What init needs of the kernel: it may create, extend, label and map files,
    which are root's, and they can be opened again. *)
Record kernel_ok (k : kernel) : Prop := {
  ko_create : ∀ p, k_create k p = CreateOk;
  ko_setxattr : ∀ p c, k_setxattr k p c = true;
  ko_truncate : ∀ p, k_truncate k p = true;
  ko_mmap : ∀ p, k_mmap k p = true;
  ko_anon : ∀ n, k_anon_mmap k n = true;
  ko_open : ∀ p, k_open k p = true;
  ko_access : ∀ p, k_access k p = true;
  ko_dir : k_is_dir k PROP_FILENAME = true;
  ko_root : k_uid k = 0%Z ∧ k_gid k = 0%Z
}.

Definition path_of (c : cstr) : cstr := PROP_FILENAME ++ cs "/" ++ c.

#[export] Instance path_of_inj : Inj (=) (=) path_of.
Proof. intros c c' H. unfold path_of in H. by apply (inj (app _)), (inj (app _)) in H. Qed.

(** The property_info file is accepted, its bytes [d] encode a trie, and it
    names the contexts, in this order. *)
Record property_info_ok (k : kernel) (d : list ascii) (contexts : list cstr) : Prop := {
  po_load : ∃ sz evs, LoadPath empty_file (k_property_info k) = Ret (true, mkAreaFile (Some d) sz, evs);
  po_trie : ∃ h t, load_header d = Ret h ∧ trie d (root_offset h) = Ret (Some (root_offset h)) ∧
    encodes d (root_offset h) t;
  po_count : num_contexts d = Ret (Z.of_nat (length contexts));
  po_context : ∀ i c, contexts !! i = Some c → context d (Z.of_nat i) = Ret c;
  po_distinct : NoDup (contexts ++ [SERIAL]);
  po_fits : ∀ c, c ∈ contexts → (Z.of_nat (length (path_of c)) < PROP_FILENAME_MAX)%Z
}.

(** A file init has just made. *)
Definition new_file : area_file :=
  mkAreaFileEntry (mkStat 0 0 0x124 PA_SIZE) (new_prop_area PROP_AREA_MAGIC PROP_AREA_VERSION).

Fixpoint make_files (ps : list cstr) (fs : gmap cstr area_file) : gmap cstr area_file :=
  match ps with [] => fs | p :: ps => make_files ps (<[p := new_file]> fs) end.

Lemma make_files_lookup ps fs p :
  make_files ps fs !! p = if decide (p ∈ ps) then Some new_file else fs !! p.
Proof.
  revert fs. induction ps as [|q ps IH]; intros fs; cbn [make_files].
  - by rewrite decide_False by apply not_elem_of_nil.
  - rewrite IH. destruct (decide (p ∈ ps)) as [H|H]; [by rewrite decide_True by by right|].
    destruct (decide (p = q)) as [->|Hne].
    + rewrite lookup_insert_eq. by rewrite decide_True by by left.
    + rewrite lookup_insert_ne by done. rewrite decide_False; [done|]. rewrite elem_of_cons. naive_solver.
Qed.

(** A node before and after it is opened. *)
Definition closed_node (c : cstr) : ContextNode := new_ContextNode c PROP_FILENAME.
Definition opened_node (c : cstr) : ContextNode := set_pa (closed_node c) (Some (path_of c)).

Section boot.
Context (k : kernel) (Hk : kernel_ok k).

Lemma format_path_fits c :
  (Z.of_nat (length (path_of c)) < PROP_FILENAME_MAX)%Z → format_path PROP_FILENAME c = Some (path_of c).
Proof.
  intros H. unfold format_path. fold (path_of c). by rewrite Z.geb_leb, (proj2 (Z.leb_gt _ _)).
Qed.

Lemma SERIAL_fits : (Z.of_nat (length (path_of SERIAL)) < PROP_FILENAME_MAX)%Z.
Proof. vm_compute. reflexivity. Qed.

(** ** What init does *)

Lemma map_rw_new w p context ff :
  w_files w !! p = None → ∃ w',
    map_prop_area_rw k w p (Some context) ff = Ret (Some p, ff, w') ∧ w_files w' = <[p := new_file]> (w_files w) ∧
    w_pa_data_size w' = PA_DATA_SIZE.
Proof.
  intros Hp. unfold map_prop_area_rw. rewrite Hp, (ko_create _ Hk), (ko_truncate _ Hk), (ko_mmap _ Hk), (ko_setxattr _ Hk).
  destruct (ko_root _ Hk) as [-> ->]. cbn [negb]. by eexists.
Qed.

Lemma cn_Open_new w c ff :
  (Z.of_nat (length (path_of c)) < PROP_FILENAME_MAX)%Z → w_files w !! path_of c = None → ∃ w',
    cn_Open k (closed_node c) w true ff = Ret (true, opened_node c, ff, w') ∧
    w_files w' = <[path_of c := new_file]> (w_files w).
Proof.
  intros Hfit Hp. unfold cn_Open. cbn [closed_node new_ContextNode cn_acquire cn_lock cbind cn_pa cn_filename cn_context].
  rewrite format_path_fits by done.
  destruct (map_rw_new w (path_of c) c ff Hp) as (w' & -> & Hf & _). cbn [cbind].
  exists w'. rewrite bool_decide_true by eauto. by split.
Qed.

Lemma ser_open_all_new contexts w ff :
  NoDup contexts → (∀ c, c ∈ contexts → (Z.of_nat (length (path_of c)) < PROP_FILENAME_MAX)%Z) →
  (∀ c, c ∈ contexts → w_files w !! path_of c = None) → ∃ w',
    ser_open_all k (closed_node <$> contexts) w ff false = Ret (opened_node <$> contexts, ff, false, w') ∧
    w_files w' = make_files (path_of <$> contexts) (w_files w).
Proof.
  intros Hnd. revert w. induction Hnd as [|c cts Hc Hnd IH]; intros w Hfit Hnone.
  - by exists w.
  - cbn [fmap list_fmap ser_open_all].
    destruct (cn_Open_new w c ff) as (w1 & -> & Hf1); [by apply Hfit; left|by apply Hnone; left|].
    cbn [cbind negb orb]. destruct (IH w1) as (w2 & -> & Hf2).
    + intros x Hx. apply Hfit. by right.
    + intros x Hx. rewrite Hf1, lookup_insert_ne; [by apply Hnone; right|]. intros E%(inj path_of). by subst.
    + cbn [cbind]. exists w2. split; [done|]. rewrite Hf2, Hf1. done.
Qed.

Context (d : list ascii) (contexts : list cstr) (Hpi : property_info_ok k d contexts).

Lemma make_nodes_contexts n i :
  (i + n = length contexts)%nat →
  make_nodes n (Z.of_nat i) d PROP_FILENAME = Ret (closed_node <$> drop i contexts).
Proof.
  revert i. induction n as [|n IH]; intros i Hi; cbn [make_nodes].
  - by rewrite drop_ge by lia.
  - destruct (lookup_lt_is_Some_2 contexts i ltac:(lia)) as [c Hc]. rewrite (po_context _ _ _ Hpi i c Hc). cbn [cbind].
    replace (Z.of_nat i + 1)%Z with (Z.of_nat (S i)) by lia. rewrite IH by lia. cbn [cbind].
    by rewrite (drop_S _ _ _ Hc).
Qed.

(** The object with the nodes [f] makes of the contexts. *)
Definition object (sz : Z) (f : cstr → ContextNode) (serial : option cstr) : ContextsSerialized :=
  mkSerialized (mkAreaFile (Some d) sz) (Some (f <$> contexts)) (Z.of_nat (length contexts)) serial PROP_FILENAME.

Lemma InitializeProperties_ok : ∃ sz,
  ser_InitializeProperties k (mkSerialized empty_file None 0 None PROP_FILENAME) =
    Ret (true, object sz closed_node None).
Proof.
  destruct (po_load _ _ _ Hpi) as (sz & evs & Hl). exists sz. unfold ser_InitializeProperties.
  cbn [property_info_area_file_ context_nodes_ num_context_nodes_ ser_serial_prop_area_ ser_filename_].
  rewrite Hl. cbn [cbind negb]. unfold InitializeContextNodes. cbn [property_info_area_file_ mmap_base deref cbind].
  rewrite (po_count _ _ _ Hpi). cbn [cbind]. rewrite (ko_anon _ Hk). cbn [negb].
  rewrite Nat2Z.id. change 0%Z with (Z.of_nat 0). cbn [ser_filename_].
  rewrite make_nodes_contexts by done. done.
Qed.

Definition boot_files : gmap cstr area_file := make_files (path_of <$> (contexts ++ [SERIAL])) ∅.

Definition properties (sz : Z) (f : cstr → ContextNode) : SystemProperties AnyContexts :=
  mkSystemProperties (Some (ASerialized (object sz f (Some (path_of SERIAL))))) true PROP_FILENAME.

Lemma AreaInit_ok w ff :
  w_files w = ∅ → ∃ sz w',
    AreaInit k zero_properties w PROP_FILENAME ff = Ret (true, properties sz opened_node, (λ _, false) <$> ff, w') ∧
    w_files w' = boot_files ∧ w_pa_data_size w' = PA_DATA_SIZE.
Proof.
  intros Hw. destruct InitializeProperties_ok as (sz & Hip). unfold AreaInit.
  change (_ >=? _)%Z with false. cbv iota. cbn [Initialize Serialized_Contexts]. unfold ser_Initialize.
  rewrite Hip. cbn [cbind negb object context_nodes_ deref].
  pose proof (po_distinct _ _ _ Hpi) as Hnd. apply NoDup_app in Hnd as (Hnd & Hdis & _).
  destruct (ser_open_all_new contexts w ((λ _, false) <$> ff) Hnd (po_fits _ _ _ Hpi)) as (w1 & -> & Hf1).
  { intros c _. rewrite Hw. apply lookup_empty. }
  cbn [cbind]. unfold MapSerialPropertyArea. fold SERIAL. rewrite (format_path_fits _ SERIAL_fits).
  destruct (map_rw_new w1 (path_of SERIAL) (cs "u:object_r:properties_serial:s0") ((λ _, false) <$> ff)) as (w2 & -> & Hf2 & Hsz).
  { rewrite Hf1, Hw, make_files_lookup, decide_False; [apply lookup_empty|].
    intros (c & Hc & Hin)%list_elem_of_fmap. apply (inj path_of) in Hc as <-. apply (Hdis _ Hin). by left. }
  cbn [cbind]. exists sz, w2. split; [done|]. split; [|done]. rewrite Hf2, Hf1, Hw. unfold boot_files.
  rewrite fmap_app. clear. generalize (∅ : gmap cstr area_file).
  induction (path_of <$> contexts) as [|p ps IH]; intros fs; cbn; [done|]. apply IH.
Qed.

(** ** The empty map *)

Lemma boot_files_lookup p : boot_files !! p = if decide (p ∈ path_of <$> (contexts ++ [SERIAL])) then Some new_file else None.
Proof. unfold boot_files. rewrite make_files_lookup. by case_decide. Qed.

Lemma boot_file p f : boot_files !! p = Some f → f = new_file.
Proof. rewrite boot_files_lookup. by case_decide; intros [=]. Qed.

Lemma boot_file_of c : c ∈ contexts ∨ c = SERIAL → boot_files !! path_of c = Some new_file.
Proof.
  intros Hc. rewrite boot_files_lookup, decide_True; [done|]. apply list_elem_of_fmap_2.
  rewrite elem_of_app, list_elem_of_singleton. done.
Qed.

Lemma boot_stores w p mp : w_files w = boot_files → stores w p mp → mp = ∅.
Proof.
  intros Hw (f & Hf & Hm). rewrite Hw in Hf. apply boot_file in Hf as ->.
  eapply represents_inj; [exact Hm|]. apply represents_new. vm_compute. discriminate.
Qed.

Lemma boot_world_ok w : w_files w = boot_files → w_pa_data_size w = PA_DATA_SIZE → world_ok w.
Proof.
  intros Hf Hsz. split; [done|]. intros p f. rewrite Hf. intros ->%boot_file. split; [done|].
  exists ∅. apply represents_new. vm_compute. discriminate.
Qed.

Lemma map_boot_file w c :
  w_files w = boot_files → c ∈ contexts ∨ c = SERIAL → map_prop_area k w (path_of c) = (Some (path_of c), set_pa_size w PA_SIZE).
Proof.
  intros Hw Hc. unfold map_prop_area. rewrite Hw, boot_file_of, (ko_open _ Hk) by done. unfold map_fd_rw.
  cbn [new_file af_stat af_area st_uid st_gid st_mode st_size]. change (_ || _ || _ || _) with false. cbv iota.
  by rewrite (ko_mmap _ Hk).
Qed.

(** Nodes over the files of the start, opened or not. *)
Record boot_nodes (w : world) (f : cstr → ContextNode) : Prop := {
  bn_ok : ∀ c, c ∈ contexts → node_ok (f c) w;
  bn_home : ∀ c, c ∈ contexts → node_home k (f c) w = Some (path_of c);
  bn_agrees : ∀ c, c ∈ contexts → node_agrees k (f c) w
}.

Lemma opened_boot_nodes w : w_files w = boot_files → boot_nodes w opened_node.
Proof.
  intros Hw. split; intros c Hc; [|done|by intros _; left; eexists].
  split; [done|]. intros p [= <-]. rewrite Hw, boot_file_of by auto. by eexists.
Qed.

Lemma closed_boot_nodes w : w_files w = boot_files → boot_nodes w closed_node.
Proof.
  intros Hw. pose proof (po_fits _ _ _ Hpi) as Hfit. split; intros c Hc.
  - by split.
  - unfold node_home. cbn [closed_node new_ContextNode cn_pa cn_filename cn_context].
    rewrite format_path_fits by auto. rewrite map_boot_file by auto. done.
  - intros _. right. split; [done|]. unfold cn_CheckAccess. cbn [closed_node new_ContextNode cn_filename cn_context].
    rewrite format_path_fits by auto. apply (ko_access _ Hk).
Qed.

(** Where a name lives. *)
Definition boot_home (name : cstr) : option cstr :=
  match GetPropertyInfoIndexes d name with
  | Ret (index, _) =>
    if (index =? UINT32_MAX)%Z || (index >=? Z.of_nat (length contexts))%Z then None
    else path_of <$> contexts !! Z.to_nat index
  | _ => None
  end.

Definition boot_listing : listing := mkListing (path_of <$> contexts) boot_home (mkWorld boot_files 0 0).

Lemma object_home sz f w name :
  boot_nodes w f → ser_home k (object sz f (Some (path_of SERIAL))) w name = boot_home name.
Proof.
  intros Hb. unfold ser_home, boot_home. cbn [object property_info_area_file_ mmap_base num_context_nodes_ context_nodes_].
  destruct (GetPropertyInfoIndexes d name) as [[i ti]| |]; [|done..]. destruct (_ || _); [done|].
  cbn [mbind option_bind]. rewrite list_lookup_fmap.
  destruct (contexts !! Z.to_nat i) as [c|] eqn:Hc; [|done]. cbn.
  apply (bn_home _ _ Hb). by eapply list_elem_of_lookup_2.
Qed.

Lemma object_areas f w cts :
  cts ⊆ contexts → boot_nodes w f → node_areas k (f <$> cts) w = path_of <$> cts.
Proof.
  intros Hsub Hb. unfold node_areas. induction cts as [|c cts IH]; [done|]. cbn.
  rewrite (bn_home _ _ Hb) by (apply Hsub; left). f_equal. apply IH. intros x Hx. apply Hsub. by right.
Qed.

Lemma object_ok sz f w :
  boot_nodes w f → w_files w = boot_files → serialized_ok (object sz f (Some (path_of SERIAL))) w.
Proof.
  intros Hb Hw. destruct (po_trie _ _ _ Hpi) as (h & t & Hh & Hr & He). split; [by exists d, h, t|].
  split.
  - exists (f <$> contexts). split; [done|]. cbn [object num_context_nodes_]. rewrite length_fmap. split; [done|].
    apply Forall_fmap, Forall_forall. intros c Hc. by apply (bn_ok _ _ Hb).
  - cbn [object ser_serial_prop_area_]. intros p [= <-]. rewrite Hw, boot_file_of by auto. by eexists.
Qed.

Lemma boot_shows long_names sz f w :
  boot_nodes w f → w_files w = boot_files → w_pa_data_size w = PA_DATA_SIZE →
  shows k long_names (Some boot_listing) (properties sz f) w 0 ∅.
Proof.
  intros Hb Hw Hsz. pose proof (object_ok sz f w Hb Hw) as Hok.
  assert (Hhome : ∀ name, home k (ASerialized (object sz f (Some (path_of SERIAL)))) w name = boot_home name).
  { intros name. rewrite Any_home. etrans; [by apply ser_home_spec|]. by apply object_home. }
  split.
  - split; [by apply boot_world_ok|done|]. eexists. split; [done|]. split; [exact Hok|]. by eexists.
  - intros p a. rewrite Hw. intros ->%boot_file. intros o r. cbn. rewrite lookup_singleton_Some. by intros [_ [=]].
  - eexists. split; [done|]. split.
    + intros name _. rewrite Hhome. destruct (boot_home name) as [p|] eqn:Hp; [|done]. exists ∅. split; [|done].
      assert (Hin : p ∈ path_of <$> contexts).
      { unfold boot_home in Hp. destruct (GetPropertyInfoIndexes d name) as [[i ti]| |]; [|done..].
        destruct (_ || _); [done|]. apply fmap_Some in Hp as (c & Hc & ->). apply list_elem_of_fmap_2.
        by eapply list_elem_of_lookup_2. }
      apply list_elem_of_fmap in Hin as (c & -> & Hc). exists new_file. rewrite Hw. split; [by apply boot_file_of; left|].
      apply represents_new. vm_compute. discriminate.
    + intros l [= <-]. split; cbn [boot_listing l_areas l_home l_world].
      * by apply (object_areas f w contexts).
      * apply (NoDup_fmap_2 path_of). pose proof (po_distinct _ _ _ Hpi) as Hnd. by apply NoDup_app in Hnd as (? & _).
      * apply Forall_fmap, Forall_forall. intros c Hc. by apply (bn_agrees _ _ Hb).
      * exact Hhome.
      * by apply same_files_of.
      * intros p mp name _ Hs [v Hv]. rewrite (boot_stores w p mp Hw Hs) in Hv. by rewrite lookup_empty in Hv.
  - intros name [v Hv]. by rewrite lookup_empty in Hv.
  - intros name v Hv. by rewrite lookup_empty in Hv.
Qed.

(** A process started right after init. *)
Lemma Init_boot w :
  w_files w = boot_files → ∃ sz w', Init k zero_properties w PROP_FILENAME = Ret (true, properties sz closed_node, w') ∧
    w_files w' = boot_files ∧ w_pa_data_size w' = PA_DATA_SIZE.
Proof.
  intros Hw. destruct InitializeProperties_ok as (sz & Hip). exists sz, (set_pa_size w PA_SIZE).
  split; [|done]. unfold Init. cbn [zero_properties initialized_]. change (_ >=? _)%Z with false. cbv iota.
  rewrite (ko_dir _ Hk), (ko_access _ Hk). cbn [Initialize Serialized_Contexts]. unfold ser_Initialize.
  rewrite Hip. cbn [cbind negb]. unfold MapSerialPropertyArea. fold SERIAL.
  rewrite (format_path_fits _ SERIAL_fits), map_boot_file by auto. done.
Qed.

(** ** All processes *)

(** The results of each process are those of its calls on the map the one
    before it left. *)
Inductive spec_runs : gmap cstr cstr → list (list api_call) → list (list api_result) → gmap cstr cstr → Prop :=
  | runs_nil m : spec_runs m [] [] m
  | runs_cons m cs rs m1 css rss m2 :
    spec_run m cs rs m1 → spec_runs m1 css rss m2 → spec_runs m (cs :: css) (rs :: rss) m2.

(** The later processes, each with its calls. *)
Fixpoint run_processes (w : world) (ps : list (list api_call)) : cres (list (list api_result) * world) :=
  match ps with
  | [] => Ret ([], w)
  | cs :: ps =>
    let! (_, sp, w) := __system_properties_init k zero_properties (fresh_world w) in
    let! (rs, _, w) := api_run k cs sp w in
    let! (rss, w) := run_processes w ps in Ret (rs :: rss, w)
  end.

(** Init, which makes the areas and has calls of its own, and the others. *)
Definition run_system (w : world) (init : list api_call) (ps : list (list api_call))
    : cres (Z * list (list api_result) * world) :=
  let! (r, sp, w) := __system_property_area_init k zero_properties w in
  let! (rs, _, w) := api_run k init sp w in
  let! (rss, w) := run_processes w ps in Ret (r, rs :: rss, w).

Lemma total_updates_app cs cs2 : total_updates (cs ++ cs2) = (total_updates cs + total_updates cs2)%Z.
Proof.
  induction cs as [|c cs IH]; [done|]. unfold total_updates in *. cbn [app foldr]. rewrite IH. lia.
Qed.

Context (long_names : gset cstr).

Notation files_show := (files_show k long_names boot_listing).

Lemma start_boot w n m :
  files_show w n m → ∃ sp w', __system_properties_init k zero_properties (fresh_world w) = Ret (0%Z, sp, w') ∧
    shows k long_names (Some boot_listing) sp w' n m.
Proof.
  intros Hfs. destruct (Init_boot (mkWorld boot_files 0 0) eq_refl) as (sz & w0 & Hinit & Hf0 & Hsz0).
  pose proof (boot_shows long_names sz closed_node w0 (closed_boot_nodes w0 Hf0) Hf0 Hsz0) as Hsh0.
  destruct (start_shows k long_names boot_listing _ _ _ _ _ _ _ _ Hinit Hsh0 Hfs) as (w' & Hrun & _ & Hsh).
  eexists _, w'. unfold __system_properties_init. rewrite Hrun. by split.
Qed.

Lemma run_processes_shows ps w n m :
  files_show w n m → (0 ≤ n)%Z → (n + total_updates (concat ps) < MAX_UPDATES)%Z →
  Forall (call_ok long_names (Some boot_listing)) (concat ps) →
  ∃ rss w' m', run_processes w ps = Ret (rss, w') ∧ spec_runs m ps rss m' ∧
    files_show w' (n + total_updates (concat ps)) m'.
Proof.
  revert w n m. induction ps as [|cs ps IH]; intros w n m Hfs Hn0 Hmax Hok; cbn [run_processes concat] in *.
  - exists [], w, m. split; [done|]. split; [constructor|]. cbn. by rewrite Z.add_0_r.
  - rewrite total_updates_app in Hmax |- *. apply Forall_app in Hok as [Hcs Hps].
    pose proof (total_updates_nonneg cs). pose proof (total_updates_nonneg (concat ps)).
    destruct (start_boot w n m Hfs) as (sp & w1 & -> & Hsh). cbn [cbind].
    destruct (api_run_shows k long_names _ cs sp w1 n m Hsh Hn0 ltac:(lia) Hcs) as (rs & sp' & w2 & m2 & -> & Hs & Hsh2).
    cbn [cbind]. destruct (IH w2 (n + total_updates cs)%Z m2 (shows_files_show _ _ _ _ _ _ _ Hsh2)) as (rss & w3 & m3 & -> & Hs3 & Hfs3);
      [lia|lia|done|].
    cbn [cbind]. exists (rs :: rss), w3, m3. split; [done|]. split; [by econstructor|].
    by rewrite Z.add_assoc.
Qed.

End boot.

(** * A concrete start *)

(** A kernel with the property_info file of [sample_area], whose contexts are
    u:def and u:ro. *)
Definition boot_kernel : kernel :=
  mkKernel (λ _, CreateOk) (λ _ _, true) (λ _, true) (λ _, true) (λ _, true) (λ _, true) (λ _, true) (λ _, true)
    (λ _, None) (mkKernelFile (Some (mkStat 0 0 0x1a4 262)) (Some sample_area)) 0 0.

Lemma boot_kernel_ok : kernel_ok boot_kernel.
Proof. by split. Qed.

Definition boot_contexts : list cstr := [cs "u:def"; cs "u:ro"].

Lemma boot_property_info : property_info_ok boot_kernel sample_area boot_contexts.
Proof.
  split.
  - eexists _, _. exact LoadPath_accepts_sample.
  - exists (mkHeader 1 1 262 24 36 44), sample_trie. split; [by vm_compute|]. split; [by vm_compute|].
    exact sample_encodes.
  - by vm_compute.
  - intros [|[|i]] c; [intros [= <-]; by vm_compute..|done].
  - apply (bool_decide_unpack _). vm_compute. exact I.
  - apply (Forall_forall (λ c, (Z.of_nat (length (path_of c)) < PROP_FILENAME_MAX)%Z)).
    apply (bool_decide_unpack _). vm_compute. exact I.
Qed.

(** Init sets two properties of different contexts, a process changes one and
    adds one, the next deletes one and lists the rest. *)
Definition boot_calls : list (list api_call) :=
  [[CAdd (cs "ro.boothw.id") (cs "samsungexynos7420"); CAdd (cs "sys.usb.config") (cs "adb"); CGet (cs "ro.boothw.id")];
   [CUpdate (cs "sys.usb.config") (cs "mtp,adb"); CAdd (cs "debug.sf.hw") (cs "1"); CRead (cs "sys.usb.config")];
   [CGet (cs "ro.boothw.id"); CDel (cs "debug.sf.hw"); CGet (cs "debug.sf.hw"); CForeach]].

